(** * Guest virtual memory of the blink emulator: a shallow embedding

    The development follows [blink/memory.c] (page-table walker, TLB,
    demand pager, access API, strings), [blink/memorymalloc.c] (physical
    arena and virtual-region manager) and, of [blink/address.c], the
    segment lookup and the destination address of string operations.
    Machine integers are [Z] with the
    wrap-around written out, memory is a map from addresses to bytes, and
    code that can stop (a failed assertion, a null dereference, a
    segmentation fault) runs in a small error monad.  A machine is used by
    one thread, so the relaxed atomic accesses to [invalidated] are plain
    reads and writes; the [STATISTIC] counters, which are not part of the
    machine, are left out. *)

From Stdlib Require Import ZArith List Lia Bool.
From coqutil Require Import Byte Word.LittleEndianList.
Import ListNotations.
Local Open Scope Z_scope.

(* ================================================================== *)
(** * Part I: definitions *)
(* ================================================================== *)

(** ** Machine integers *)

Definition wrap64 (z : Z) : Z := z mod 2 ^ 64.
Definition wrap32 (z : Z) : Z := z mod 2 ^ 32.
Definition not64 (z : Z) : Z := wrap64 (Z.lnot z).
(** Conversion of a [u64] to [i64] (two's complement). *)
Definition to_i64 (z : Z) : Z := (z + 2 ^ 63) mod 2 ^ 64 - 2 ^ 63.
Definition is_u64 (z : Z) : Prop := 0 <= z < 2 ^ 64.

(** ** Outcomes: code that may stop before it returns *)

Inductive fault : Type :=
| AssertFail     (* [assert] / [unassert] does not hold *)
| NullDeref      (* a null host pointer is dereferenced *)
| SegFault       (* [ThrowSegmentationFault], which does not return *)
| OutOfFuel.     (* the model's loop bound was too small *)

Inductive outcome (A : Type) : Type :=
| Ret (a : A)
| Abort (f : fault).
Arguments Ret {A} a.
Arguments Abort {A} f.

Definition bind {A B} (x : outcome A) (k : A -> outcome B) : outcome B :=
  match x with
  | Ret a => k a
  | Abort f => Abort f
  end.

Definition assert (b : bool) : outcome unit :=
  if b then Ret tt else Abort AssertFail.

Notation "x <- c1 ;; c2" := (bind c1 (fun x => c2))
  (at level 61, c1 at next level, right associativity).
Notation "c1 ;;; c2" := (bind c1 (fun _ => c2))
  (at level 61, right associativity).

(** ** Bytes in memory

    Memory (the arena in [memorymalloc.c], the host address space in
    [memory.c]) maps an address to the byte stored there. *)

Definition memory : Type := Z -> byte.

Definition load_bytes (mem : memory) (a : Z) (n : nat) : list byte :=
  map (fun k => mem (a + Z.of_nat k)) (seq 0 n).

Definition store_bytes (mem : memory) (a : Z) (bs : list byte) : memory :=
  fun x =>
    if (a <=? x) && (x <? a + Z.of_nat (length bs))
    then nth (Z.to_nat (x - a)) bs Byte.x00
    else mem x.

(** Modelled from the spec: [Read64] of [blink/endian.h], a header that
    is missing here, reads eight bytes in little-endian order. *)
Definition Read64 (mem : memory) (a : Z) : Z := le_combine (load_bytes mem a 8).
(** Modelled from the spec: [Write64] of the same missing header writes
    eight bytes in little-endian order. *)
Definition Write64 (mem : memory) (a : Z) (x : Z) : memory :=
  store_bytes mem a (le_split 8 x).

(** ** Page-table entries *)

(** Modelled from the spec: [PAGE_V] of [blink/pml4t.h], a header that is
    missing here; bit 0 of an entry is V. *)
Definition PAGE_V : Z := 1.
(** Modelled from the spec: [PAGE_TA] of the same missing header; bits
    12..47 of an entry are the address field. *)
Definition PAGE_TA : Z := 0x0000fffffffff000.

(** The bit positions of the remaining flags, the TLB size and the size of
    the arena of [memory.c] are fixed by headers that are missing here;
    they are taken as parameters. *)
Class Config : Type := {
  PAGE_RSRV : Z;
  PAGE_HOST : Z;
  PAGE_MAP : Z;
  kTlbEntries : Z;
  kRealSize : Z;
  guest_base : Z;       (* offset of the linear map, see [ToHost] *)
  x86_64_gnuc : bool    (* [defined(__GNUC__) && defined(__x86_64__)] *)
}.

(** What the code relies on: the flags are 64-bit values, RSRV is a single
    bit outside the valid bit and outside everything [HandlePageFault]
    takes from the fresh page, the TLB has a positive multiple of 8 slots,
    and the linear map keeps 8-byte alignment. *)
Record ConfigOk (C : Config) : Prop := {
  rsrv_bit : exists k, 0 <= k < 64 /\ PAGE_RSRV = 2 ^ k;
  host_range : 0 <= PAGE_HOST < 2 ^ 64;
  map_range : 0 <= PAGE_MAP < 2 ^ 64;
  rsrv_fresh :
    Z.land PAGE_RSRV (Z.lor PAGE_V (Z.lor PAGE_TA (Z.lor PAGE_HOST PAGE_MAP))) = 0;
  tlb_size : 0 < kTlbEntries /\ kTlbEntries mod 8 = 0;
  base_aligned : guest_base mod 8 = 0
}.

(** The values of upstream blink, used for the concrete examples. *)
Definition blink_config : Config := {|
  PAGE_RSRV := 0x0200;
  PAGE_HOST := 0x0400;
  PAGE_MAP := 0x0800;
  kTlbEntries := 16;
  kRealSize := 0x100000;
  guest_base := 0;
  x86_64_gnuc := true
|}.

(** The same platform compiled without the vector extension. *)
Definition portable_config : Config := {|
  PAGE_RSRV := 0x0200;
  PAGE_HOST := 0x0400;
  PAGE_MAP := 0x0800;
  kTlbEntries := 16;
  kRealSize := 0x100000;
  guest_base := 0;
  x86_64_gnuc := false
|}.

(** ** The TLB *)

Record TlbEntry : Type := { page : Z; entry : Z }.

Record Tlb : Type := {
  tlb_key : list Z;            (* u64 key[kTlbEntries / 8] *)
  tlb_entry : list TlbEntry    (* struct TlbEntry entry[kTlbEntries] *)
}.

Definition null_entry : TlbEntry := {| page := 0; entry := 0 |}.

(** Array update [a[i] = x]; the code never writes out of range, where
    this leaves the array alone. *)
Fixpoint upd {A : Type} (l : list A) (i : nat) (x : A) : list A :=
  match l, i with
  | [], _ => []
  | _ :: t, O => x :: t
  | h :: t, S i' => h :: upd t i' x
  end.

(** Modelled from the spec: [ResetTlb], whose source is missing here,
    clears the whole TLB, keys and entries. *)
Definition ResetTlb_tlb `{Config} : Tlb :=
  {| tlb_key := repeat 0 (Z.to_nat (kTlbEntries / 8));
     tlb_entry := repeat null_entry (Z.to_nat kTlbEntries) |}.

(** ** Counters *)

(** [struct MachineMemstat]; the header that fixes the counters' C type
    is missing here, so they are kept as integers. *)
Record MemStat : Type := {
  allocated : Z;
  committed : Z;
  freed : Z;
  reserved : Z;
  reclaimed : Z;
  resizes : Z;
  pagetables : Z
}.

Definition memstat0 : MemStat :=
  {| allocated := 0; committed := 0; freed := 0; reserved := 0;
     reclaimed := 0; resizes := 0; pagetables := 0 |}.

(** ** SWAR byte comparison ([memory.c]) *)

Definition CompareEq (x y : Z) : Z :=
  let w := Z.lxor x y in
  Z.land (Z.land (not64 w) (wrap64 (w - 0x0101010101010101))) 0x8080808080808080.

(** Byte [i] of a word, and bit 7 of lane [i]. *)
Definition byte_of (i : Z) (z : Z) : Z := Z.land (Z.shiftr z (8 * i)) 255.
Definition lane_flag (i : Z) (z : Z) : bool := Z.testbit z (8 * i + 7).

(** The low [i] bytes of the constant 0x0101010101010101. *)
Definition ones_le (i : Z) : Z := 0x0101010101010101 mod 2 ^ (8 * i).

(* ------------------------------------------------------------------ *)
(** ** [blink/memorymalloc.c]: arena and virtual-region manager *)
(* ------------------------------------------------------------------ *)

Module Malloc.

(** [struct MachineRealFree]: a run of freed arena pages. *)
Record MachineRealFree : Type := { rf_i : Z; rf_n : Z }.

(** [struct System] as this file uses it.  [real_p] holds the arena's
    bytes by offset, [realfree] is the linked list of free chunks. *)
Record System : Type := {
  real_p : memory;
  real_i : Z;
  real_n : Z;
  cr3 : Z;
  realfree : list MachineRealFree;
  memstat : MemStat
}.

(** [struct Machine].  [host_ok] is the environment: the answers the host
    allocator gives to the next calls of [malloc]/[realloc] ([true] is
    success; an exhausted list fails). *)
Record Machine : Type := {
  system : System;
  tlb : Tlb;
  host_ok : list bool
}.

Definition set_system (m : Machine) (s : System) : Machine :=
  {| system := s; tlb := tlb m; host_ok := host_ok m |}.

Definition set_memstat (s : System) (st : MemStat) : System :=
  {| real_p := real_p s; real_i := real_i s; real_n := real_n s; cr3 := cr3 s;
     realfree := realfree s; memstat := st |}.

Definition set_realfree (s : System) (l : list MachineRealFree) : System :=
  {| real_p := real_p s; real_i := real_i s; real_n := real_n s; cr3 := cr3 s;
     realfree := l; memstat := memstat s |}.

Definition set_real_p (s : System) (p : memory) : System :=
  {| real_p := p; real_i := real_i s; real_n := real_n s; cr3 := cr3 s;
     realfree := realfree s; memstat := memstat s |}.

Definition ResetTlb `{Config} (m : Machine) : Machine :=
  {| system := system m; tlb := ResetTlb_tlb; host_ok := host_ok m |}.

(** One call of the host allocator: its answer and the machine with the
    answer consumed. *)
Definition host_alloc (m : Machine) : bool * Machine :=
  match host_ok m with
  | ok :: rest => (ok, {| system := system m; tlb := tlb m; host_ok := rest |})
  | [] => (false, m)
  end.

(** Modelled from the spec: [ROUNDUP] of [blink/macros.h], a header that
    is missing here, rounds up to a multiple of its second argument, a
    power of two. *)
Definition ROUNDUP (x k : Z) : Z := Z.land (wrap64 (x + (k - 1))) (wrap64 (- k)).

Definition inc_allocated_committed (st : MemStat) : MemStat :=
  {| allocated := allocated st + 1; committed := committed st + 1;
     freed := freed st; reserved := reserved st; reclaimed := reclaimed st;
     resizes := resizes st; pagetables := pagetables st |}.
Definition inc_resizes (st : MemStat) : MemStat :=
  {| allocated := allocated st; committed := committed st; freed := freed st;
     reserved := reserved st; reclaimed := reclaimed st; resizes := resizes st + 1;
     pagetables := pagetables st |}.
Definition reclaim_one (st : MemStat) : MemStat :=
  {| allocated := allocated st; committed := committed st + 1; freed := freed st - 1;
     reserved := reserved st; reclaimed := reclaimed st + 1; resizes := resizes st;
     pagetables := pagetables st |}.

(** The end of the grow path: the assertions on [i] and the capacity [n],
    the bump of [real.i] and the counters. *)
Definition bump_watermark (m : Machine) (i n : Z) : outcome (Z * Machine) :=
  let s := system m in
  assert (Z.land i 0xfff =? 0) ;;;
  assert (Z.land n 0xfff =? 0) ;;;
  assert (wrap64 (i + 0x1000) <=? n) ;;;
  let s' := {| real_p := real_p s; real_i := wrap64 (real_i s + 0x1000);
               real_n := real_n s; cr3 := cr3 s; realfree := realfree s;
               memstat := inc_allocated_committed (memstat s) |} in
  Ret (to_i64 i, set_system m s').

Definition AllocateLinearPageRaw `{Config} (m : Machine) : outcome (Z * Machine) :=
  let s := system m in
  match realfree s with
  | rf :: next =>
      assert (negb (rf_n rf =? 0)) ;;;
      assert (Z.land (rf_i rf) 0xfff =? 0) ;;;
      assert (Z.land (rf_n rf) 0xfff =? 0) ;;;
      assert (wrap64 (rf_i rf + rf_n rf) <=? real_i s) ;;;
      let i := rf_i rf in
      let rf' := {| rf_i := wrap64 (rf_i rf + 0x1000);
                    rf_n := wrap64 (rf_n rf - 0x1000) |} in
      let l := if rf_n rf' =? 0 then next else rf' :: next in
      Ret (to_i64 i,
           set_system m (set_memstat (set_realfree s l) (reclaim_one (memstat s))))
  | [] =>
      let i := real_i s in
      let n := real_n s in
      if i =? n then
        let n1 := if negb (n =? 0) then wrap64 (n + Z.shiftr n 1) else 0x10000 in
        let n2 := ROUNDUP n1 0x1000 in
        let '(ok, m1) := host_alloc m in
        if ok then
          let s1 := {| real_p := real_p s; real_i := real_i s; real_n := n2;
                       cr3 := cr3 s; realfree := realfree s;
                       memstat := inc_resizes (memstat s) |} in
          bump_watermark (ResetTlb (set_system m1 s1)) i n2
        else Ret (-1, m1)
      else bump_watermark m i n
  end.

(** The capacity the spec's sentence gives for a grown arena:
    max(current x 1.5, 64 KiB), rounded up to 4 KiB. *)
Definition spec_capacity (n : Z) : Z :=
  (Z.max (n * 3 / 2) 0x10000 + 0xfff) / 0x1000 * 0x1000.

Definition MachineRead64 (m : Machine) (i : Z) : outcome Z :=
  assert (wrap64 (i + 8) <=? real_n (system m)) ;;;
  Ret (Read64 (real_p (system m)) i).

Definition MachineWrite64 (m : Machine) (i : Z) (x : Z) : outcome Machine :=
  assert (wrap64 (i + 8) <=? real_n (system m)) ;;;
  Ret (set_system m (set_real_p (system m) (Write64 (real_p (system m)) i x))).

(** Modelled from the spec: [enomem] of [blink/errno.h], a header that
    is missing here, reports [ENOMEM]; as in C, the caller sees -1. *)
Definition enomem : Z := -1.

(** The inner [for] of [FindVirtual]: from level [i] down to 12, stop at
    the first absent entry.  Returns the final [i] (3 after a full walk to a
    present leaf). *)
Fixpoint FindVirtual_walk (fuel : nat) (m : Machine) (virt pt i : Z) : outcome Z :=
  match fuel with
  | O => Abort OutOfFuel
  | S fuel' =>
      if 12 <=? i then
        pt' <- MachineRead64 m
                 (wrap64 (Z.land pt PAGE_TA + Z.land (Z.shiftr virt i) 511 * 8)) ;;
        if Z.land pt' 1 =? 0 then Ret i
        else FindVirtual_walk fuel' m virt pt' (i - 9)
      else Ret i
  end.

(** The [do ... while (got < size)] of [FindVirtual]. *)
Fixpoint FindVirtual_loop (fuel : nat) (m : Machine) (virt size got : Z) : outcome Z :=
  match fuel with
  | O => Abort OutOfFuel
  | S fuel' =>
      if 0x800000000000 <=? virt then Ret enomem
      else
        i <- FindVirtual_walk 5 m virt (cr3 (system m)) 39 ;;
        let '(virt', got') :=
          if 12 <=? i then (virt, wrap64 (got + Z.shiftl 1 i)) else (virt + 4096, 0) in
        if got' <? size then FindVirtual_loop fuel' m virt' size got'
        else Ret virt'
  end.

Definition FindVirtual (fuel : nat) (m : Machine) (virt size : Z) : outcome Z :=
  FindVirtual_loop fuel m virt size 0.

(** A page is mapped when the four-level walk from [cr3] finds the V bit
    at every level (the leaf included). *)
Definition mapped (m : Machine) (virt : Z) : bool :=
  match FindVirtual_walk 5 m virt (cr3 (system m)) 39 with
  | Ret i => i <? 12
  | Abort _ => false
  end.

Definition AppendRealFree (m : Machine) (real : Z) : Machine :=
  let s := system m in
  let fresh :=
    let '(ok, m1) := host_alloc m in
    if ok then
      set_system m1 (set_realfree s ({| rf_i := real; rf_n := 4096 |} :: realfree s))
    else m1 in
  match realfree s with
  | rf :: rest =>
      if real =? wrap64 (rf_i rf + rf_n rf) then
        set_system m
          (set_realfree s ({| rf_i := rf_i rf; rf_n := wrap64 (rf_n rf + 4096) |} :: rest))
      else fresh
  | [] => fresh
  end.

Definition inc_freed (st : MemStat) : MemStat :=
  {| allocated := allocated st; committed := committed st; freed := freed st + 1;
     reserved := reserved st; reclaimed := reclaimed st; resizes := resizes st;
     pagetables := pagetables st |}.
Definition dec_reserved (st : MemStat) : MemStat :=
  {| allocated := allocated st; committed := committed st; freed := freed st;
     reserved := reserved st - 1; reclaimed := reclaimed st; resizes := resizes st;
     pagetables := pagetables st |}.
Definition dec_committed (st : MemStat) : MemStat :=
  {| allocated := allocated st; committed := committed st - 1; freed := freed st;
     reserved := reserved st; reclaimed := reclaimed st; resizes := resizes st;
     pagetables := pagetables st |}.

(** The inner [for (pt = cr3, i = 39;; i -= 9)] of [FreeVirtual] for one
    [virt]: returns the machine and the level [i] it stopped at. *)
Fixpoint FreeVirtual_walk `{Config} (fuel : nat) (m : Machine) (virt pt i : Z)
  : outcome (Machine * Z) :=
  match fuel with
  | O => Abort OutOfFuel
  | S fuel' =>
      let mi := wrap64 (Z.land pt PAGE_TA + Z.land (Z.shiftr virt i) 511 * 8) in
      pt' <- MachineRead64 m mi ;;
      if Z.land pt' 1 =? 0 then Ret (m, i)
      else if i =? 12 then
        let m1 := set_system m (set_memstat (system m) (inc_freed (memstat (system m)))) in
        let m2 :=
          if negb (Z.land pt' PAGE_RSRV =? 0) then
            set_system m1 (set_memstat (system m1) (dec_reserved (memstat (system m1))))
          else
            AppendRealFree
              (set_system m1 (set_memstat (system m1) (dec_committed (memstat (system m1)))))
              (Z.land pt' PAGE_TA) in
        m3 <- MachineWrite64 m2 mi 0 ;;
        Ret (m3, i)
      else FreeVirtual_walk fuel' m virt pt' (wrap64 (i - 9))
  end.

(** The outer [for (...; virt < end; virt += 1ull << i)]. *)
Fixpoint FreeVirtual_loop `{Config} (fuel : nat) (m : Machine) (virt end_ : Z)
  : outcome Machine :=
  match fuel with
  | O => Abort OutOfFuel
  | S fuel' =>
      if virt <? end_ then
        r <- FreeVirtual_walk 4 m virt (cr3 (system m)) 39 ;;
        let '(m', i) := r in
        FreeVirtual_loop fuel' m' (wrap64 (virt + Z.shiftl 1 i)) end_
      else Ret m
  end.

Definition FreeVirtual `{Config} (fuel : nat) (m : Machine) (base size : Z)
  : outcome (Z * Machine) :=
  let virt := wrap64 base in
  let end_ := wrap64 (virt + size) in
  m' <- FreeVirtual_loop fuel m virt end_ ;;
  Ret (0, ResetTlb m').

(** The leaf slot and entry the walk of [FreeVirtual] reaches for [virt]:
    every level down to 12 present. *)
Fixpoint leaf_slot (fuel : nat) (m : Machine) (virt pt i : Z) : option (Z * Z) :=
  match fuel with
  | O => None
  | S fuel' =>
      let mi := wrap64 (Z.land pt PAGE_TA + Z.land (Z.shiftr virt i) 511 * 8) in
      if wrap64 (mi + 8) <=? real_n (system m) then
        let pt' := Read64 (real_p (system m)) mi in
        if Z.land pt' 1 =? 0 then None
        else if i =? 12 then Some (mi, pt')
        else leaf_slot fuel' m virt pt' (wrap64 (i - 9))
      else None
  end.

(** [memset(real.p + a, c, n)] on the arena. *)
Definition memset (p : memory) (a : Z) (c : byte) (n : Z) : memory :=
  fun x => if (a <=? x) && (x <? a + n) then c else p x.

Definition AllocateLinearPage `{Config} (m : Machine) : outcome (Z * Machine) :=
  r <- AllocateLinearPageRaw m ;;
  let '(page, m') := r in
  if negb (page =? -1) then
    Ret (page,
         set_system m'
           (set_real_p (system m') (memset (real_p (system m')) page Byte.x00 0x1000)))
  else Ret (page, m').

(** The [while] of [FreeMachineRealFree] unlinks and frees every chunk. *)
Fixpoint FreeMachineRealFree_loop (l : list MachineRealFree) : list MachineRealFree :=
  match l with
  | [] => []
  | _ :: next => FreeMachineRealFree_loop next
  end.

Definition FreeMachineRealFree (m : Machine) : Machine :=
  set_system m (set_realfree (system m) (FreeMachineRealFree_loop (realfree (system m)))).

Definition ResetMem `{Config} (m : Machine) : Machine :=
  let m1 := ResetTlb (FreeMachineRealFree m) in
  let s := system m1 in
  set_system m1
    {| real_p := real_p s; real_i := 0; real_n := real_n s; cr3 := 0;
       realfree := realfree s; memstat := memstat0 |}.


Definition inc_pagetables (st : MemStat) : MemStat :=
  {| allocated := allocated st; committed := committed st; freed := freed st;
     reserved := reserved st; reclaimed := reclaimed st; resizes := resizes st;
     pagetables := pagetables st + 1 |}.
Definition inc_reserved (st : MemStat) : MemStat :=
  {| allocated := allocated st; committed := committed st; freed := freed st;
     reserved := reserved st + 1; reclaimed := reclaimed st; resizes := resizes st;
     pagetables := pagetables st |}.

(** How a loop body of [ReserveVirtual] ends: the function returns [r], or
    the leaf loop breaks and the walk starts again at [virt]. *)
Inductive flow : Type :=
| Return (r : Z)
| Again (virt : Z).

(** The innermost [for (;;)] of [ReserveVirtual], over the entries of one
    leaf table: [ti] is the index, [mi] the offset of the entry and [pt]
    its value.  At most 512 iterations. *)
Fixpoint ReserveVirtual_run (fuel : nat) (m : Machine) (virt end_ ti mi pt key : Z)
  : outcome (Machine * flow) :=
  match fuel with
  | O => Abort OutOfFuel
  | S fuel' =>
      m1 <- (if Z.land pt 1 =? 0 then
               m' <- MachineWrite64 m (wrap64 mi) key ;;
               Ret (set_system m'
                      (set_memstat (system m') (inc_reserved (memstat (system m')))))
             else Ret m) ;;
      let virt' := to_i64 (virt + 4096) in
      if end_ <=? virt' then Ret (m1, Return 0)
      else if ti + 1 =? 512 then Ret (m1, Again virt')
      else
        pt' <- MachineRead64 m1 (wrap64 (mi + 8)) ;;
        ReserveVirtual_run fuel' m1 virt' end_ (ti + 1) (mi + 8) (to_i64 pt') key
  end.

(** The [for (pt = cr3, level = 39; level >= 12; level -= 9)] of
    [ReserveVirtual]: absent upper levels get a fresh zeroed table, the
    leaf level runs the loop above. *)
Fixpoint ReserveVirtual_walk `{Config} (fuel : nat) (m : Machine)
    (virt end_ pt level key : Z) : outcome (Machine * flow) :=
  match fuel with
  | O => Abort OutOfFuel
  | S fuel' =>
      if 12 <=? level then
        let pt0 := Z.land pt PAGE_TA in
        let ti := Z.land (Z.shiftr virt level) 511 in
        let mi := Z.land pt0 PAGE_TA + ti * 8 in
        x <- MachineRead64 m (wrap64 mi) ;;
        let pt1 := to_i64 x in
        if 12 <? level then
          if Z.land pt1 1 =? 0 then
            r <- AllocateLinearPage m ;;
            let '(page, m1) := r in
            if page =? -1 then Ret (m1, Return (-1))
            else
              m2 <- MachineWrite64 m1 (wrap64 mi) (wrap64 (Z.lor page 7)) ;;
              let m3 := set_system m2
                          (set_memstat (system m2)
                             (inc_pagetables (memstat (system m2)))) in
              ReserveVirtual_walk fuel' m3 virt end_ page (level - 9) key
          else ReserveVirtual_walk fuel' m virt end_ pt1 (level - 9) key
        else ReserveVirtual_run 512 m virt end_ ti mi pt1 key
      else Ret (m, Again virt)
  end.

(** The outer [for (end = virt + size;;)]. *)
Fixpoint ReserveVirtual_loop `{Config} (fuel : nat) (m : Machine) (virt end_ key : Z)
  : outcome (Z * Machine) :=
  match fuel with
  | O => Abort OutOfFuel
  | S fuel' =>
      r <- ReserveVirtual_walk 4 m virt end_ (to_i64 (cr3 (system m))) 39 key ;;
      match r with
      | (m', Return x) => Ret (x, m')
      | (m', Again virt') => ReserveVirtual_loop fuel' m' virt' end_ key
      end
  end.

Definition ReserveVirtual `{Config} (fuel : nat) (m : Machine) (virt size key : Z)
  : outcome (Z * Machine) :=
  ReserveVirtual_loop fuel m virt (to_i64 (virt + size)) key.

End Malloc.
(* ------------------------------------------------------------------ *)
(** ** [blink/memory.c]: walker, TLB, demand pager, access API *)
(* ------------------------------------------------------------------ *)

Module Mem.

(** Modelled from the spec: the modes of [m->mode], from [blink/x86.h], a
    header that is missing here: real, legacy and long. *)
Inductive xed_mode : Type := XED_MODE_REAL | XED_MODE_LEGACY | XED_MODE_LONG.

(** [struct MachineRealFree]: a run of freed pages. *)
Record MachineRealFree : Type := { rf_i : Z; rf_n : Z }.

(** [struct System] as this file uses it: [real] is the host address of
    the arena and [realfree] the free list the allocator draws from.
    [ram] is the host memory every pointer of the file points into (page
    tables, guest pages, caller buffers). *)
Record System : Type := {
  real : Z;
  cr3 : Z;
  realfree : list MachineRealFree;
  memstat : MemStat;
  ram : memory
}.

Record Machine : Type := {
  system : System;
  mode : xed_mode;
  tlb : Tlb;
  invalidated : bool
}.

Definition set_system (m : Machine) (s : System) : Machine :=
  {| system := s; mode := mode m; tlb := tlb m; invalidated := invalidated m |}.
Definition set_tlb (m : Machine) (t : Tlb) : Machine :=
  {| system := system m; mode := mode m; tlb := t; invalidated := invalidated m |}.
Definition set_invalidated (m : Machine) (b : bool) : Machine :=
  {| system := system m; mode := mode m; tlb := tlb m; invalidated := b |}.
Definition set_ram (s : System) (r : memory) : System :=
  {| real := real s; cr3 := cr3 s; realfree := realfree s; memstat := memstat s;
     ram := r |}.
Definition set_memstat (s : System) (st : MemStat) : System :=
  {| real := real s; cr3 := cr3 s; realfree := realfree s; memstat := st;
     ram := ram s |}.

(** Collaborators whose source is missing here: the page allocator called by
    [HandlePageFault] (it answers [(u64)-1] when it fails) and the test for
    a linear mapping. *)
Class Collab : Type := {
  AllocatePage : System -> Z * System;
  HasLinearMapping : Machine -> bool
}.

Section WithConfig.
Context `{Config} `{Collab}.

Definition ResetTlb (m : Machine) : Machine := set_tlb m ResetTlb_tlb.

(** Modelled from the spec: [ToHost], whose source is missing here; with
    a linear mapping "host = guestBase + virt" (section 4.5). *)
Definition ToHost (v : Z) : Z := wrap64 (guest_base + v).

(** [memcpy(dst, src, n)] on host memory. *)
Definition memcpy (s : System) (dst src n : Z) : System :=
  set_ram s (store_bytes (ram s) dst (load_bytes (ram s) src (Z.to_nat n))).

(** Modelled from the spec: [Load64] of [blink/endian.h], a header that
    is missing here, loads the 8-byte entry at a host address. *)
Definition Load64 (s : System) (a : Z) : Z := Read64 (ram s) a.
(** Modelled from the spec: [Store64] of the same missing header stores an
    entry back as one word. *)
Definition Store64 (s : System) (a x : Z) : System := set_ram s (Write64 (ram s) a x).

Definition GetPageAddress (s : System) (entry : Z) : outcome Z :=
  assert (negb (Z.land entry PAGE_V =? 0)) ;;;
  assert (negb (Z.land (not64 entry) PAGE_RSRV =? 0)) ;;;
  if negb (Z.land entry PAGE_HOST =? 0) then
    Ret (ToHost (Z.land entry PAGE_TA))
  else if Z.land entry PAGE_TA + 4096 <=? kRealSize then
    Ret (real s + Z.land entry PAGE_TA)
  else Ret 0.

(** A host pointer that is about to be dereferenced. *)
Definition deref (a : Z) : outcome Z :=
  if a =? 0 then Abort NullDeref else Ret a.

(** The entry [HandlePageFault] builds from the fresh page and the old
    entry. *)
Definition committed_entry (page entry : Z) : Z :=
  Z.lor (Z.land page (Z.lor (Z.lor PAGE_TA PAGE_HOST) PAGE_MAP))
        (Z.land entry (not64 (Z.lor PAGE_TA PAGE_RSRV))).

Definition HandlePageFault (m : Machine) (entry table index : Z)
  : outcome (Z * Machine) :=
  let '(page, s1) := AllocatePage (system m) in
  if negb (page =? wrap64 (-1)) then
    let st := memstat s1 in
    let s2 := set_memstat s1
      {| allocated := allocated st; committed := committed st + 1;
         freed := freed st; reserved := reserved st - 1;
         reclaimed := reclaimed st; resizes := resizes st;
         pagetables := pagetables st |} in
    let x := committed_entry page entry in
    a <- GetPageAddress s2 table ;;
    a <- deref a ;;
    Ret (x, set_system m (Store64 s2 (a + index * 8) x))
  else Ret (0, set_system m s1).

Definition GetTlbKey (page : Z) : Z := Z.shiftr (Z.land page 0xff000) 12.

Definition SetTlbEntry (m : Machine) (i : Z) (e : TlbEntry) : Machine :=
  let t := tlb m in
  let w := nth (Z.to_nat (i / 8)) (tlb_key t) 0 in
  let sh := i mod 8 * 8 in
  set_tlb m
    {| tlb_key :=
         upd (tlb_key t) (Z.to_nat (i / 8))
           (Z.lor (Z.land w (not64 (Z.shiftl 0xFF sh)))
                  (wrap64 (Z.shiftl (GetTlbKey (page e)) sh)));
       tlb_entry := upd (tlb_entry t) (Z.to_nat i) e |}.

(** [m->tlb.entry[j]]. *)
Definition entry_at (m : Machine) (j : Z) : TlbEntry :=
  nth (Z.to_nat j) (tlb_entry (tlb m)) null_entry.

(** A hit at slot [j]: swap slots [j] and [j - 1], return the entry. *)
Definition tlb_hit (m : Machine) (j : Z) : outcome (Z * Machine) :=
  assert (0 <? j) ;;;
  let e := entry_at m j in
  let m1 := SetTlbEntry m j (entry_at m (j - 1)) in
  let m2 := SetTlbEntry m1 (j - 1) e in
  Ret (entry e, m2).

(** Byte [j] of the key array, as the 16-byte vector load sees it. *)
Definition key_byte (m : Machine) (j : Z) : Z :=
  byte_of (j mod 8) (nth (Z.to_nat (j / 8)) (tlb_key (tlb m)) 0).

(** [__builtin_ia32_pmovmskb128(keys == {k, ..., k})]: bit [j] says that
    key byte [j] equals [k], for the first 16 slots. *)
Definition movemask (m : Machine) (k : Z) : Z :=
  fold_right (fun j acc => if key_byte m j =? k then Z.lor (Z.shiftl 1 j) acc else acc)
    0 (map Z.of_nat (seq 0 16)).

(** Modelled from the spec: [bsr] of [blink/bitscan.h], a header that is
    missing here, is the index of the highest set bit. *)
Definition bsr (x : Z) : Z := Z.log2 x.

(** The [while (i)] of the vector branch. *)
Fixpoint scan_mask (fuel : nat) (m : Machine) (pg : Z) (i : Z)
  : outcome (Z * Machine) :=
  match fuel with
  | O => Abort OutOfFuel
  | S fuel' =>
      if i =? 0 then Ret (0, m)
      else
        let j := bsr i in
        if page (entry_at m j) =? pg then tlb_hit m j
        else scan_mask fuel' m pg (Z.land i (Z.lnot (Z.shiftl 1 j)))
  end.

(** The [while (key)] of the portable branch, for key group [i].  [None]
    stands for leaving the loop without a hit. *)
Fixpoint scan_lanes (fuel : nat) (m : Machine) (pg : Z) (i key : Z)
  : outcome (option (Z * Machine)) :=
  match fuel with
  | O => Abort OutOfFuel
  | S fuel' =>
      if key =? 0 then Ret None
      else
        let j := Z.shiftr (bsr key) 3 in
        let k := i * 8 + j in
        if page (entry_at m k) =? pg then
          r <- tlb_hit m k ;; Ret (Some r)
        else scan_lanes fuel' m pg i (Z.land key (not64 (Z.shiftl 0xFF (j * 8))))
  end.

(** The [for (i = 0; i < kTlbEntries / 8; ++i)] of the portable branch;
    [groups] counts the iterations that remain. *)
Fixpoint scan_groups (groups : nat) (m : Machine) (pg : Z) (i : Z)
  : outcome (Z * Machine) :=
  match groups with
  | O => Ret (0, m)
  | S groups' =>
      let key := CompareEq (nth (Z.to_nat i) (tlb_key (tlb m)) 0)
                   (wrap64 (GetTlbKey pg * 0x0101010101010101)) in
      r <- scan_lanes 9 m pg i key ;;
      match r with
      | Some hit => Ret hit
      | None => scan_groups groups' m pg (i + 1)
      end
  end.

Definition GetTlbEntry (m : Machine) (pg : Z) : outcome (Z * Machine) :=
  if page (entry_at m 0) =? pg then Ret (entry (entry_at m 0), m)
  else if x86_64_gnuc then
    scan_mask 17 m pg (movemask m (Z.land (GetTlbKey pg) 0xff))
  else
    scan_groups (Z.to_nat (kTlbEntries / 8)) m pg 0.

(** The [do ... while ((level -= 9) >= 12)] of [FindPageTableEntry]:
    [None] when a level lacks V, else the last table, index and entry. *)
Fixpoint walk_levels (fuel : nat) (s : System) (pg entry level : Z)
  : outcome (option (Z * Z * Z)) :=
  match fuel with
  | O => Abort OutOfFuel
  | S fuel' =>
      let table := entry in
      let index := Z.land (Z.shiftr pg level) 511 in
      a <- GetPageAddress s table ;;
      a <- deref a ;;
      let entry' := Load64 s (a + index * 8) in
      if Z.land entry' PAGE_V =? 0 then Ret None
      else if 12 <=? level - 9 then walk_levels fuel' s pg entry' (level - 9)
      else Ret (Some (table, index, entry'))
  end.

(** The walk from [cr3], with the assertion that precedes it. *)
Definition walk (s : System) (pg : Z) : outcome (option (Z * Z * Z)) :=
  assert (negb (cr3 s =? 0)) ;;;
  walk_levels 4 s pg (cr3 s) 39.

Definition canonical (pg : Z) : bool :=
  (-0x800000000000 <=? pg) && (pg <? 0x800000000000).

(** [FindPageTableEntry] after the TLB: range check, walk, demand paging,
    insertion at the last slot. *)
Definition FindPageTableEntry_miss (m : Machine) (pg : Z) : outcome (Z * Machine) :=
  if negb (canonical pg) then Ret (0, m)
  else
    w <- walk (system m) pg ;;
    match w with
    | None => Ret (0, m)
    | Some (table, index, entry) =>
        if negb (Z.land entry PAGE_RSRV =? 0) then
          r <- HandlePageFault m entry table index ;;
          let '(entry', m') := r in
          if entry' =? 0 then Ret (0, m')
          else Ret (entry',
                    SetTlbEntry m' (kTlbEntries - 1) {| page := pg; entry := entry' |})
        else Ret (entry,
                  SetTlbEntry m (kTlbEntries - 1) {| page := pg; entry := entry |})
    end.

Definition FindPageTableEntry (m : Machine) (pg : Z) : outcome (Z * Machine) :=
  r <- (if negb (invalidated m) then GetTlbEntry m pg
        else Ret (0, set_invalidated (ResetTlb m) false)) ;;
  let '(entry, m') := r in
  if negb (entry =? 0) then Ret (entry, m')
  else FindPageTableEntry_miss m' pg.

Definition LookupAddress (m : Machine) (virt : Z) : outcome (Z * Machine) :=
  match mode m with
  | XED_MODE_REAL =>
      if (0 <=? virt) && (virt <=? 0xffffffff)
         && (Z.land virt 0xffffffff + 4095 <? kRealSize)
      then Ret (real (system m) + virt, m)
      else Ret (0, m)
  | _ =>
      r <- FindPageTableEntry m (Z.land virt (-4096)) ;;
      let '(entry, m') := r in
      if entry =? 0 then Ret (0, m')
      else
        host <- GetPageAddress (system m') entry ;;
        if host =? 0 then Ret (0, m')
        else Ret (host + Z.land virt 4095, m')
  end.

(** [LookupAddress] answers a host pointer, not null. *)
Definition resolves (m : Machine) (virt : Z) : bool :=
  match LookupAddress m virt with
  | Ret (p, _) => negb (p =? 0)
  | Abort _ => false
  end.

Definition GetAddress (m : Machine) (v : Z) : outcome (Z * Machine) :=
  if HasLinearMapping m then Ret (ToHost v, m) else LookupAddress m v.

Definition ResolveAddress (m : Machine) (v : Z) : outcome (Z * Machine) :=
  r <- GetAddress m v ;;
  if fst r =? 0 then Abort SegFault else Ret r.

(** The [while (n)] of [VirtualCopy]. *)
Fixpoint VirtualCopy_loop (fuel : nat) (m : Machine) (v r n : Z) (d : bool) (k : Z)
  : outcome Machine :=
  match fuel with
  | O => Abort OutOfFuel
  | S fuel' =>
      if n =? 0 then Ret m
      else
        let k := Z.min k n in
        pm <- ResolveAddress m v ;;
        let '(p, m1) := pm in
        let s := system m1 in
        let m2 := set_system m1 (if d then memcpy s r p k else memcpy s p r k) in
        VirtualCopy_loop fuel' m2 (v + k) (r + k) (n - k) d 4096
  end.

(** Every iteration copies at least one byte, so [n + 1] iterations are
    enough. *)
Definition VirtualCopy (m : Machine) (v r n : Z) (d : bool) : outcome Machine :=
  VirtualCopy_loop (S (Z.to_nat n)) m v r n d (4096 - Z.land v 4095).

Definition CopyFromUser (m : Machine) (dst src n : Z) : outcome (Z * Machine) :=
  m' <- VirtualCopy m src dst n true ;;
  Ret (dst, m').

Definition CopyToUser (m : Machine) (dst src n : Z) : outcome Machine :=
  VirtualCopy m dst src n false.

(** [EndStore(m, v, n, p, b)] with [p0 = p[0]] and [p1 = p[1]]. *)
Definition EndStore (m : Machine) (v n p0 p1 b : Z) : outcome Machine :=
  assert (n <=? 4096) ;;;
  if wrap64 (Z.land v 4095 + n) <=? 4096 then Ret m
  else
    let k := wrap32 (4096 - Z.land v 4095) in
    assert (n <? k) ;;;
    assert (negb (p0 =? 0)) ;;;
    assert (negb (p1 =? 0)) ;;;
    let s1 := memcpy (system m) p0 b k in
    let s2 := memcpy s1 p1 (b + k) (wrap64 (n - k)) in
    Ret (set_system m s2).

(** The machine after host memory has been overwritten at [p] with the
    bytes [bs]. *)
Definition poke (m : Machine) (p : Z) (bs : list byte) : Machine :=
  set_system m (set_ram (system m) (store_bytes (ram (system m)) p bs)).

(** What the spec asks of a page-crossing [EndStore]: the first [k] bytes
    of [b] at [p0], the other [n - k] at [p1]. *)
Definition spec_scatter (s : System) (v n p0 p1 b : Z) : System :=
  let k := 4096 - Z.land v 4095 in
  memcpy (memcpy s p0 b k) p1 (b + k) (n - k).

(** The machines the walker can meet: the TLB starts reset and is written
    only by [FindPageTableEntry] and [ResetTlb]; the system, the mode and
    the [invalidated] flag may change in any way in between. *)
Inductive reachable : Machine -> Prop :=
| reach_reset m : reachable (ResetTlb m)
| reach_translate m pg x m' :
    reachable m -> FindPageTableEntry m pg = Ret (x, m') -> reachable m'
| reach_system m s : reachable m -> reachable (set_system m s)
| reach_mode m md :
    reachable m ->
    reachable {| system := system m; mode := md; tlb := tlb m;
                 invalidated := invalidated m |}
| reach_invalidated m b : reachable m -> reachable (set_invalidated m b).

(** A sequence of translations, interleaved with changes of the page
    tables that are announced through [invalidated]. *)
Inductive event : Type :=
| Translate (pg : Z)
| Remap (ram' : memory) (cr3' : Z).

Definition remap (m : Machine) (ram' : memory) (cr3' : Z) : Machine :=
  let s := system m in
  set_invalidated
    (set_system m {| real := real s; cr3 := cr3'; realfree := realfree s;
                     memstat := memstat s; ram := ram' |})
    true.

(** The translations with the TLB in use. *)
Fixpoint translate_all (evs : list event) (m : Machine) : outcome (list Z * Machine) :=
  match evs with
  | [] => Ret ([], m)
  | Translate pg :: rest =>
      r <- FindPageTableEntry m pg ;;
      q <- translate_all rest (snd r) ;;
      Ret (fst r :: fst q, snd q)
  | Remap ram' cr3' :: rest => translate_all rest (remap m ram' cr3')
  end.

(** The same translations, each preceded by an invalidation, so that each
    resets the TLB and walks the page tables from [cr3]. *)
Fixpoint translate_all_flushed (evs : list event) (m : Machine)
  : outcome (list Z * Machine) :=
  match evs with
  | [] => Ret ([], m)
  | Translate pg :: rest =>
      r <- FindPageTableEntry (set_invalidated m true) pg ;;
      q <- translate_all_flushed rest (snd r) ;;
      Ret (fst r :: fst q, snd q)
  | Remap ram' cr3' :: rest => translate_all_flushed rest (remap m ram' cr3')
  end.

(** What a run shows to its caller: the entries returned and the system. *)
Definition observe (r : outcome (list Z * Machine)) : outcome (list Z * System) :=
  match r with
  | Ret (es, m) => Ret (es, system m)
  | Abort f => Abort f
  end.

(** The fields of [struct Machine] that the access API keeps beside those
    the walker uses: the last read and write windows, the stash of a
    page-crossing reservation with the fields of [struct OpCache] that
    describe it ([stash] is the host address of the buffer
    [m->opcache->stash]). *)
Record Access : Type := {
  machine : Machine;
  readaddr : Z;
  readsize : Z;
  writeaddr : Z;
  writesize : Z;
  stashaddr : Z;
  reserving : bool;
  stash : Z;
  stashsize : Z;
  writable : bool
}.

Definition set_machine (a : Access) (m : Machine) : Access :=
  {| machine := m; readaddr := readaddr a; readsize := readsize a;
     writeaddr := writeaddr a; writesize := writesize a; stashaddr := stashaddr a;
     reserving := reserving a; stash := stash a; stashsize := stashsize a;
     writable := writable a |}.

(** [size] is a [u32]: callers that pass a [u64] length have it cut. *)
Definition SetReadAddr (a : Access) (addr size : Z) : Access :=
  if negb (size =? 0) then
    {| machine := machine a; readaddr := addr; readsize := size;
       writeaddr := writeaddr a; writesize := writesize a; stashaddr := stashaddr a;
       reserving := reserving a; stash := stash a; stashsize := stashsize a;
       writable := writable a |}
  else a.

Definition SetWriteAddr (a : Access) (addr size : Z) : Access :=
  if negb (size =? 0) then
    {| machine := machine a; readaddr := readaddr a; readsize := readsize a;
       writeaddr := addr; writesize := size; stashaddr := stashaddr a;
       reserving := reserving a; stash := stash a; stashsize := stashsize a;
       writable := writable a |}
  else a.

Definition CopyFromUserRead (a : Access) (dst addr n : Z) : outcome Access :=
  r <- CopyFromUser (machine a) dst addr n ;;
  Ret (SetReadAddr (set_machine a (snd r)) addr (wrap32 n)).

Definition CopyToUserWrite (a : Access) (addr src n : Z) : outcome Access :=
  m' <- CopyToUser (machine a) addr src n ;;
  Ret (SetWriteAddr (set_machine a m') addr (wrap32 n)).

Definition CommitStash (a : Access) : outcome Access :=
  assert (negb (stashaddr a =? 0)) ;;;
  m' <- (if writable a then CopyToUser (machine a) (stashaddr a) (stash a) (stashsize a)
         else Ret (machine a)) ;;
  Ret {| machine := m'; readaddr := readaddr a; readsize := readsize a;
         writeaddr := writeaddr a; writesize := writesize a; stashaddr := 0;
         reserving := reserving a; stash := stash a; stashsize := stashsize a;
         writable := writable a |}.

Definition ReserveAddress (a : Access) (v n : Z) (w : bool) : outcome (Z * Access) :=
  let a1 := {| machine := machine a; readaddr := readaddr a; readsize := readsize a;
               writeaddr := writeaddr a; writesize := writesize a;
               stashaddr := stashaddr a; reserving := true; stash := stash a;
               stashsize := stashsize a; writable := writable a |} in
  if wrap64 (Z.land v 4095 + n) <=? 4096 then
    r <- ResolveAddress (machine a1) v ;;
    Ret (fst r, set_machine a1 (snd r))
  else
    let a2 := {| machine := machine a1; readaddr := readaddr a1; readsize := readsize a1;
                 writeaddr := writeaddr a1; writesize := writesize a1;
                 stashaddr := v; reserving := true; stash := stash a1;
                 stashsize := n; writable := w |} in
    r <- CopyFromUser (machine a2) (stash a2) v n ;;
    Ret (stash a2, set_machine a2 (snd r)).

(** [AccessRam(m, v, n, p, tmp, copy)]; [p] is the pair [(p[0], p[1])],
    returned as the call leaves it. *)
Definition AccessRam (m : Machine) (v n : Z) (p : Z * Z) (tmp : Z) (copy : bool)
  : outcome (Z * (Z * Z) * Machine) :=
  assert (n <=? 4096) ;;;
  if wrap64 (Z.land v 4095 + n) <=? 4096 then
    r <- ResolveAddress m v ;;
    Ret (fst r, p, snd r)
  else
    let k := wrap32 (4096 - Z.land v 4095) in
    assert (k <=? 4096) ;;;
    ra <- ResolveAddress m v ;;
    rb <- ResolveAddress (snd ra) (v + k) ;;
    let m2 := snd rb in
    let m3 :=
      if copy then
        let s1 := memcpy (system m2) tmp (fst ra) k in
        set_system m2 (memcpy s1 (tmp + k) (fst rb) (wrap64 (n - k)))
      else m2 in
    Ret (tmp, (fst ra, fst rb), m3).

(** [Load] has its own array [p], which it drops. *)
Definition Load (a : Access) (v n b : Z) : outcome (Z * Access) :=
  let a1 := SetReadAddr a v (wrap32 n) in
  r <- AccessRam (machine a1) v n (0, 0) b true ;;
  let '(q, _, m') := r in
  Ret (q, set_machine a1 m').

Definition BeginStore (a : Access) (v n : Z) (p : Z * Z) (b : Z)
  : outcome (Z * (Z * Z) * Access) :=
  let a1 := SetWriteAddr a v (wrap32 n) in
  r <- AccessRam (machine a1) v n p b false ;;
  let '(q, p', m') := r in
  Ret (q, p', set_machine a1 m').

Definition BeginStoreNp (a : Access) (v n : Z) (p : Z * Z) (b : Z)
  : outcome (Z * (Z * Z) * Access) :=
  if v =? 0 then Ret (0, p, a) else BeginStore a v n p b.

Definition BeginLoadStore (a : Access) (v n : Z) (p : Z * Z) (b : Z)
  : outcome (Z * (Z * Z) * Access) :=
  let a1 := SetWriteAddr a v (wrap32 n) in
  r <- AccessRam (machine a1) v n p b true ;;
  let '(q, p', m') := r in
  Ret (q, p', set_machine a1 m').

Definition EndStoreNp (m : Machine) (v n p0 p1 b : Z) : outcome Machine :=
  if negb (v =? 0) then EndStore m v n p0 p1 b else Ret m.

(** *** Strings: [LoadStr] and [LoadStrList] *)

(** The host heap as these functions see it: the blocks recorded in
    [m->freelist], and the pointers that the coming calls of [malloc] and
    [realloc] return, 0 for a call that fails. *)
Record Heap : Type := {
  freelist : list Z;
  answers : list Z
}.

Definition alloc (hp : Heap) : Z * Heap :=
  (hd 0 (answers hp), {| freelist := freelist hp; answers := tl (answers hp) |}).

(** [memchr(p, 0, n)]: the offset from [p] of the first NUL among [n]
    bytes. *)
Fixpoint memchr (r : memory) (p : Z) (n : nat) : option Z :=
  match n with
  | O => None
  | S n' =>
      if Byte.eqb (r p) Byte.x00 then Some 0
      else match memchr r (p + 1) n' with
           | Some j => Some (j + 1)
           | None => None
           end
  end.

(** [memccpy(dst, src, 0, n)] copies up to and with the first NUL; the
    answer is the offset from [dst] of the byte after the copied NUL. *)
Definition memccpy (s : System) (dst src : Z) (n : nat) : option Z * System :=
  match memchr (ram s) src n with
  | Some j => (Some (j + 1), memcpy s dst src (j + 1))
  | None => (None, memcpy s dst src (Z.of_nat n))
  end.

(** The [for (;;)] of [LoadStr]; [realloc] moves the [have] bytes of the
    block it is given. *)
Fixpoint LoadStr_loop (fuel : nat) (a : Access) (hp : Heap) (addr have copy : Z)
  : outcome (Z * Access * Heap) :=
  match fuel with
  | O => Abort OutOfFuel
  | S fuel' =>
      r <- LookupAddress (machine a) (addr + have) ;;
      let '(page, m1) := r in
      if page =? 0 then Ret (0, set_machine a m1, hp)
      else
        let '(p, s2) := memccpy (system m1) (copy + have) page 4096 in
        let a2 := set_machine a (set_system m1 s2) in
        match p with
        | Some k =>
            let a3 := SetReadAddr a2 addr (wrap32 (have + k + 1)) in
            let '(fp, hp1) := alloc hp in
            if fp =? 0 then Abort NullDeref
            else Ret (copy, a3, {| freelist := freelist hp1 ++ [copy];
                                   answers := answers hp1 |})
        | None =>
            let have := wrap64 (have + 4096) in
            let '(q, hp1) := alloc hp in
            if q =? 0 then Ret (0, a2, hp1)
            else
              LoadStr_loop fuel'
                (set_machine a2 (set_system m1 (memcpy s2 q copy have)))
                hp1 addr have q
        end
  end.

Definition LoadStr (fuel : nat) (a : Access) (hp : Heap) (addr : Z)
  : outcome (Z * Access * Heap) :=
  let have := wrap64 (4096 - Z.land addr 4095) in
  if addr =? 0 then Ret (0, a, hp)
  else
    r <- LookupAddress (machine a) addr ;;
    let '(page, m1) := r in
    let a1 := set_machine a m1 in
    if page =? 0 then Ret (0, a1, hp)
    else
      match memchr (ram (system m1)) page (Z.to_nat have) with
      | Some j => Ret (page, SetReadAddr a1 addr (wrap32 (j + 1)), hp)
      | None =>
          let '(copy, hp1) := alloc hp in
          if copy =? 0 then Ret (0, a1, hp1)
          else
            let a2 := set_machine a1
                        (set_system m1 (memcpy (system m1) copy page have)) in
            LoadStr_loop fuel a2 hp1 addr have copy
      end.

(** The [for] of [LoadStrList]; [b] is the host address of the array
    [b], [n] counts the entries [strs] already stored in [list].  The array that
    [realloc] answers is written only after the entry is loaded. *)
Fixpoint LoadStrList_loop (fuel strfuel : nat) (a : Access) (hp : Heap)
    (addr b : Z) (n : Z) (strs : list Z) : outcome (list Z * Access * Heap) :=
  match fuel with
  | O => Abort OutOfFuel
  | S fuel' =>
      let '(lp, hp1) := alloc hp in
      let n := n + 1 in
      a1 <- CopyFromUserRead a b (addr + n * 8 - 8) 8 ;;
      let x := Load64 (system (machine a1)) b in
      if negb (x =? 0) then
        r <- LoadStr strfuel a1 hp1 x ;;
        let '(p, a2, hp2) := r in
        if lp =? 0 then Abort NullDeref
        else LoadStrList_loop fuel' strfuel a2 hp2 addr b n (strs ++ [p])
      else
        if lp =? 0 then Abort NullDeref
        else Ret (strs ++ [0], a1, hp1)
  end.

Definition LoadStrList (fuel strfuel : nat) (a : Access) (hp : Heap) (addr b : Z)
  : outcome (list Z * Access * Heap) :=
  LoadStrList_loop fuel strfuel a hp addr b 0 [].

End WithConfig.

End Mem.

(* ------------------------------------------------------------------ *)
(** ** [blink/address.c]: segment bases and string-operation addresses *)
(* ------------------------------------------------------------------ *)

Module Address.

(** The registers of [struct Machine] that this file reads; each is an
    array of eight bytes. *)
Record Machine : Type := {
  es : list byte;
  cs : list byte;
  ss : list byte;
  ds : list byte;
  fs : list byte;
  gs : list byte;
  si : list byte;
  di : list byte
}.

(** Modelled from the spec: [Eamode] of [blink/modrm.h], a header that is
    missing here, gives the effective-address mode of the decoded
    instruction [rde], one of three tags. *)
Class Decode : Type := {
  Eamode : Z -> Mem.xed_mode
}.

(** Modelled from the spec: [Read16], [Read32] and [Read64] of
    [blink/endian.h], a header that is missing here, read a register's
    first bytes in little-endian order. *)
Definition Read16 (r : list byte) : Z := le_combine (firstn 2 r).
Definition Read32 (r : list byte) : Z := le_combine (firstn 4 r).
Definition Read64 (r : list byte) : Z := le_combine (firstn 8 r).

(** A call that may end in [OpUd], which raises #UD and does not
    return. *)
Inductive result (A : Type) : Type :=
| Value (a : A)
| Undefined.
Arguments Value {A} a.
Arguments Undefined {A}.

Definition GetSegment (m : Machine) (rde : Z) (s : Z) : result (list byte) :=
  let k := Z.land s 7 in
  if k =? 0 then Value (es m)
  else if k =? 1 then Value (cs m)
  else if k =? 2 then Value (ss m)
  else if k =? 3 then Value (ds m)
  else if k =? 4 then Value (fs m)
  else if k =? 5 then Value (gs m)
  else Undefined.

Definition AddressDi `{Decode} (m : Machine) (rde : Z) : Z :=
  let i := Read64 (es m) in
  match Eamode rde with
  | Mem.XED_MODE_LONG => wrap64 (i + Read64 (di m))
  | Mem.XED_MODE_REAL => wrap64 (i + Read16 (di m))
  | Mem.XED_MODE_LEGACY => wrap64 (i + Read32 (di m))
  end.

(** The width in bits at which a mode reads an index register. *)
Definition index_width (md : Mem.xed_mode) : Z :=
  match md with
  | Mem.XED_MODE_REAL => 16
  | Mem.XED_MODE_LEGACY => 32
  | Mem.XED_MODE_LONG => 64
  end.

End Address.

(* ------------------------------------------------------------------ *)
(** ** Concrete machines for the examples *)
(* ------------------------------------------------------------------ *)

Definition zero_memory : memory := fun _ => Byte.x00.

(** An allocator that takes a page from the head of the free list and
    fails when the list is empty; it touches neither memory nor counters
    when it fails. *)
Definition freelist_AllocatePage (s : Mem.System) : Z * Mem.System :=
  match Mem.realfree s with
  | rf :: rest =>
      (Mem.rf_i rf,
       {| Mem.real := Mem.real s; Mem.cr3 := Mem.cr3 s; Mem.realfree := rest;
          Mem.memstat := Mem.memstat s; Mem.ram := Mem.ram s |})
  | [] => (wrap64 (-1), s)
  end.

Definition paged_collab : Mem.Collab :=
  {| Mem.AllocatePage := freelist_AllocatePage;
     Mem.HasLinearMapping := fun _ => false |}.

(** Page tables at arena offsets 0x1000 (PML4), 0x2000, 0x3000 and 0x4000
    (leaf table), arena at host address 0x100000.  The leaf table maps
    guest page 0x1000 and guest page 0x2000 to the same arena page 0x5000,
    and reserves guest page 0x3000. *)
Definition example_ram : memory :=
  Write64 (Write64 (Write64 (Write64 (Write64 (Write64 zero_memory
    0x101000 0x2007) 0x102000 0x3007) 0x103000 0x4007)
    0x104008 0x5007) 0x104010 0x5007) 0x104018 0x0201.

Definition example_system : Mem.System :=
  {| Mem.real := 0x100000; Mem.cr3 := 0x1001;
     Mem.realfree := [{| Mem.rf_i := 0x6000; Mem.rf_n := 0x1000 |}];
     Mem.memstat := memstat0; Mem.ram := example_ram |}.

Definition example_machine : Mem.Machine :=
  {| Mem.system := example_system; Mem.mode := Mem.XED_MODE_LONG;
     Mem.tlb := @ResetTlb_tlb blink_config; Mem.invalidated := false |}.

(** An allocator that always fails, leaving the system as it is. *)
Definition failing_collab : Mem.Collab :=
  {| Mem.AllocatePage := fun s => (wrap64 (-1), s);
     Mem.HasLinearMapping := fun _ => false |}.

(** Translations of the three mapped pages, a change of the page tables
    (guest page 0x1000 is unmapped) and the translations again. *)
Definition example_events : list Mem.event :=
  [Mem.Translate 0x1000; Mem.Translate 0x3000; Mem.Translate 0x2000;
   Mem.Translate 0x3000; Mem.Translate 0x1000;
   Mem.Remap (Write64 example_ram 0x104008 0) 0x1001;
   Mem.Translate 0x1000; Mem.Translate 0x2000; Mem.Translate 0x2000].

(** An arena of five pages for [memorymalloc.c]: page tables at offsets 0
    (the root, [cr3 = 0]), 0x1000, 0x2000 and 0x3000 (the leaf table).  The
    leaf table leaves guest page 0 unmapped, maps guest page 0x1000 to the
    arena page 0x4000 and reserves guest page 0x2000. *)
Definition arena_bytes : memory :=
  Write64 (Write64 (Write64 (Write64 (Write64 zero_memory
    0x0000 0x1007) 0x1000 0x2007) 0x2000 0x3007)
    0x3008 0x4007) 0x3010 0x0201.

Definition arena_machine : Malloc.Machine :=
  {| Malloc.system :=
       {| Malloc.real_p := arena_bytes; Malloc.real_i := 0x5000;
          Malloc.real_n := 0x5000; Malloc.cr3 := 0; Malloc.realfree := [];
          Malloc.memstat :=
            {| allocated := 5; committed := 5; freed := 0; reserved := 1;
               reclaimed := 0; resizes := 1; pagetables := 4 |} |};
     Malloc.tlb := @ResetTlb_tlb blink_config;
     Malloc.host_ok := [true] |}.

(** An arena of one page that is full, as [ReserveReal(m, 0x1000)] and one
    allocation leave it. *)
Definition small_machine : Malloc.Machine :=
  {| Malloc.system :=
       {| Malloc.real_p := zero_memory; Malloc.real_i := 0x1000;
          Malloc.real_n := 0x1000; Malloc.cr3 := 0; Malloc.realfree := [];
          Malloc.memstat :=
            {| allocated := 1; committed := 1; freed := 0; reserved := 0;
               reclaimed := 0; resizes := 1; pagetables := 0 |} |};
     Malloc.tlb := @ResetTlb_tlb blink_config;
     Malloc.host_ok := [true] |}.

(** A machine with a linear mapping: guest addresses are host addresses. *)
Definition linear_collab : Mem.Collab :=
  {| Mem.AllocatePage := fun s => (wrap64 (-1), s);
     Mem.HasLinearMapping := fun _ => true |}.

(** [example_machine] with a source buffer at host address 0x200000 whose
    byte 0 is 1 and whose byte 4096 is 2. *)
Definition copy_machine : Mem.Machine :=
  Mem.poke (Mem.poke example_machine 0x200000 [Byte.x01]) 0x201000 [Byte.x02].

(** What stays true of [example_machine] while bytes are copied to and
    from the guest range [0x2ffe, 0x3002): the four page-table words that
    translate guest page 0x2000 keep their values; the leaf of guest page
    0x3000 is still reserved, with the page that will back it at the head
    of the free list, or is committed to that page; and the TLB holds
    translations of these two pages only. *)
Definition copy_invariant (m : Mem.Machine) : Prop :=
  let s := Mem.system m in
  Mem.mode m = Mem.XED_MODE_LONG /\
  Mem.real s = 0x100000 /\ Mem.cr3 s = 0x1001 /\
  Read64 (Mem.ram s) 0x101000 = 0x2007 /\
  Read64 (Mem.ram s) 0x102000 = 0x3007 /\
  Read64 (Mem.ram s) 0x103000 = 0x4007 /\
  Read64 (Mem.ram s) 0x104010 = 0x5007 /\
  ((Read64 (Mem.ram s) 0x104018 = 0x0201 /\
    Mem.realfree s = [{| Mem.rf_i := 0x6000; Mem.rf_n := 0x1000 |}]) \/
   Read64 (Mem.ram s) 0x104018 = 0x6001) /\
  forall e, In e (tlb_entry (Mem.tlb m)) -> entry e <> 0 ->
    (page e = 0x2000 /\ entry e = 0x5007) \/
    (page e = 0x3000 /\ entry e = 0x6001 /\ Read64 (Mem.ram s) 0x104018 = 0x6001).


(** An allocator that takes a page from the head of the free list and
    fills it with zeros, as a pager does when a page is first touched;
    it fails when the list is empty. *)
Definition zerofill_AllocatePage (s : Mem.System) : Z * Mem.System :=
  match Mem.realfree s with
  | rf :: rest =>
      (Mem.rf_i rf,
       {| Mem.real := Mem.real s; Mem.cr3 := Mem.cr3 s; Mem.realfree := rest;
          Mem.memstat := Mem.memstat s;
          Mem.ram := fun x =>
            if (Mem.real s + Mem.rf_i rf <=? x) && (x <? Mem.real s + Mem.rf_i rf + 4096)
            then Byte.x00 else Mem.ram s x |})
  | [] => (wrap64 (-1), s)
  end.

Definition zerofill_collab : Mem.Collab :=
  {| Mem.AllocatePage := zerofill_AllocatePage;
     Mem.HasLinearMapping := fun _ => false |}.

(** [copy_machine] with stale bytes on its free arena page 0x6000, left
    there by an earlier use of the page. *)
Definition dirty_machine : Mem.Machine :=
  Mem.poke copy_machine 0x106000
    [Byte.xff; Byte.xff; Byte.xff; Byte.xff; Byte.xff; Byte.xff; Byte.xff; Byte.xff].
(* ------------------------------------------------------------------ *)
(** ** Invariants used in the proofs *)
(* ------------------------------------------------------------------ *)

(** Where the entries of a TLB come from after a probe. *)
Definition tlb_from (m m' : Mem.Machine) : Prop :=
  Mem.system m' = Mem.system m /\
  Mem.mode m' = Mem.mode m /\
  Mem.invalidated m' = Mem.invalidated m /\
  forall e, In e (tlb_entry (Mem.tlb m')) ->
            In e (tlb_entry (Mem.tlb m)) \/ e = null_entry.

(** What a scan of the candidates can answer: a miss that leaves the
    machine alone, or the hit at a slot whose page is the one probed. *)
Definition probe_result (m : Mem.Machine) (pg : Z) (r : Z * Mem.Machine) : Prop :=
  r = (0, m) \/
  exists j, page (Mem.entry_at m j) = pg /\ fst r = entry (Mem.entry_at m j) /\
            tlb_from m (snd r).

Section Invariants.
Context {cfg : Config} {col : Mem.Collab}.

(** Every cached translation is for a canonical page. *)
Definition TlbCanonical (m : Mem.Machine) : Prop :=
  forall e, In e (tlb_entry (Mem.tlb m)) -> entry e <> 0 ->
            Mem.canonical (page e) = true.

(** A cached translation agrees with the page tables: the walk of its
    page ends in the cached entry, which is present and committed. *)
Definition coherent_entry (s : Mem.System) (e : TlbEntry) : Prop :=
  entry e <> 0 ->
  Mem.canonical (page e) = true /\
  Z.land (entry e) PAGE_RSRV = 0 /\
  exists t i, Mem.walk s (page e) = Ret (Some (t, i, entry e)).

Definition TlbOk (s : Mem.System) (t : Tlb) : Prop :=
  forall e, In e (tlb_entry t) -> coherent_entry s e.

(** The state in which the claim about the TLB is made: the TLB agrees
    with the page tables, or an invalidation is pending. *)
Definition Coherent (m : Mem.Machine) : Prop :=
  Mem.invalidated m = true \/ TlbOk (Mem.system m) (Mem.tlb m).

(** The allocator does not change the page tables: it keeps the arena
    where it is and every walk gives what it gave before. *)
Definition AllocatorFrame : Prop :=
  forall s,
    Mem.real (snd (Mem.AllocatePage s)) = Mem.real s /\
    forall pg, Mem.walk (snd (Mem.AllocatePage s)) pg = Mem.walk s pg.

(** What the two runs share after each step. *)
Definition in_step (m1 m2 : Mem.Machine) : Prop :=
  Mem.system m1 = Mem.system m2 /\ Coherent m1 /\
  Mem.real (Mem.system m1) mod 8 = 0.

(** The system component of a result. *)
Definition sys_of (r : outcome (Z * Mem.Machine)) : outcome (Z * Mem.System) :=
  match r with
  | Ret (x, m) => Ret (x, Mem.system m)
  | Abort f => Abort f
  end.

(** The effect of [FreeVirtual] on a page whose walk reaches a present
    leaf. *)
Definition leaf_effect (m m' : Malloc.Machine) (mi pt : Z) : Prop :=
  let st := Malloc.memstat (Malloc.system m) in
  let st' := Malloc.memstat (Malloc.system m') in
  Read64 (Malloc.real_p (Malloc.system m')) mi = 0 /\
  freed st' = freed st + 1 /\
  (Z.land pt PAGE_RSRV <> 0 ->
   reserved st' = reserved st - 1 /\ committed st' = committed st /\
   Malloc.realfree (Malloc.system m') = Malloc.realfree (Malloc.system m)) /\
  (Z.land pt PAGE_RSRV = 0 ->
   committed st' = committed st - 1 /\ reserved st' = reserved st /\
   Malloc.realfree (Malloc.system m')
     = Malloc.realfree (Malloc.system (Malloc.AppendRealFree m (Z.land pt PAGE_TA)))).

(** [x] lies in the [len] bytes that start at [lo]. *)
Definition within (lo len x : Z) : Prop := lo <= x < lo + len.

(** The host bytes behind the guest range [v, v + n) under the address
    map [h]. *)
Definition host_bytes (h : Z -> Z) (v n x : Z) : Prop :=
  exists a, within v n a /\ x = h a.

(** The translation of the guest range [v, v + n) is stable while the
    buffers [src] and [dst] are copied to and from it.  [G] holds of the
    machines met on the way and [h] maps a guest address to its host
    address: addresses of the range resolve to [h], whatever the copies
    have written so far, and resolving changes no host byte of the range
    and no byte of the buffers; [h] is consecutive inside a page and
    gives distinct guest bytes distinct host bytes; the buffers lie apart
    from the host bytes of the range. *)
Record StableTranslation (m0 : Mem.Machine) (v n src dst : Z)
    (h : Z -> Z) (G : Mem.Machine -> Prop) : Prop := {
  st_init : G m0;
  st_resolve : forall m a, G m -> within v n a ->
    exists m', Mem.ResolveAddress m a = Ret (h a, m') /\ G m' /\
      forall x, host_bytes h v n x \/ within src n x \/ within dst n x ->
                Mem.ram (Mem.system m') x = Mem.ram (Mem.system m) x;
  st_write : forall m p bs, G m ->
    (forall x, within p (Z.of_nat (length bs)) x ->
               host_bytes h v n x \/ within dst n x) ->
    G (Mem.poke m p bs);
  st_page : forall a j, within v n a -> within v n (a + j) -> 0 <= j ->
    Z.land a 4095 + j < 4096 -> h (a + j) = h a + j;
  st_inj : forall a b, within v n a -> within v n b -> h a = h b -> a = b;
  st_src : forall x, within src n x -> ~ host_bytes h v n x;
  st_dst : forall x, within dst n x -> ~ host_bytes h v n x
}.

(** The same with demand paging: the first resolution of a page may fill
    it.  [T m a] says that the page of the guest address [a] has been
    resolved on the way to the machine [m].  Every address of the range
    resolves to [h], whatever the copies have written so far; resolving
    changes no byte of the buffers and no host byte of a page that was
    resolved before, and from then on the page of the resolved address
    counts as resolved; the bytes the copies write change neither the
    translation nor what was resolved; [h] is consecutive inside a page
    and gives distinct guest bytes distinct host bytes; the buffers lie
    apart from the host bytes of the range. *)
Record PagedTranslation (m0 : Mem.Machine) (v n src dst : Z)
    (h : Z -> Z) (G : Mem.Machine -> Prop) (T : Mem.Machine -> Z -> Prop) : Prop := {
  pt_init : G m0;
  pt_resolve : forall m a, G m -> within v n a ->
    exists m', Mem.ResolveAddress m a = Ret (h a, m') /\ G m' /\
      (forall x, within src n x \/ within dst n x ->
                 Mem.ram (Mem.system m') x = Mem.ram (Mem.system m) x) /\
      (forall b, within v n b -> T m b ->
                 T m' b /\ Mem.ram (Mem.system m') (h b) = Mem.ram (Mem.system m) (h b)) /\
      (forall b, within v n b -> Z.land b (-4096) = Z.land a (-4096) -> T m' b);
  pt_write : forall m p bs, G m ->
    (forall x, within p (Z.of_nat (length bs)) x ->
               host_bytes h v n x \/ within dst n x) ->
    G (Mem.poke m p bs) /\ forall b, T m b -> T (Mem.poke m p bs) b;
  pt_page : forall a j, within v n a -> within v n (a + j) -> 0 <= j ->
    Z.land a 4095 + j < 4096 -> h (a + j) = h a + j;
  pt_inj : forall a b, within v n a -> within v n b -> h a = h b -> a = b;
  pt_src : forall x, within src n x -> ~ host_bytes h v n x;
  pt_dst : forall x, within dst n x -> ~ host_bytes h v n x
}.

End Invariants.

(** ** Invariants of the arena ([memorymalloc.c]) *)

(** A chunk of the Real-Free list as the assertions of
    [AllocateLinearPageRaw] want it: not empty, page-aligned, below the
    watermark [real.i]. *)
Definition chunk_ok (s : Malloc.System) (rf : Malloc.MachineRealFree) : Prop :=
  0 < Malloc.rf_n rf /\ Malloc.rf_n rf mod 4096 = 0 /\
  0 <= Malloc.rf_i rf /\ Malloc.rf_i rf mod 4096 = 0 /\
  Malloc.rf_i rf + Malloc.rf_n rf <= Malloc.real_i s.

(** The watermark is page-aligned and inside the capacity, the capacity
    is page-aligned, and every free chunk is well formed. *)
Definition arena_ok (s : Malloc.System) : Prop :=
  0 <= Malloc.real_i s <= Malloc.real_n s /\ Malloc.real_n s < 2 ^ 63 /\
  Malloc.real_i s mod 4096 = 0 /\ Malloc.real_n s mod 4096 = 0 /\
  Forall (chunk_ok s) (Malloc.realfree s).

(** The bytes on the Real-Free list. *)
Definition free_bytes (l : list Malloc.MachineRealFree) : Z :=
  fold_right (fun rf acc => Malloc.rf_n rf + acc) 0 l.

(** Whether [AppendRealFree] finds the page [real] right after the head
    chunk of the free list, and extends that chunk. *)
Definition coalesces (s : Malloc.System) (real : Z) : bool :=
  match Malloc.realfree s with
  | rf :: _ => real =? Malloc.rf_i rf + Malloc.rf_n rf
  | [] => false
  end.

(** What [FreeVirtual] may change in the system: it frees pages, so
    [freed] grows by what [reserved] and [committed] lose together; the
    watermark, the capacity, [cr3] and the other counters stay. *)
Definition free_frame (s s' : Malloc.System) : Prop :=
  let st := Malloc.memstat s in
  let st' := Malloc.memstat s' in
  Malloc.real_i s' = Malloc.real_i s /\ Malloc.real_n s' = Malloc.real_n s /\
  Malloc.cr3 s' = Malloc.cr3 s /\
  allocated st' = allocated st /\ reclaimed st' = reclaimed st /\
  resizes st' = resizes st /\ pagetables st' = pagetables st /\
  freed st <= freed st' /\ reserved st' <= reserved st /\ committed st' <= committed st /\
  freed st' - freed st = (reserved st - reserved st') + (committed st - committed st').

(** The leaf entry the walk of [ReserveVirtual] reaches for [virt] when
    the three upper levels are present, so that nothing is allocated: the
    offset [mi] of the entry and its value [pt], present or not. *)
Fixpoint table_slot (fuel : nat) (m : Malloc.Machine) (virt pt level : Z)
  : option (Z * Z) :=
  match fuel with
  | O => None
  | S fuel' =>
      if 12 <=? level then
        let mi := Z.land (Z.land pt PAGE_TA) PAGE_TA
                  + Z.land (Z.shiftr virt level) 511 * 8 in
        if wrap64 (wrap64 mi + 8) <=? Malloc.real_n (Malloc.system m) then
          let pt1 := to_i64 (Read64 (Malloc.real_p (Malloc.system m)) (wrap64 mi)) in
          if 12 <? level then
            if Z.land pt1 1 =? 0 then None
            else table_slot fuel' m virt pt1 (level - 9)
          else Some (mi, pt1)
        else None
      else None
  end.

(** The leaf entries among the [n] entries from offset [mi] that are
    absent in the arena [p]. *)
Definition absent_entries (p : memory) (mi : Z) (n : nat) : list nat :=
  filter (fun j => Z.land (Read64 p (mi + 8 * Z.of_nat j)) 1 =? 0) (seq 0 n).

(** The effect of [ReserveVirtual] on a run of [n] leaf entries from
    offset [mi], all in one leaf table: every absent entry becomes [key]
    and counts as reserved, every present entry and every byte outside the
    run stays, and nothing else of the machine changes. *)
Definition reserved_run (m m' : Malloc.Machine) (mi : Z) (n : nat) (key : Z) : Prop :=
  let s := Malloc.system m in
  let s' := Malloc.system m' in
  let st := Malloc.memstat s in
  let st' := Malloc.memstat s' in
  (forall j, (j < n)%nat ->
     Read64 (Malloc.real_p s') (mi + 8 * Z.of_nat j)
     = if Z.land (Read64 (Malloc.real_p s) (mi + 8 * Z.of_nat j)) 1 =? 0
       then wrap64 key
       else Read64 (Malloc.real_p s) (mi + 8 * Z.of_nat j)) /\
  (forall a, a < mi \/ mi + 8 * Z.of_nat n <= a ->
     Malloc.real_p s' a = Malloc.real_p s a) /\
  reserved st' = reserved st + Z.of_nat (length (absent_entries (Malloc.real_p s) mi n)) /\
  allocated st' = allocated st /\ committed st' = committed st /\
  freed st' = freed st /\ reclaimed st' = reclaimed st /\
  resizes st' = resizes st /\ pagetables st' = pagetables st /\
  Malloc.real_i s' = Malloc.real_i s /\ Malloc.real_n s' = Malloc.real_n s /\
  Malloc.cr3 s' = Malloc.cr3 s /\ Malloc.realfree s' = Malloc.realfree s /\
  Malloc.tlb m' = Malloc.tlb m /\ Malloc.host_ok m' = Malloc.host_ok m.

(** The effect of [ReserveVirtual] on a page whose walk meets an absent
    entry at offset [s] with [k] levels of tables still to build: [k]
    fresh pages taken from the watermark, one reservation, and below the
    old watermark only the entry at [s] is written. *)
Definition tables_built (m m' : Malloc.Machine) (k : Z) (s : Z) : Prop :=
  let sy := Malloc.system m in
  let sy' := Malloc.system m' in
  let st := Malloc.memstat sy in
  let st' := Malloc.memstat sy' in
  Malloc.real_i sy' = Malloc.real_i sy + 4096 * k /\
  Malloc.real_n sy' = Malloc.real_n sy /\ Malloc.cr3 sy' = Malloc.cr3 sy /\
  Malloc.realfree sy' = Malloc.realfree sy /\
  Malloc.tlb m' = Malloc.tlb m /\ Malloc.host_ok m' = Malloc.host_ok m /\
  pagetables st' = pagetables st + k /\ allocated st' = allocated st + k /\
  committed st' = committed st + k /\ reserved st' = reserved st + 1 /\
  freed st' = freed st /\ reclaimed st' = reclaimed st /\ resizes st' = resizes st /\
  (forall a, a < Malloc.real_i sy -> ~ s <= a < s + 8 ->
             Malloc.real_p sy' a = Malloc.real_p sy a).

(** ** Invariants of the TLB ([memory.c]) *)

Section TlbInvariants.
Context {cfg : Config}.

(** The key array describes the entries: both arrays have their declared
    sizes, and byte [j] of the keys is the tag of the page in slot [j]. *)
Definition KeysOk (m : Mem.Machine) : Prop :=
  length (tlb_entry (Mem.tlb m)) = Z.to_nat kTlbEntries /\
  length (tlb_key (Mem.tlb m)) = Z.to_nat (kTlbEntries / 8) /\
  (forall w, In w (tlb_key (Mem.tlb m)) -> 0 <= w < 2 ^ 64) /\
  forall j, 0 <= j < kTlbEntries ->
    Mem.key_byte m j = Mem.GetTlbKey (page (Mem.entry_at m j)).

(** A slot without a translation is the null entry of a reset TLB. *)
Definition TlbTidy (m : Mem.Machine) : Prop :=
  forall e, In e (tlb_entry (Mem.tlb m)) -> entry e = 0 -> e = null_entry.

End TlbInvariants.


(** ** Strings in guest memory *)

(** Under the address map [h], the guest range [v, v + n) holds at [x] a
    string of [len] bytes and its terminator, which ends on the page
    where it starts; [r] is host memory. *)
Definition string_in_page (r : memory) (h : Z -> Z) (v n x len : Z) : Prop :=
  v <= x /\ x + len < v + n /\
  0 <= len < 4096 - Z.land x 4095 /\
  (forall j, 0 <= j < len -> r (h (x + j)) <> Byte.x00) /\
  r (h (x + len)) = Byte.x00.

(** ** The pages that [FreeVirtual] visits *)

(** The machine after the inner loop of [FreeVirtual] has run for the
    page of [virt]. *)
Definition after_page `{Config} (m : Malloc.Machine) (virt : Z) : Malloc.Machine :=
  match Malloc.FreeVirtual_walk 4 m virt (Malloc.cr3 (Malloc.system m)) 39 with
  | Ret (m', _) => m'
  | Abort _ => m
  end.

(** The machine after it has run for [n] pages in a row, the first of
    them the page of [virt]. *)
Fixpoint after_pages `{Config} (n : nat) (m : Malloc.Machine) (virt : Z)
  : Malloc.Machine :=
  match n with
  | O => m
  | S n' => after_pages n' (after_page m virt) (virt + 4096)
  end.
(** [arena_machine] after guest page 0x1000 was freed: the leaf is clear
    and the arena page 0x4000 that backed it is on the Real-Free list. *)
Definition freed_machine : Malloc.Machine :=
  {| Malloc.system :=
       {| Malloc.real_p := Write64 arena_bytes 0x3008 0; Malloc.real_i := 0x5000;
          Malloc.real_n := 0x5000; Malloc.cr3 := 0;
          Malloc.realfree := [{| Malloc.rf_i := 0x4000; Malloc.rf_n := 0x1000 |}];
          Malloc.memstat :=
            {| allocated := 5; committed := 4; freed := 1; reserved := 1;
               reclaimed := 0; resizes := 1; pagetables := 4 |} |};
     Malloc.tlb := @ResetTlb_tlb blink_config;
     Malloc.host_ok := [true] |}.

(** A machine whose address space is empty: the root table is the zeroed
    arena page 0, the watermark stands behind it and the arena has room
    for fifteen more pages. *)
Definition fresh_machine : Malloc.Machine :=
  {| Malloc.system :=
       {| Malloc.real_p := zero_memory; Malloc.real_i := 0x1000;
          Malloc.real_n := 0x10000; Malloc.cr3 := 0; Malloc.realfree := [];
          Malloc.memstat :=
            {| allocated := 1; committed := 1; freed := 0; reserved := 0;
               reclaimed := 0; resizes := 1; pagetables := 1 |} |};
     Malloc.tlb := @ResetTlb_tlb blink_config;
     Malloc.host_ok := [] |}.

(** [example_system] on a machine in real mode. *)
Definition real_machine : Mem.Machine :=
  {| Mem.system := example_system; Mem.mode := Mem.XED_MODE_REAL;
     Mem.tlb := @ResetTlb_tlb blink_config; Mem.invalidated := false |}.


(** [real_machine] with two strings in guest memory, "AB" at address 0x40
    and "C" at 0x48, and the array of their addresses, closed by a null
    pointer, at 0x10. *)
Definition strings_machine : Mem.Machine :=
  Mem.poke
    (Mem.poke
       (Mem.poke real_machine 0x100010
          [Byte.x40; Byte.x00; Byte.x00; Byte.x00;
           Byte.x00; Byte.x00; Byte.x00; Byte.x00;
           Byte.x48])
       0x100040 [Byte.x41; Byte.x42])
    0x100048 [Byte.x43].

(** An access state that has recorded nothing, on machine [m]. *)
Definition idle_access (m : Mem.Machine) : Mem.Access :=
  {| Mem.machine := m; Mem.readaddr := 0; Mem.readsize := 0;
     Mem.writeaddr := 0; Mem.writesize := 0; Mem.stashaddr := 0;
     Mem.reserving := false; Mem.stash := 0; Mem.stashsize := 0;
     Mem.writable := false |}.

(** [example_machine] with a TLB that holds guest page 0x2000 in slot 14
    and guest page 0x3000 in slot 15, the other slots empty. *)
Definition warm_machine : Mem.Machine :=
  Mem.SetTlbEntry
    (Mem.SetTlbEntry example_machine 14 {| page := 0x2000; entry := 0x5007 |})
    15 {| page := 0x3000; entry := 0x6001 |}.

(** The machine that [FindPageTableEntry(m, pg)] leaves. *)
Definition translated (m : Mem.Machine) (pg : Z) : Mem.Machine :=
  match @Mem.FindPageTableEntry blink_config paged_collab m pg with
  | Ret (_, m') => m'
  | Abort _ => m
  end.

(** [example_machine] after guest page 0x2000 was translated twice (a
    miss that inserts it, a hit that promotes it) and the reserved guest
    page 0x3000 once (a miss that commits and inserts it). *)
Definition walked_machine : Mem.Machine :=
  translated (translated (translated example_machine 0x2000) 0x2000) 0x3000.

(** [real_machine] with the string "ABC" at guest address 0x8ffe: two
    letters on one page, the third and the terminator on the next. *)
Definition split_string_machine : Mem.Machine :=
  Mem.poke real_machine 0x108ffe [Byte.x41; Byte.x42; Byte.x43].
(* ================================================================== *)
(** * Part II: properties *)
(* ================================================================== *)

(** ** The concrete configuration is well formed *)

Lemma blink_config_ok : ConfigOk blink_config.
Proof. constructor; cbn; try lia; try reflexivity. exists 9. split; [lia | reflexivity]. Qed.

Lemma portable_config_ok : ConfigOk portable_config.
Proof. constructor; cbn; try lia; try reflexivity. exists 9. split; [lia | reflexivity]. Qed.

(** ** Memory: reading back what was written *)

Lemma load_bytes_length mem a n : length (load_bytes mem a n) = n.
Proof. unfold load_bytes. now rewrite length_map, length_seq. Qed.

Lemma store_bytes_in mem a bs x :
  a <= x < a + Z.of_nat (length bs) ->
  store_bytes mem a bs x = nth (Z.to_nat (x - a)) bs Byte.x00.
Proof.
  intros Hx. unfold store_bytes.
  replace ((a <=? x) && (x <? a + Z.of_nat (length bs))) with true; [reflexivity|].
  symmetry. apply andb_true_iff. split; [apply Z.leb_le | apply Z.ltb_lt]; lia.
Qed.

Lemma store_bytes_out mem a bs x :
  x < a \/ a + Z.of_nat (length bs) <= x ->
  store_bytes mem a bs x = mem x.
Proof.
  intros Hx. unfold store_bytes.
  replace ((a <=? x) && (x <? a + Z.of_nat (length bs))) with false; [reflexivity|].
  symmetry. apply andb_false_iff.
  destruct Hx; [left; apply Z.leb_gt | right; apply Z.ltb_ge]; lia.
Qed.

Lemma load_bytes_ext mem mem' a n :
  (forall x, a <= x < a + Z.of_nat n -> mem' x = mem x) ->
  load_bytes mem' a n = load_bytes mem a n.
Proof.
  intros Hagree. unfold load_bytes. apply map_ext_in.
  intros k Hk. apply in_seq in Hk. apply Hagree. lia.
Qed.

Lemma load_store_same mem a bs :
  load_bytes (store_bytes mem a bs) a (length bs) = bs.
Proof.
  apply nth_ext with (d := Byte.x00) (d' := Byte.x00).
  - apply load_bytes_length.
  - intros k Hk. rewrite load_bytes_length in Hk. unfold load_bytes.
    rewrite nth_indep with (d' := store_bytes mem a bs (a + Z.of_nat 0))
      by (rewrite length_map, length_seq; exact Hk).
    rewrite (map_nth (fun k => store_bytes mem a bs (a + Z.of_nat k))).
    rewrite seq_nth by exact Hk. rewrite store_bytes_in by lia.
    f_equal. lia.
Qed.

Lemma load_store_other mem a bs a' n :
  a' + Z.of_nat n <= a \/ a + Z.of_nat (length bs) <= a' ->
  load_bytes (store_bytes mem a bs) a' n = load_bytes mem a' n.
Proof.
  intros Hd. apply load_bytes_ext. intros x Hx. apply store_bytes_out. lia.
Qed.

Lemma Read64_range mem a : 0 <= Read64 mem a < 2 ^ 64.
Proof.
  unfold Read64. pose proof (le_combine_bound (load_bytes mem a 8)) as Hb.
  rewrite load_bytes_length in Hb. exact Hb.
Qed.

Lemma Read64_Write64_same mem a x : Read64 (Write64 mem a x) a = wrap64 x.
Proof.
  unfold Read64, Write64.
  replace 8%nat with (length (le_split 8 x)) at 2 by apply length_le_split.
  rewrite load_store_same, le_combine_split. reflexivity.
Qed.

Lemma Read64_Write64_other mem a x a' :
  a' + 8 <= a \/ a + 8 <= a' ->
  Read64 (Write64 mem a x) a' = Read64 mem a'.
Proof.
  intros Hd. unfold Read64, Write64. rewrite load_store_other; [reflexivity|].
  rewrite length_le_split. lia.
Qed.

Lemma Read64_ext mem mem' a :
  (forall x, a <= x < a + 8 -> mem' x = mem x) -> Read64 mem' a = Read64 mem a.
Proof. intros Hagree. unfold Read64. f_equal. now apply load_bytes_ext. Qed.

(** ** [CompareEq]: which lanes are flagged *)

Lemma div_sub_borrow P wq lo kq klo :
  0 <= lo < P -> 0 <= klo < P ->
  (wq * P + lo - (kq * P + klo)) / P = wq - kq - (if lo <? klo then 1 else 0).
Proof.
  intros Hlo Hk. symmetry.
  destruct (Z.ltb_spec lo klo).
  - apply Z.div_unique with (r := lo - klo + P); [lia | ring].
  - apply Z.div_unique with (r := lo - klo); [lia | ring].
Qed.

Lemma testbit7_mod y : Z.testbit y 7 = true <-> 128 <= y mod 256.
Proof.
  rewrite Z.testbit_true by lia. change (2 ^ 7) with 128.
  split; intros; Z.div_mod_to_equations; lia.
Qed.

Lemma testbit_lane z i :
  0 <= i -> Z.testbit z (8 * i + 7) = Z.testbit (z / 2 ^ (8 * i)) 7.
Proof.
  intros. rewrite <- Z.shiftr_div_pow2 by lia. rewrite Z.shiftr_spec by lia.
  f_equal. lia.
Qed.

Lemma byte_of_div i z : 0 <= i -> byte_of i z = (z / 2 ^ (8 * i)) mod 256.
Proof.
  intros. unfold byte_of. rewrite Z.shiftr_div_pow2 by lia.
  change 255 with (Z.ones 8). now rewrite Z.land_ones by lia.
Qed.

Lemma byte_of_lxor i x y : byte_of i (Z.lxor x y) = Z.lxor (byte_of i x) (byte_of i y).
Proof.
  unfold byte_of. rewrite Z.shiftr_lxor. apply Z.bits_inj'. intros n Hn.
  rewrite Z.lxor_spec, !Z.land_spec, Z.lxor_spec.
  destruct (Z.testbit 255 n); now rewrite ?andb_true_r, ?andb_false_r.
Qed.

Lemma lane_cases i : 0 <= i < 8 ->
  i = 0 \/ i = 1 \/ i = 2 \/ i = 3 \/ i = 4 \/ i = 5 \/ i = 6 \/ i = 7.
Proof. lia. Qed.

(** Lane [i] of [~w & (w - 0x01..01) & 0x80..80] is flagged when byte [i]
    of [w] is 0, or is 1 with a borrow coming from the lanes below. *)
Lemma lane_arith (w : Z) (i : Z) :
  0 <= w < 2 ^ 64 -> 0 <= i < 8 ->
  lane_flag i (Z.land (Z.land (not64 w) (wrap64 (w - 0x0101010101010101)))
                 0x8080808080808080) = true <->
  (byte_of i w = 0 \/ (byte_of i w = 1 /\ w mod 2 ^ (8 * i) < ones_le i)).
Proof.
  intros Hw Hi. unfold lane_flag. rewrite byte_of_div by lia.
  rewrite !Z.land_spec, !andb_true_iff.
  unfold not64, wrap64. rewrite !Z.mod_pow2_bits_low by lia.
  rewrite Z.lnot_spec by lia. rewrite negb_true_iff.
  rewrite !testbit_lane by lia.
  set (P := 2 ^ (8 * i)).
  assert (HP : 0 < P) by (apply Z.pow_pos_nonneg; lia).
  set (K := 0x0101010101010101).
  assert (HK : (K / P) mod 256 = 1 /\ (0x8080808080808080 / P) mod 256 = 128).
  { subst P K.
    destruct (lane_cases i Hi) as [-> | [-> | [-> | [-> | [-> | [-> | [-> | ->]]]]]]];
      vm_compute; auto. }
  destruct HK as [HK HM].
  pose proof (Z.div_mod w P ltac:(lia)) as Ew.
  pose proof (Z.div_mod K P ltac:(lia)) as Ek.
  pose proof (Z.mod_pos_bound w P HP) as Bw.
  pose proof (Z.mod_pos_bound K P HP) as Bk.
  assert (Ed : (w - K) / P = w / P - K / P - (if w mod P <? K mod P then 1 else 0)).
  { rewrite Ew at 1. rewrite Ek at 1.
    rewrite (Z.mul_comm P (w / P)), (Z.mul_comm P (K / P)).
    apply div_sub_borrow; assumption. }
  rewrite Ed. unfold ones_le. fold K P.
  assert (Hm : Z.testbit (0x8080808080808080 / P) 7 = true).
  { apply testbit7_mod. lia. }
  rewrite Hm. rewrite testbit7_mod.
  assert (Hn : Z.testbit (w / P) 7 = false <-> (w / P) mod 256 < 128).
  { destruct (Z.testbit (w / P) 7) eqn:E.
    - apply testbit7_mod in E. split; [discriminate | lia].
    - split; [intros _| reflexivity].
      destruct (Z_lt_ge_dec ((w / P) mod 256) 128); [assumption|].
      assert (Z.testbit (w / P) 7 = true) by (apply testbit7_mod; lia). congruence. }
  rewrite Hn.
  generalize dependent (w / P). generalize dependent (K / P). intros kq HK _ wq _ _ _.
  destruct (Z.ltb_spec (w mod P) (K mod P)); split; intros; Z.div_mod_to_equations; lia.
Qed.

(** The borrow into lane [i] is exactly the flag of lane [i - 1]. *)
Lemma borrow_is_lower_flag (w : Z) (i : Z) :
  0 <= w -> 1 <= i < 8 ->
  w mod 2 ^ (8 * i) < ones_le i <->
  (byte_of (i - 1) w = 0 \/
   (byte_of (i - 1) w = 1 /\ w mod 2 ^ (8 * (i - 1)) < ones_le (i - 1))).
Proof.
  intros Hw Hi. rewrite byte_of_div by lia. unfold ones_le.
  set (Q := 2 ^ (8 * (i - 1))).
  assert (HQ : 0 < Q) by (apply Z.pow_pos_nonneg; lia).
  assert (HP : 2 ^ (8 * i) = Q * 256).
  { subst Q. replace (8 * i) with (8 * (i - 1) + 8) by lia.
    rewrite Z.pow_add_r by lia. reflexivity. }
  rewrite HP. rewrite !Z.rem_mul_r by lia.
  set (K := 0x0101010101010101).
  assert (HK : (K / Q) mod 256 = 1).
  { subst Q K.
    assert (i = 1 \/ i = 2 \/ i = 3 \/ i = 4 \/ i = 5 \/ i = 6 \/ i = 7) as Hc by lia.
    destruct Hc as [-> | [-> | [-> | [-> | [-> | [-> | ->]]]]]]; vm_compute; auto. }
  rewrite HK.
  pose proof (Z.mod_pos_bound w Q HQ) as Bw.
  pose proof (Z.mod_pos_bound K Q HQ) as Bk.
  pose proof (Z.mod_pos_bound (w / Q) 256 ltac:(lia)) as Bb.
  generalize dependent ((w / Q) mod 256). intros b Bb.
  generalize dependent (w mod Q). generalize dependent (K mod Q). intros klo Bk lo Bw.
  split.
  - intros Hlt. assert (b = 0 \/ b = 1 \/ 2 <= b) as [-> | [-> | Hb]] by lia.
    + now left.
    + right. split; [reflexivity | lia].
    + exfalso. nia.
  - intros [-> | [-> Hlt]]; lia.
Qed.

(** C9 (as amended).  For 64-bit [x] and [y] and a lane [i] in 0..7, bit 7
    of lane [i] of [CompareEq x y] is set exactly when byte [i] of [x]
    equals byte [i] of [y], or the two bytes differ in bit 0 only while
    lane [i - 1] is flagged too.  Equal bytes are always flagged and lane 0
    is exact; a flag above a flagged lane may be a false positive. *)
Theorem CompareEq_lane (x y i : Z) :
  is_u64 x -> is_u64 y -> 0 <= i < 8 ->
  lane_flag i (CompareEq x y) = true <->
  (byte_of i x = byte_of i y \/
   (Z.lxor (byte_of i x) (byte_of i y) = 1 /\ 0 < i /\
    lane_flag (i - 1) (CompareEq x y) = true)).
Proof.
  intros Hx Hy Hi. unfold CompareEq. cbv zeta.
  assert (Hw : 0 <= Z.lxor x y < 2 ^ 64).
  { unfold is_u64 in *. split.
    - apply Z.lxor_nonneg. lia.
    - destruct (Z.eq_dec (Z.lxor x y) 0) as [-> | Hne]; [lia|].
      apply Z.log2_lt_pow2; [pose proof (proj2 (Z.lxor_nonneg x y)); lia|].
      eapply Z.le_lt_trans; [apply Z.log2_lxor; lia|].
      apply Z.max_lub_lt.
      + destruct (Z.eq_dec x 0) as [-> | ?]; [simpl; lia|]. apply Z.log2_lt_pow2; lia.
      + destruct (Z.eq_dec y 0) as [-> | ?]; [simpl; lia|]. apply Z.log2_lt_pow2; lia. }
  rewrite lane_arith by assumption.
  rewrite byte_of_lxor.
  assert (Heq : Z.lxor (byte_of i x) (byte_of i y) = 0 <-> byte_of i x = byte_of i y)
    by apply Z.lxor_eq_0_iff.
  destruct (Z.eq_dec i 0) as [-> | Hi0].
  - unfold ones_le. change (2 ^ (8 * 0)) with 1. rewrite !Z.mod_1_r.
    rewrite Heq. split; intros [H | H]; auto; lia.
  - rewrite borrow_is_lower_flag by lia.
    rewrite (lane_arith (Z.lxor x y) (i - 1)) by (assumption || lia).
    rewrite Heq. split.
    + intros [H | [H1 H2]]; [now left | right; repeat split; auto; lia].
    + intros [H | [H1 [_ H2]]]; [now left | right; split; auto].
Qed.

Lemma CompareEq_lane_witness :
  lane_flag 1 (CompareEq 0x0100 0) = true <->
  (byte_of 1 0x0100 = byte_of 1 0 \/
   (Z.lxor (byte_of 1 0x0100) (byte_of 1 0) = 1 /\ 0 < 1 /\
    lane_flag (1 - 1) (CompareEq 0x0100 0) = true)).
Proof.
  apply (CompareEq_lane 0x0100 0 1); unfold is_u64; lia.
Defined.

(** Bytes 0x01 and 0x00 in lane 1 above an equal lane 0: lane 1 is
    flagged although the bytes differ. *)
Lemma CompareEq_false_positive :
  ~ (forall x y i, is_u64 x -> is_u64 y -> 0 <= i < 8 ->
       (lane_flag i (CompareEq x y) = true <-> byte_of i x = byte_of i y)).
Proof.
  intros Hclaim.
  specialize (Hclaim 0x0100 0 1).
  assert (Hflag : lane_flag 1 (CompareEq 0x0100 0) = true) by (vm_compute; reflexivity).
  apply Hclaim in Hflag; unfold is_u64; try lia.
  vm_compute in Hflag. discriminate.
Qed.

(** ** [EndStore] *)

Lemma crossing_split (v n : Z) :
  0 <= n <= 4096 -> 4096 < Z.land v 4095 + n ->
  wrap32 (4096 - Z.land v 4095) = 4096 - Z.land v 4095 /\
  wrap64 (Z.land v 4095 + n) = Z.land v 4095 + n /\
  0 < 4096 - Z.land v 4095 < n.
Proof.
  intros Hn Hcross.
  assert (Hlow : 0 <= Z.land v 4095 < 4096).
  { change 4095 with (Z.ones 12). rewrite Z.land_ones by lia.
    apply Z.mod_pos_bound. lia. }
  unfold wrap32, wrap64. rewrite !Z.mod_small; lia.
Qed.

(** C10.  The claim is that the assertion [k > n] of a page-crossing
    [EndStore] always holds.  In the code it never does: whenever the
    store crosses a page ([n <= 4096] and [(v & 4095) + n > 4096]),
    [k = 4096 - (v & 4095)] is smaller than [n] and the call stops at the
    assertion. *)
Theorem EndStore_assertion_fails (m : Mem.Machine) (v n p0 p1 b : Z) :
  0 <= n <= 4096 -> 4096 < Z.land v 4095 + n ->
  (n <? wrap32 (4096 - Z.land v 4095)) = false /\
  Mem.EndStore m v n p0 p1 b = Abort AssertFail.
Proof.
  intros Hn Hcross.
  destruct (crossing_split v n Hn Hcross) as (Hk & Hsum & Hlt).
  assert (Hfalse : (n <? wrap32 (4096 - Z.land v 4095)) = false).
  { rewrite Hk. apply Z.ltb_ge. lia. }
  split; [exact Hfalse|].
  unfold Mem.EndStore.
  replace (n <=? 4096) with true by (symmetry; apply Z.leb_le; lia).
  cbn [assert bind]. rewrite Hsum.
  replace (Z.land v 4095 + n <=? 4096) with false by (symmetry; apply Z.leb_gt; lia).
  rewrite Hfalse. reflexivity.
Qed.

Lemma EndStore_assertion_fails_witness :
  (2 <? wrap32 (4096 - Z.land 4095 4095)) = false /\
  Mem.EndStore example_machine 4095 2 0x105fff 0x106000 0x200000
    = Abort AssertFail.
Proof.
  apply (EndStore_assertion_fails example_machine 4095 2); simpl; lia.
Defined.

(** C6.  A two-byte store at guest address 4095 crosses a page, so the
    claim has [EndStore] copy the first byte of [b] to [p[0]] and the
    second to [p[1]] (here the bytes 0x07 and 0x20 that [b] holds).  The
    code stops at its assertion before either copy, and nothing is
    written. *)
Theorem EndStore_crossing_copies_nothing :
  (4096 <? Z.land 4095 4095 + 2) = true /\
  Mem.EndStore example_machine 4095 2 0x105fff 0x106000 0x101000 = Abort AssertFail /\
  Mem.ram (Mem.spec_scatter example_system 4095 2 0x105fff 0x106000 0x101000) 0x105fff
    = Byte.x07 /\
  Mem.ram (Mem.spec_scatter example_system 4095 2 0x105fff 0x106000 0x101000) 0x106000
    = Byte.x20 /\
  Mem.ram example_system 0x105fff = Byte.x00 /\
  Mem.ram example_system 0x106000 = Byte.x00.
Proof. repeat split; vm_compute; reflexivity. Qed.

(** ** [HandlePageFault] *)

Section PageFault.
Context {cfg : Config} {col : Mem.Collab}.

Lemma land_le_r a b : 0 <= b -> 0 <= Z.land a b <= b.
Proof.
  intros Hb. apply Z.ldiff_le; [exact Hb|].
  apply Z.bits_inj'. intros n Hn.
  rewrite Z.ldiff_spec, Z.land_spec, Z.bits_0.
  destruct (Z.testbit a n), (Z.testbit b n); reflexivity.
Qed.

Lemma land_u64_r a b : 0 <= b < 2 ^ 64 -> 0 <= Z.land a b < 2 ^ 64.
Proof. intros Hb. pose proof (land_le_r a b ltac:(lia)). lia. Qed.

Lemma lor_u64 a b : 0 <= a < 2 ^ 64 -> 0 <= b < 2 ^ 64 -> 0 <= Z.lor a b < 2 ^ 64.
Proof.
  intros Ha Hb. split.
  - apply Z.lor_nonneg. lia.
  - destruct (Z.eq_dec (Z.lor a b) 0) as [-> | Hne]; [lia|].
    assert (0 <= Z.lor a b) by (apply Z.lor_nonneg; lia).
    apply Z.log2_lt_pow2; [lia|].
    rewrite Z.log2_lor by lia.
    apply Z.max_lub_lt.
    + destruct (Z.eq_dec a 0) as [-> | ?]; [simpl; lia|]. apply Z.log2_lt_pow2; lia.
    + destruct (Z.eq_dec b 0) as [-> | ?]; [simpl; lia|]. apply Z.log2_lt_pow2; lia.
Qed.

Lemma wrap64_range z : 0 <= wrap64 z < 2 ^ 64.
Proof. unfold wrap64. apply Z.mod_pos_bound. lia. Qed.

Lemma wrap64_small z : 0 <= z < 2 ^ 64 -> wrap64 z = z.
Proof. intros. unfold wrap64. now apply Z.mod_small. Qed.

Lemma committed_entry_range page entry :
  ConfigOk cfg -> 0 <= Mem.committed_entry page entry < 2 ^ 64.
Proof.
  intros Hok. unfold Mem.committed_entry. apply lor_u64.
  - apply land_u64_r. apply lor_u64; [apply lor_u64|].
    + unfold PAGE_TA. lia.
    + apply (host_range _ Hok).
    + apply (map_range _ Hok).
  - apply land_u64_r. unfold not64. apply wrap64_range.
Qed.

Lemma GetPageAddress_real s s' e :
  Mem.real s' = Mem.real s -> Mem.GetPageAddress s' e = Mem.GetPageAddress s e.
Proof. intros Hr. unfold Mem.GetPageAddress. now rewrite Hr. Qed.

(** C4.  When the allocation inside [HandlePageFault] fails, the function
    returns 0 and adds nothing to what the allocator left: with an
    allocator that leaves memory and counters alone when it fails, the
    page-table word still holds the reserved entry and [reserved] and
    [committed] are unchanged.  When the allocation succeeds, the word at
    index [index] of the table holds the new entry, which is returned,
    [reserved] is one less and [committed] one more than the allocator
    left them, and no other byte of memory changes. *)
Theorem HandlePageFault_spec (m : Mem.Machine) (entry table index page : Z)
    (s1 : Mem.System) :
  ConfigOk cfg ->
  Mem.AllocatePage (Mem.system m) = (page, s1) ->
  (page = wrap64 (-1) ->
   Mem.ram s1 = Mem.ram (Mem.system m) ->
   Mem.memstat s1 = Mem.memstat (Mem.system m) ->
   exists m',
     Mem.HandlePageFault m entry table index = Ret (0, m') /\
     Mem.ram (Mem.system m') = Mem.ram (Mem.system m) /\
     Mem.memstat (Mem.system m') = Mem.memstat (Mem.system m)) /\
  (page <> wrap64 (-1) ->
   forall a, Mem.GetPageAddress s1 table = Ret a -> a <> 0 ->
   exists m',
     Mem.HandlePageFault m entry table index
       = Ret (Mem.committed_entry page entry, m') /\
     Mem.Load64 (Mem.system m') (a + index * 8) = Mem.committed_entry page entry /\
     reserved (Mem.memstat (Mem.system m')) = reserved (Mem.memstat s1) - 1 /\
     committed (Mem.memstat (Mem.system m')) = committed (Mem.memstat s1) + 1 /\
     (forall x, x < a + index * 8 \/ a + index * 8 + 8 <= x ->
        Mem.ram (Mem.system m') x = Mem.ram s1 x)).
Proof.
  intros Hok Halloc. split.
  - intros Hfail Hram Hstat. exists (Mem.set_system m s1).
    unfold Mem.HandlePageFault. rewrite Halloc, Hfail, Z.eqb_refl. cbn.
    repeat split; assumption.
  - intros Hgood a Ha Hnz.
    unfold Mem.HandlePageFault. rewrite Halloc.
    apply Z.eqb_neq in Hgood. rewrite Hgood. cbn [negb].
    rewrite (GetPageAddress_real s1) by reflexivity. rewrite Ha. cbn [bind].
    unfold Mem.deref. apply Z.eqb_neq in Hnz. rewrite Hnz. cbn [bind].
    eexists. split; [reflexivity|]. cbn.
    repeat split.
    + unfold Mem.Load64. cbn. rewrite Read64_Write64_same.
      apply wrap64_small. now apply committed_entry_range.
    + intros x Hx. unfold Write64. apply store_bytes_out.
      rewrite length_le_split. lia.
Qed.

End PageFault.

Lemma HandlePageFault_spec_witness :
  (wrap64 (-1) = wrap64 (-1) ->
   Mem.ram example_system = Mem.ram example_system ->
   Mem.memstat example_system = Mem.memstat example_system ->
   exists m',
     @Mem.HandlePageFault blink_config failing_collab example_machine 0x201 0x4007 3
       = Ret (0, m') /\
     Mem.ram (Mem.system m') = Mem.ram example_system /\
     Mem.memstat (Mem.system m') = Mem.memstat example_system) /\
  (wrap64 (-1) <> wrap64 (-1) ->
   forall a, @Mem.GetPageAddress blink_config example_system 0x4007
               = Ret a -> a <> 0 ->
   exists m',
     @Mem.HandlePageFault blink_config failing_collab example_machine 0x201 0x4007 3
       = Ret (@Mem.committed_entry blink_config (wrap64 (-1)) 0x201, m') /\
     Mem.Load64 (Mem.system m') (a + 3 * 8)
       = @Mem.committed_entry blink_config (wrap64 (-1)) 0x201 /\
     reserved (Mem.memstat (Mem.system m'))
       = reserved (Mem.memstat example_system) - 1 /\
     committed (Mem.memstat (Mem.system m'))
       = committed (Mem.memstat example_system) + 1 /\
     (forall x, x < a + 3 * 8 \/ a + 3 * 8 + 8 <= x ->
        Mem.ram (Mem.system m') x = Mem.ram example_system x)).
Proof.
  apply (@HandlePageFault_spec blink_config failing_collab example_machine
           0x201 0x4007 3 (wrap64 (-1)) example_system).
  - exact blink_config_ok.
  - reflexivity.
Defined.
(** ** The TLB probe *)

Lemma In_upd {A} (l : list A) i x y : In y (upd l i x) -> y = x \/ In y l.
Proof.
  revert i. induction l as [|h t IH]; intros [|i] Hin; cbn in *; try tauto.
  - destruct Hin as [-> | Hin]; auto.
  - destruct Hin as [-> | Hin]; auto. destruct (IH _ Hin); auto.
Qed.

Lemma lt_pow2_of_high_bits x n :
  0 <= x -> 0 <= n -> (forall k, n <= k -> Z.testbit x k = false) -> x < 2 ^ n.
Proof.
  intros Hx Hn Hbits.
  assert (E : x = x mod 2 ^ n).
  { apply Z.bits_inj'. intros k Hk.
    destruct (Z_lt_ge_dec k n).
    - now rewrite Z.mod_pow2_bits_low.
    - rewrite Z.mod_pow2_bits_high by lia. apply Hbits. lia. }
  rewrite E. apply Z.mod_pos_bound. apply Z.pow_pos_nonneg; lia.
Qed.

Lemma lor_lt_pow2 a b n :
  0 <= n -> 0 <= a < 2 ^ n -> 0 <= b < 2 ^ n -> 0 <= Z.lor a b < 2 ^ n.
Proof.
  intros Hn Ha Hb. split; [apply Z.lor_nonneg; lia|].
  apply lt_pow2_of_high_bits; [apply Z.lor_nonneg; lia | lia |].
  intros k Hk. rewrite Z.lor_spec.
  assert (Hhigh : forall c, 0 <= c < 2 ^ n -> Z.testbit c k = false).
  { intros c Hc. destruct (Z.eq_dec c 0) as [-> | Hc0]; [apply Z.bits_0|].
    apply Z.bits_above_log2; [lia|].
    assert (Z.log2 c < n) by (apply Z.log2_lt_pow2; lia). lia. }
  now rewrite !Hhigh.
Qed.

(** Clearing the highest set bit, as [i &= ~(1 << bsr(i))] does. *)
Lemma clear_top_bit i :
  0 < i -> 0 <= Z.land i (Z.lnot (Z.shiftl 1 (Z.log2 i))) < 2 ^ Z.log2 i.
Proof.
  intros Hi. pose proof (Z.log2_nonneg i) as Hj.
  assert (Hnn : 0 <= Z.land i (Z.lnot (Z.shiftl 1 (Z.log2 i))))
    by (apply Z.land_nonneg; lia).
  split; [exact Hnn|].
  apply lt_pow2_of_high_bits; [exact Hnn | exact Hj |].
  intros k Hk. rewrite Z.land_spec, Z.lnot_spec by lia.
  rewrite Z.shiftl_spec by lia.
  destruct (Z.eq_dec k (Z.log2 i)) as [-> | Hne].
  - rewrite Z.sub_diag. cbn. apply andb_false_r.
  - rewrite Z.bits_above_log2 by lia. reflexivity.
Qed.

(** Clearing the lane of the highest set bit, as
    [key &= ~(0xFFull << (j * 8))] with [j = bsr(key) >> 3] does. *)
Lemma clear_top_lane key :
  0 < key < 2 ^ 64 ->
  let j := Z.shiftr (Z.log2 key) 3 in
  0 <= Z.land key (not64 (Z.shiftl 0xFF (j * 8))) < 2 ^ (8 * j).
Proof.
  intros Hk j. pose proof (Z.log2_nonneg key) as Hl.
  assert (Hlog : Z.log2 key < 64) by (apply Z.log2_lt_pow2; lia).
  assert (Hj : 0 <= j /\ 8 * j <= Z.log2 key < 8 * j + 8).
  { subst j. rewrite Z.shiftr_div_pow2 by lia. change (2 ^ 3) with 8.
    Z.div_mod_to_equations. lia. }
  assert (Hnn : 0 <= Z.land key (not64 (Z.shiftl 0xFF (j * 8))))
    by (apply Z.land_nonneg; lia).
  split; [exact Hnn|].
  apply lt_pow2_of_high_bits; [exact Hnn | lia |].
  intros k Hge. rewrite Z.land_spec.
  destruct (Z_lt_ge_dec (Z.log2 key) k).
  - rewrite Z.bits_above_log2 by lia. reflexivity.
  - unfold not64, wrap64. rewrite Z.mod_pow2_bits_low by lia.
    rewrite Z.lnot_spec by lia. rewrite Z.shiftl_spec by lia.
    replace (Z.testbit 255 (k - j * 8)) with true; [apply andb_false_r|].
    assert (Hc : k - j * 8 = 0 \/ k - j * 8 = 1 \/ k - j * 8 = 2 \/ k - j * 8 = 3 \/
                 k - j * 8 = 4 \/ k - j * 8 = 5 \/ k - j * 8 = 6 \/ k - j * 8 = 7) by lia.
    destruct Hc as [-> | [-> | [-> | [-> | [-> | [-> | [-> | ->]]]]]]]; reflexivity.
Qed.

Section Tlb.
Context {cfg : Config} {col : Mem.Collab}.

Lemma tlb_from_refl m : tlb_from m m.
Proof. repeat split; auto. Qed.

Lemma entry_at_In m j :
  In (Mem.entry_at m j) (tlb_entry (Mem.tlb m)) \/ Mem.entry_at m j = null_entry.
Proof.
  unfold Mem.entry_at.
  destruct (nth_in_or_default (Z.to_nat j) (tlb_entry (Mem.tlb m)) null_entry); auto.
Qed.

Lemma In_SetTlbEntry m i e x :
  In x (tlb_entry (Mem.tlb (Mem.SetTlbEntry m i e))) ->
  x = e \/ In x (tlb_entry (Mem.tlb m)).
Proof. cbn. apply In_upd. Qed.

Lemma tlb_hit_spec m j :
  0 < j ->
  exists m', Mem.tlb_hit m j = Ret (entry (Mem.entry_at m j), m') /\ tlb_from m m'.
Proof.
  intros Hj. unfold Mem.tlb_hit.
  replace (0 <? j) with true by (symmetry; apply Z.ltb_lt; lia).
  cbn [assert bind]. eexists. split; [reflexivity|].
  repeat split; try reflexivity.
  intros e Hin.
  apply In_SetTlbEntry in Hin. destruct Hin as [-> | Hin]; [apply entry_at_In|].
  apply In_SetTlbEntry in Hin. destruct Hin as [-> | Hin]; [apply entry_at_In|].
  now left.
Qed.

Lemma scan_mask_spec m pg fuel i :
  page (Mem.entry_at m 0) <> pg ->
  0 <= i < 2 ^ Z.of_nat fuel ->
  exists r, Mem.scan_mask (S fuel) m pg i = Ret r /\ probe_result m pg r.
Proof.
  intros Hslot0. revert i. induction fuel as [|fuel IH]; intros i Hi.
  - assert (i = 0) by (cbn in Hi; lia). subst i. cbn.
    eexists. split; [reflexivity | now left].
  - cbn [Mem.scan_mask]. destruct (Z.eqb_spec i 0) as [-> | Hnz].
    + eexists. split; [reflexivity | now left].
    + unfold Mem.bsr. destruct (Z.eqb_spec (page (Mem.entry_at m (Z.log2 i))) pg) as [Hpg | Hpg].
      * assert (Hj : 0 < Z.log2 i).
        { pose proof (Z.log2_nonneg i).
          destruct (Z.eq_dec (Z.log2 i) 0) as [E | ?]; [|lia].
          rewrite E in Hpg. contradiction. }
        destruct (tlb_hit_spec m _ Hj) as (m' & Hhit & Hfrom).
        eexists. split; [exact Hhit|]. right. exists (Z.log2 i). auto.
      * apply IH. pose proof (clear_top_bit i ltac:(lia)) as Hc.
        assert (Z.log2 i < Z.of_nat (S fuel)) by (apply Z.log2_lt_pow2; lia).
        split; [lia|]. eapply Z.lt_le_trans; [apply Hc|].
        apply Z.pow_le_mono_r; lia.
Qed.

Lemma scan_lanes_spec m pg i fuel key :
  page (Mem.entry_at m 0) <> pg -> 0 <= i ->
  0 <= key < 2 ^ (8 * Z.of_nat fuel) -> (fuel <= 8)%nat ->
  exists r, Mem.scan_lanes (S fuel) m pg i key = Ret r /\
            match r with
            | None => True
            | Some hit => probe_result m pg hit
            end.
Proof.
  intros Hslot0 Hi. revert key. induction fuel as [|fuel IH]; intros key Hkey Hfuel.
  - assert (key = 0) by (cbn in Hkey; lia). subst key. cbn.
    eexists. split; [reflexivity | exact I].
  - cbn [Mem.scan_lanes]. destruct (Z.eqb_spec key 0) as [-> | Hnz].
    + eexists. split; [reflexivity | exact I].
    + assert (Hk64 : 0 < key < 2 ^ 64).
      { split; [lia|]. eapply Z.lt_le_trans; [apply Hkey|].
        apply Z.pow_le_mono_r; lia. }
      pose proof (clear_top_lane key Hk64) as Hc. cbv zeta in Hc.
      assert (Hlog : Z.log2 key < 8 * Z.of_nat (S fuel)) by (apply Z.log2_lt_pow2; lia).
      assert (Hj : 0 <= Z.shiftr (Z.log2 key) 3 < Z.of_nat (S fuel)).
      { pose proof (Z.log2_nonneg key).
        rewrite Z.shiftr_div_pow2 by lia. change (2 ^ 3) with 8.
        Z.div_mod_to_equations. lia. }
      unfold Mem.bsr.
      destruct (Z.eqb_spec (page (Mem.entry_at m (i * 8 + Z.shiftr (Z.log2 key) 3))) pg)
        as [Hpg | Hpg].
      * assert (Hpos : 0 < i * 8 + Z.shiftr (Z.log2 key) 3).
        { destruct (Z.eq_dec (i * 8 + Z.shiftr (Z.log2 key) 3) 0) as [E | ?]; [|lia].
          rewrite E in Hpg. contradiction. }
        destruct (tlb_hit_spec m _ Hpos) as (m' & Hhit & Hfrom).
        rewrite Hhit. cbn [bind]. eexists. split; [reflexivity|].
        right. eexists. eauto.
      * apply IH; [|lia]. split; [lia|].
        eapply Z.lt_le_trans; [apply Hc|]. apply Z.pow_le_mono_r; lia.
Qed.

Lemma movemask_range m k : 0 <= Mem.movemask m k < 2 ^ 16.
Proof.
  unfold Mem.movemask.
  assert (Hall : Forall (fun j => 0 <= j < 16) (map Z.of_nat (seq 0 16))).
  { apply Forall_forall. intros j Hin. apply in_map_iff in Hin.
    destruct Hin as (n & <- & Hn). apply in_seq in Hn. lia. }
  induction Hall as [|j l Hj _ IH]; cbn [fold_right]; [lia|].
  destruct (Mem.key_byte m j =? k); [|exact IH].
  apply lor_lt_pow2; [lia | | exact IH].
  rewrite Z.shiftl_1_l. split; [apply Z.pow_nonneg; lia|].
  apply Z.pow_lt_mono_r; lia.
Qed.

Lemma CompareEq_range x y : 0 <= CompareEq x y < 2 ^ 64.
Proof. unfold CompareEq. cbv zeta. apply land_u64_r. lia. Qed.

Lemma scan_groups_spec m pg groups i :
  page (Mem.entry_at m 0) <> pg -> 0 <= i ->
  exists r, Mem.scan_groups groups m pg i = Ret r /\ probe_result m pg r.
Proof.
  intros Hslot0. revert i. induction groups as [|groups IH]; intros i Hi.
  - cbn. eexists. split; [reflexivity | now left].
  - cbn [Mem.scan_groups].
    destruct (scan_lanes_spec m pg i 8
                (CompareEq (nth (Z.to_nat i) (tlb_key (Mem.tlb m)) 0)
                   (wrap64 (Mem.GetTlbKey pg * 0x0101010101010101)))
                Hslot0 Hi (CompareEq_range _ _) (le_n 8)) as (r & Hr & Hres).
    rewrite Hr. cbn [bind]. destruct r as [hit|].
    + eexists. split; [reflexivity | exact Hres].
    + apply IH. lia.
Qed.

(** [GetTlbEntry] always returns: either the entry of a slot that holds
    the probed page, or 0; the system is untouched and the TLB keeps its
    entries (up to order and empty slots). *)
Lemma GetTlbEntry_spec m pg :
  exists x m',
    Mem.GetTlbEntry m pg = Ret (x, m') /\ tlb_from m m' /\
    (x <> 0 -> exists e, In e (tlb_entry (Mem.tlb m)) /\ page e = pg /\ entry e = x).
Proof.
  assert (Hnonnull : forall j x, x <> 0 -> x = entry (Mem.entry_at m j) ->
            page (Mem.entry_at m j) = pg ->
            exists e, In e (tlb_entry (Mem.tlb m)) /\ page e = pg /\ entry e = x).
  { intros j x Hx Hxe Hpg. exists (Mem.entry_at m j).
    destruct (entry_at_In m j) as [Hin | Hnull]; [auto|].
    rewrite Hnull in Hxe. cbn in Hxe. congruence. }
  unfold Mem.GetTlbEntry.
  destruct (Z.eqb_spec (page (Mem.entry_at m 0)) pg) as [Hpg | Hpg].
  - exists (entry (Mem.entry_at m 0)), m. split; [reflexivity|].
    split; [apply tlb_from_refl|]. intros Hx. eapply Hnonnull; eauto.
  - assert (Hscan : exists r,
      (if x86_64_gnuc
       then Mem.scan_mask 17 m pg (Mem.movemask m (Z.land (Mem.GetTlbKey pg) 0xff))
       else Mem.scan_groups (Z.to_nat (kTlbEntries / 8)) m pg 0) = Ret r /\
      probe_result m pg r).
    { destruct x86_64_gnuc.
      - apply (scan_mask_spec m pg 16); [exact Hpg | apply movemask_range].
      - apply scan_groups_spec; [exact Hpg | lia]. }
    destruct Hscan as ([x m'] & Hr & [Hmiss | (j & Hj & Hx & Hfrom)]).
    + inversion Hmiss; subst. exists 0, m. split; [exact Hr|].
      split; [apply tlb_from_refl|]. intros Hx. congruence.
    + exists x, m'. split; [exact Hr|]. split; [exact Hfrom|].
      intros Hnz. eapply Hnonnull; eauto.
Qed.

End Tlb.
(** ** Addresses outside the canonical range *)

Section Canonical.
Context {cfg : Config} {col : Mem.Collab}.

Lemma In_reset_tlb e : In e (tlb_entry ResetTlb_tlb) -> e = null_entry.
Proof. cbn. intros Hin. now apply repeat_spec in Hin. Qed.

Lemma TlbCanonical_reset m : TlbCanonical (Mem.ResetTlb m).
Proof.
  intros e Hin Hnz. apply In_reset_tlb in Hin. subst e. cbn in Hnz. congruence.
Qed.

Lemma TlbCanonical_from m m' : tlb_from m m' -> TlbCanonical m -> TlbCanonical m'.
Proof.
  intros (_ & _ & _ & Hin) Hc e He Hnz.
  destruct (Hin e He) as [Hold | ->]; [now apply Hc | cbn in Hnz; congruence].
Qed.

Lemma HandlePageFault_tlb m e t i x m' :
  Mem.HandlePageFault m e t i = Ret (x, m') ->
  Mem.tlb m' = Mem.tlb m /\ Mem.mode m' = Mem.mode m /\
  Mem.invalidated m' = Mem.invalidated m.
Proof.
  unfold Mem.HandlePageFault.
  destruct (Mem.AllocatePage (Mem.system m)) as [pg s1].
  destruct (negb (pg =? wrap64 (-1))).
  - destruct (Mem.GetPageAddress _ t) as [a|]; cbn [bind]; [|discriminate].
    destruct (Mem.deref a) as [a'|]; cbn [bind]; [|discriminate].
    intros [= <- <-]. auto.
  - intros [= <- <-]. auto.
Qed.

(** A miss keeps the TLB, or adds the walked page at the last slot. *)
Lemma miss_tlb m pg x m' :
  Mem.FindPageTableEntry_miss m pg = Ret (x, m') ->
  Mem.mode m' = Mem.mode m /\ Mem.invalidated m' = Mem.invalidated m /\
  ((x = 0 /\ Mem.tlb m' = Mem.tlb m) \/
   (Mem.canonical pg = true /\
    forall e, In e (tlb_entry (Mem.tlb m')) ->
              e = {| page := pg; entry := x |} \/ In e (tlb_entry (Mem.tlb m)))).
Proof.
  unfold Mem.FindPageTableEntry_miss.
  destruct (Mem.canonical pg) eqn:Hcan; cbn [negb].
  2:{ intros [= <- <-]. auto. }
  destruct (Mem.walk (Mem.system m) pg) as [[[[t i] e]|]|]; cbn [bind];
    [| intros [= <- <-]; auto | discriminate].
  destruct (negb (Z.land e PAGE_RSRV =? 0)).
  - destruct (Mem.HandlePageFault m e t i) as [[x' m1]|] eqn:Hf; cbn [bind];
      [|discriminate].
    apply HandlePageFault_tlb in Hf. destruct Hf as (Ht & Hm & Hi).
    destruct (Z.eqb_spec x' 0) as [-> | Hnz]; intros [= <- <-].
    + auto.
    + split; [exact Hm|]. split; [exact Hi|]. right.
      split; [reflexivity|]. intros e' Hin. apply In_SetTlbEntry in Hin.
      rewrite Ht in Hin. exact Hin.
  - intros [= <- <-].
    split; [reflexivity|]. split; [reflexivity|]. right.
    split; [reflexivity|]. intros e' Hin. now apply In_SetTlbEntry in Hin.
Qed.

Lemma TlbCanonical_miss m pg x m' :
  Mem.FindPageTableEntry_miss m pg = Ret (x, m') -> TlbCanonical m -> TlbCanonical m'.
Proof.
  intros Hmiss Hc. apply miss_tlb in Hmiss.
  destruct Hmiss as (_ & _ & [[_ Ht] | (Hcan & Hin)]).
  - intros e He. rewrite Ht in He. now apply Hc.
  - intros e He Hnz. destruct (Hin e He) as [-> | Hold]; [exact Hcan | now apply Hc].
Qed.

(** [FindPageTableEntry] is the probe followed, on a miss, by the walk. *)
Lemma FindPageTableEntry_cases m pg :
  (Mem.invalidated m = true /\
   Mem.FindPageTableEntry m pg =
     Mem.FindPageTableEntry_miss (Mem.set_invalidated (Mem.ResetTlb m) false) pg) \/
  (Mem.invalidated m = false /\
   exists x m1, Mem.GetTlbEntry m pg = Ret (x, m1) /\ tlb_from m m1 /\
     (x <> 0 -> exists e, In e (tlb_entry (Mem.tlb m)) /\ page e = pg /\ entry e = x) /\
     Mem.FindPageTableEntry m pg =
       if negb (x =? 0) then Ret (x, m1) else Mem.FindPageTableEntry_miss m1 pg).
Proof.
  unfold Mem.FindPageTableEntry. destruct (Mem.invalidated m) eqn:Hinv; cbn [negb].
  - left. split; [reflexivity|]. reflexivity.
  - right. split; [reflexivity|].
    destruct (GetTlbEntry_spec m pg) as (x & m1 & Hget & Hfrom & Hhit).
    exists x, m1. rewrite Hget. cbn [bind]. auto.
Qed.

Lemma TlbCanonical_translate m pg x m' :
  Mem.FindPageTableEntry m pg = Ret (x, m') -> TlbCanonical m -> TlbCanonical m'.
Proof.
  intros Hfind Hc.
  destruct (FindPageTableEntry_cases m pg) as [[_ E] | (_ & y & m1 & _ & Hfrom & _ & E)];
    rewrite E in Hfind.
  - eapply TlbCanonical_miss; [exact Hfind|]. apply (TlbCanonical_reset m).
  - pose proof (TlbCanonical_from _ _ Hfrom Hc) as Hc1.
    destruct (negb (y =? 0)).
    + now inversion Hfind; subst.
    + eapply TlbCanonical_miss; eassumption.
Qed.

Lemma reachable_canonical m : Mem.reachable m -> TlbCanonical m.
Proof.
  induction 1 as [m | m pg x m' _ IH Hfind | m s _ IH | m md _ IH | m b _ IH].
  - apply TlbCanonical_reset.
  - eapply TlbCanonical_translate; eassumption.
  - exact IH.
  - exact IH.
  - exact IH.
Qed.

(** C3.  In every reachable machine, translating an address whose page
    lies outside [-2^47, 2^47) fails: [FindPageTableEntry] returns 0 (the
    TLB probe that precedes the range check cannot hit), and outside real
    mode [LookupAddress] returns the null pointer. *)
Theorem noncanonical_fails (m : Mem.Machine) (v : Z) :
  Mem.reachable m ->
  Mem.canonical (Z.land v (-4096)) = false ->
  (exists m', Mem.FindPageTableEntry m (Z.land v (-4096)) = Ret (0, m')) /\
  (Mem.mode m <> Mem.XED_MODE_REAL ->
   exists m', Mem.LookupAddress m v = Ret (0, m')).
Proof.
  intros Hreach Hcan. apply reachable_canonical in Hreach.
  assert (Hfind : exists m', Mem.FindPageTableEntry m (Z.land v (-4096)) = Ret (0, m')).
  { assert (Hmiss : forall m1, exists m',
              Mem.FindPageTableEntry_miss m1 (Z.land v (-4096)) = Ret (0, m')).
    { intros m1. unfold Mem.FindPageTableEntry_miss. rewrite Hcan. cbn. eauto. }
    destruct (FindPageTableEntry_cases m (Z.land v (-4096)))
      as [[_ E] | (_ & x & m1 & _ & _ & Hhit & E)]; rewrite E.
    - apply Hmiss.
    - destruct (Z.eqb_spec x 0) as [-> | Hnz]; cbn [negb]; [apply Hmiss|].
      exfalso. destruct (Hhit Hnz) as (e & Hin & Hpg & Hx).
      specialize (Hreach e Hin ltac:(congruence)). congruence. }
  split; [exact Hfind|].
  intros Hmode. destruct Hfind as (m' & Hfind).
  unfold Mem.LookupAddress. rewrite Hfind. cbn.
  destruct (Mem.mode m); [contradiction | eauto | eauto].
Qed.

End Canonical.

Lemma noncanonical_fails_witness :
  (exists m', @Mem.FindPageTableEntry blink_config paged_collab
                (@Mem.ResetTlb blink_config example_machine)
                (Z.land 0x800000000123 (-4096)) = Ret (0, m')) /\
  (Mem.mode (@Mem.ResetTlb blink_config example_machine) <> Mem.XED_MODE_REAL ->
   exists m', @Mem.LookupAddress blink_config paged_collab
                (@Mem.ResetTlb blink_config example_machine) 0x800000000123
              = Ret (0, m')).
Proof.
  apply (@noncanonical_fails blink_config paged_collab
           (@Mem.ResetTlb blink_config example_machine) 0x800000000123).
  - apply Mem.reach_reset.
  - reflexivity.
Defined.
(** ** The TLB against the page tables *)

Section Fidelity.
Context {cfg : Config} {col : Mem.Collab}.
Hypothesis cfg_ok : ConfigOk cfg.

Lemma not64_spec x n :
  0 <= n < 64 -> Z.testbit (not64 x) n = negb (Z.testbit x n).
Proof.
  intros Hn. unfold not64, wrap64.
  rewrite Z.mod_pow2_bits_low by lia. apply Z.lnot_spec. lia.
Qed.

Lemma land_pow2 x k : 0 <= k -> Z.land x (2 ^ k) = if Z.testbit x k then 2 ^ k else 0.
Proof.
  intros Hk. apply Z.bits_inj'. intros n Hn. rewrite Z.land_spec.
  destruct (Z.eq_dec n k) as [-> | Hne].
  - rewrite Z.pow2_bits_true by lia. rewrite andb_true_r.
    destruct (Z.testbit x k); [now rewrite Z.pow2_bits_true by lia | now rewrite Z.bits_0].
  - rewrite Z.pow2_bits_false by lia. rewrite andb_false_r.
    destruct (Z.testbit x k); [now rewrite Z.pow2_bits_false by lia | now rewrite Z.bits_0].
Qed.

(** The two tests of the reservation bit in the code exclude each other:
    [entry & PAGE_RSRV] in the walker, [~entry & PAGE_RSRV] in the
    assertion of [GetPageAddress]. *)
Lemma rsrv_tests x :
  Z.land x PAGE_RSRV <> 0 -> Z.land (not64 x) PAGE_RSRV = 0.
Proof.
  destruct (rsrv_bit _ cfg_ok) as (k & Hk & ->).
  rewrite !land_pow2 by lia. rewrite not64_spec by lia.
  assert (2 ^ k <> 0) by (apply Z.pow_nonzero; lia).
  destruct (Z.testbit x k); cbn; congruence.
Qed.

Lemma rsrv_position :
  exists k, 0 < k < 64 /\ PAGE_RSRV = 2 ^ k /\
            Z.testbit (Z.lor (Z.lor PAGE_TA PAGE_HOST) PAGE_MAP) k = false /\
            Z.testbit PAGE_TA k = false.
Proof.
  destruct (rsrv_bit _ cfg_ok) as (k & Hk & HR).
  pose proof (rsrv_fresh _ cfg_ok) as Hfresh. rewrite HR in Hfresh.
  apply (f_equal (fun z => Z.testbit z k)) in Hfresh.
  rewrite Z.land_spec, Z.pow2_bits_true, Z.bits_0 in Hfresh by lia.
  rewrite !Z.lor_spec in Hfresh. cbn [andb] in Hfresh.
  apply orb_false_iff in Hfresh. destruct Hfresh as [HV Hrest].
  apply orb_false_iff in Hrest. destruct Hrest as [HTA Hrest].
  apply orb_false_iff in Hrest. destruct Hrest as [HH HM].
  exists k. assert (k <> 0) by (intros ->; cbn in HV; discriminate).
  split; [lia|]. split; [exact HR|].
  rewrite !Z.lor_spec, HTA, HH, HM. auto.
Qed.

Lemma committed_entry_rsrv pg e : Z.land (Mem.committed_entry pg e) PAGE_RSRV = 0.
Proof.
  destruct rsrv_position as (k & Hk & HR & HM & HTA).
  rewrite HR, land_pow2 by lia. unfold Mem.committed_entry.
  rewrite Z.lor_spec, !Z.land_spec, HM, not64_spec by lia.
  rewrite Z.lor_spec, HTA, HR, Z.pow2_bits_true by lia. cbn.
  now rewrite !andb_false_r.
Qed.

Lemma committed_entry_V pg e :
  Z.land e PAGE_V <> 0 -> Z.land (Mem.committed_entry pg e) PAGE_V <> 0.
Proof.
  destruct rsrv_position as (k & Hk & HR & HM & HTA).
  unfold PAGE_V. change 1 with (2 ^ 0). rewrite !land_pow2 by lia.
  intros He. destruct (Z.testbit e 0) eqn:E0; [|congruence].
  unfold Mem.committed_entry.
  rewrite Z.lor_spec, !Z.land_spec, E0, not64_spec by lia.
  rewrite !Z.lor_spec, HR, Z.pow2_bits_false by lia.
  change (Z.testbit PAGE_TA 0) with false. cbn. rewrite orb_true_r. cbn. lia.
Qed.

(** *** Page-table slots are 8-byte aligned *)

Lemma land_TA_aligned t : Z.land t PAGE_TA mod 8 = 0.
Proof.
  change 8 with (2 ^ 3). rewrite <- Z.land_ones by lia.
  rewrite <- Z.land_assoc. change (Z.land PAGE_TA (Z.ones 3)) with 0.
  apply Z.land_0_r.
Qed.

Lemma wrap64_mod8 z : wrap64 z mod 8 = z mod 8.
Proof.
  unfold wrap64. apply Z.mod_mod_divide. exists (2 ^ 61). reflexivity.
Qed.

Lemma GetPageAddress_aligned s t a :
  Mem.real s mod 8 = 0 -> Mem.GetPageAddress s t = Ret a -> a mod 8 = 0.
Proof.
  intros Hreal. unfold Mem.GetPageAddress.
  destruct (assert (negb (Z.land t PAGE_V =? 0))); cbn [bind]; [|discriminate].
  destruct (assert (negb (Z.land (not64 t) PAGE_RSRV =? 0))); cbn [bind]; [|discriminate].
  pose proof (land_TA_aligned t) as Hta.
  destruct (negb (Z.land t PAGE_HOST =? 0)).
  - intros [= <-]. unfold Mem.ToHost. rewrite wrap64_mod8.
    rewrite Z.add_mod by lia. rewrite (base_aligned _ cfg_ok), Hta. reflexivity.
  - destruct (Z.land t PAGE_TA + 4096 <=? kRealSize); intros [= <-]; [|reflexivity].
    rewrite Z.add_mod by lia. rewrite Hreal, Hta. reflexivity.
Qed.

Lemma GetPageAddress_not_reserved s t a :
  Mem.GetPageAddress s t = Ret a -> Z.land t PAGE_RSRV = 0.
Proof.
  unfold Mem.GetPageAddress.
  destruct (assert (negb (Z.land t PAGE_V =? 0))); cbn [bind]; [|discriminate].
  destruct (Z.eqb_spec (Z.land (not64 t) PAGE_RSRV) 0) as [E | Hne]; cbn; [discriminate|].
  intros _. destruct (Z.eq_dec (Z.land t PAGE_RSRV) 0) as [|Hset]; [assumption|].
  apply rsrv_tests in Hset. contradiction.
Qed.

Lemma aligned_slots a b : a mod 8 = 0 -> b mod 8 = 0 -> a = b \/ a + 8 <= b \/ b + 8 <= a.
Proof. intros Ha Hb. Z.div_mod_to_equations. lia. Qed.

(** *** The walk reads four slots; a store elsewhere does not change it *)

Lemma walk_levels_leaf fuel s q ent level t i e :
  Mem.walk_levels fuel s q ent level = Ret (Some (t, i, e)) ->
  exists a, Mem.GetPageAddress s t = Ret a /\ a <> 0 /\
            Mem.Load64 s (a + i * 8) = e /\ Z.land e PAGE_V <> 0.
Proof.
  revert ent level. induction fuel as [|fuel IH]; intros ent level; cbn [Mem.walk_levels];
    [discriminate|].
  destruct (Mem.GetPageAddress s ent) as [a|] eqn:Ha; cbn [bind]; [|discriminate].
  unfold Mem.deref. destruct (Z.eqb_spec a 0) as [|Hnz]; cbn [bind]; [discriminate|].
  destruct (Z.eqb_spec (Z.land (Mem.Load64 s (a + Z.land (Z.shiftr q level) 511 * 8)) PAGE_V) 0)
    as [|HV]; [discriminate|].
  destruct (12 <=? level - 9).
  - apply IH.
  - intros [= <- <- <-]. exists a. auto.
Qed.

Lemma walk_levels_store fuel s W x q ent level t i e :
  Mem.real s mod 8 = 0 -> W mod 8 = 0 -> 0 <= x < 2 ^ 64 ->
  Z.land (Mem.Load64 s W) PAGE_RSRV <> 0 ->
  Mem.walk_levels fuel s q ent level = Ret (Some (t, i, e)) ->
  (Z.land e PAGE_RSRV = 0 ->
   Mem.walk_levels fuel (Mem.Store64 s W x) q ent level = Ret (Some (t, i, e))) /\
  (forall a, Mem.GetPageAddress s t = Ret a -> a + i * 8 = W ->
             Z.land x PAGE_V <> 0 ->
   Mem.walk_levels fuel (Mem.Store64 s W x) q ent level = Ret (Some (t, i, x))).
Proof.
  intros Hreal HW Hx Hrsrv.
  revert ent level. induction fuel as [|fuel IH]; intros ent level; cbn [Mem.walk_levels];
    [discriminate|].
  rewrite (GetPageAddress_real s (Mem.Store64 s W x)) by reflexivity.
  destruct (Mem.GetPageAddress s ent) as [a|] eqn:Ha; cbn [bind]; [|discriminate].
  unfold Mem.deref. destruct (Z.eqb_spec a 0) as [|Hnz]; cbn [bind]; [discriminate|].
  set (A := a + Z.land (Z.shiftr q level) 511 * 8).
  assert (HA : A mod 8 = 0).
  { subst A. rewrite Z.add_mod, Z.mod_mul, (GetPageAddress_aligned s ent a Hreal Ha) by lia.
    reflexivity. }
  assert (Hsame : Mem.Load64 (Mem.Store64 s W x) W = x).
  { unfold Mem.Load64, Mem.Store64. cbn. rewrite Read64_Write64_same.
    now apply wrap64_small. }
  assert (Hother : A <> W -> Mem.Load64 (Mem.Store64 s W x) A = Mem.Load64 s A).
  { intros Hne. unfold Mem.Load64, Mem.Store64. cbn. apply Read64_Write64_other.
    destruct (aligned_slots A W HA HW) as [? | [? | ?]]; [contradiction | lia | lia]. }
  destruct (Z.eqb_spec (Z.land (Mem.Load64 s A) PAGE_V) 0) as [|HV]; [discriminate|].
  destruct (12 <=? level - 9) eqn:Hlevel.
  - (* an intermediate level: its entry is not reserved, so the slot is not W *)
    intros Hwalk.
    assert (HAW : A <> W).
    { intros ->. destruct fuel as [|fuel']; cbn [Mem.walk_levels] in Hwalk; [discriminate|].
      destruct (Mem.GetPageAddress s (Mem.Load64 s W)) as [a'|] eqn:Ha'; cbn [bind] in Hwalk;
        [|discriminate].
      apply GetPageAddress_not_reserved in Ha'. contradiction. }
    rewrite (Hother HAW).
    destruct (Z.eqb_spec (Z.land (Mem.Load64 s A) PAGE_V) 0); [contradiction|].
    now apply IH.
  - intros [= <- <- <-]. split.
    + intros He. assert (HAW : A <> W) by (intros ->; contradiction).
      rewrite (Hother HAW).
      destruct (Z.eqb_spec (Z.land (Mem.Load64 s A) PAGE_V) 0); [contradiction|].
      reflexivity.
    + intros a' Ha' HaW HxV. rewrite Ha in Ha'. inversion Ha'; subst a'.
      fold A in HaW. rewrite HaW, Hsame.
      destruct (Z.eqb_spec (Z.land x PAGE_V) 0); [contradiction|]. reflexivity.
Qed.

Lemma walk_store s W x q t i e :
  Mem.real s mod 8 = 0 -> W mod 8 = 0 -> 0 <= x < 2 ^ 64 ->
  Z.land (Mem.Load64 s W) PAGE_RSRV <> 0 ->
  Mem.walk s q = Ret (Some (t, i, e)) ->
  (Z.land e PAGE_RSRV = 0 ->
   Mem.walk (Mem.Store64 s W x) q = Ret (Some (t, i, e))) /\
  (forall a, Mem.GetPageAddress s t = Ret a -> a + i * 8 = W ->
             Z.land x PAGE_V <> 0 ->
   Mem.walk (Mem.Store64 s W x) q = Ret (Some (t, i, x))).
Proof.
  intros Hreal HW Hx Hrsrv. unfold Mem.walk. cbn [Mem.cr3 Mem.Store64 Mem.set_ram].
  destruct (assert (negb (Mem.cr3 s =? 0))); cbn [bind]; [|discriminate].
  now apply walk_levels_store.
Qed.

Lemma walk_leaf s q t i e :
  Mem.walk s q = Ret (Some (t, i, e)) ->
  exists a, Mem.GetPageAddress s t = Ret a /\ a <> 0 /\
            Mem.Load64 s (a + i * 8) = e /\ Z.land e PAGE_V <> 0.
Proof.
  unfold Mem.walk.
  destruct (assert (negb (Mem.cr3 s =? 0))); cbn [bind]; [|discriminate].
  apply walk_levels_leaf.
Qed.

(** The walk looks at the arena address, [cr3] and memory only. *)
Lemma walk_levels_memstat fuel s st q ent level :
  Mem.walk_levels fuel (Mem.set_memstat s st) q ent level = Mem.walk_levels fuel s q ent level.
Proof.
  revert ent level. induction fuel as [|fuel IH]; intros ent level; cbn [Mem.walk_levels];
    [reflexivity|].
  rewrite (GetPageAddress_real s (Mem.set_memstat s st)) by reflexivity.
  destruct (Mem.GetPageAddress s ent) as [a|]; cbn [bind]; [|reflexivity].
  destruct (Mem.deref a) as [a'|]; cbn [bind]; [|reflexivity].
  change (Mem.Load64 (Mem.set_memstat s st)) with (Mem.Load64 s).
  destruct (Z.land _ PAGE_V =? 0); [reflexivity|].
  destruct (12 <=? level - 9); [apply IH | reflexivity].
Qed.

Lemma walk_memstat s st q : Mem.walk (Mem.set_memstat s st) q = Mem.walk s q.
Proof. unfold Mem.walk. cbn [Mem.cr3 Mem.set_memstat]. now rewrite walk_levels_memstat. Qed.

(** *** A miss keeps the TLB coherent *)

Hypothesis alloc_frame : AllocatorFrame.

Lemma HandlePageFault_cases m e t i x m' :
  Mem.HandlePageFault m e t i = Ret (x, m') ->
  let s1 := snd (Mem.AllocatePage (Mem.system m)) in
  (x = 0 /\ m' = Mem.set_system m s1) \/
  (exists pg a st,
     x = Mem.committed_entry pg e /\
     Mem.GetPageAddress (Mem.set_memstat s1 st) t = Ret a /\ a <> 0 /\
     m' = Mem.set_system m (Mem.Store64 (Mem.set_memstat s1 st) (a + i * 8) x)).
Proof.
  unfold Mem.HandlePageFault.
  destruct (Mem.AllocatePage (Mem.system m)) as [pg s1]. cbn [snd].
  destruct (negb (pg =? wrap64 (-1))).
  - destruct (Mem.GetPageAddress _ t) as [a|] eqn:Ha; cbn [bind]; [|discriminate].
    unfold Mem.deref. destruct (Z.eqb_spec a 0) as [|Hnz]; cbn [bind]; [discriminate|].
    intros [= <- <-]. right. eexists pg, a, _. eauto.
  - intros [= <- <-]. now left.
Qed.

Lemma TlbOk_walk_eq s s' t :
  (forall q, Mem.walk s' q = Mem.walk s q) -> TlbOk s t -> TlbOk s' t.
Proof.
  intros Hw Hok e Hin Hnz. destruct (Hok e Hin Hnz) as (Hc & Hr & tb & i & Hwalk).
  split; [exact Hc|]. split; [exact Hr|]. exists tb, i. now rewrite Hw.
Qed.

Lemma TlbOk_insert s m i e :
  TlbOk s (Mem.tlb m) -> coherent_entry s e -> TlbOk s (Mem.tlb (Mem.SetTlbEntry m i e)).
Proof.
  intros Hok He e' Hin. apply In_SetTlbEntry in Hin.
  destruct Hin as [-> | Hin]; [exact He | now apply Hok].
Qed.

Lemma miss_coherent m pg x m' :
  Mem.real (Mem.system m) mod 8 = 0 ->
  TlbOk (Mem.system m) (Mem.tlb m) ->
  Mem.FindPageTableEntry_miss m pg = Ret (x, m') ->
  TlbOk (Mem.system m') (Mem.tlb m') /\ Mem.real (Mem.system m') mod 8 = 0.
Proof.
  intros Hreal Hok. unfold Mem.FindPageTableEntry_miss.
  destruct (Mem.canonical pg) eqn:Hcan; cbn [negb].
  2:{ intros [= <- <-]. auto. }
  destruct (Mem.walk (Mem.system m) pg) as [[[[t i] e]|]|] eqn:Hwalk; cbn [bind];
    [| intros [= <- <-]; auto | discriminate].
  destruct (Z.eqb_spec (Z.land e PAGE_RSRV) 0) as [Hclear | Hrsrv]; cbn [negb bind].
  - (* a committed leaf *)
    intros [= <- <-].
    split; [|exact Hreal]. apply TlbOk_insert; [exact Hok|].
    intros _. cbn. split; [exact Hcan|]. split; [exact Hclear|]. eauto.
  - (* a reserved leaf: the demand pager runs *)
    destruct (Mem.HandlePageFault m e t i) as [[x' m1]|] eqn:Hf; cbn [bind]; [|discriminate].
    pose proof (HandlePageFault_tlb _ _ _ _ _ _ Hf) as (Htlb & _ & _).
    apply HandlePageFault_cases in Hf. cbv zeta in Hf.
    destruct (alloc_frame (Mem.system m)) as [Hreal1 Hwalk1].
    set (s1 := snd (Mem.AllocatePage (Mem.system m))) in *.
    destruct Hf as [[-> ->] | (pg' & a & st & Hx & Ha & Hnz & ->)].
    + (* the allocation failed *)
      cbn. intros [= <- <-]. cbn. split; [|now rewrite Hreal1].
      now apply (TlbOk_walk_eq (Mem.system m)).
    + set (s2 := Mem.set_memstat s1 st) in *.
      assert (Hreal2 : Mem.real s2 mod 8 = 0) by (cbn; now rewrite Hreal1).
      assert (Hwalk2 : forall q, Mem.walk s2 q = Mem.walk (Mem.system m) q).
      { intros q. subst s2. now rewrite walk_memstat. }
      assert (Hpg : Mem.walk s2 pg = Ret (Some (t, i, e))) by now rewrite Hwalk2.
      destruct (walk_leaf _ _ _ _ _ Hpg) as (a' & Ha' & _ & Hload & HV).
      rewrite Ha in Ha'. inversion Ha'; subst a'. clear Ha'.
      assert (HW : (a + i * 8) mod 8 = 0).
      { rewrite Z.add_mod, Z.mod_mul, (GetPageAddress_aligned s2 t a Hreal2 Ha) by lia.
        reflexivity. }
      assert (Hxr : 0 <= x' < 2 ^ 64) by (subst x'; now apply committed_entry_range).
      assert (Hres : Z.land (Mem.Load64 s2 (a + i * 8)) PAGE_RSRV <> 0) by now rewrite Hload.
      assert (Hold : TlbOk (Mem.Store64 s2 (a + i * 8) x') (Mem.tlb m)).
      { intros ec Hin Hne. destruct (Hok ec Hin Hne) as (Hc & Hr & tc & ic & Hwc).
        split; [exact Hc|]. split; [exact Hr|]. exists tc, ic.
        rewrite <- Hwalk2 in Hwc.
        now apply (walk_store s2 (a + i * 8) x' (page ec) tc ic (entry ec)). }
      destruct (Z.eqb_spec x' 0) as [Hz | Hxnz]; intros [= <- <-].
      * split; [exact Hold | exact Hreal2].
      * split; [|exact Hreal2].
        refine (TlbOk_insert _ (Mem.set_system m _) _ _ Hold _).
        intros _. cbn [page entry]. split; [exact Hcan|]. split; [subst x'; apply committed_entry_rsrv|].
        exists t, i.
        apply (walk_store s2 (a + i * 8) x' pg t i e Hreal2 HW Hxr Hres Hpg) with (a := a);
          [exact Ha | reflexivity |].
        subst x'. now apply committed_entry_V.
Qed.

(** *** A miss depends on the machine through its system only *)

Lemma HandlePageFault_sys m m' e t i :
  Mem.system m = Mem.system m' ->
  sys_of (Mem.HandlePageFault m e t i) = sys_of (Mem.HandlePageFault m' e t i).
Proof.
  intros Hs. unfold Mem.HandlePageFault. rewrite Hs.
  destruct (Mem.AllocatePage (Mem.system m')) as [pg s1].
  destruct (negb (pg =? wrap64 (-1))); [|reflexivity].
  destruct (Mem.GetPageAddress _ t) as [a|]; cbn [bind]; [|reflexivity].
  destruct (Mem.deref a); reflexivity.
Qed.

Lemma miss_sys m m' pg :
  Mem.system m = Mem.system m' ->
  sys_of (Mem.FindPageTableEntry_miss m pg) = sys_of (Mem.FindPageTableEntry_miss m' pg).
Proof.
  intros Hs. unfold Mem.FindPageTableEntry_miss. rewrite Hs.
  destruct (negb (Mem.canonical pg)); [cbn; now rewrite Hs|].
  destruct (Mem.walk (Mem.system m') pg) as [[[[t i] e]|]|]; cbn [bind];
    [| cbn; now rewrite Hs | reflexivity].
  destruct (negb (Z.land e PAGE_RSRV =? 0)); cbn [bind].
  - pose proof (HandlePageFault_sys m m' e t i Hs) as Hf.
    destruct (Mem.HandlePageFault m e t i) as [[x1 n1]|f1],
             (Mem.HandlePageFault m' e t i) as [[x2 n2]|f2];
      cbn in Hf; inversion Hf; subst; cbn [bind]; [|reflexivity].
    destruct (x2 =? 0); cbn; congruence.
  - cbn. congruence.
Qed.

(** *** One translation with the TLB against one after an invalidation *)

Lemma TlbOk_reset s : TlbOk s ResetTlb_tlb.
Proof.
  intros e Hin Hnz. apply In_reset_tlb in Hin. subst e. cbn in Hnz. congruence.
Qed.

Lemma cached_translation m pg e :
  coherent_entry (Mem.system m) e -> page e = pg -> entry e <> 0 ->
  exists m', Mem.FindPageTableEntry_miss m pg = Ret (entry e, m') /\
             Mem.system m' = Mem.system m.
Proof.
  intros Hco Hpg Hnz. destruct (Hco Hnz) as (Hcan & Hclear & t & i & Hwalk).
  subst pg. unfold Mem.FindPageTableEntry_miss. rewrite Hcan, Hwalk. cbn [negb bind].
  rewrite Hclear. cbn [Z.eqb negb]. eexists. split; reflexivity.
Qed.

Lemma translate_step m1 m2 pg :
  in_step m1 m2 ->
  match Mem.FindPageTableEntry m1 pg,
        Mem.FindPageTableEntry (Mem.set_invalidated m2 true) pg with
  | Ret (x1, n1), Ret (x2, n2) => x1 = x2 /\ in_step n1 n2
  | Abort f1, Abort f2 => f1 = f2
  | _, _ => False
  end.
Proof.
  intros (Hsys & Hco & Hreal).
  (* the run after an invalidation walks from a reset TLB *)
  assert (Eref : Mem.FindPageTableEntry (Mem.set_invalidated m2 true) pg =
                 Mem.FindPageTableEntry_miss
                   (Mem.set_invalidated (Mem.ResetTlb m2) false) pg) by reflexivity.
  rewrite Eref. set (r2 := Mem.set_invalidated (Mem.ResetTlb m2) false).
  assert (Hr2 : Mem.system r2 = Mem.system m2) by reflexivity.
  (* two misses from the same system *)
  assert (Hmiss : forall m, Mem.system m = Mem.system m1 ->
            TlbOk (Mem.system m) (Mem.tlb m) ->
            match Mem.FindPageTableEntry_miss m pg, Mem.FindPageTableEntry_miss r2 pg with
            | Ret (x1, n1), Ret (x2, n2) => x1 = x2 /\ in_step n1 n2
            | Abort f1, Abort f2 => f1 = f2
            | _, _ => False
            end).
  { intros m Hm Hok.
    pose proof (miss_sys m r2 pg ltac:(congruence)) as Hs.
    destruct (Mem.FindPageTableEntry_miss m pg) as [[x1 n1]|f1] eqn:E1,
             (Mem.FindPageTableEntry_miss r2 pg) as [[x2 n2]|f2];
      cbn in Hs; inversion Hs; subst; auto.
    split; [reflexivity|].
    destruct (miss_coherent m pg x2 n1 ltac:(congruence) Hok E1) as [Hok1 Hreal1].
    split; [assumption|]. split; [now right | exact Hreal1]. }
  destruct (FindPageTableEntry_cases m1 pg)
    as [[Hinv E] | (Hinv & x & m1' & _ & Hfrom & Hhit & E)]; rewrite E.
  - apply Hmiss; [reflexivity | apply TlbOk_reset].
  - destruct Hco as [Hco | Hok]; [congruence|].
    destruct Hfrom as (Hs1 & _ & _ & Hin).
    assert (Hok1 : TlbOk (Mem.system m1') (Mem.tlb m1')).
    { rewrite Hs1. intros e He. destruct (Hin e He) as [Hold | ->]; [now apply Hok|].
      intros Hnz. cbn in Hnz. congruence. }
    destruct (Z.eqb_spec x 0) as [-> | Hnz]; cbn [negb].
    + now apply Hmiss.
    + destruct (Hhit Hnz) as (e & He & Hpg & Hx). subst x.
      destruct (cached_translation r2 pg e) as (n2 & Hn2 & Hsn2); auto.
      { rewrite Hr2, <- Hsys. now apply Hok. }
      rewrite Hn2. split; [reflexivity|].
      split; [congruence|]. split; [now right | now rewrite Hs1].
Qed.

(** Resetting the TLB by hand before a probe gives what an invalidation
    before the probe gives. *)
Lemma flush_by_reset m pg :
  Mem.invalidated m = false ->
  sys_of (Mem.FindPageTableEntry (Mem.ResetTlb m) pg)
  = sys_of (Mem.FindPageTableEntry (Mem.set_invalidated m true) pg).
Proof.
  intros Hinv.
  change (Mem.FindPageTableEntry (Mem.set_invalidated m true) pg)
    with (Mem.FindPageTableEntry_miss (Mem.set_invalidated (Mem.ResetTlb m) false) pg).
  destruct (FindPageTableEntry_cases (Mem.ResetTlb m) pg)
    as [[Hbad _] | (_ & x & m1 & _ & Hfrom & Hhit & E)]; [cbn in Hbad; congruence|].
  rewrite E. destruct (Z.eqb_spec x 0) as [-> | Hnz]; cbn [negb].
  - apply miss_sys. destruct Hfrom as (Hs & _). exact Hs.
  - exfalso. destruct (Hhit Hnz) as (e & He & _ & Hx).
    apply In_reset_tlb in He. subst e. cbn in Hx. congruence.
Qed.

(** C2.  Take any sequence of translations, interleaved with arbitrary
    changes of the page tables that set [invalidated], on a machine whose
    allocator leaves the page tables alone and whose table pointers are
    8-byte aligned.  Starting from a TLB that agrees with the page tables
    (or with an invalidation pending), the run that uses the TLB (slot-0
    fast path, tag probe, promotion, insertion at the last slot) and the
    run that invalidates before every probe, and so resets the TLB and
    walks from [cr3] each time, stop at the same point or return the same
    leaf entries and leave the same system. *)
Theorem tlb_fidelity (evs : list Mem.event) (m : Mem.Machine) :
  Coherent m ->
  Mem.real (Mem.system m) mod 8 = 0 ->
  Mem.observe (Mem.translate_all evs m) = Mem.observe (Mem.translate_all_flushed evs m).
Proof.
  intros Hco Hreal.
  assert (Hgen : forall m1 m2, in_step m1 m2 ->
            Mem.observe (Mem.translate_all evs m1) =
            Mem.observe (Mem.translate_all_flushed evs m2)).
  { induction evs as [|[pg | ram' cr3'] evs IH]; intros m1 m2 Hstep.
    - cbn. destruct Hstep as (Hs & _). now rewrite Hs.
    - cbn [Mem.translate_all Mem.translate_all_flushed].
      pose proof (translate_step m1 m2 pg Hstep) as Hone.
      destruct (Mem.FindPageTableEntry m1 pg) as [[x1 n1]|f1],
               (Mem.FindPageTableEntry (Mem.set_invalidated m2 true) pg) as [[x2 n2]|f2];
        try contradiction; cbn [bind fst snd].
      + destruct Hone as [-> Hnext]. specialize (IH n1 n2 Hnext).
        destruct (Mem.translate_all evs n1) as [[es1 k1]|g1],
                 (Mem.translate_all_flushed evs n2) as [[es2 k2]|g2];
          cbn in IH |- *; inversion IH; subst; reflexivity.
      + cbn. now subst.
    - cbn [Mem.translate_all Mem.translate_all_flushed]. apply IH.
      destruct Hstep as (Hs & _ & Hr). unfold in_step, Mem.remap. cbn.
      rewrite Hs. split; [reflexivity|]. split; [now left|]. now rewrite <- Hs. }
  apply Hgen. repeat split; assumption.
Qed.

End Fidelity.
Lemma freelist_allocator_frame : @AllocatorFrame blink_config paged_collab.
Proof.
  intros s. cbn. unfold freelist_AllocatePage.
  destruct (Mem.realfree s) as [|rf rest]; cbn; split; reflexivity.
Qed.

Lemma tlb_fidelity_witness :
  Mem.observe (@Mem.translate_all blink_config paged_collab example_events example_machine)
  = Mem.observe
      (@Mem.translate_all_flushed blink_config paged_collab example_events example_machine).
Proof.
  apply (@tlb_fidelity blink_config paged_collab blink_config_ok freelist_allocator_frame
           example_events example_machine).
  - right. apply TlbOk_reset.
  - reflexivity.
Defined.


(** The entries the example run returns, with the vector probe and with
    the portable one: page 0x3000 is committed on first touch, and page
    0x1000 is gone after the page tables changed. *)
Lemma example_run_entries :
  match @Mem.translate_all blink_config paged_collab example_events example_machine,
        @Mem.translate_all portable_config paged_collab example_events example_machine
  with
  | Ret (es, _), Ret (es', _) =>
      es = [0x5007; 0x6001; 0x5007; 0x6001; 0x5007; 0; 0x5007; 0x5007] /\ es' = es
  | _, _ => False
  end.
Proof. vm_compute. split; reflexivity. Qed.

(** ** The arena: [AllocateLinearPageRaw] *)

Lemma land_fff z : Z.land z 0xfff = z mod 4096.
Proof. change 0xfff with (Z.ones 12). now rewrite Z.land_ones by lia. Qed.

Lemma ROUNDUP_4k x :
  0 <= x -> x + 4095 < 2 ^ 64 ->
  Malloc.ROUNDUP x 0x1000 = (x + 4095) / 4096 * 4096.
Proof.
  intros Hx Hlt. unfold Malloc.ROUNDUP.
  rewrite (wrap64_small (x + (0x1000 - 1))) by lia.
  change (0x1000 - 1) with 4095. change (wrap64 (Z.opp 4096)) with (Z.shiftl (Z.ones 52) 12).
  replace ((x + 4095) / 4096 * 4096) with (Z.shiftl (Z.shiftr (x + 4095) 12) 12)
    by (rewrite Z.shiftl_mul_pow2, Z.shiftr_div_pow2 by lia; reflexivity).
  apply Z.bits_inj'. intros k Hk.
  rewrite Z.land_spec. rewrite !Z.shiftl_spec by lia.
  destruct (Z_lt_ge_dec k 12).
  - rewrite (Z.testbit_neg_r (Z.ones 52)) by lia.
    rewrite (Z.testbit_neg_r (Z.shiftr (x + 4095) 12)) by lia. apply andb_false_r.
  - rewrite Z.shiftr_spec by lia. replace (k - 12 + 12) with k by lia.
    destruct (Z_lt_ge_dec k 64).
    + rewrite Z.ones_spec_low by lia. apply andb_true_r.
    + rewrite Z.ones_spec_high by lia. rewrite andb_false_r.
      symmetry.
      destruct (Z.eq_dec (x + 4095) 0) as [-> | Hne]; [now rewrite Z.bits_0|].
      apply Z.bits_above_log2; [lia|].
      assert (Z.log2 (x + 4095) < 64) by (apply Z.log2_lt_pow2; lia). lia.
Qed.

Lemma to_i64_small z : 0 <= z < 2 ^ 63 -> to_i64 z = z.
Proof. intros Hz. unfold to_i64. rewrite Z.mod_small; lia. Qed.

Section Arena.
Context {cfg : Config}.

(** C8 (as amended).  On the grow path with a full arena ([real.i ==
    real.n]) whose reallocation succeeds, the new capacity is 64 KiB when
    the old capacity is 0, and otherwise the old capacity plus half of it,
    rounded up to a multiple of 4 KiB; the TLB is reset, [resizes] is
    incremented, and the function returns the old [real.i] after bumping
    [real.i] by 4 KiB. *)
Theorem AllocateLinearPageRaw_grow (m : Malloc.Machine) (n : Z) (rest : list bool) :
  Malloc.realfree (Malloc.system m) = [] ->
  Malloc.real_i (Malloc.system m) = n ->
  Malloc.real_n (Malloc.system m) = n ->
  0 <= n < 2 ^ 62 -> n mod 4096 = 0 ->
  Malloc.host_ok m = true :: rest ->
  exists m',
    Malloc.AllocateLinearPageRaw m = Ret (n, m') /\
    Malloc.real_n (Malloc.system m') =
      (if n =? 0 then 0x10000 else (n + n / 2 + 4095) / 4096 * 4096) /\
    Malloc.tlb m' = ResetTlb_tlb /\
    resizes (Malloc.memstat (Malloc.system m'))
      = resizes (Malloc.memstat (Malloc.system m)) + 1 /\
    Malloc.real_i (Malloc.system m') = n + 0x1000.
Proof.
  intros Hfree Hi Hn Hrange Halign Hhost.
  unfold Malloc.AllocateLinearPageRaw. rewrite Hfree, Hi, Hn, Z.eqb_refl.
  unfold Malloc.host_alloc. rewrite Hhost.
  set (n1 := if negb (n =? 0) then wrap64 (n + Z.shiftr n 1) else 0x10000).
  assert (Hn1 : n1 = if n =? 0 then 0x10000 else n + n / 2).
  { subst n1. destruct (n =? 0); cbn [negb]; [reflexivity|].
    rewrite Z.shiftr_div_pow2 by lia. change (2 ^ 1) with 2.
    apply wrap64_small. Z.div_mod_to_equations. lia. }
  assert (Hn1r : 0 <= n1 /\ n1 + 4095 < 2 ^ 64).
  { rewrite Hn1. destruct (n =? 0); [lia|]. Z.div_mod_to_equations. lia. }
  assert (Hn2 : Malloc.ROUNDUP n1 0x1000 =
                if n =? 0 then 0x10000 else (n + n / 2 + 4095) / 4096 * 4096).
  { rewrite ROUNDUP_4k by lia. rewrite Hn1. destruct (n =? 0); reflexivity. }
  set (n2 := Malloc.ROUNDUP n1 0x1000) in *.
  assert (Hbig : n2 mod 4096 = 0 /\ n + 0x1000 <= n2).
  { rewrite Hn2. destruct (Z.eqb_spec n 0) as [-> | Hnz]; [split; [reflexivity | lia]|].
    split; [apply Z.mod_mul; lia|]. Z.div_mod_to_equations. lia. }
  unfold Malloc.bump_watermark.
  cbn [snd fst Malloc.system Malloc.ResetTlb Malloc.set_system].
  rewrite !land_fff, Halign, (proj1 Hbig).
  rewrite (wrap64_small (n + 0x1000)) by lia.
  replace (n + 0x1000 <=? n2) with true by (symmetry; apply Z.leb_le; lia).
  cbn [Z.eqb assert bind]. rewrite to_i64_small by lia.
  eexists. split; [reflexivity|]. cbn. rewrite ?Hi.
  rewrite (wrap64_small (n + 4096)) by lia. auto.
Qed.

End Arena.

Lemma AllocateLinearPageRaw_grow_witness :
  exists m',
    @Malloc.AllocateLinearPageRaw blink_config small_machine = Ret (0x1000, m') /\
    Malloc.real_n (Malloc.system m') =
      (if 0x1000 =? 0 then 0x10000 else (0x1000 + 0x1000 / 2 + 4095) / 4096 * 4096) /\
    Malloc.tlb m' = @ResetTlb_tlb blink_config /\
    resizes (Malloc.memstat (Malloc.system m'))
      = resizes (Malloc.memstat (Malloc.system small_machine)) + 1 /\
    Malloc.real_i (Malloc.system m') = 0x1000 + 0x1000.
Proof.
  apply (@AllocateLinearPageRaw_grow blink_config small_machine 0x1000 []);
    try reflexivity; lia.
Defined.

Lemma small_machine_grows :
  match @Malloc.AllocateLinearPageRaw blink_config small_machine with
  | Ret (_, m') => Malloc.real_n (Malloc.system m') = 0x2000
  | Abort _ => False
  end.
Proof. vm_compute. reflexivity. Qed.

(** A full arena of 4 KiB grows to 8 KiB, not to the 64 KiB that
    max(current x 1.5, 64 KiB) gives. *)
Lemma AllocateLinearPageRaw_grow_small :
  ~ (forall (m m' : Malloc.Machine) (i : Z) (rest : list bool),
       Malloc.realfree (Malloc.system m) = [] ->
       Malloc.real_i (Malloc.system m) = Malloc.real_n (Malloc.system m) ->
       Malloc.host_ok m = true :: rest ->
       @Malloc.AllocateLinearPageRaw blink_config m = Ret (i, m') ->
       Malloc.real_n (Malloc.system m')
         = Malloc.spec_capacity (Malloc.real_n (Malloc.system m))).
Proof.
  intros Hclaim.
  pose proof small_machine_grows as Hcap.
  destruct (@Malloc.AllocateLinearPageRaw blink_config small_machine)
    as [[i m']|] eqn:Hrun; [|contradiction].
  specialize (Hclaim small_machine m' i [] eq_refl eq_refl eq_refl Hrun).
  rewrite Hcap in Hclaim. vm_compute in Hclaim. discriminate.
Qed.

(** ** The region manager: [FindVirtual] *)

(** C1.  With guest page 0 unmapped and guest page 0x1000 mapped,
    [FindVirtual(m, 0, 8192)] returns 0: the scan counts the hole at 0
    twice without moving, and the run [0, 8192) it answers contains the
    mapped page 0x1000.  The claim asks for every page of the run to be
    unmapped. *)
Theorem FindVirtual_run_contains_mapped_page (k : nat) :
  Malloc.FindVirtual (S (S k)) arena_machine 0 8192 = Ret 0 /\
  Malloc.mapped arena_machine 0 = false /\
  Malloc.mapped arena_machine 4096 = true.
Proof. repeat split; vm_compute; reflexivity. Qed.

(** ** The region manager: [FreeVirtual] *)

Section Region.
Context {cfg : Config}.

Lemma AppendRealFree_memstat m r :
  Malloc.memstat (Malloc.system (Malloc.AppendRealFree m r))
  = Malloc.memstat (Malloc.system m).
Proof.
  unfold Malloc.AppendRealFree, Malloc.host_alloc.
  destruct (Malloc.realfree (Malloc.system m)) as [|rf rest];
    [|destruct (r =? wrap64 (Malloc.rf_i rf + Malloc.rf_n rf)); [reflexivity|]];
    destruct (Malloc.host_ok m) as [|[|] oks]; reflexivity.
Qed.

Lemma AppendRealFree_realfree m1 m2 r :
  Malloc.realfree (Malloc.system m1) = Malloc.realfree (Malloc.system m2) ->
  Malloc.host_ok m1 = Malloc.host_ok m2 ->
  Malloc.realfree (Malloc.system (Malloc.AppendRealFree m1 r))
  = Malloc.realfree (Malloc.system (Malloc.AppendRealFree m2 r)).
Proof.
  intros Hfree Hhost. unfold Malloc.AppendRealFree, Malloc.host_alloc.
  cbv zeta. rewrite Hfree, Hhost.
  destruct (Malloc.realfree (Malloc.system m2)) as [|rf rest] eqn:E;
    [|destruct (r =? wrap64 (Malloc.rf_i rf + Malloc.rf_n rf)); [reflexivity|]];
    destruct (Malloc.host_ok m2) as [|[|] oks]; cbn; congruence.
Qed.

Lemma AppendRealFree_arena m r :
  Malloc.real_n (Malloc.system (Malloc.AppendRealFree m r))
    = Malloc.real_n (Malloc.system m) /\
  Malloc.real_p (Malloc.system (Malloc.AppendRealFree m r))
    = Malloc.real_p (Malloc.system m).
Proof.
  unfold Malloc.AppendRealFree, Malloc.host_alloc.
  destruct (Malloc.realfree (Malloc.system m)) as [|rf rest];
    [|destruct (r =? wrap64 (Malloc.rf_i rf + Malloc.rf_n rf)); [split; reflexivity|]];
    destruct (Malloc.host_ok m) as [|[|] oks]; split; reflexivity.
Qed.

Lemma FreeVirtual_walk_leaf fuel m virt pt0 i mi pt :
  Malloc.leaf_slot fuel m virt pt0 i = Some (mi, pt) ->
  exists m', Malloc.FreeVirtual_walk fuel m virt pt0 i = Ret (m', 12) /\
             leaf_effect m m' mi pt.
Proof.
  revert pt0 i. induction fuel as [|fuel IH]; intros pt0 i; cbn [Malloc.leaf_slot];
    [discriminate|].
  cbn [Malloc.FreeVirtual_walk]. unfold Malloc.MachineRead64.
  set (slot := wrap64 (Z.land pt0 PAGE_TA + Z.land (Z.shiftr virt i) 511 * 8)).
  destruct (wrap64 (slot + 8) <=? Malloc.real_n (Malloc.system m)) eqn:Hin;
    cbn [assert bind]; [|discriminate].
  destruct (Z.land (Read64 (Malloc.real_p (Malloc.system m)) slot) 1 =? 0); [discriminate|].
  destruct (Z.eqb_spec i 12) as [-> | Hi]; [|apply IH].
  intros [= <- <-].
  set (e := Read64 (Malloc.real_p (Malloc.system m)) slot).
  unfold Malloc.MachineWrite64.
  destruct (Z.eqb_spec (Z.land e PAGE_RSRV) 0) as [Hclear | Hrsrv]; cbn [negb].
  - match goal with
    | |- context [Malloc.AppendRealFree ?mm ?r] =>
        pose proof (AppendRealFree_arena mm r) as [Hn _]
    end.
    rewrite Hn. cbn [Malloc.system Malloc.set_system Malloc.real_n Malloc.set_memstat].
    rewrite Hin. cbn [assert bind].
    eexists. split; [reflexivity|].
    unfold leaf_effect. cbn [Malloc.system Malloc.set_system Malloc.real_p Malloc.set_real_p
                              Malloc.memstat Malloc.realfree].
    rewrite Read64_Write64_same. rewrite AppendRealFree_memstat.
    split; [reflexivity|]. split; [reflexivity|].
    split; [intros; contradiction|]. intros _.
    split; [reflexivity|]. split; [reflexivity|].
    apply AppendRealFree_realfree; reflexivity.
  - cbn [Malloc.system Malloc.set_system Malloc.real_n Malloc.set_memstat].
    rewrite Hin. cbn [assert bind].
    eexists. split; [reflexivity|].
    unfold leaf_effect. cbn. rewrite Read64_Write64_same.
    split; [reflexivity|]. split; [reflexivity|].
    split; [auto | intros; contradiction].
Qed.

End Region.

Lemma arena_reserved_page_freed :
  match @Malloc.FreeVirtual_walk blink_config 4 arena_machine 0x2000 0 39 with
  | Ret (m', _) => freed (Malloc.memstat (Malloc.system m')) = 1
  | Abort _ => False
  end.
Proof. vm_compute. reflexivity. Qed.

(** The whole of [FreeVirtual(m, 0x2000, 0x1000)] on the same arena: one
    iteration, after which the leaf is clear, the reservation is gone, the
    page counts as freed and the TLB is reset. *)
Lemma arena_FreeVirtual_reserved :
  match @Malloc.FreeVirtual blink_config 2 arena_machine 0x2000 0x1000 with
  | Ret (r, m') =>
      r = 0 /\
      Read64 (Malloc.real_p (Malloc.system m')) 0x3010 = 0 /\
      Malloc.memstat (Malloc.system m')
      = {| allocated := 5; committed := 5; freed := 1; reserved := 0;
           reclaimed := 0; resizes := 1; pagetables := 4 |} /\
      Malloc.tlb m' = @ResetTlb_tlb blink_config
  | Abort _ => False
  end.
Proof. vm_compute. repeat split; reflexivity. Qed.

(** Freeing the reserved guest page 0x2000 increments [freed], which the
    claim has unchanged for a reserved page. *)
Lemma FreeVirtual_reserved_counts_freed :
  ~ (forall (m m' : Malloc.Machine) (virt mi pt i : Z),
       Malloc.leaf_slot 4 m virt (Malloc.cr3 (Malloc.system m)) 39 = Some (mi, pt) ->
       Z.land pt (@PAGE_RSRV blink_config) <> 0 ->
       @Malloc.FreeVirtual_walk blink_config 4 m virt (Malloc.cr3 (Malloc.system m)) 39
         = Ret (m', i) ->
       freed (Malloc.memstat (Malloc.system m'))
         = freed (Malloc.memstat (Malloc.system m))).
Proof.
  intros Hclaim.
  pose proof arena_reserved_page_freed as Hfreed.
  destruct (@Malloc.FreeVirtual_walk blink_config 4 arena_machine 0x2000 0 39)
    as [[m' i]|] eqn:Hrun; [|contradiction].
  specialize (Hclaim arena_machine m' 0x2000 0x3010 0x0201 i).
  rewrite Hfreed in Hclaim.
  assert (Hbad : 1 = freed (Malloc.memstat (Malloc.system arena_machine))).
  { apply Hclaim; [vm_compute; reflexivity | vm_compute; discriminate | exact Hrun]. }
  vm_compute in Hbad. discriminate.
Qed.

(** ** [VirtualCopy]: to the guest and back *)

Lemma load_bytes_nth mem a n j d :
  (j < n)%nat -> nth j (load_bytes mem a n) d = mem (a + Z.of_nat j).
Proof.
  intros Hj. unfold load_bytes.
  rewrite nth_indep with (d' := mem (a + Z.of_nat 0))
    by (rewrite length_map, length_seq; exact Hj).
  rewrite (map_nth (fun k => mem (a + Z.of_nat k))). now rewrite seq_nth.
Qed.

Lemma land_4095 a : Z.land a 4095 = a mod 4096.
Proof. change 4095 with (Z.ones 12). now rewrite Z.land_ones by lia. Qed.

Section RoundTrip.
Context {cfg : Config} {col : Mem.Collab}.
Variables (m0 : Mem.Machine) (v n src dst : Z) (h : Z -> Z) (G : Mem.Machine -> Prop).
Hypothesis stable : StableTranslation m0 v n src dst h G.

(** The host bytes that one chunk of the copy touches. *)
Lemma chunk_host_bytes va k j :
  within v n va -> va + k <= v + n -> k <= 4096 - Z.land va 4095 ->
  0 <= j < k -> h va + j = h (va + j) /\ within v n (va + j).
Proof.
  intros Hva Hend Hk Hj. unfold within in *.
  assert (Hin : v <= va + j < v + n) by lia.
  split; [|exact Hin]. symmetry. apply (st_page _ _ _ _ _ _ _ stable); unfold within; lia.
Qed.

Lemma memcpy_poke s m1 p r k :
  s = Mem.system m1 ->
  Mem.set_system m1 (Mem.memcpy s p r k)
  = Mem.poke m1 p (load_bytes (Mem.ram (Mem.system m1)) r (Z.to_nat k)).
Proof. intros ->. reflexivity. Qed.

Lemma poke_in m p bs j :
  0 <= j < Z.of_nat (length bs) ->
  Mem.ram (Mem.system (Mem.poke m p bs)) (p + j) = nth (Z.to_nat j) bs Byte.x00.
Proof.
  intros Hj. cbn. rewrite store_bytes_in by lia. f_equal. lia.
Qed.

Lemma poke_out m p bs x :
  ~ within p (Z.of_nat (length bs)) x ->
  Mem.ram (Mem.system (Mem.poke m p bs)) x = Mem.ram (Mem.system m) x.
Proof.
  intros Hx. cbn. apply store_bytes_out. unfold within in Hx. lia.
Qed.

Lemma aligned_after_chunk va :
  Z.land (va + (4096 - Z.land va 4095)) 4095 = 0.
Proof. rewrite !land_4095. Z.div_mod_to_equations. lia. Qed.

(** The loop of [CopyToUser]: the bytes of [src] reach the host bytes of
    the guest range. *)
Lemma to_user_loop fuel : forall m va nn k,
  G m -> v <= va -> va + nn = v + n -> 0 <= nn -> (Z.to_nat nn < fuel)%nat ->
  (nn = 0 \/ k = 4096 - Z.land va 4095) ->
  (forall x, within src n x ->
     Mem.ram (Mem.system m) x = Mem.ram (Mem.system m0) x) ->
  (forall a, v <= a < va ->
     Mem.ram (Mem.system m) (h a) = Mem.ram (Mem.system m0) (src + (a - v))) ->
  exists m',
    Mem.VirtualCopy_loop fuel m va (src + (va - v)) nn false k = Ret m' /\ G m' /\
    (forall a, within v n a ->
       Mem.ram (Mem.system m') (h a) = Mem.ram (Mem.system m0) (src + (a - v))).
Proof.
  induction fuel as [|fuel IH]; intros m va nn k HG Hva Hend Hnn Hfuel Hk Hsrc Hdone;
    [lia|].
  cbn [Mem.VirtualCopy_loop].
  destruct (Z.eqb_spec nn 0) as [-> | Hnz].
  { exists m. split; [reflexivity|]. split; [exact HG|].
    intros a Ha. apply Hdone. unfold within in Ha. lia. }
  destruct Hk as [? | Hk]; [contradiction|].
  assert (Hlow : 0 <= Z.land va 4095 < 4096).
  { rewrite land_4095. apply Z.mod_pos_bound. lia. }
  set (k' := Z.min k nn).
  assert (Hk' : 0 < k' <= nn /\ k' <= 4096 - Z.land va 4095) by (subst k'; lia).
  assert (Hin : within v n va) by (unfold within; lia).
  destruct (st_resolve _ _ _ _ _ _ _ stable m va HG Hin) as (m1 & Hres & HG1 & Hkeep).
  rewrite Hres. cbn [bind].
  rewrite memcpy_poke by reflexivity.
  set (bs := load_bytes (Mem.ram (Mem.system m1)) (src + (va - v)) (Z.to_nat k')).
  assert (Hlen : Z.of_nat (length bs) = k').
  { subst bs. rewrite load_bytes_length. lia. }
  assert (Hchunk : forall j, 0 <= j < k' -> h va + j = h (va + j) /\ within v n (va + j)).
  { intros j Hj. apply (chunk_host_bytes va k'); try lia. exact Hin. }
  assert (Hhost : forall x, within (h va) (Z.of_nat (length bs)) x -> host_bytes h v n x).
  { intros x Hx. unfold within in Hx. rewrite Hlen in Hx.
    destruct (Hchunk (x - h va) ltac:(lia)) as [E Hr].
    exists (va + (x - h va)). split; [exact Hr | lia]. }
  replace (src + (va - v) + k') with (src + (va + k' - v)) by lia.
  apply IH.
  - apply (st_write _ _ _ _ _ _ _ stable); [exact HG1|]. intros x Hx. left. now apply Hhost.
  - lia.
  - lia.
  - lia.
  - lia.
  - destruct (Z.eq_dec (nn - k') 0) as [? | Hmore]; [now left | right].
    assert (k' = k) by (subst k'; lia).
    replace (va + k') with (va + (4096 - Z.land va 4095)) by lia.
    rewrite aligned_after_chunk. reflexivity.
  - intros x Hx. rewrite poke_out.
    + rewrite Hkeep by auto. now apply Hsrc.
    + intros Hw. apply (st_src _ _ _ _ _ _ _ stable x Hx). now apply Hhost.
  - intros a Ha. destruct (Z_lt_ge_dec a va) as [Hlt | Hge].
    + rewrite poke_out.
      * rewrite Hkeep; [apply Hdone; lia|]. left. exists a. split; [unfold within; lia | reflexivity].
      * intros Hw. unfold within in Hw. rewrite Hlen in Hw.
        destruct (Hchunk (h a - h va) ltac:(lia)) as [E Hr].
        assert (a = va + (h a - h va)).
        { apply (st_inj _ _ _ _ _ _ _ stable); [unfold within; lia | exact Hr | lia]. }
        lia.
    + destruct (Hchunk (a - va) ltac:(lia)) as [E Hr].
      replace (va + (a - va)) with a in E by lia. rewrite <- E.
      rewrite poke_in by lia. subst bs.
      rewrite load_bytes_nth by lia. rewrite Z2Nat.id by lia.
      rewrite Hkeep.
      * rewrite Hsrc; [f_equal; lia|]. unfold within in *. lia.
      * right. left. unfold within in *. lia.
Qed.

End RoundTrip.

(** With a linear mapping the translation of any range off address 0 is
    stable. *)
Lemma linear_stable :
  @StableTranslation blink_config linear_collab example_machine
    0x400ffe 6 0x200000 0x300000 (@Mem.ToHost blink_config) (fun _ => True).
Proof.
  assert (Hhost : forall a, within 0x400ffe 6 a -> @Mem.ToHost blink_config a = a).
  { intros a Ha. unfold within in Ha. unfold Mem.ToHost. cbn [guest_base blink_config].
    apply wrap64_small. lia. }
  constructor.
  - exact I.
  - intros m a _ Ha. exists m. unfold Mem.ResolveAddress, Mem.GetAddress.
    cbn [Mem.HasLinearMapping linear_collab bind fst]. rewrite (Hhost a Ha).
    unfold within in Ha. destruct (Z.eqb_spec a 0); [lia|]. auto.
  - intros. exact I.
  - intros a j Ha Haj _ _. rewrite (Hhost _ Ha), (Hhost _ Haj). reflexivity.
  - intros a b Ha Hb. rewrite (Hhost _ Ha), (Hhost _ Hb). auto.
  - intros x Hx (a & Ha & E). rewrite (Hhost _ Ha) in E. unfold within in *. lia.
  - intros x Hx (a & Ha & E). rewrite (Hhost _ Ha) in E. unfold within in *. lia.
Qed.

(** Guest pages 0x1000 and 0x2000 of [copy_machine] are mapped to the same
    arena page.  Copying 4097 bytes to guest address 0x1000 writes the last
    byte over the first one, and reading them back gives 2 where [src] has
    1. *)
Lemma aliased_copy :
  match @Mem.CopyToUser blink_config paged_collab copy_machine 0x1000 0x200000 4097 with
  | Ret m1 =>
      match @Mem.CopyFromUser blink_config paged_collab m1 0x300000 0x1000 4097 with
      | Ret (_, m2) => Mem.ram (Mem.system m2) 0x300000 = Byte.x02
      | Abort _ => False
      end
  | Abort _ => False
  end.
Proof. vm_compute. reflexivity. Qed.

Lemma resolves_spec {cfg : Config} {col : Mem.Collab} m a :
  Mem.resolves m a = true ->
  exists p m', Mem.LookupAddress m a = Ret (p, m') /\ p <> 0.
Proof.
  unfold Mem.resolves. destruct (Mem.LookupAddress m a) as [[p m']|]; [|discriminate].
  intros Hp. exists p, m'. split; [reflexivity|].
  apply negb_true_iff in Hp. now apply Z.eqb_neq.
Qed.

Lemma page_of_address a : Z.land a (-4096) = a - a mod 4096.
Proof.
  change (-4096) with (Z.lnot (Z.ones 12)). rewrite <- Z.ldiff_land.
  rewrite Z.ldiff_ones_r by lia. rewrite Z.shiftl_mul_pow2, Z.shiftr_div_pow2 by lia.
  change (2 ^ 12) with 4096. Z.div_mod_to_equations. lia.
Qed.

Lemma CopyToUser_aliased_pages :
  ~ (forall (m m1 m2 : Mem.Machine) (v src dst n : Z),
       0 <= n ->
       (forall a, v <= a < v + n ->
          exists p m', @Mem.LookupAddress blink_config paged_collab m (Z.land a (-4096))
                       = Ret (p, m') /\ p <> 0) ->
       @Mem.CopyToUser blink_config paged_collab m v src n = Ret m1 ->
       @Mem.CopyFromUser blink_config paged_collab m1 dst v n = Ret (dst, m2) ->
       load_bytes (Mem.ram (Mem.system m2)) dst (Z.to_nat n)
       = load_bytes (Mem.ram (Mem.system m)) src (Z.to_nat n)).
Proof.
  intros Hclaim.
  (* what the claim says about the first byte of the two buffers *)
  assert (Hfirst : forall m v src dst n, 0 < n ->
    (forall a, v <= a < v + n ->
       @Mem.resolves blink_config paged_collab m (Z.land a (-4096)) = true) ->
    match @Mem.CopyToUser blink_config paged_collab m v src n with
    | Ret m1 =>
        match @Mem.CopyFromUser blink_config paged_collab m1 dst v n with
        | Ret (d, m2) =>
            d = dst -> Mem.ram (Mem.system m2) dst = Mem.ram (Mem.system m) src
        | Abort _ => True
        end
    | Abort _ => True
    end).
  { intros m v src dst n Hn Hres.
    destruct (Mem.CopyToUser m v src n) as [m1|] eqn:E1; [|exact I].
    destruct (Mem.CopyFromUser m1 dst v n) as [[d m2]|] eqn:E2; [|exact I].
    intros ->.
    assert (Heq := Hclaim m m1 m2 v src dst n ltac:(lia)
                     (fun a Ha => resolves_spec m _ (Hres a Ha)) E1 E2).
    apply (f_equal (fun l => nth 0 l Byte.x00)) in Heq.
    rewrite !load_bytes_nth in Heq by lia.
    now rewrite !Z.add_0_r in Heq. }
  specialize (Hfirst copy_machine 0x1000 0x200000 0x300000 4097 ltac:(lia)).
  assert (Hres : forall a, 0x1000 <= a < 0x1000 + 4097 ->
            @Mem.resolves blink_config paged_collab copy_machine (Z.land a (-4096)) = true).
  { intros a Ha. rewrite page_of_address.
    assert (Hpage : a - a mod 4096 = 0x1000 \/ a - a mod 4096 = 0x2000)
      by (Z.div_mod_to_equations; lia).
    destruct Hpage as [-> | ->]; vm_compute; reflexivity. }
  specialize (Hfirst Hres). vm_compute in Hfirst.
  specialize (Hfirst eq_refl). discriminate.
Qed.
(** ** A paged machine with a stable translation *)

Section WalkFour.
Context {cfg : Config} {col : Mem.Collab}.

(** The walk as four loads: the entry of each level is the table of the
    next. *)
Lemma walk_four s pg a1 e1 a2 e2 a3 e3 a4 e4 :
  Mem.cr3 s <> 0 ->
  Mem.GetPageAddress s (Mem.cr3 s) = Ret a1 -> a1 <> 0 ->
  Mem.Load64 s (a1 + Z.land (Z.shiftr pg 39) 511 * 8) = e1 -> Z.land e1 PAGE_V <> 0 ->
  Mem.GetPageAddress s e1 = Ret a2 -> a2 <> 0 ->
  Mem.Load64 s (a2 + Z.land (Z.shiftr pg 30) 511 * 8) = e2 -> Z.land e2 PAGE_V <> 0 ->
  Mem.GetPageAddress s e2 = Ret a3 -> a3 <> 0 ->
  Mem.Load64 s (a3 + Z.land (Z.shiftr pg 21) 511 * 8) = e3 -> Z.land e3 PAGE_V <> 0 ->
  Mem.GetPageAddress s e3 = Ret a4 -> a4 <> 0 ->
  Mem.Load64 s (a4 + Z.land (Z.shiftr pg 12) 511 * 8) = e4 -> Z.land e4 PAGE_V <> 0 ->
  Mem.walk s pg = Ret (Some (e3, Z.land (Z.shiftr pg 12) 511, e4)).
Proof.
  intros Hcr3 Ha1 Hn1 He1 Hv1 Ha2 Hn2 He2 Hv2 Ha3 Hn3 He3 Hv3 Ha4 Hn4 He4 Hv4.
  unfold Mem.walk. apply Z.eqb_neq in Hcr3. rewrite Hcr3. cbn [negb assert bind].
  apply Z.eqb_neq in Hn1, Hn2, Hn3, Hn4, Hv1, Hv2, Hv3, Hv4.
  cbn [Mem.walk_levels].
  rewrite Ha1. cbn [bind]. unfold Mem.deref at 1. rewrite Hn1. cbn [bind].
  rewrite He1, Hv1. change (12 <=? 39 - 9) with true. cbv iota.
  rewrite Ha2. cbn [bind]. unfold Mem.deref at 1. rewrite Hn2. cbn [bind].
  change (39 - 9) with 30. rewrite He2, Hv2. change (12 <=? 30 - 9) with true. cbv iota.
  rewrite Ha3. cbn [bind]. unfold Mem.deref at 1. rewrite Hn3. cbn [bind].
  change (30 - 9) with 21. rewrite He3, Hv3. change (12 <=? 21 - 9) with true. cbv iota.
  rewrite Ha4. cbn [bind]. unfold Mem.deref at 1. rewrite Hn4. cbn [bind].
  change (21 - 9) with 12. rewrite He4, Hv4. reflexivity.
Qed.

End WalkFour.

Section PagedExample.
#[local] Existing Instance blink_config.
Context {col : Mem.Collab}.

(** What the example asks of the pager: no linear mapping, and an
    allocator that hands out the free arena page 0x6000, leaving the
    arena's base and [cr3] as they are and writing only bytes of that
    page, those that [fresh] holds of. *)
Variable fresh : Z -> Prop.
Hypothesis paged : forall m, Mem.HasLinearMapping m = false.
Hypothesis fresh_page : forall x, fresh x -> within 0x106000 4096 x.
Hypothesis alloc_page : forall s,
  Mem.real s = 0x100000 ->
  Mem.realfree s = [{| Mem.rf_i := 0x6000; Mem.rf_n := 0x1000 |}] ->
  exists s',
    Mem.AllocatePage s = (0x6000, s') /\
    Mem.real s' = Mem.real s /\ Mem.cr3 s' = Mem.cr3 s /\
    forall x, ~ fresh x -> Mem.ram s' x = Mem.ram s x.

Lemma example_table_address s e a :
  Mem.real s = 0x100000 ->
  In (e, a) [(0x1001, 0x101000); (0x2007, 0x102000); (0x3007, 0x103000);
             (0x4007, 0x104000); (0x5007, 0x105000); (0x6001, 0x106000)] ->
  Mem.GetPageAddress s e = Ret a.
Proof.
  intros Hreal Hin. unfold Mem.GetPageAddress.
  cbn in Hin. repeat (destruct Hin as [[= <- <-] | Hin]; [rewrite Hreal; reflexivity|]).
  contradiction.
Qed.

(** The walk of the two pages of the range, from the page-table words. *)
Lemma example_walk m pg idx leaf :
  copy_invariant m ->
  (pg = 0x2000 /\ idx = 2) \/ (pg = 0x3000 /\ idx = 3) ->
  Read64 (Mem.ram (Mem.system m)) (0x104000 + idx * 8) = leaf ->
  Z.land leaf PAGE_V <> 0 ->
  Mem.walk (Mem.system m) pg = Ret (Some (0x4007, idx, leaf)).
Proof.
  intros (_ & Hreal & Hcr3 & H1 & H2 & H3 & _) Hpg Hleaf HV.
  assert (Hidx : Z.land (Z.shiftr pg 39) 511 = 0 /\ Z.land (Z.shiftr pg 30) 511 = 0 /\
                 Z.land (Z.shiftr pg 21) 511 = 0 /\ Z.land (Z.shiftr pg 12) 511 = idx).
  { destruct Hpg as [[-> ->] | [-> ->]]; repeat split; reflexivity. }
  destruct Hidx as (I39 & I30 & I21 & I12).
  rewrite <- I12.
  apply (walk_four (Mem.system m) pg 0x101000 0x2007 0x102000 0x3007 0x103000 0x4007
           0x104000 leaf);
    rewrite ?I39, ?I30, ?I21, ?I12, ?Hcr3; try lia; try exact HV;
    try (apply example_table_address; [exact Hreal | cbn; tauto]);
    try (unfold Mem.Load64; assumption);
    try (cbn; discriminate).
Qed.

Lemma copy_invariant_tlb m m' :
  copy_invariant m -> Mem.system m' = Mem.system m -> Mem.mode m' = Mem.mode m ->
  (forall e, In e (tlb_entry (Mem.tlb m')) ->
     In e (tlb_entry (Mem.tlb m)) \/ entry e = 0 \/
     (page e = 0x2000 /\ entry e = 0x5007) \/
     (page e = 0x3000 /\ entry e = 0x6001 /\
      Read64 (Mem.ram (Mem.system m)) 0x104018 = 0x6001)) ->
  copy_invariant m'.
Proof.
  intros (Hmode & Hreal & Hcr3 & H1 & H2 & H3 & H4 & Hleaf & Htlb) Hs Hm Hin.
  unfold copy_invariant. rewrite Hs, Hm.
  repeat (split; [assumption|]).
  intros e He Hnz. destruct (Hin e He) as [Hold | [Hz | Hnew]]; [auto | contradiction | exact Hnew].
Qed.

Lemma example_miss_committed m pg idx e :
  copy_invariant m ->
  (pg = 0x2000 /\ idx = 2 /\ e = 0x5007) \/ (pg = 0x3000 /\ idx = 3 /\ e = 0x6001) ->
  Read64 (Mem.ram (Mem.system m)) (0x104000 + idx * 8) = e ->
  exists m', Mem.FindPageTableEntry_miss m pg = Ret (e, m') /\ copy_invariant m' /\
             Mem.ram (Mem.system m') = Mem.ram (Mem.system m).
Proof.
  intros HG Hpg Hleaf.
  assert (Hwalk : Mem.walk (Mem.system m) pg = Ret (Some (0x4007, idx, e))).
  { apply example_walk; [exact HG | tauto | exact Hleaf |].
    destruct Hpg as [(_ & _ & ->) | (_ & _ & ->)]; cbn; discriminate. }
  exists (Mem.SetTlbEntry m (kTlbEntries - 1) {| page := pg; entry := e |}).
  split; [|split; [|reflexivity]].
  - unfold Mem.FindPageTableEntry_miss. rewrite Hwalk.
    destruct Hpg as [(-> & _ & ->) | (-> & _ & ->)]; reflexivity.
  - apply (copy_invariant_tlb m); [exact HG | reflexivity | reflexivity |].
    intros e' Hin. apply In_SetTlbEntry in Hin. destruct Hin as [-> | Hin]; [|now left].
    right. right. cbn [page entry].
    destruct Hpg as [(-> & -> & ->) | (-> & -> & ->)]; [left; auto | right; auto].
Qed.

(** The first touch of guest page 0x3000 commits it to the arena page
    the allocator hands out; besides the leaf entry only bytes that the
    allocator writes change. *)
Lemma example_miss_reserved m :
  copy_invariant m ->
  Read64 (Mem.ram (Mem.system m)) 0x104018 = 0x0201 ->
  Mem.realfree (Mem.system m) = [{| Mem.rf_i := 0x6000; Mem.rf_n := 0x1000 |}] ->
  exists m', Mem.FindPageTableEntry_miss m 0x3000 = Ret (0x6001, m') /\
             copy_invariant m' /\
             Read64 (Mem.ram (Mem.system m')) 0x104018 = 0x6001 /\
             forall x, ~ within 0x104018 8 x -> ~ fresh x ->
                       Mem.ram (Mem.system m') x = Mem.ram (Mem.system m) x.
Proof.
  intros HG Hleaf Hfree.
  assert (Hwalk : Mem.walk (Mem.system m) 0x3000 = Ret (Some (0x4007, 3, 0x0201))).
  { apply example_walk; [exact HG | tauto | exact Hleaf | cbn; discriminate]. }
  destruct HG as (Hmode & Hreal & Hcr3 & H1 & H2 & H3 & H4 & _ & Htlb).
  destruct (alloc_page (Mem.system m) Hreal Hfree) as (s' & Halloc & Hreal' & Hcr3' & Hram').
  assert (Hkeep : forall slot, 0x101000 <= slot <= 0x104018 ->
            Read64 (Mem.ram s') slot = Read64 (Mem.ram (Mem.system m)) slot).
  { intros slot Hslot. apply Read64_ext. intros y Hy. apply Hram'.
    intros Hf. apply fresh_page in Hf. unfold within in Hf. lia. }
  unfold Mem.FindPageTableEntry_miss. rewrite Hwalk.
  change (Mem.canonical 0x3000) with true. cbn [negb bind].
  change (negb (Z.land 0x0201 PAGE_RSRV =? 0)) with true. cbv iota.
  unfold Mem.HandlePageFault. rewrite Halloc.
  change (negb (0x6000 =? wrap64 (-1))) with true. cbv beta iota zeta.
  rewrite (example_table_address _ 0x4007 0x104000)
    by (cbn; first [tauto | congruence]).
  cbn [bind]. unfold Mem.deref. change (0x104000 =? 0) with false. cbn [bind].
  change (Mem.committed_entry 0x6000 0x0201) with 0x6001.
  change (0x6001 =? 0) with false. cbv iota.
  eexists. split; [reflexivity|].
  cbn [Mem.system Mem.SetTlbEntry Mem.set_tlb Mem.set_system Mem.mode Mem.real Mem.cr3
       Mem.ram Mem.Store64 Mem.set_ram Mem.set_memstat Mem.realfree Mem.tlb tlb_entry].
  change (0x104000 + 3 * 8) with 0x104018.
  split; [|split].
  - unfold copy_invariant.
    cbn [Mem.system Mem.SetTlbEntry Mem.set_tlb Mem.set_system Mem.mode Mem.real Mem.cr3
         Mem.ram Mem.Store64 Mem.set_ram Mem.set_memstat Mem.realfree Mem.tlb tlb_entry].
    rewrite !Read64_Write64_other by lia. rewrite Read64_Write64_same.
    rewrite !Hkeep by lia.
    split; [assumption|]. split; [congruence|]. split; [congruence|].
    repeat (split; [assumption|]).
    split; [right; reflexivity|].
    intros e He Hnz. apply In_upd in He. destruct He as [-> | He].
    + right. cbn. auto.
    + destruct (Htlb e He Hnz) as [Hl | (_ & _ & Hbad)]; [now left | congruence].
  - apply Read64_Write64_same.
  - intros x Hx Hnf. unfold Write64. rewrite store_bytes_out.
    + now apply Hram'.
    + rewrite length_le_split. unfold within in Hx. lia.
Qed.

(** Translating a page of the range: a page that is committed already is
    translated without a change of memory; otherwise only the leaf entry
    and what the allocator writes change, and the page is committed
    afterwards. *)
Lemma example_translate m pg :
  copy_invariant m -> pg = 0x2000 \/ pg = 0x3000 ->
  exists e m',
    Mem.FindPageTableEntry m pg = Ret (e, m') /\
    ((pg = 0x2000 /\ e = 0x5007) \/ (pg = 0x3000 /\ e = 0x6001)) /\
    copy_invariant m' /\
    (pg = 0x3000 -> Read64 (Mem.ram (Mem.system m')) 0x104018 = 0x6001) /\
    (pg = 0x2000 \/ Read64 (Mem.ram (Mem.system m)) 0x104018 = 0x6001 ->
     forall x, Mem.ram (Mem.system m') x = Mem.ram (Mem.system m) x) /\
    forall x, ~ within 0x104018 8 x -> ~ fresh x ->
              Mem.ram (Mem.system m') x = Mem.ram (Mem.system m) x.
Proof.
  intros HG Hpg.
  assert (Hmiss : forall m1, copy_invariant m1 -> Mem.system m1 = Mem.system m ->
            exists e m',
              Mem.FindPageTableEntry_miss m1 pg = Ret (e, m') /\
              ((pg = 0x2000 /\ e = 0x5007) \/ (pg = 0x3000 /\ e = 0x6001)) /\
              copy_invariant m' /\
              (pg = 0x3000 -> Read64 (Mem.ram (Mem.system m')) 0x104018 = 0x6001) /\
              (pg = 0x2000 \/ Read64 (Mem.ram (Mem.system m)) 0x104018 = 0x6001 ->
               forall x, Mem.ram (Mem.system m') x = Mem.ram (Mem.system m) x) /\
              forall x, ~ within 0x104018 8 x -> ~ fresh x ->
                        Mem.ram (Mem.system m') x = Mem.ram (Mem.system m) x).
  { intros m1 HG1 Hs. pose proof HG1 as (_ & _ & _ & _ & _ & _ & H4 & Hleaf & _).
    rewrite <- Hs. destruct Hpg as [-> | ->].
    - destruct (example_miss_committed m1 0x2000 2 0x5007 HG1) as (m' & Hr & HG' & Hram);
        [tauto | exact H4 |].
      exists 0x5007, m'. rewrite Hram.
      split; [exact Hr|]. split; [tauto|]. split; [exact HG'|].
      split; [discriminate|]. split; reflexivity.
    - destruct Hleaf as [[Hres Hfree] | Hcom].
      + destruct (example_miss_reserved m1 HG1 Hres Hfree) as (m' & Hr & HG' & Hc' & Hram).
        exists 0x6001, m'.
        split; [exact Hr|]. split; [tauto|]. split; [exact HG'|].
        split; [auto|]. split; [|exact Hram].
        intros [Hbad | Hbad]; [discriminate | congruence].
      + destruct (example_miss_committed m1 0x3000 3 0x6001 HG1) as (m' & Hr & HG' & Hram);
          [tauto | exact Hcom |].
        exists 0x6001, m'. rewrite Hram.
        split; [exact Hr|]. split; [tauto|]. split; [exact HG'|].
        split; [auto|]. split; reflexivity. }
  destruct (FindPageTableEntry_cases m pg)
    as [[_ E] | (_ & x & m1 & _ & Hfrom & Hhit & E)]; rewrite E.
  - apply Hmiss; [|reflexivity].
    apply (copy_invariant_tlb m); [exact HG | reflexivity | reflexivity |].
    intros e He. apply In_reset_tlb in He. subst e. right. left. reflexivity.
  - destruct Hfrom as (Hs & Hm & _ & Hin).
    assert (HG1 : copy_invariant m1).
    { apply (copy_invariant_tlb m); [exact HG | exact Hs | exact Hm |].
      intros e He. destruct (Hin e He) as [? | ->]; [now left | right; left; reflexivity]. }
    destruct (Z.eqb_spec x 0) as [-> | Hnz]; cbn [negb]; [now apply Hmiss|].
    destruct (Hhit Hnz) as (e & He & Hpage & Hx).
    destruct HG as (_ & _ & _ & _ & _ & _ & _ & _ & Htlb).
    exists x, m1. split; [reflexivity|].
    assert (Hcase : (pg = 0x2000 /\ x = 0x5007) \/
                    (pg = 0x3000 /\ x = 0x6001 /\
                     Read64 (Mem.ram (Mem.system m)) 0x104018 = 0x6001)).
    { destruct (Htlb e He ltac:(congruence)) as [[Hp Hv] | (Hp & Hv & Hc)];
        [left | right]; repeat split; congruence. }
    split; [tauto|]. split; [exact HG1|]. rewrite Hs.
    split; [|split; reflexivity].
    intros ->. destruct Hcase as [[Hbad _] | (_ & _ & Hc)]; [discriminate | exact Hc].
Qed.

Lemma example_resolve m a :
  copy_invariant m -> within 0x2ffe 4 a ->
  exists m',
    Mem.ResolveAddress m a = Ret (0x103000 + a, m') /\ copy_invariant m' /\
    (0x3000 <= a -> Read64 (Mem.ram (Mem.system m')) 0x104018 = 0x6001) /\
    (a < 0x3000 \/ Read64 (Mem.ram (Mem.system m)) 0x104018 = 0x6001 ->
     forall x, Mem.ram (Mem.system m') x = Mem.ram (Mem.system m) x) /\
    forall x, ~ within 0x104018 8 x -> ~ fresh x ->
              Mem.ram (Mem.system m') x = Mem.ram (Mem.system m) x.
Proof.
  intros HG Ha.
  assert (Hcase : (Z.land a (-4096) = 0x2000 /\ Z.land a 4095 = a - 0x2000 /\ a < 0x3000) \/
                  (Z.land a (-4096) = 0x3000 /\ Z.land a 4095 = a - 0x3000 /\ 0x3000 <= a)).
  { unfold within in Ha.
    assert (a = 0x2ffe \/ a = 0x2fff \/ a = 0x3000 \/ a = 0x3001) as [-> | [-> | [-> | ->]]]
      by lia; cbn; [left | left | right | right]; repeat split; lia. }
  pose proof HG as (Hmode & _).
  destruct (example_translate m (Z.land a (-4096)) HG ltac:(tauto))
    as (e & m' & Hfind & He & HG' & Hcom & Hsame & Hram).
  exists m'.
  split; [|split; [exact HG'|split; [|split; [|exact Hram]]]].
  - unfold Mem.ResolveAddress, Mem.GetAddress. rewrite paged.
    unfold Mem.LookupAddress. rewrite Hmode, Hfind. cbn [bind].
    pose proof HG' as (_ & Hreal' & _).
    destruct He as [[Hp ->] | [Hp ->]];
      destruct Hcase as [(Hq & Hoff & _) | (Hq & Hoff & _)]; try congruence.
    + change (0x5007 =? 0) with false. cbv iota.
      rewrite (example_table_address _ 0x5007 0x105000 Hreal') by (cbn; tauto).
      cbn [bind]. change (0x105000 =? 0) with false. cbv iota. rewrite Hoff.
      cbn [bind fst]. replace (0x105000 + (a - 0x2000)) with (0x103000 + a) by lia.
      unfold within in Ha. destruct (Z.eqb_spec (0x103000 + a) 0); [lia | reflexivity].
    + change (0x6001 =? 0) with false. cbv iota.
      rewrite (example_table_address _ 0x6001 0x106000 Hreal') by (cbn; tauto).
      cbn [bind]. change (0x106000 =? 0) with false. cbv iota. rewrite Hoff.
      cbn [bind fst]. replace (0x106000 + (a - 0x3000)) with (0x103000 + a) by lia.
      unfold within in Ha. destruct (Z.eqb_spec (0x103000 + a) 0); [lia | reflexivity].
  - intros Hge. apply Hcom.
    destruct Hcase as [(_ & _ & Hlt) | (Hq & _)]; [lia | exact Hq].
  - intros Hold. apply Hsame.
    destruct Hold as [Hlt | Hc]; [left | now right].
    destruct Hcase as [(Hq & _) | (_ & _ & Hge)]; [exact Hq | lia].
Qed.

(** Bytes written to the host bytes of the range or to the buffer at
    0x300000 leave the page tables alone. *)
Lemma example_write m p bs :
  copy_invariant m ->
  (forall x, within p (Z.of_nat (length bs)) x ->
     host_bytes (fun a => 0x103000 + a) 0x2ffe 4 x \/ within 0x300000 4 x) ->
  copy_invariant (Mem.poke m p bs) /\
  Read64 (Mem.ram (Mem.system (Mem.poke m p bs))) 0x104018
  = Read64 (Mem.ram (Mem.system m)) 0x104018.
Proof.
  intros HG Hrange.
  assert (Hslot : forall slot, 0x101000 <= slot <= 0x104018 ->
            Read64 (Mem.ram (Mem.system (Mem.poke m p bs))) slot
            = Read64 (Mem.ram (Mem.system m)) slot).
  { intros slot Hslot. apply Read64_ext. intros y Hy. cbn.
    apply store_bytes_out.
    destruct (Z_lt_ge_dec y p) as [? | Hge]; [now left | right].
    destruct (Z_lt_ge_dec y (p + Z.of_nat (length bs))) as [Hlt | ?]; [exfalso | lia].
    specialize (Hrange y ltac:(unfold within; lia)).
    destruct Hrange as [(b & Hb & ->) | Hd]; unfold within in *; lia. }
  split; [|apply Hslot; lia].
  destruct HG as (Hmode & Hreal & Hcr3 & H1 & H2 & H3 & H4 & Hleaf & Htlb).
  unfold copy_invariant. rewrite !Hslot by lia.
  repeat (split; [assumption|]). exact Htlb.
Qed.

(** With demand paging, the translation of the range holds from any
    machine of the example on; a page counts as resolved when it is
    committed. *)
Lemma example_paged m0 :
  copy_invariant m0 ->
  PagedTranslation m0 0x2ffe 4 0x200000 0x300000
    (fun a => 0x103000 + a) copy_invariant
    (fun m a => a < 0x3000 \/ Read64 (Mem.ram (Mem.system m)) 0x104018 = 0x6001).
Proof.
  intros HG0. constructor.
  - exact HG0.
  - intros m a HG Ha.
    destruct (example_resolve m a HG Ha) as (m' & Hr & HG' & Hcom & Hsame & Hram).
    exists m'. split; [exact Hr|]. split; [exact HG'|]. split; [|split].
    + intros x Hx. apply Hram.
      * unfold within in *. lia.
      * intros Hf. apply fresh_page in Hf. unfold within in *. lia.
    + intros b Hb [Hlt | Hc].
      * split; [now left|]. apply Hram.
        -- unfold within in *. lia.
        -- intros Hf. apply fresh_page in Hf. unfold within in *. lia.
      * split; [right|]; rewrite ?(Read64_ext _ _ _ (fun x _ => Hsame (or_intror Hc) x));
          [exact Hc | apply Hsame; now right].
    + intros b Hb Hpage.
      destruct (Z_lt_ge_dec b 0x3000) as [Hlt | Hge]; [now left | right].
      apply Hcom. unfold within in Ha, Hb.
      destruct (Z_lt_ge_dec a 0x3000) as [Hlta | Hgea]; [exfalso | lia].
      rewrite !page_of_address in Hpage. Z.div_mod_to_equations. lia.
  - intros m p bs HG Hrange.
    destruct (example_write m p bs HG Hrange) as [HG' Hleaf].
    split; [exact HG'|]. intros b [Hlt | Hc]; [now left | right; congruence].
  - intros. lia.
  - intros. lia.
  - intros x Hx (a & Ha & E). unfold within in *. lia.
  - intros x Hx (a & Ha & E). unfold within in *. lia.
Qed.

End PagedExample.

Lemma example_init : copy_invariant copy_machine.
Proof.
  unfold copy_invariant.
  repeat (split; [vm_compute; reflexivity|]).
  split; [left; split; vm_compute; reflexivity|].
  intros e He. apply In_reset_tlb in He. subst e. cbn. congruence.
Qed.

Lemma freelist_alloc_page s :
  Mem.real s = 0x100000 ->
  Mem.realfree s = [{| Mem.rf_i := 0x6000; Mem.rf_n := 0x1000 |}] ->
  exists s',
    @Mem.AllocatePage paged_collab s = (0x6000, s') /\
    Mem.real s' = Mem.real s /\ Mem.cr3 s' = Mem.cr3 s /\
    forall x, ~ False -> Mem.ram s' x = Mem.ram s x.
Proof.
  intros _ Hfree. cbn [Mem.AllocatePage paged_collab]. unfold freelist_AllocatePage.
  rewrite Hfree. eexists. split; [reflexivity|]. cbn. auto.
Qed.

(** The guest range [0x2ffe, 0x3002) of [copy_machine] crosses from a
    committed page into a reserved one; with an allocator that leaves
    memory alone its translation is stable while a buffer at 0x200000 is
    copied in and read back at 0x300000. *)
Lemma paged_stable :
  @StableTranslation blink_config paged_collab copy_machine 0x2ffe 4 0x200000 0x300000
    (fun a => 0x103000 + a) copy_invariant.
Proof.
  constructor.
  - exact example_init.
  - intros m a HG Ha.
    destruct (@example_resolve paged_collab (fun _ => False) (fun _ => eq_refl)
                (fun _ F => False_ind _ F) freelist_alloc_page m a HG Ha)
      as (m' & Hr & HG' & _ & _ & Hram).
    exists m'. split; [exact Hr|]. split; [exact HG'|].
    intros x Hx. apply Hram; [|tauto].
    destruct Hx as [(b & Hb & ->) | [Hx | Hx]]; unfold within in *; lia.
  - intros m p bs HG Hrange. now apply example_write.
  - intros. lia.
  - intros. lia.
  - intros x Hx (a & Ha & E). unfold within in *. lia.
  - intros x Hx (a & Ha & E). unfold within in *. lia.
Qed.

Lemma zerofill_alloc_page s :
  Mem.real s = 0x100000 ->
  Mem.realfree s = [{| Mem.rf_i := 0x6000; Mem.rf_n := 0x1000 |}] ->
  exists s',
    @Mem.AllocatePage zerofill_collab s = (0x6000, s') /\
    Mem.real s' = Mem.real s /\ Mem.cr3 s' = Mem.cr3 s /\
    forall x, ~ within 0x106000 4096 x -> Mem.ram s' x = Mem.ram s x.
Proof.
  intros Hreal Hfree. cbn [Mem.AllocatePage zerofill_collab]. unfold zerofill_AllocatePage.
  rewrite Hfree. eexists. split; [reflexivity|]. cbn [Mem.real Mem.cr3 Mem.ram Mem.rf_i].
  split; [reflexivity|]. split; [reflexivity|].
  intros x Hx. rewrite Hreal. unfold within in Hx.
  destruct (Z.leb_spec (0x100000 + 0x6000) x); destruct (Z.ltb_spec x (0x100000 + 0x6000 + 4096));
    cbn [andb]; try reflexivity. lia.
Qed.
(** ** The round trip with demand paging *)

Lemma same_page a j :
  0 <= j -> Z.land a 4095 + j < 4096 -> Z.land (a + j) (-4096) = Z.land a (-4096).
Proof.
  intros Hj Hoff. rewrite !page_of_address. rewrite land_4095 in Hoff.
  Z.div_mod_to_equations. lia.
Qed.

(** A translation that no resolution disturbs is one in which every page
    counts as resolved from the start. *)
Lemma stable_paged {cfg : Config} {col : Mem.Collab} m0 v n src dst h G :
  StableTranslation m0 v n src dst h G ->
  PagedTranslation m0 v n src dst h G (fun _ _ => True).
Proof.
  intros [Hinit Hres Hwrite Hpage Hinj Hsrc Hdst]. constructor; try assumption.
  - intros m a HG Ha. destruct (Hres m a HG Ha) as (m' & Hr & HG' & Hkeep).
    exists m'. split; [exact Hr|]. split; [exact HG'|]. split; [|split].
    + intros x Hx. apply Hkeep. tauto.
    + intros b Hb _. split; [exact I|]. apply Hkeep. left. now exists b.
    + intros. exact I.
  - intros m p bs HG Hrange. split; [now apply Hwrite | auto].
Qed.

Section RoundTripPaged.
Context {cfg : Config} {col : Mem.Collab}.
Variables (m0 : Mem.Machine) (v n src dst : Z) (h : Z -> Z)
          (G : Mem.Machine -> Prop) (T : Mem.Machine -> Z -> Prop).
Hypothesis paged : PagedTranslation m0 v n src dst h G T.

Lemma paged_chunk va k j :
  within v n va -> va + k <= v + n -> k <= 4096 - Z.land va 4095 ->
  0 <= j < k ->
  h va + j = h (va + j) /\ within v n (va + j) /\
  Z.land (va + j) (-4096) = Z.land va (-4096).
Proof.
  intros Hva Hend Hk Hj. unfold within in *.
  assert (Hin : v <= va + j < v + n) by lia.
  split; [|split; [exact Hin | apply same_page; lia]].
  symmetry. apply (pt_page _ _ _ _ _ _ _ _ paged); unfold within; lia.
Qed.

(** The loop of [CopyToUser]: the bytes of [src] reach the host bytes of
    the guest range, page after page; a page that was written stays as it
    is when a later page is resolved. *)
Lemma to_user_paged fuel : forall m va nn k,
  G m -> v <= va -> va + nn = v + n -> 0 <= nn -> (Z.to_nat nn < fuel)%nat ->
  (nn = 0 \/ k = 4096 - Z.land va 4095) ->
  (forall x, within src n x ->
     Mem.ram (Mem.system m) x = Mem.ram (Mem.system m0) x) ->
  (forall a, v <= a < va ->
     T m a /\ Mem.ram (Mem.system m) (h a) = Mem.ram (Mem.system m0) (src + (a - v))) ->
  exists m',
    Mem.VirtualCopy_loop fuel m va (src + (va - v)) nn false k = Ret m' /\ G m' /\
    (forall a, within v n a ->
       T m' a /\ Mem.ram (Mem.system m') (h a) = Mem.ram (Mem.system m0) (src + (a - v))).
Proof.
  induction fuel as [|fuel IH]; intros m va nn k HG Hva Hend Hnn Hfuel Hk Hsrc Hdone;
    [lia|].
  cbn [Mem.VirtualCopy_loop].
  destruct (Z.eqb_spec nn 0) as [-> | Hnz].
  { exists m. split; [reflexivity|]. split; [exact HG|].
    intros a Ha. apply Hdone. unfold within in Ha. lia. }
  destruct Hk as [? | Hk]; [contradiction|].
  assert (Hlow : 0 <= Z.land va 4095 < 4096).
  { rewrite land_4095. apply Z.mod_pos_bound. lia. }
  set (k' := Z.min k nn).
  assert (Hk' : 0 < k' <= nn /\ k' <= 4096 - Z.land va 4095) by (subst k'; lia).
  assert (Hin : within v n va) by (unfold within; lia).
  destruct (pt_resolve _ _ _ _ _ _ _ _ paged m va HG Hin)
    as (m1 & Hres & HG1 & Hbuf & Hold & Hnew).
  rewrite Hres. cbn [bind].
  rewrite memcpy_poke by reflexivity.
  set (bs := load_bytes (Mem.ram (Mem.system m1)) (src + (va - v)) (Z.to_nat k')).
  assert (Hlen : Z.of_nat (length bs) = k').
  { subst bs. rewrite load_bytes_length. lia. }
  assert (Hchunk : forall j, 0 <= j < k' ->
            h va + j = h (va + j) /\ within v n (va + j) /\
            Z.land (va + j) (-4096) = Z.land va (-4096)).
  { intros j Hj. apply (paged_chunk va k'); try lia. exact Hin. }
  assert (Hhost : forall x, within (h va) (Z.of_nat (length bs)) x -> host_bytes h v n x).
  { intros x Hx. unfold within in Hx. rewrite Hlen in Hx.
    destruct (Hchunk (x - h va) ltac:(lia)) as (E & Hr & _).
    exists (va + (x - h va)). split; [exact Hr | lia]. }
  destruct (pt_write _ _ _ _ _ _ _ _ paged m1 (h va) bs HG1) as [HG2 HT2].
  { intros x Hx. left. now apply Hhost. }
  replace (src + (va - v) + k') with (src + (va + k' - v)) by lia.
  apply IH.
  - exact HG2.
  - lia.
  - lia.
  - lia.
  - lia.
  - destruct (Z.eq_dec (nn - k') 0) as [? | Hmore]; [now left | right].
    assert (k' = k) by (subst k'; lia).
    replace (va + k') with (va + (4096 - Z.land va 4095)) by lia.
    rewrite aligned_after_chunk. reflexivity.
  - intros x Hx. rewrite poke_out.
    + rewrite Hbuf by auto. now apply Hsrc.
    + intros Hw. apply (pt_src _ _ _ _ _ _ _ _ paged x Hx). now apply Hhost.
  - intros a Ha. destruct (Z_lt_ge_dec a va) as [Hlt | Hge].
    + destruct (Hdone a ltac:(lia)) as [HTa Hbyte].
      destruct (Hold a ltac:(unfold within; lia) HTa) as [HTa1 Hkeep].
      split; [now apply HT2|].
      rewrite poke_out.
      * rewrite Hkeep. exact Hbyte.
      * intros Hw. unfold within in Hw. rewrite Hlen in Hw.
        destruct (Hchunk (h a - h va) ltac:(lia)) as (E & Hr & _).
        assert (a = va + (h a - h va)).
        { apply (pt_inj _ _ _ _ _ _ _ _ paged); [unfold within; lia | exact Hr | lia]. }
        lia.
    + destruct (Hchunk (a - va) ltac:(lia)) as (E & Hr & Hpg).
      replace (va + (a - va)) with a in * by lia.
      split; [apply HT2, Hnew; assumption|].
      rewrite <- E.
      rewrite poke_in by lia. subst bs.
      rewrite load_bytes_nth by lia. rewrite Z2Nat.id by lia.
      rewrite Hbuf.
      * rewrite Hsrc; [f_equal; lia|]. unfold within in *. lia.
      * left. unfold within in *. lia.
Qed.

(** The loop of [CopyFromUser]: every page of the range was resolved
    before, so it holds [g] throughout, and its host bytes reach [dst]. *)
Lemma from_user_paged (g : Z -> byte) fuel : forall m va nn k,
  G m -> v <= va -> va + nn = v + n -> 0 <= nn -> (Z.to_nat nn < fuel)%nat ->
  (nn = 0 \/ k = 4096 - Z.land va 4095) ->
  (forall a, within v n a -> T m a /\ Mem.ram (Mem.system m) (h a) = g a) ->
  (forall a, v <= a < va -> Mem.ram (Mem.system m) (dst + (a - v)) = g a) ->
  exists m',
    Mem.VirtualCopy_loop fuel m va (dst + (va - v)) nn true k = Ret m' /\
    (forall a, within v n a -> Mem.ram (Mem.system m') (dst + (a - v)) = g a).
Proof.
  induction fuel as [|fuel IH]; intros m va nn k HG Hva Hend Hnn Hfuel Hk Hguest Hdone;
    [lia|].
  cbn [Mem.VirtualCopy_loop].
  destruct (Z.eqb_spec nn 0) as [-> | Hnz].
  { exists m. split; [reflexivity|].
    intros a Ha. apply Hdone. unfold within in Ha. lia. }
  destruct Hk as [? | Hk]; [contradiction|].
  assert (Hlow : 0 <= Z.land va 4095 < 4096).
  { rewrite land_4095. apply Z.mod_pos_bound. lia. }
  set (k' := Z.min k nn).
  assert (Hk' : 0 < k' <= nn /\ k' <= 4096 - Z.land va 4095) by (subst k'; lia).
  assert (Hin : within v n va) by (unfold within; lia).
  destruct (pt_resolve _ _ _ _ _ _ _ _ paged m va HG Hin)
    as (m1 & Hres & HG1 & Hbuf & Hold & _).
  rewrite Hres. cbn [bind].
  rewrite memcpy_poke by reflexivity.
  set (bs := load_bytes (Mem.ram (Mem.system m1)) (h va) (Z.to_nat k')).
  assert (Hlen : Z.of_nat (length bs) = k').
  { subst bs. rewrite load_bytes_length. lia. }
  assert (Hchunk : forall j, 0 <= j < k' ->
            h va + j = h (va + j) /\ within v n (va + j) /\
            Z.land (va + j) (-4096) = Z.land va (-4096)).
  { intros j Hj. apply (paged_chunk va k'); try lia. exact Hin. }
  assert (Hdstw : forall x, within (dst + (va - v)) (Z.of_nat (length bs)) x -> within dst n x).
  { intros x Hx. unfold within in *. lia. }
  destruct (pt_write _ _ _ _ _ _ _ _ paged m1 (dst + (va - v)) bs HG1) as [HG2 HT2].
  { intros x Hx. right. now apply Hdstw. }
  assert (Hguest1 : forall a, within v n a ->
            T m1 a /\ Mem.ram (Mem.system m1) (h a) = g a).
  { intros a Ha. destruct (Hguest a Ha) as [HTa Hbyte].
    destruct (Hold a Ha HTa) as [HTa1 Hkeep]. split; [exact HTa1 | congruence]. }
  replace (dst + (va - v) + k') with (dst + (va + k' - v)) by lia.
  apply IH.
  - exact HG2.
  - lia.
  - lia.
  - lia.
  - lia.
  - destruct (Z.eq_dec (nn - k') 0) as [? | Hmore]; [now left | right].
    assert (k' = k) by (subst k'; lia).
    replace (va + k') with (va + (4096 - Z.land va 4095)) by lia.
    rewrite aligned_after_chunk. reflexivity.
  - intros a Ha. destruct (Hguest1 a Ha) as [HTa Hbyte].
    split; [now apply HT2|].
    rewrite poke_out; [exact Hbyte|].
    intros Hw. apply Hdstw in Hw.
    apply (pt_dst _ _ _ _ _ _ _ _ paged _ Hw). now exists a.
  - intros a Ha. destruct (Z_lt_ge_dec a va) as [Hlt | Hge].
    + rewrite poke_out.
      * rewrite Hbuf; [apply Hdone; lia|]. right. unfold within. lia.
      * unfold within. lia.
    + replace (dst + (a - v)) with (dst + (va - v) + (a - va)) by lia.
      rewrite poke_in by lia. subst bs.
      rewrite load_bytes_nth by lia. rewrite Z2Nat.id by lia.
      destruct (Hchunk (a - va) ltac:(lia)) as (E & Hr & _).
      replace (va + (a - va)) with a in * by lia. rewrite E.
      apply Hguest1. exact Hr.
Qed.

(** C5 (as amended).  Let every address of the guest range [v, v + n)
    resolve to a host pointer, whatever the two copies have written so
    far.  Resolving an address may fill its page when the page is
    resolved for the first time, but changes no byte of [src] or [dst]
    and no byte of a page of the range that was resolved before.  Let a
    page of the range map to consecutive host bytes, distinct guest bytes
    of the range have distinct host bytes, and the buffers [src] and
    [dst] lie apart from them.  Then [CopyToUser(m, v, src, n)] followed
    by [CopyFromUser(m, dst, v, n)] returns, and leaves in [dst] the
    bytes that [src] held, for any length and alignment. *)
Theorem CopyToUser_CopyFromUser :
  0 <= n ->
  exists m1 m2,
    Mem.CopyToUser m0 v src n = Ret m1 /\
    Mem.CopyFromUser m1 dst v n = Ret (dst, m2) /\
    load_bytes (Mem.ram (Mem.system m2)) dst (Z.to_nat n)
    = load_bytes (Mem.ram (Mem.system m0)) src (Z.to_nat n).
Proof.
  intros Hn.
  destruct (to_user_paged (S (Z.to_nat n)) m0 v n (4096 - Z.land v 4095))
    as (m1 & Hto & HG1 & Hguest);
    try lia; auto.
  { apply (pt_init _ _ _ _ _ _ _ _ paged). }
  destruct (from_user_paged (fun a => Mem.ram (Mem.system m0) (src + (a - v)))
              (S (Z.to_nat n)) m1 v n (4096 - Z.land v 4095))
    as (m2 & Hfrom & Hdst);
    try lia; auto.
  exists m1, m2. unfold Mem.CopyToUser, Mem.CopyFromUser, Mem.VirtualCopy.
  replace (src + (v - v)) with src in Hto by lia.
  replace (dst + (v - v)) with dst in Hfrom by lia.
  rewrite Hto, Hfrom. cbn [bind].
  split; [reflexivity|]. split; [reflexivity|].
  unfold load_bytes. apply map_ext_in. intros j Hj. apply in_seq in Hj.
  specialize (Hdst (v + Z.of_nat j) ltac:(unfold within; lia)).
  replace (dst + (v + Z.of_nat j - v)) with (dst + Z.of_nat j) in Hdst by lia.
  rewrite Hdst. f_equal. lia.
Qed.

End RoundTripPaged.

Lemma dirty_init : copy_invariant dirty_machine.
Proof.
  unfold copy_invariant.
  repeat (split; [vm_compute; reflexivity|]).
  split; [left; split; vm_compute; reflexivity|].
  intros e He. apply In_reset_tlb in He. subst e. cbn. congruence.
Qed.

(** The range [0x2ffe, 0x3002) of [dirty_machine] crosses from a
    committed page into a reserved one, which the first touch commits to
    an arena page that holds stale bytes; the pager fills that page with
    zeros before the copy writes to it. *)
Lemma CopyToUser_CopyFromUser_witness :
  (exists m1 m2,
     @Mem.CopyToUser blink_config zerofill_collab dirty_machine 0x2ffe 0x200000 4 = Ret m1 /\
     @Mem.CopyFromUser blink_config zerofill_collab m1 0x300000 0x2ffe 4
       = Ret (0x300000, m2) /\
     load_bytes (Mem.ram (Mem.system m2)) 0x300000 (Z.to_nat 4)
     = load_bytes (Mem.ram (Mem.system dirty_machine)) 0x200000 (Z.to_nat 4)) /\
  Mem.ram (Mem.system dirty_machine) 0x106004 = Byte.xff /\
  match @Mem.CopyToUser blink_config zerofill_collab dirty_machine 0x2ffe 0x200000 4 with
  | Ret m1 => Mem.ram (Mem.system m1) 0x106004 = Byte.x00
  | Abort _ => False
  end.
Proof.
  split; [|split; vm_compute; reflexivity].
  apply (@CopyToUser_CopyFromUser blink_config zerofill_collab dirty_machine
           0x2ffe 4 0x200000 0x300000 (fun a => 0x103000 + a) copy_invariant
           (fun m a => a < 0x3000 \/ Read64 (Mem.ram (Mem.system m)) 0x104018 = 0x6001)
           (@example_paged zerofill_collab (within 0x106000 4096) (fun _ => eq_refl)
              (fun _ H => H) zerofill_alloc_page dirty_machine dirty_init)).
  lia.
Defined.

(** A translation that holds for a range holds for every part of it. *)
Lemma paged_sub {cfg : Config} {col : Mem.Collab} m0 v n src dst h G T v' n' :
  PagedTranslation m0 v n src dst h G T ->
  v <= v' -> v' + n' <= v + n -> n' <= n ->
  PagedTranslation m0 v' n' src dst h G T.
Proof.
  intros [Hinit Hres Hwrite Hpage Hinj Hsrc Hdst] Hlo Hhi Hn.
  assert (Hin : forall a, within v' n' a -> within v n a)
    by (unfold within; intros; lia).
  assert (Hhost : forall x, host_bytes h v' n' x -> host_bytes h v n x).
  { intros x (a & Ha & E). exists a. split; [now apply Hin | exact E]. }
  constructor.
  - exact Hinit.
  - intros m a HG Ha.
    destruct (Hres m a HG (Hin a Ha)) as (m' & Hr & HG' & Hbuf & Hold & Hnew).
    exists m'. split; [exact Hr|]. split; [exact HG'|]. split; [|split].
    + intros x Hx. apply Hbuf. unfold within in *. lia.
    + intros b Hb. apply Hold. now apply Hin.
    + intros b Hb. apply Hnew. now apply Hin.
  - intros m p bs HG Hrange. apply Hwrite; [exact HG|].
    intros x Hx. destruct (Hrange x Hx) as [Hh | Hd]; [left; now apply Hhost | right].
    unfold within in *. lia.
  - intros a j Ha Haj. apply Hpage; now apply Hin.
  - intros a b Ha Hb. apply Hinj; now apply Hin.
  - intros x Hx Hh. apply (Hsrc x); [unfold within in *; lia | now apply Hhost].
  - intros x Hx Hh. apply (Hdst x); [unfold within in *; lia | now apply Hhost].
Qed.
(** ** The arena: allocation keeps the arena well formed *)

Ltac malloc_simpl :=
  cbn [Malloc.system Malloc.tlb Malloc.host_ok Malloc.set_system Malloc.set_memstat
       Malloc.set_realfree Malloc.set_real_p Malloc.ResetTlb
       Malloc.real_p Malloc.real_i Malloc.real_n Malloc.cr3 Malloc.realfree
       Malloc.memstat Malloc.rf_i Malloc.rf_n
       Malloc.inc_allocated_committed Malloc.inc_resizes Malloc.reclaim_one
       Malloc.inc_freed Malloc.dec_reserved Malloc.dec_committed
       Malloc.inc_pagetables Malloc.inc_reserved
       allocated committed freed reserved reclaimed resizes pagetables] in *.

Lemma grow_capacity n :
  0 <= n < 2 ^ 62 -> n mod 4096 = 0 ->
  let n2 := Malloc.ROUNDUP (if negb (n =? 0) then wrap64 (n + Z.shiftr n 1) else 0x10000)
              0x1000 in
  n2 mod 4096 = 0 /\ n + 4096 <= n2 /\ n2 < 2 ^ 63.
Proof.
  intros Hn Ha. cbv zeta.
  destruct (Z.eqb_spec n 0) as [-> | Hnz]; cbn [negb].
  - vm_compute. repeat split; congruence.
  - rewrite Z.shiftr_div_pow2 by lia. change (2 ^ 1) with 2.
    rewrite (wrap64_small (n + n / 2)) by (Z.div_mod_to_equations; lia).
    rewrite ROUNDUP_4k by (Z.div_mod_to_equations; lia).
    split; [apply Z.mod_mul; lia|]. Z.div_mod_to_equations. lia.
Qed.

Lemma mod4096_add a b : a mod 4096 = 0 -> b mod 4096 = 0 -> (a + b) mod 4096 = 0.
Proof. intros Ha Hb. rewrite Z.add_mod, Ha, Hb by lia. reflexivity. Qed.

Lemma mod4096_sub a b : a mod 4096 = 0 -> b mod 4096 = 0 -> (a - b) mod 4096 = 0.
Proof. intros Ha Hb. rewrite Zminus_mod, Ha, Hb. reflexivity. Qed.

Section ArenaInvariant.
Context {cfg : Config}.

Lemma AllocateLinearPageRaw_total (m : Malloc.Machine) :
  arena_ok (Malloc.system m) ->
  Malloc.real_n (Malloc.system m) < 2 ^ 62 ->
  exists r m',
    Malloc.AllocateLinearPageRaw m = Ret (r, m') /\
    ((r = -1 /\ Malloc.system m' = Malloc.system m /\ Malloc.tlb m' = Malloc.tlb m /\
      Malloc.realfree (Malloc.system m) = [] /\
      Malloc.real_i (Malloc.system m) = Malloc.real_n (Malloc.system m)) \/
     (0 <= r /\ r mod 4096 = 0 /\
      r + 4096 <= Malloc.real_i (Malloc.system m') /\
      arena_ok (Malloc.system m') /\
      Malloc.real_n (Malloc.system m) <= Malloc.real_n (Malloc.system m') /\
      Malloc.real_p (Malloc.system m') = Malloc.real_p (Malloc.system m) /\
      Malloc.cr3 (Malloc.system m') = Malloc.cr3 (Malloc.system m) /\
      committed (Malloc.memstat (Malloc.system m'))
        = committed (Malloc.memstat (Malloc.system m)) + 1)).
Proof.
  intros (Hin & Hn63 & Hia & Hna & Hfree) Hn62.
  unfold Malloc.AllocateLinearPageRaw.
  destruct (Malloc.realfree (Malloc.system m)) as [|rf next] eqn:Hlist.
  - destruct (Z.eqb_spec (Malloc.real_i (Malloc.system m)) (Malloc.real_n (Malloc.system m)))
      as [Heq | Hne].
    + pose proof (grow_capacity (Malloc.real_n (Malloc.system m)) ltac:(lia) Hna)
        as (Ha2 & Hle2 & Hlt2).
      cbv zeta in Ha2, Hle2, Hlt2.
      set (n2 := Malloc.ROUNDUP _ _) in *.
      unfold Malloc.host_alloc.
      destruct (Malloc.host_ok m) as [|[|] oks] eqn:Hhost.
      * exists (-1), m. split; [reflexivity|]. left. auto.
      * unfold Malloc.bump_watermark. malloc_simpl.
        rewrite !land_fff, Hia, Ha2.
        rewrite (wrap64_small (Malloc.real_i (Malloc.system m) + 0x1000)) by lia.
        replace (Malloc.real_i (Malloc.system m) + 0x1000 <=? n2) with true
          by (symmetry; apply Z.leb_le; lia).
        cbn [Z.eqb assert bind]. rewrite to_i64_small by lia.
        eexists _, _. split; [reflexivity|]. right.
        unfold arena_ok. malloc_simpl.
        repeat split; try lia; try constructor.
        apply mod4096_add; [assumption | reflexivity].
      * exists (-1), {| Malloc.system := Malloc.system m; Malloc.tlb := Malloc.tlb m;
                        Malloc.host_ok := oks |}.
        split; [reflexivity|]. left. auto.
    + assert (Hstep : Malloc.real_i (Malloc.system m) + 4096
                      <= Malloc.real_n (Malloc.system m)).
      { Z.div_mod_to_equations. lia. }
      unfold Malloc.bump_watermark. rewrite !land_fff, Hia, Hna.
      rewrite (wrap64_small (Malloc.real_i (Malloc.system m) + 0x1000)) by lia.
      replace (Malloc.real_i (Malloc.system m) + 0x1000 <=? Malloc.real_n (Malloc.system m))
        with true by (symmetry; apply Z.leb_le; lia).
      cbn [Z.eqb assert bind]. rewrite to_i64_small by lia.
      eexists _, _. split; [reflexivity|]. right.
      unfold arena_ok. malloc_simpl. rewrite Hlist.
      repeat split; try lia; try constructor.
      apply mod4096_add; [assumption | reflexivity].
  - inversion Hfree as [|? ? (Hpos & Hnal & Hi0 & Hial & Hbelow) Hrest]; subst.
    rewrite !land_fff, Hial, Hnal.
    replace (Malloc.rf_n rf =? 0) with false by (symmetry; apply Z.eqb_neq; lia).
    rewrite (wrap64_small (Malloc.rf_i rf + Malloc.rf_n rf)) by lia.
    replace (Malloc.rf_i rf + Malloc.rf_n rf <=? Malloc.real_i (Malloc.system m)) with true
      by (symmetry; apply Z.leb_le; lia).
    cbn [negb Z.eqb assert bind]. rewrite to_i64_small by lia.
    assert (Hge : 4096 <= Malloc.rf_n rf) by (Z.div_mod_to_equations; lia).
    eexists _, _. split; [reflexivity|]. right.
    unfold arena_ok. malloc_simpl.
    rewrite (wrap64_small (Malloc.rf_n rf - 0x1000)) by lia.
    rewrite (wrap64_small (Malloc.rf_i rf + 0x1000)) by lia.
    repeat split; try lia.
    destruct (Z.eqb_spec (Malloc.rf_n rf - 0x1000) 0) as [Hz | Hnz]; [exact Hrest|].
    constructor; [|exact Hrest].
    unfold chunk_ok. malloc_simpl.
    repeat split; try lia.
    + apply mod4096_sub; [assumption | reflexivity].
    + apply mod4096_add; [assumption | reflexivity].
Qed.



End ArenaInvariant.


(** ** The Real-Free list: [AppendRealFree] *)

(** X2.  Freeing an arena page that lies below the watermark keeps the
    arena well formed.  The free list gains 4096 bytes when the page
    extends the head chunk or the host gives memory for a new chunk;
    when the host refuses, the page is dropped and the list is as
    before.  Extending the head chunk does not call the host. *)
Theorem AppendRealFree_arena_ok (m : Malloc.Machine) (real : Z) :
  arena_ok (Malloc.system m) ->
  0 <= real -> real mod 4096 = 0 ->
  real + 4096 <= Malloc.real_i (Malloc.system m) ->
  let m' := Malloc.AppendRealFree m real in
  arena_ok (Malloc.system m') /\
  free_bytes (Malloc.realfree (Malloc.system m'))
    = free_bytes (Malloc.realfree (Malloc.system m))
      + (if coalesces (Malloc.system m) real || hd false (Malloc.host_ok m)
         then 4096 else 0) /\
  (coalesces (Malloc.system m) real = true -> Malloc.host_ok m' = Malloc.host_ok m) /\
  Malloc.real_i (Malloc.system m') = Malloc.real_i (Malloc.system m) /\
  Malloc.memstat (Malloc.system m') = Malloc.memstat (Malloc.system m).
Proof.
  intros (Hin & Hn63 & Hia & Hna & Hfree) Hr0 Hra Hbelow. cbv zeta.
  unfold Malloc.AppendRealFree, Malloc.host_alloc, coalesces.
  destruct (Malloc.realfree (Malloc.system m)) as [|rf rest] eqn:Hlist.
  - cbn [orb]. destruct (Malloc.host_ok m) as [|[|] oks] eqn:Hhost; cbn [hd];
      unfold arena_ok; malloc_simpl; rewrite ?Hlist; cbn [free_bytes fold_right];
      malloc_simpl; (repeat split; try lia; try discriminate); auto.
    all: try (constructor; [|constructor]; unfold chunk_ok; malloc_simpl;
              repeat split; try lia; reflexivity).
  - inversion Hfree as [|? ? (Hpos & Hnal & Hi0 & Hial & Hb) Hrest]; subst.
    rewrite (wrap64_small (Malloc.rf_i rf + Malloc.rf_n rf)) by lia.
    destruct (Z.eqb_spec real (Malloc.rf_i rf + Malloc.rf_n rf)) as [Heq | Hne]; cbn [orb].
    + unfold arena_ok; malloc_simpl.
      rewrite (wrap64_small (Malloc.rf_n rf + 4096)) by lia.
      cbn [free_bytes fold_right]. malloc_simpl.
      repeat split; try lia.
      constructor; [|exact Hrest]. unfold chunk_ok. malloc_simpl.
      repeat split; try lia. apply mod4096_add; [assumption | reflexivity].
    + destruct (Malloc.host_ok m) as [|[|] oks] eqn:Hhost; cbn [hd];
        unfold arena_ok; malloc_simpl; rewrite ?Hlist; cbn [free_bytes fold_right];
        malloc_simpl; (repeat split; try lia; try discriminate); auto.
      all: try (constructor; [|exact Hfree]; unfold chunk_ok; malloc_simpl;
                repeat split; try lia; reflexivity).
Qed.


Lemma AppendRealFree_arena_ok_witness :
  let m' := Malloc.AppendRealFree freed_machine 0x3000 in
  arena_ok (Malloc.system m') /\
  free_bytes (Malloc.realfree (Malloc.system m'))
    = free_bytes (Malloc.realfree (Malloc.system freed_machine))
      + (if coalesces (Malloc.system freed_machine) 0x3000
            || hd false (Malloc.host_ok freed_machine)
         then 4096 else 0) /\
  (coalesces (Malloc.system freed_machine) 0x3000 = true ->
   Malloc.host_ok m' = Malloc.host_ok freed_machine) /\
  Malloc.real_i (Malloc.system m') = Malloc.real_i (Malloc.system freed_machine) /\
  Malloc.memstat (Malloc.system m') = Malloc.memstat (Malloc.system freed_machine).
Proof.
  apply (AppendRealFree_arena_ok freed_machine 0x3000).
  - unfold arena_ok, chunk_ok. simpl. repeat split; try lia; try discriminate.
    repeat constructor; simpl; lia.
  - lia.
  - reflexivity.
  - simpl. lia.
Defined.

Section Reuse.
Context {cfg : Config}.

(** X3.  On a well-formed arena, when the host's next allocation
    succeeds (so that [AppendRealFree] does not drop the page), an
    aligned page below the watermark that was just freed is the next one
    allocated, unless it extended the head chunk of the free list: then
    the first page of that chunk is allocated.  Either way the allocation
    takes nothing from the watermark, does not count as [allocated], and
    leaves the free list with the bytes it had before the page was
    freed. *)
Theorem AllocateLinearPageRaw_after_AppendRealFree
    (m : Malloc.Machine) (real : Z) (oks : list bool) :
  arena_ok (Malloc.system m) ->
  0 <= real -> real mod 4096 = 0 ->
  real + 4096 <= Malloc.real_i (Malloc.system m) ->
  Malloc.host_ok m = true :: oks ->
  exists m',
    Malloc.AllocateLinearPageRaw (Malloc.AppendRealFree m real)
      = Ret ((if coalesces (Malloc.system m) real
              then Malloc.rf_i (hd {| Malloc.rf_i := 0; Malloc.rf_n := 0 |}
                                   (Malloc.realfree (Malloc.system m)))
              else real), m') /\
    free_bytes (Malloc.realfree (Malloc.system m'))
      = free_bytes (Malloc.realfree (Malloc.system m)) /\
    Malloc.real_i (Malloc.system m') = Malloc.real_i (Malloc.system m) /\
    allocated (Malloc.memstat (Malloc.system m'))
      = allocated (Malloc.memstat (Malloc.system m)) /\
    reclaimed (Malloc.memstat (Malloc.system m'))
      = reclaimed (Malloc.memstat (Malloc.system m)) + 1.
Proof.
  intros (Hin & Hn63 & Hia & Hna & Hfree) Hr0 Hra Hbelow Hhost.
  unfold Malloc.AppendRealFree, Malloc.host_alloc, coalesces. rewrite Hhost.
  destruct (Malloc.realfree (Malloc.system m)) as [|rf rest] eqn:Hlist.
  - unfold Malloc.AllocateLinearPageRaw. malloc_simpl.
    rewrite !land_fff, Hra. rewrite (wrap64_small (real + 4096)) by lia.
    replace (real + 4096 <=? Malloc.real_i (Malloc.system m)) with true
      by (symmetry; apply Z.leb_le; lia).
    cbn [negb Z.eqb assert bind Z.land]. rewrite to_i64_small by lia.
    change (4096 mod 4096 =? 0) with true.
    change (wrap64 (4096 - 4096) =? 0) with true. cbn [assert bind]. cbv iota.
    eexists. split; [reflexivity|]. malloc_simpl. auto.
  - inversion Hfree as [|? ? (Hpos & Hnal & Hi0 & Hial & Hb) Hrest]; subst.
    assert (Hge : 4096 <= Malloc.rf_n rf) by (Z.div_mod_to_equations; lia).
    rewrite (wrap64_small (Malloc.rf_i rf + Malloc.rf_n rf)) by lia. cbn [hd].
    destruct (Z.eqb_spec real (Malloc.rf_i rf + Malloc.rf_n rf)) as [Heq | Hne].
    + unfold Malloc.AllocateLinearPageRaw. malloc_simpl.
      rewrite (wrap64_small (Malloc.rf_n rf + 4096)) by lia.
      rewrite !land_fff, Hial, (mod4096_add _ 4096 Hnal eq_refl).
      replace (Malloc.rf_n rf + 4096 =? 0) with false by (symmetry; apply Z.eqb_neq; lia).
      rewrite (wrap64_small (Malloc.rf_i rf + (Malloc.rf_n rf + 4096))) by lia.
      replace (Malloc.rf_i rf + (Malloc.rf_n rf + 4096) <=? Malloc.real_i (Malloc.system m))
        with true by (symmetry; apply Z.leb_le; lia).
      cbn [negb Z.eqb assert bind]. rewrite to_i64_small by lia.
      rewrite (wrap64_small (Malloc.rf_n rf + 4096 - 0x1000)) by lia.
      replace (Malloc.rf_n rf + 4096 - 0x1000 =? 0) with false
        by (symmetry; apply Z.eqb_neq; lia).
      eexists. split; [reflexivity|]. malloc_simpl.
      cbn [free_bytes fold_right]. malloc_simpl. repeat split; lia.
    + unfold Malloc.AllocateLinearPageRaw. malloc_simpl.
      rewrite !land_fff, Hra. rewrite (wrap64_small (real + 4096)) by lia.
      replace (real + 4096 <=? Malloc.real_i (Malloc.system m)) with true
        by (symmetry; apply Z.leb_le; lia).
      cbn [negb Z.eqb assert bind Z.land]. rewrite to_i64_small by lia.
      change (4096 mod 4096 =? 0) with true.
      change (wrap64 (4096 - 4096) =? 0) with true. cbn [assert bind]. cbv iota.
      eexists. split; [reflexivity|]. malloc_simpl. cbn [free_bytes fold_right]. malloc_simpl. repeat split; lia.
Qed.

End Reuse.

Lemma AllocateLinearPageRaw_after_AppendRealFree_witness :
  exists m',
    @Malloc.AllocateLinearPageRaw blink_config (Malloc.AppendRealFree freed_machine 0x3000)
      = Ret ((if coalesces (Malloc.system freed_machine) 0x3000
              then Malloc.rf_i (hd {| Malloc.rf_i := 0; Malloc.rf_n := 0 |}
                                   (Malloc.realfree (Malloc.system freed_machine)))
              else 0x3000), m') /\
    free_bytes (Malloc.realfree (Malloc.system m'))
      = free_bytes (Malloc.realfree (Malloc.system freed_machine)) /\
    Malloc.real_i (Malloc.system m') = Malloc.real_i (Malloc.system freed_machine) /\
    allocated (Malloc.memstat (Malloc.system m'))
      = allocated (Malloc.memstat (Malloc.system freed_machine)) /\
    reclaimed (Malloc.memstat (Malloc.system m'))
      = reclaimed (Malloc.memstat (Malloc.system freed_machine)) + 1.
Proof.
  apply (@AllocateLinearPageRaw_after_AppendRealFree blink_config freed_machine 0x3000 []).
  - unfold arena_ok, chunk_ok. simpl. repeat split; try lia; try discriminate.
    repeat constructor; simpl; lia.
  - lia.
  - reflexivity.
  - simpl. lia.
  - reflexivity.
Defined.
(** ** [AllocateLinearPage]: the page comes zeroed *)

Lemma Read64_zero mem a :
  (forall x, a <= x < a + 8 -> mem x = Byte.x00) -> Read64 mem a = 0.
Proof.
  intros Hz. unfold Read64, load_bytes. cbn [seq map].
  rewrite !Hz by lia. reflexivity.
Qed.

Section ZeroPage.
Context {cfg : Config}.

(** X4.  On a well-formed arena below 2^62 bytes [AllocateLinearPage]
    always returns.  When the host refuses to grow the arena it answers
    -1 and the system and the TLB are as before.  Otherwise the 4096
    bytes of the page it answers are zero, so every 8-byte entry of the
    page reads 0, and every byte outside the page is as before. *)
Theorem AllocateLinearPage_zeroes (m : Malloc.Machine) :
  arena_ok (Malloc.system m) ->
  Malloc.real_n (Malloc.system m) < 2 ^ 62 ->
  exists r m',
    Malloc.AllocateLinearPage m = Ret (r, m') /\
    ((r = -1 /\ Malloc.system m' = Malloc.system m /\ Malloc.tlb m' = Malloc.tlb m) \/
     (0 <= r /\ r mod 4096 = 0 /\
      r + 4096 <= Malloc.real_i (Malloc.system m') /\
      arena_ok (Malloc.system m') /\
      Malloc.real_n (Malloc.system m) <= Malloc.real_n (Malloc.system m') /\
      Malloc.cr3 (Malloc.system m') = Malloc.cr3 (Malloc.system m) /\
      (forall a, r <= a < r + 4096 ->
                 Malloc.real_p (Malloc.system m') a = Byte.x00) /\
      (forall a, ~ r <= a < r + 4096 ->
                 Malloc.real_p (Malloc.system m') a = Malloc.real_p (Malloc.system m) a) /\
      (forall k, 0 <= k < 512 ->
                 Read64 (Malloc.real_p (Malloc.system m')) (r + 8 * k) = 0))).
Proof.
  intros Hok Hn.
  destruct (AllocateLinearPageRaw_total m Hok Hn) as (r & m1 & Hrun & Hcases).
  unfold Malloc.AllocateLinearPage. rewrite Hrun. cbn [bind].
  destruct Hcases as [(-> & Hsys & Htlb & _) | (Hr0 & Hra & Hbelow & Hok' & Hcap & Hp & Hcr3 & _)].
  - cbn [Z.eqb negb]. eexists _, _. split; [reflexivity|]. left. auto.
  - replace (r =? -1) with false by (symmetry; apply Z.eqb_neq; lia). cbn [negb].
    eexists _, _. split; [reflexivity|]. right.
    assert (Hfill : forall a, r <= a < r + 4096 ->
              Malloc.memset (Malloc.real_p (Malloc.system m1)) r Byte.x00 0x1000 a = Byte.x00).
    { intros a Ha. unfold Malloc.memset.
      replace (r <=? a) with true by (symmetry; apply Z.leb_le; lia).
      replace (a <? r + 0x1000) with true by (symmetry; apply Z.ltb_lt; lia).
      reflexivity. }
    destruct Hok' as (Hi' & Hn' & Hia' & Hna' & Hfr').
    unfold arena_ok. malloc_simpl. repeat split; try assumption; try lia.
    + intros a Ha. unfold Malloc.memset.
      destruct (Z.leb_spec r a); destruct (Z.ltb_spec a (r + 0x1000)); cbn [andb];
        try (rewrite Hp; reflexivity). lia.
    + intros k Hk. apply Read64_zero. intros x Hx. apply Hfill. lia.
Qed.

End ZeroPage.

Lemma AllocateLinearPage_zeroes_witness :
  exists r m',
    @Malloc.AllocateLinearPage blink_config freed_machine = Ret (r, m') /\
    ((r = -1 /\ Malloc.system m' = Malloc.system freed_machine /\
      Malloc.tlb m' = Malloc.tlb freed_machine) \/
     (0 <= r /\ r mod 4096 = 0 /\
      r + 4096 <= Malloc.real_i (Malloc.system m') /\
      arena_ok (Malloc.system m') /\
      Malloc.real_n (Malloc.system freed_machine) <= Malloc.real_n (Malloc.system m') /\
      Malloc.cr3 (Malloc.system m') = Malloc.cr3 (Malloc.system freed_machine) /\
      (forall a, r <= a < r + 4096 ->
                 Malloc.real_p (Malloc.system m') a = Byte.x00) /\
      (forall a, ~ r <= a < r + 4096 ->
                 Malloc.real_p (Malloc.system m') a
                 = Malloc.real_p (Malloc.system freed_machine) a) /\
      (forall k, 0 <= k < 512 ->
                 Read64 (Malloc.real_p (Malloc.system m')) (r + 8 * k) = 0))).
Proof.
  apply (@AllocateLinearPage_zeroes blink_config freed_machine).
  - unfold arena_ok, chunk_ok. simpl. repeat split; try lia; try discriminate.
    repeat constructor; simpl; lia.
  - simpl. lia.
Defined.
(** ** [ReserveReal] and [ResetMem] *)

Section Capacity.
Context {cfg : Config}.


Lemma FreeMachineRealFree_loop_nil l : Malloc.FreeMachineRealFree_loop l = [].
Proof. induction l; [reflexivity | assumption]. Qed.

(** X6.  [ResetMem] makes any arena with an aligned capacity well formed
    again: the free list is empty, the watermark and [cr3] are 0, the
    counters are zero.  When the capacity holds at least a page, the next
    [AllocateLinearPage] answers page 0 without calling the host, the page
    is zeroed, and it is the only page allocated and committed. *)
Theorem ResetMem_first_page (m : Malloc.Machine) :
  4096 <= Malloc.real_n (Malloc.system m) < 2 ^ 63 ->
  Malloc.real_n (Malloc.system m) mod 4096 = 0 ->
  arena_ok (Malloc.system (Malloc.ResetMem m)) /\
  exists m',
    Malloc.AllocateLinearPage (Malloc.ResetMem m) = Ret (0, m') /\
    Malloc.host_ok m' = Malloc.host_ok m /\
    Malloc.real_i (Malloc.system m') = 4096 /\
    Malloc.memstat (Malloc.system m')
    = {| allocated := 1; committed := 1; freed := 0; reserved := 0;
         reclaimed := 0; resizes := 0; pagetables := 0 |} /\
    (forall k, 0 <= k < 512 -> Read64 (Malloc.real_p (Malloc.system m')) (8 * k) = 0).
Proof.
  intros Hcap Hal. split.
  - unfold arena_ok, Malloc.ResetMem, Malloc.FreeMachineRealFree. malloc_simpl.
    rewrite FreeMachineRealFree_loop_nil. repeat split; try lia. constructor.
  - unfold Malloc.AllocateLinearPage, Malloc.AllocateLinearPageRaw, Malloc.ResetMem,
      Malloc.FreeMachineRealFree.
    malloc_simpl. rewrite FreeMachineRealFree_loop_nil.
    replace (0 =? Malloc.real_n (Malloc.system m)) with false
      by (symmetry; apply Z.eqb_neq; lia).
    unfold Malloc.bump_watermark. malloc_simpl.
    rewrite !land_fff, Hal. change (0 mod 4096) with 0.
    change (wrap64 (0 + 0x1000)) with 4096.
    replace (4096 <=? Malloc.real_n (Malloc.system m)) with true
      by (symmetry; apply Z.leb_le; lia).
    cbn [Z.eqb assert bind negb]. change (to_i64 0) with 0.
    change (0 =? -1) with false. cbn [negb].
    eexists. split; [reflexivity|]. malloc_simpl.
    repeat split.
    intros k Hk. apply Read64_zero. intros x Hx. unfold Malloc.memset.
    replace (0 <=? x) with true by (symmetry; apply Z.leb_le; lia).
    replace (x <? 0 + 0x1000) with true by (symmetry; apply Z.ltb_lt; lia).
    reflexivity.
Qed.

End Capacity.


Lemma ResetMem_first_page_witness :
  arena_ok (Malloc.system (@Malloc.ResetMem blink_config arena_machine)) /\
  exists m',
    @Malloc.AllocateLinearPage blink_config (@Malloc.ResetMem blink_config arena_machine) = Ret (0, m') /\
    Malloc.host_ok m' = Malloc.host_ok arena_machine /\
    Malloc.real_i (Malloc.system m') = 4096 /\
    Malloc.memstat (Malloc.system m')
    = {| allocated := 1; committed := 1; freed := 0; reserved := 0;
         reclaimed := 0; resizes := 0; pagetables := 0 |} /\
    (forall k, 0 <= k < 512 -> Read64 (Malloc.real_p (Malloc.system m')) (8 * k) = 0).
Proof.
  apply (@ResetMem_first_page blink_config arena_machine).
  - simpl. lia.
  - reflexivity.
Defined.
(** ** [FindVirtual]: what the scan answers *)

Lemma FindVirtual_walk_level fuel m virt pt i0 i :
  Malloc.FindVirtual_walk fuel m virt pt i0 = Ret i -> i <= i0.
Proof.
  revert pt i0. induction fuel as [|fuel IH]; intros pt i0; cbn [Malloc.FindVirtual_walk];
    [discriminate|].
  destruct (Z.leb_spec 12 i0) as [Hge | Hlt]; [|intros [= <-]; lia].
  destruct (Malloc.MachineRead64 _ _) as [pt'|]; cbn [bind]; [|discriminate].
  destruct (Z.land pt' 1 =? 0); [intros [= <-]; lia|].
  intros Hrun. apply IH in Hrun. lia.
Qed.

Lemma shiftl_1_level i : 12 <= i <= 39 -> 4096 <= Z.shiftl 1 i <= 2 ^ 39.
Proof.
  intros Hi. rewrite Z.shiftl_1_l. split.
  - change 4096 with (2 ^ 12). apply Z.pow_le_mono_r; lia.
  - apply Z.pow_le_mono_r; lia.
Qed.

(** Once the scan stands on an unmapped page it stays there, adding the
    size of the hole's level to [got] until [got] reaches [size]. *)
Lemma FindVirtual_loop_hole m virt size i :
  Malloc.FindVirtual_walk 5 m virt (Malloc.cr3 (Malloc.system m)) 39 = Ret i ->
  12 <= i -> virt < 0x800000000000 -> size <= 2 ^ 63 ->
  forall fuel got,
    0 <= got < size ->
    (Z.to_nat ((size - got) / 4096) < fuel)%nat ->
    Malloc.FindVirtual_loop fuel m virt size got = Ret virt.
Proof.
  intros Hwalk Hi Hv Hsize.
  pose proof (FindVirtual_walk_level _ _ _ _ _ _ Hwalk) as Hi39.
  pose proof (shiftl_1_level i ltac:(lia)) as Hstep.
  induction fuel as [|fuel IH]; intros got Hgot Hfuel; [lia|].
  cbn [Malloc.FindVirtual_loop].
  replace (0x800000000000 <=? virt) with false by (symmetry; apply Z.leb_gt; lia).
  rewrite Hwalk. cbn [bind].
  replace (12 <=? i) with true by (symmetry; apply Z.leb_le; lia).
  rewrite (wrap64_small (got + Z.shiftl 1 i)) by lia.
  destruct (Z.ltb_spec (got + Z.shiftl 1 i) size) as [Hmore | Hdone]; [|reflexivity].
  apply IH; [lia|].
  assert ((size - (got + Z.shiftl 1 i)) / 4096 < (size - got) / 4096).
  { apply Z.div_lt_upper_bound; [lia|].
    pose proof (Z.mul_div_le (size - got) 4096 ltac:(lia)).
    pose proof (Z.mod_pos_bound (size - got) 4096 ltac:(lia)).
    pose proof (Z.div_mod (size - got) 4096 ltac:(lia)). lia. }
  assert (0 <= (size - (got + Z.shiftl 1 i)) / 4096) by (apply Z.div_pos; lia).
  lia.
Qed.

(** X7.  [FindVirtual] with a positive size answers the first page at or
    after [virt], in steps of 4096, that is not mapped, as long as that
    page lies below 0x800000000000 (from that address on the answer is
    ENOMEM): it steps over [k] mapped pages and stops at the page whose
    walk meets an absent entry. *)
Theorem FindVirtual_first_unmapped (m : Malloc.Machine) (virt size i : Z) (k fuel : nat) :
  (forall j, (j < k)%nat -> Malloc.mapped m (virt + 4096 * Z.of_nat j) = true) ->
  Malloc.FindVirtual_walk 5 m (virt + 4096 * Z.of_nat k)
    (Malloc.cr3 (Malloc.system m)) 39 = Ret i ->
  12 <= i ->
  virt + 4096 * Z.of_nat k < 0x800000000000 ->
  0 < size <= 2 ^ 63 ->
  (k + Z.to_nat (size / 4096) < fuel)%nat ->
  Malloc.FindVirtual fuel m virt size = Ret (virt + 4096 * Z.of_nat k) /\
  Malloc.mapped m (virt + 4096 * Z.of_nat k) = false.
Proof.
  intros Hmapped Hwalk Hi Hv Hsize Hfuel. split.
  2:{ unfold Malloc.mapped. rewrite Hwalk. apply Z.ltb_ge. lia. }
  unfold Malloc.FindVirtual.
  revert virt fuel Hmapped Hwalk Hv Hfuel.
  induction k as [|k IH]; intros virt fuel Hmapped Hwalk Hv Hfuel.
  - replace (virt + 4096 * Z.of_nat 0) with virt in * by lia.
    apply (FindVirtual_loop_hole m virt size i); try assumption; try lia.
    rewrite Z.sub_0_r. lia.
  - destruct fuel as [|fuel]; [lia|]. cbn [Malloc.FindVirtual_loop].
    replace (0x800000000000 <=? virt) with false by (symmetry; apply Z.leb_gt; lia).
    pose proof (Hmapped O ltac:(lia)) as Hfirst.
    replace (virt + 4096 * Z.of_nat 0) with virt in Hfirst by lia.
    unfold Malloc.mapped in Hfirst.
    destruct (Malloc.FindVirtual_walk 5 m virt (Malloc.cr3 (Malloc.system m)) 39)
      as [i0|]; [|discriminate].
    cbn [bind]. apply Z.ltb_lt in Hfirst.
    replace (12 <=? i0) with false by (symmetry; apply Z.leb_gt; lia).
    replace (0 <? size) with true by (symmetry; apply Z.ltb_lt; lia).
    replace (virt + 4096 * Z.of_nat (S k)) with (virt + 4096 + 4096 * Z.of_nat k) in * by lia.
    apply IH; try assumption; try lia.
    intros j Hj. specialize (Hmapped (S j) ltac:(lia)).
    replace (virt + 4096 * Z.of_nat (S j)) with (virt + 4096 + 4096 * Z.of_nat j)
      in Hmapped by lia.
    exact Hmapped.
Qed.

Lemma FindVirtual_first_unmapped_witness :
  Malloc.FindVirtual 5 arena_machine 0x1000 8192 = Ret (0x1000 + 4096 * Z.of_nat 2) /\
  Malloc.mapped arena_machine (0x1000 + 4096 * Z.of_nat 2) = false.
Proof.
  apply (FindVirtual_first_unmapped arena_machine 0x1000 8192 12 2 5).
  - intros j Hj. destruct j as [|[|j]]; [vm_compute; reflexivity .. | lia].
  - vm_compute. reflexivity.
  - lia.
  - simpl. lia.
  - lia.
  - simpl. lia.
Defined.
(** ** [FreeVirtual]: counters and termination *)

Lemma free_frame_refl s : free_frame s s.
Proof. unfold free_frame. repeat split; lia. Qed.

Lemma free_frame_trans s1 s2 s3 : free_frame s1 s2 -> free_frame s2 s3 -> free_frame s1 s3.
Proof. unfold free_frame. intros H12 H23. cbv zeta in *. intuition lia. Qed.

Section Conservation.
Context {cfg : Config}.

Lemma AppendRealFree_frame m r :
  Malloc.real_i (Malloc.system (Malloc.AppendRealFree m r)) = Malloc.real_i (Malloc.system m) /\
  Malloc.cr3 (Malloc.system (Malloc.AppendRealFree m r)) = Malloc.cr3 (Malloc.system m).
Proof.
  unfold Malloc.AppendRealFree, Malloc.host_alloc.
  destruct (Malloc.realfree (Malloc.system m)) as [|rf rest];
    [|destruct (r =? wrap64 (Malloc.rf_i rf + Malloc.rf_n rf)); [split; reflexivity|]];
    destruct (Malloc.host_ok m) as [|[|] oks]; split; reflexivity.
Qed.

Lemma FreeVirtual_walk_frame fuel m virt pt i m' j :
  Malloc.FreeVirtual_walk fuel m virt pt i = Ret (m', j) ->
  free_frame (Malloc.system m) (Malloc.system m') /\ Malloc.tlb m' = Malloc.tlb m.
Proof.
  revert pt i. induction fuel as [|fuel IH]; intros pt i; cbn [Malloc.FreeVirtual_walk];
    [discriminate|].
  destruct (Malloc.MachineRead64 _ _) as [e|]; cbn [bind]; [|discriminate].
  destruct (Z.land e 1 =? 0).
  { intros [= <- <-]. split; [apply free_frame_refl | reflexivity]. }
  destruct (i =? 12); [|apply IH].
  unfold Malloc.MachineWrite64.
  destruct (wrap64 _ <=? _); cbn [assert bind]; [|discriminate].
  intros [= <- <-].
  destruct (Z.land e PAGE_RSRV =? 0); cbn [negb].
  - match goal with
    | |- context [Malloc.AppendRealFree ?mm ?r] =>
        pose proof (AppendRealFree_arena mm r) as [Hn _];
        pose proof (AppendRealFree_frame mm r) as [Hi Hc];
        pose proof (AppendRealFree_memstat mm r) as Hst;
        assert (Htlb : Malloc.tlb (Malloc.AppendRealFree mm r) = Malloc.tlb mm)
    end.
    { unfold Malloc.AppendRealFree, Malloc.host_alloc.
      match goal with
      | |- context [match ?l with [] => _ | _ :: _ => _ end] => destruct l as [|rf rest]
      end.
      - destruct (Malloc.host_ok _) as [|[|] oks]; reflexivity.
      - destruct (_ =? _); [reflexivity|].
        destruct (Malloc.host_ok _) as [|[|] oks]; reflexivity. }
    split; [|exact Htlb].
    unfold free_frame. malloc_simpl. rewrite Hn, Hi, Hc, Hst. malloc_simpl.
    repeat split; lia.
  - split; [|reflexivity]. unfold free_frame. malloc_simpl. repeat split; lia.
Qed.

(** The walk from level 39 never runs out of steps and stops at one of
    the four levels. *)
Lemma FreeVirtual_walk_levels m virt pt :
  Malloc.FreeVirtual_walk 4 m virt pt 39 = Abort AssertFail \/
  exists m' j, Malloc.FreeVirtual_walk 4 m virt pt 39 = Ret (m', j) /\ 12 <= j <= 39.
Proof.
  cbn [Malloc.FreeVirtual_walk]. unfold Malloc.MachineRead64, Malloc.MachineWrite64, assert.
  repeat first
    [ progress change (wrap64 (39 - 9)) with 30
    | progress change (wrap64 (30 - 9)) with 21
    | progress change (wrap64 (21 - 9)) with 12
    | progress cbn [assert bind Z.eqb Pos.eqb]
    | match goal with
      | |- context [if ?b then _ else _] =>
          lazymatch b with
          | context [if _ then _ else _] => fail
          | _ => destruct b
          end
      end
    | (right; eexists _, _; split; [reflexivity | lia])
    | (left; reflexivity) ].
Qed.

Lemma FreeVirtual_loop_frame m0 end_ :
  end_ <= 2 ^ 63 ->
  forall fuel m virt,
    free_frame (Malloc.system m0) (Malloc.system m) ->
    0 <= virt ->
    (Z.to_nat ((end_ - virt + 4095) / 4096) < fuel)%nat ->
    Malloc.FreeVirtual_loop fuel m virt end_ = Abort AssertFail \/
    exists m', Malloc.FreeVirtual_loop fuel m virt end_ = Ret m' /\
               free_frame (Malloc.system m0) (Malloc.system m').
Proof.
  intros Hend. induction fuel as [|fuel IH]; intros m virt Hfr Hv Hfuel; [lia|].
  cbn [Malloc.FreeVirtual_loop].
  destruct (Z.ltb_spec virt end_) as [Hlt | Hge]; [|right; eauto].
  destruct (FreeVirtual_walk_levels m virt (Malloc.cr3 (Malloc.system m)))
    as [-> | (m1 & j & Hwalk & Hj)]; [left; reflexivity|].
  rewrite Hwalk. cbn [bind].
  pose proof (FreeVirtual_walk_frame _ _ _ _ _ _ _ Hwalk) as [Hfr1 _].
  pose proof (shiftl_1_level j Hj) as Hstep.
  rewrite (wrap64_small (virt + Z.shiftl 1 j)) by lia.
  apply IH; [eapply free_frame_trans; eassumption | lia |].
  destruct (Z.le_gt_cases end_ (virt + Z.shiftl 1 j)) as [Hover | Hunder].
  - assert (0 < (end_ - virt + 4095) / 4096) by (apply Z.div_str_pos; lia).
    assert ((end_ - (virt + Z.shiftl 1 j) + 4095) / 4096 < 1).
    { apply Z.div_lt_upper_bound; lia. }
    lia.
  - assert ((end_ - (virt + Z.shiftl 1 j) + 4095) / 4096 < (end_ - virt + 4095) / 4096).
    { Z.div_mod_to_equations. lia. }
    assert (0 <= (end_ - (virt + Z.shiftl 1 j) + 4095) / 4096) by (apply Z.div_pos; lia).
    lia.
Qed.

(** X8.  [FreeVirtual] on a range that ends at or below 2^63 never runs
    out of steps: with one unit of fuel per page of the range, and one
    more, it stops on a failed assertion of [MachineRead64] or
    [MachineWrite64], or it answers 0 with the TLB reset.  In the second
    case [freed] has grown by exactly what [reserved] and [committed] lost
    together, no counter moved the other way, and the watermark, the
    capacity, [cr3], [allocated], [reclaimed], [resizes] and [pagetables]
    are as before. *)
Theorem FreeVirtual_conserves (m : Malloc.Machine) (base size : Z) (fuel : nat) :
  0 <= base -> 0 <= size -> base + size <= 2 ^ 63 ->
  (Z.to_nat ((size + 4095) / 4096) < fuel)%nat ->
  Malloc.FreeVirtual fuel m base size = Abort AssertFail \/
  exists m',
    Malloc.FreeVirtual fuel m base size = Ret (0, m') /\
    Malloc.tlb m' = ResetTlb_tlb /\
    free_frame (Malloc.system m) (Malloc.system m').
Proof.
  intros Hb Hs Hend Hfuel. unfold Malloc.FreeVirtual.
  rewrite (wrap64_small base) by lia. rewrite (wrap64_small (base + size)) by lia.
  destruct (FreeVirtual_loop_frame m (base + size) Hend fuel m base
              (free_frame_refl _) Hb) as [-> | (m' & -> & Hfr)].
  - replace (base + size - base) with size by lia. exact Hfuel.
  - left. reflexivity.
  - right. exists (Malloc.ResetTlb m'). cbn [bind]. auto.
Qed.

End Conservation.

Lemma FreeVirtual_conserves_witness :
  @Malloc.FreeVirtual blink_config 3 arena_machine 0x1000 0x2000 = Abort AssertFail \/
  exists m',
    @Malloc.FreeVirtual blink_config 3 arena_machine 0x1000 0x2000 = Ret (0, m') /\
    Malloc.tlb m' = @ResetTlb_tlb blink_config /\
    free_frame (Malloc.system arena_machine) (Malloc.system m').
Proof.
  apply (@FreeVirtual_conserves blink_config arena_machine 0x1000 0x2000 3).
  - lia.
  - lia.
  - lia.
  - simpl. lia.
Defined.
(** ** [ReserveVirtual]: reserving a run of pages *)

Lemma to_i64_mod x : to_i64 x mod 2 ^ 64 = x mod 2 ^ 64.
Proof.
  unfold to_i64. rewrite Zminus_mod_idemp_l. f_equal. lia.
Qed.

Lemma land_mod64 a b : 0 <= b < 2 ^ 64 -> Z.land a b = Z.land (a mod 2 ^ 64) b.
Proof.
  intros Hb. rewrite <- (Z.land_ones a 64) by lia.
  rewrite <- Z.land_assoc. f_equal.
  rewrite Z.land_comm, Z.land_ones by lia. symmetry. apply Z.mod_small. exact Hb.
Qed.

Lemma land_to_i64 x b : 0 <= b < 2 ^ 64 -> Z.land (to_i64 x) b = Z.land (wrap64 x) b.
Proof.
  intros Hb. rewrite (land_mod64 (to_i64 x)) by exact Hb. rewrite to_i64_mod.
  reflexivity.
Qed.

Lemma to_i64_range x : - 2 ^ 63 <= to_i64 x < 2 ^ 63.
Proof. unfold to_i64. pose proof (Z.mod_pos_bound (x + 2 ^ 63) (2 ^ 64)). lia. Qed.

Lemma to_i64_signed z : - 2 ^ 63 <= z < 2 ^ 63 -> to_i64 z = z.
Proof. intros Hz. unfold to_i64. rewrite Z.mod_small; lia. Qed.

Lemma leaf_index_range x : 0 <= Z.land x 511 <= 511.
Proof. apply land_le_r. lia. Qed.

Lemma slot_offset_range pt ti :
  0 <= ti <= 511 ->
  0 <= Z.land (Z.land pt PAGE_TA) PAGE_TA + ti * 8 < 2 ^ 49 /\
  (Z.land (Z.land pt PAGE_TA) PAGE_TA + ti * 8) mod 8 = 0.
Proof.
  intros Hti. pose proof (land_le_r (Z.land pt PAGE_TA) PAGE_TA ltac:(vm_compute; congruence)).
  split; [change PAGE_TA with 0x0000fffffffff000 in *; lia|].
  rewrite Z.add_mod, land_TA_aligned, Z.mod_mul by lia. reflexivity.
Qed.

Lemma absent_entries_ext p p' mi n :
  (forall a, mi <= a < mi + 8 * Z.of_nat n -> p' a = p a) ->
  absent_entries p' mi n = absent_entries p mi n.
Proof.
  intros Hagree. unfold absent_entries. apply filter_ext_in.
  intros j Hj. apply in_seq in Hj.
  rewrite (Read64_ext p p') by (intros x Hx; apply Hagree; lia). reflexivity.
Qed.

Lemma absent_entries_S p mi n :
  length (absent_entries p mi (S n))
  = ((if (Z.land (Read64 p mi) 1 =? 0)%Z then 1 else 0)
     + length (absent_entries p (mi + 8)%Z n))%nat.
Proof.
  unfold absent_entries. rewrite <- cons_seq, <- seq_shift. cbn [filter].
  replace (mi + 8 * Z.of_nat 0) with mi by lia.
  assert (Htail : length (filter (fun j => Z.land (Read64 p (mi + 8 * Z.of_nat j)) 1 =? 0)
                            (map S (seq 0 n)))
                  = length (filter (fun j => Z.land (Read64 p (mi + 8 + 8 * Z.of_nat j)) 1 =? 0)
                              (seq 0 n))).
  { induction (seq 0 n) as [|j l IH]; [reflexivity|]. cbn [map filter].
    replace (mi + 8 * Z.of_nat (S j)) with (mi + 8 + 8 * Z.of_nat j) by lia.
    destruct (_ =? 0); cbn [length]; rewrite IH; reflexivity. }
  destruct (Z.land (Read64 p mi) 1 =? 0); cbn [length]; rewrite Htail; reflexivity.
Qed.

Lemma ReserveVirtual_run_fills key end_ :
  forall (n fuel : nat) (m : Malloc.Machine) (virt ti mi : Z),
    (0 < n <= fuel)%nat ->
    0 <= ti -> ti + Z.of_nat n <= 512 ->
    0 <= mi -> mi + 8 * Z.of_nat n <= Malloc.real_n (Malloc.system m) ->
    Malloc.real_n (Malloc.system m) < 2 ^ 64 ->
    - 2 ^ 63 <= virt -> virt + 4096 * Z.of_nat n < 2 ^ 63 ->
    end_ <= virt + 4096 * Z.of_nat n ->
    (n = 1%nat \/ virt + 4096 * (Z.of_nat n - 1) < end_) ->
    exists m',
      Malloc.ReserveVirtual_run fuel m virt end_ ti mi
        (to_i64 (Read64 (Malloc.real_p (Malloc.system m)) mi)) key
      = Ret (m', Malloc.Return 0) /\
      reserved_run m m' mi n key.
Proof.
  induction n as [|n IH]; intros fuel m virt ti mi Hfuel Hti Htab Hmi Hin Hcap Hv Hvn Hend Hlast;
    [lia|].
  destruct fuel as [|fuel]; [lia|]. cbn [Malloc.ReserveVirtual_run].
  rewrite land_to_i64 by lia.
  rewrite (wrap64_small (Read64 _ mi)) by apply Read64_range.
  rewrite (wrap64_small mi) by lia.
  rewrite (to_i64_signed (virt + 4096)) by lia.
  set (p := Malloc.real_p (Malloc.system m)) in *.
  (* the machine after the first entry *)
  set (m1 := if Z.land (Read64 p mi) 1 =? 0
             then Malloc.set_system
                    (Malloc.set_system m (Malloc.set_real_p (Malloc.system m) (Write64 p mi key)))
                    (Malloc.set_memstat
                       (Malloc.set_real_p (Malloc.system m) (Write64 p mi key))
                       (Malloc.inc_reserved (Malloc.memstat (Malloc.system m))))
             else m).
  assert (Hfirst :
    (if Z.land (Read64 p mi) 1 =? 0
     then m' <- Malloc.MachineWrite64 m mi key ;;
          Ret (Malloc.set_system m'
                 (Malloc.set_memstat (Malloc.system m')
                    (Malloc.inc_reserved (Malloc.memstat (Malloc.system m')))))
     else Ret m) = Ret m1).
  { subst m1. destruct (Z.land (Read64 p mi) 1 =? 0); [|reflexivity].
    unfold Malloc.MachineWrite64. rewrite (wrap64_small (mi + 8)) by lia.
    replace (mi + 8 <=? Malloc.real_n (Malloc.system m)) with true
      by (symmetry; apply Z.leb_le; lia).
    reflexivity. }
  rewrite Hfirst. cbn [bind].
  assert (Hm1 : reserved_run m m1 mi 1 key).
  { subst m1. unfold reserved_run, absent_entries. cbn [seq filter].
    replace (mi + 8 * Z.of_nat 0) with mi by lia. fold p.
    destruct (Z.land (Read64 p mi) 1 =? 0) eqn:Habs; malloc_simpl; cbn [length].
    - repeat split; try lia.
      + intros j Hj. assert (j = O) as -> by lia.
        replace (mi + 8 * Z.of_nat 0) with mi by lia. fold p. rewrite Habs.
        apply Read64_Write64_same.
      + intros a Ha. unfold Write64. apply store_bytes_out. rewrite length_le_split. lia.
    - repeat split; try lia.
      intros j Hj. assert (j = O) as -> by lia.
      replace (mi + 8 * Z.of_nat 0) with mi by lia. fold p. rewrite Habs. reflexivity. }
  destruct n as [|n].
  - (* the last page of the run *)
    replace (end_ <=? virt + 4096) with true by (symmetry; apply Z.leb_le; lia).
    exists m1. split; [reflexivity | exact Hm1].
  - replace (end_ <=? virt + 4096) with false by (symmetry; apply Z.leb_gt; lia).
    replace (ti + 1 =? 512) with false by (symmetry; apply Z.eqb_neq; lia).
    destruct Hm1 as (Hr1 & Hf1 & Hres1 & Hal1 & Hco1 & Hfr1 & Hrc1 & Hrs1 & Hpt1 &
                     Hi1 & Hn1 & Hc1 & Hl1 & Ht1 & Hh1).
    cbv zeta in *.
    unfold Malloc.MachineRead64.
    rewrite (wrap64_small (mi + 8)) by lia. rewrite (wrap64_small (mi + 8 + 8)) by lia.
    rewrite Hn1.
    replace (mi + 8 + 8 <=? Malloc.real_n (Malloc.system m)) with true
      by (symmetry; apply Z.leb_le; lia).
    cbn [assert bind].
    destruct (IH fuel m1 (virt + 4096) (ti + 1) (mi + 8)) as (m' & Hrun & Hrest);
      try lia.
    rewrite Hrun. exists m'. split; [reflexivity|].
    destruct Hrest as (Hr2 & Hf2 & Hres2 & Hal2 & Hco2 & Hfr2 & Hrc2 & Hrs2 & Hpt2 &
                       Hi2 & Hn2 & Hc2 & Hl2 & Ht2 & Hh2).
    cbv zeta in *.
    assert (Hp1 : forall a, mi + 8 <= a -> Malloc.real_p (Malloc.system m1) a = p a).
    { intros a Ha. apply Hf1. lia. }
    unfold reserved_run. cbv zeta. fold p.
    repeat split; try congruence.
    + intros j Hj. destruct j as [|j].
      * replace (mi + 8 * Z.of_nat 0) with mi by lia.
        rewrite (Read64_ext (Malloc.real_p (Malloc.system m1)))
          by (intros x Hx; apply Hf2; lia).
        specialize (Hr1 O ltac:(lia)).
        replace (mi + 8 * Z.of_nat 0) with mi in Hr1 by lia. exact Hr1.
      * specialize (Hr2 j ltac:(lia)).
        replace (mi + 8 * Z.of_nat (S j)) with (mi + 8 + 8 * Z.of_nat j) by lia.
        rewrite Hr2.
        rewrite (Read64_ext p (Malloc.real_p (Malloc.system m1)))
          by (intros x Hx; apply Hp1; lia).
        reflexivity.
    + intros a Ha. rewrite Hf2 by lia. apply Hf1. lia.
    + rewrite Hres2, Hres1.
      rewrite (absent_entries_ext p (Malloc.real_p (Malloc.system m1)))
        by (intros a Ha; apply Hp1; lia).
      rewrite (absent_entries_S p mi (S n)).
      unfold absent_entries at 1. cbn [seq filter].
      replace (mi + 8 * Z.of_nat 0) with mi by lia. fold p.
      destruct (Z.land (Read64 p mi) 1 =? 0); cbn [length]; lia.
Qed.

Section ReserveRun.
Context {cfg : Config}.

(** With the upper levels present the walk of [ReserveVirtual] allocates
    nothing and arrives at the leaf loop. *)
Lemma ReserveVirtual_walk_present end_ key m virt :
  forall fuel pt level mi pt1,
    table_slot fuel m virt pt level = Some (mi, pt1) ->
    Malloc.ReserveVirtual_walk fuel m virt end_ pt level key
    = Malloc.ReserveVirtual_run 512 m virt end_ (Z.land (Z.shiftr virt 12) 511) mi pt1 key /\
    pt1 = to_i64 (Read64 (Malloc.real_p (Malloc.system m)) mi) /\
    0 <= mi < 2 ^ 49 /\ mi mod 8 = 0 /\ mi + 8 <= Malloc.real_n (Malloc.system m).
Proof.
  induction fuel as [|fuel IH]; intros pt level mi pt1; cbn [table_slot]; [discriminate|].
  cbn [Malloc.ReserveVirtual_walk].
  destruct (Z.leb_spec 12 level) as [Hge | Hlt]; [|discriminate].
  pose proof (slot_offset_range pt (Z.land (Z.shiftr virt level) 511)
                (leaf_index_range _)) as [Hrange Hal].
  set (slot := Z.land (Z.land pt PAGE_TA) PAGE_TA + Z.land (Z.shiftr virt level) 511 * 8) in *.
  unfold Malloc.MachineRead64.
  rewrite (wrap64_small slot) by lia. rewrite (wrap64_small (slot + 8)) by lia.
  destruct (Z.leb_spec (slot + 8) (Malloc.real_n (Malloc.system m))) as [Hin | Hout];
    [|discriminate].
  cbn [assert bind].
  destruct (Z.ltb_spec 12 level) as [Hup | Hleaf].
  - destruct (Z.land (to_i64 (Read64 (Malloc.real_p (Malloc.system m)) slot)) 1 =? 0);
      [discriminate|]. apply IH.
  - intros [= <- <-]. assert (level = 12) as -> by lia.
    repeat split; try lia; exact Hal.
Qed.

Lemma ReserveVirtual_run_of_slot (m : Malloc.Machine) (virt size key mi pt : Z) (n fuel : nat) :
  table_slot 4 m virt (to_i64 (Malloc.cr3 (Malloc.system m))) 39 = Some (mi, pt) ->
  (0 < n)%nat ->
  Z.land (Z.shiftr virt 12) 511 + Z.of_nat n <= 512 ->
  mi + 8 * Z.of_nat n <= Malloc.real_n (Malloc.system m) ->
  Malloc.real_n (Malloc.system m) < 2 ^ 64 ->
  - 2 ^ 63 <= virt -> virt + 4096 * Z.of_nat n < 2 ^ 63 ->
  0 <= size <= 4096 * Z.of_nat n ->
  (n = 1%nat \/ 4096 * (Z.of_nat n - 1) < size) ->
  exists m',
    Malloc.ReserveVirtual (S fuel) m virt size key = Ret (0, m') /\
    reserved_run m m' mi n key.
Proof.
  intros Hslot Hn Htab Hin Hcap Hv Hvn Hsize Hlast.
  unfold Malloc.ReserveVirtual. cbn [Malloc.ReserveVirtual_loop].
  destruct (ReserveVirtual_walk_present (to_i64 (virt + size)) key m virt _ _ _ _ _ Hslot)
    as (Hwalk & Hpt & Hmi & Hal & Hfirst).
  rewrite Hwalk, Hpt.
  rewrite (to_i64_signed (virt + size)) by lia.
  pose proof (leaf_index_range (Z.shiftr virt 12)) as Hti.
  destruct (ReserveVirtual_run_fills key (virt + size) n 512 m virt
              (Z.land (Z.shiftr virt 12) 511) mi) as (m' & Hrun & Hres); try lia.
  rewrite Hrun. cbn [bind]. exists m'. split; [reflexivity | exact Hres].
Qed.

(** X9.  When the three upper levels of the page tables are present for
    [virt], [ReserveVirtual] allocates nothing.  For a range of [n] pages
    whose leaf entries lie in one leaf table it answers 0 after writing
    [key] into every leaf entry of the range that was absent; [reserved]
    grows by the number of those entries; entries that were present keep
    their value, and the rest of the arena, the other counters, the free
    list and the TLB stay as they are.  A size of 0 is a range of one
    page. *)
Theorem ReserveVirtual_fills (m : Malloc.Machine) (virt size key mi pt : Z) (n fuel : nat) :
  table_slot 4 m virt (to_i64 (Malloc.cr3 (Malloc.system m))) 39 = Some (mi, pt) ->
  (0 < n)%nat ->
  Z.land (Z.shiftr virt 12) 511 + Z.of_nat n <= 512 ->
  mi + 8 * Z.of_nat n <= Malloc.real_n (Malloc.system m) ->
  Malloc.real_n (Malloc.system m) < 2 ^ 64 ->
  - 2 ^ 63 <= virt -> virt + 4096 * Z.of_nat n < 2 ^ 63 ->
  0 <= size <= 4096 * Z.of_nat n ->
  (n = 1%nat \/ 4096 * (Z.of_nat n - 1) < size) ->
  exists m',
    Malloc.ReserveVirtual (S fuel) m virt size key = Ret (0, m') /\
    reserved_run m m' mi n key.
Proof. apply ReserveVirtual_run_of_slot. Qed.

End ReserveRun.

Lemma ReserveVirtual_fills_witness :
  exists m',
    @Malloc.ReserveVirtual blink_config 1 arena_machine 0 0x3000 0x0201 = Ret (0, m') /\
    reserved_run arena_machine m' 0x3000 3 0x0201.
Proof.
  apply (@ReserveVirtual_fills blink_config arena_machine 0 0x3000 0x0201 0x3000 0 3 0).
  - vm_compute. reflexivity.
  - lia.
  - vm_compute. discriminate.
  - vm_compute. discriminate.
  - vm_compute. reflexivity.
  - lia.
  - lia.
  - lia.
  - right. lia.
Defined.
(** ** Reserving a page and freeing it again *)

Lemma land_TA_idem x : Z.land (Z.land x PAGE_TA) PAGE_TA = Z.land x PAGE_TA.
Proof. rewrite <- Z.land_assoc, Z.land_diag. reflexivity. Qed.

Lemma land_to_i64_TA x : Z.land (Z.land (to_i64 x) PAGE_TA) PAGE_TA = Z.land x PAGE_TA.
Proof.
  rewrite land_TA_idem, land_to_i64 by (vm_compute; split; congruence).
  unfold wrap64. symmetry. apply land_mod64. vm_compute; split; congruence.
Qed.

Lemma to_i64_bit0 x : Z.land (to_i64 x) 1 = Z.land x 1.
Proof.
  rewrite land_to_i64 by lia. unfold wrap64. symmetry. apply land_mod64. lia.
Qed.

(** A change of the arena inside an absent leaf entry does not move the
    walk that leads to it. *)
Lemma table_slot_frame m m' virt mi :
  (forall a, a < mi \/ mi + 8 <= a ->
             Malloc.real_p (Malloc.system m') a = Malloc.real_p (Malloc.system m) a) ->
  Malloc.real_n (Malloc.system m') = Malloc.real_n (Malloc.system m) ->
  forall fuel pt level e,
    table_slot fuel m virt pt level = Some (mi, e) ->
    Z.land e 1 = 0 ->
    table_slot fuel m' virt pt level
    = Some (mi, to_i64 (Read64 (Malloc.real_p (Malloc.system m')) mi)).
Proof.
  intros Hframe Hcap.
  induction fuel as [|fuel IH]; intros pt level e; cbn [table_slot]; [discriminate|].
  destruct (Z.leb_spec 12 level) as [Hge | Hlt]; [|discriminate].
  pose proof (slot_offset_range pt (Z.land (Z.shiftr virt level) 511)
                (leaf_index_range _)) as [Hrange Hal].
  set (slot := Z.land (Z.land pt PAGE_TA) PAGE_TA + Z.land (Z.shiftr virt level) 511 * 8) in *.
  rewrite (wrap64_small slot) by lia. rewrite Hcap.
  destruct (wrap64 (slot + 8) <=? Malloc.real_n (Malloc.system m)); [|discriminate].
  destruct (Z.ltb_spec 12 level) as [Hup | Hleaf].
  - destruct (Z.eqb_spec (Z.land (to_i64 (Read64 (Malloc.real_p (Malloc.system m)) slot)) 1) 0)
      as [Habs | Hpres]; [discriminate|].
    intros Hrec Hz.
    assert (Hmi : mi mod 8 = 0 /\
                  e = to_i64 (Read64 (Malloc.real_p (Malloc.system m)) mi)).
    { clear - Hrec. revert Hrec. generalize (level - 9).
      generalize (to_i64 (Read64 (Malloc.real_p (Malloc.system m)) slot)).
      induction fuel as [|fuel IH]; intros q l; cbn [table_slot]; [discriminate|].
      destruct (12 <=? l); [|discriminate].
      pose proof (slot_offset_range q (Z.land (Z.shiftr virt l) 511)
                    (leaf_index_range _)) as [Hrange Hal].
      set (s := Z.land (Z.land q PAGE_TA) PAGE_TA + Z.land (Z.shiftr virt l) 511 * 8) in *.
      rewrite (wrap64_small s) by lia.
      destruct (wrap64 (s + 8) <=? _); [|discriminate].
      destruct (12 <? l).
      - destruct (_ =? 0); [discriminate | apply IH].
      - intros [= <- <-]. auto. }
    destruct Hmi as [Hmial He].
    assert (Hother : slot + 8 <= mi \/ mi + 8 <= slot).
    { destruct (aligned_slots slot mi Hal Hmial) as [Heq | Hd]; [|lia].
      exfalso. apply Hpres. rewrite Heq, <- He. exact Hz. }
    rewrite (Read64_ext (Malloc.real_p (Malloc.system m)) (Malloc.real_p (Malloc.system m')))
      by (intros x Hx; apply Hframe; lia).
    destruct (Z.eqb_spec (Z.land (to_i64 (Read64 (Malloc.real_p (Malloc.system m)) slot)) 1) 0);
      [contradiction|].
    eapply IH; eassumption.
  - intros [= <- <-] _. reflexivity.
Qed.

(** The walks of [FindVirtual] and [FreeVirtual] follow the same entries
    as the walk of [ReserveVirtual]. *)
Lemma FindVirtual_walk_of_slot m virt :
  forall fuel pt level mi e,
    table_slot fuel m virt (to_i64 pt) level = Some (mi, e) ->
    Malloc.FindVirtual_walk (S fuel) m virt pt level
    = Ret (if Z.land e 1 =? 0 then 12 else 3).
Proof.
  induction fuel as [|fuel IH]; intros pt level mi e; cbn [table_slot]; [discriminate|].
  cbn [Malloc.FindVirtual_walk].
  destruct (Z.leb_spec 12 level) as [Hge | Hlt]; [|discriminate].
  rewrite land_to_i64_TA.
  pose proof (slot_offset_range pt (Z.land (Z.shiftr virt level) 511)
                (leaf_index_range _)) as [Hrange Hal].
  rewrite land_TA_idem in Hrange.
  set (slot := Z.land pt PAGE_TA + Z.land (Z.shiftr virt level) 511 * 8) in *.
  unfold Malloc.MachineRead64.
  rewrite (wrap64_small slot) by lia.
  destruct (wrap64 (slot + 8) <=? Malloc.real_n (Malloc.system m)); [|discriminate].
  cbn [assert bind]. rewrite to_i64_bit0.
  destruct (Z.ltb_spec 12 level) as [Hup | Hleaf].
  - destruct (Z.land (Read64 (Malloc.real_p (Malloc.system m)) slot) 1 =? 0);
      [discriminate|]. apply IH.
  - intros [= <- <-]. assert (level = 12) as -> by lia. rewrite to_i64_bit0.
    destruct (Z.land (Read64 (Malloc.real_p (Malloc.system m)) slot) 1 =? 0);
      [reflexivity|].
    destruct fuel; reflexivity.
Qed.

Lemma mapped_of_table_slot m virt mi e :
  table_slot 4 m virt (to_i64 (Malloc.cr3 (Malloc.system m))) 39 = Some (mi, e) ->
  Malloc.mapped m virt = negb (Z.land e 1 =? 0).
Proof.
  intros Hslot. unfold Malloc.mapped.
  rewrite (FindVirtual_walk_of_slot m virt 4 _ _ _ _ Hslot).
  destruct (Z.land e 1 =? 0); reflexivity.
Qed.

Lemma leaf_slot_of_table_slot m virt :
  forall fuel pt level mi e,
    level <= 39 ->
    table_slot fuel m virt (to_i64 pt) level = Some (mi, e) ->
    Z.land e 1 <> 0 ->
    Malloc.leaf_slot fuel m virt pt level
    = Some (mi, Read64 (Malloc.real_p (Malloc.system m)) mi).
Proof.
  induction fuel as [|fuel IH]; intros pt level mi e Hlevel; cbn [table_slot];
    [discriminate|].
  cbn [Malloc.leaf_slot].
  destruct (Z.leb_spec 12 level) as [Hge | Hlt]; [|discriminate].
  rewrite land_to_i64_TA.
  pose proof (slot_offset_range pt (Z.land (Z.shiftr virt level) 511)
                (leaf_index_range _)) as [Hrange Hal].
  rewrite land_TA_idem in Hrange.
  set (slot := Z.land pt PAGE_TA + Z.land (Z.shiftr virt level) 511 * 8) in *.
  rewrite (wrap64_small slot) by lia.
  destruct (wrap64 (slot + 8) <=? Malloc.real_n (Malloc.system m)); [|discriminate].
  rewrite to_i64_bit0.
  destruct (Z.ltb_spec 12 level) as [Hup | Hleaf].
  - destruct (Z.land (Read64 (Malloc.real_p (Malloc.system m)) slot) 1 =? 0);
      [discriminate|].
    replace (level =? 12) with false by (symmetry; apply Z.eqb_neq; lia).
    rewrite (wrap64_small (level - 9)) by lia.
    intros Hrec Hpres. apply (IH _ _ _ e); [lia | exact Hrec | exact Hpres].
  - intros [= <- <-] Hpres. assert (level = 12) as -> by lia.
    rewrite to_i64_bit0 in Hpres.
    destruct (Z.eqb_spec (Z.land (Read64 (Malloc.real_p (Malloc.system m)) slot) 1) 0);
      [contradiction|].
    reflexivity.
Qed.

Section RoundTripPage.
Context {cfg : Config}.

Lemma FreeVirtual_walk_mem fuel m virt pt0 i mi pt m' j :
  Malloc.leaf_slot fuel m virt pt0 i = Some (mi, pt) ->
  Malloc.FreeVirtual_walk fuel m virt pt0 i = Ret (m', j) ->
  Malloc.real_p (Malloc.system m') = Write64 (Malloc.real_p (Malloc.system m)) mi 0.
Proof.
  revert pt0 i. induction fuel as [|fuel IH]; intros pt0 i; cbn [Malloc.leaf_slot];
    [discriminate|].
  cbn [Malloc.FreeVirtual_walk]. unfold Malloc.MachineRead64.
  set (slot := wrap64 (Z.land pt0 PAGE_TA + Z.land (Z.shiftr virt i) 511 * 8)).
  destruct (wrap64 (slot + 8) <=? Malloc.real_n (Malloc.system m)) eqn:Hin;
    cbn [assert bind]; [|discriminate].
  destruct (Z.land (Read64 (Malloc.real_p (Malloc.system m)) slot) 1 =? 0); [discriminate|].
  destruct (Z.eqb_spec i 12) as [-> | Hi]; [|apply IH].
  intros [= <- <-]. unfold Malloc.MachineWrite64.
  destruct (Z.land _ PAGE_RSRV =? 0); cbn [negb].
  - match goal with
    | |- context [Malloc.AppendRealFree ?mm ?r] =>
        pose proof (AppendRealFree_arena mm r) as [Hn Hp]
    end.
    rewrite Hn. malloc_simpl. rewrite Hin. cbn [assert bind].
    intros [= <- <-]. malloc_simpl. rewrite Hp. reflexivity.
  - malloc_simpl. rewrite Hin. cbn [assert bind].
    intros [= <- <-]. reflexivity.
Qed.

(** X10.  A page whose three upper tables are present already and whose
    leaf entry is absent, reserved by [ReserveVirtual] and freed by
    [FreeVirtual] before it was touched: between the two calls the page
    is mapped, after them it is unmapped again and its leaf entry reads
    0; every other byte of the arena is as before the reservation;
    [reserved] and [committed] are back at their values, the free list
    has not grown, and the page counts as [freed]. *)
Theorem ReserveVirtual_FreeVirtual (m : Malloc.Machine) (virt key mi pt : Z) :
  table_slot 4 m virt (to_i64 (Malloc.cr3 (Malloc.system m))) 39 = Some (mi, pt) ->
  Z.land pt 1 = 0 ->
  0 <= key < 2 ^ 64 -> Z.land key 1 <> 0 -> Z.land key PAGE_RSRV <> 0 ->
  0 <= virt -> virt + 4096 < 2 ^ 63 ->
  Malloc.real_n (Malloc.system m) < 2 ^ 64 ->
  exists m1 m2,
    Malloc.ReserveVirtual 1 m virt 4096 key = Ret (0, m1) /\
    Malloc.mapped m1 virt = true /\
    Malloc.FreeVirtual 2 m1 virt 4096 = Ret (0, m2) /\
    Malloc.mapped m2 virt = false /\
    Read64 (Malloc.real_p (Malloc.system m2)) mi = 0 /\
    (forall a, a < mi \/ mi + 8 <= a ->
       Malloc.real_p (Malloc.system m2) a = Malloc.real_p (Malloc.system m) a) /\
    reserved (Malloc.memstat (Malloc.system m2)) = reserved (Malloc.memstat (Malloc.system m)) /\
    committed (Malloc.memstat (Malloc.system m2))
      = committed (Malloc.memstat (Malloc.system m)) /\
    freed (Malloc.memstat (Malloc.system m2)) = freed (Malloc.memstat (Malloc.system m)) + 1 /\
    Malloc.realfree (Malloc.system m2) = Malloc.realfree (Malloc.system m).
Proof.
  intros Hslot Habs Hkey Hv Hrsrv Hvirt Hend Hcap.
  destruct (ReserveVirtual_walk_present 0 0 m virt _ _ _ _ _ Hslot)
    as (_ & Hpt & Hmi & Hal & Hin).
  destruct (ReserveVirtual_run_of_slot m virt 4096 key mi pt 1 0 Hslot) as (m1 & Hres & Hrun);
    try lia.
  { pose proof (leaf_index_range (Z.shiftr virt 12)). lia. }
  exists m1.
  destruct Hrun as (Hr1 & Hf1 & Hres1 & Hal1 & Hco1 & Hfr1 & Hrc1 & Hrs1 & Hpt1 &
                    Hi1 & Hn1 & Hc1 & Hl1 & Ht1 & Hh1).
  cbv zeta in *.
  specialize (Hr1 O ltac:(lia)). replace (mi + 8 * Z.of_nat 0) with mi in Hr1 by lia.
  assert (Habs' : Z.land (Read64 (Malloc.real_p (Malloc.system m)) mi) 1 = 0).
  { rewrite <- to_i64_bit0, <- Hpt. exact Habs. }
  rewrite Habs' in Hr1. cbn [Z.eqb] in Hr1. rewrite (wrap64_small key) in Hr1 by lia.
  assert (Hcount : length (absent_entries (Malloc.real_p (Malloc.system m)) mi 1) = 1%nat).
  { unfold absent_entries. cbn [seq filter].
    replace (mi + 8 * Z.of_nat 0) with mi by lia. rewrite Habs'. reflexivity. }
  rewrite Hcount in Hres1.
  (* the walks in the machine that holds the reservation *)
  assert (Hslot1 : table_slot 4 m1 virt (to_i64 (Malloc.cr3 (Malloc.system m1))) 39
                   = Some (mi, to_i64 key)).
  { rewrite Hc1, <- Hr1.
    apply (table_slot_frame m m1 virt mi) with (e := pt); assumption. }
  assert (Hbit : Z.land (to_i64 key) 1 <> 0) by (rewrite to_i64_bit0; exact Hv).
  pose proof (leaf_slot_of_table_slot m1 virt 4 _ 39 mi _ ltac:(lia) Hslot1 Hbit) as Hleaf.
  rewrite Hr1 in Hleaf.
  destruct (FreeVirtual_walk_leaf 4 m1 virt _ 39 mi key Hleaf) as (m2 & Hwalk & Heff).
  pose proof (FreeVirtual_walk_mem _ _ _ _ _ _ _ _ _ Hleaf Hwalk) as Hmem.
  pose proof (FreeVirtual_walk_frame _ _ _ _ _ _ _ Hwalk) as [Hfr _].
  destruct Heff as (Hzero & Hfreed & Hrs & _). cbv zeta in *.
  destruct (Hrs Hrsrv) as (Hres2 & Hco2 & Hl2).
  destruct Hfr as (Hi2 & Hn2 & Hc2 & _).
  exists (Malloc.ResetTlb m2).
  split; [exact Hres|].
  split.
  { rewrite (mapped_of_table_slot m1 virt mi _ Hslot1).
    destruct (Z.eqb_spec (Z.land (to_i64 key) 1) 0); [contradiction | reflexivity]. }
  split.
  { unfold Malloc.FreeVirtual. rewrite (wrap64_small virt) by lia.
    rewrite (wrap64_small (virt + 4096)) by lia.
    cbn [Malloc.FreeVirtual_loop].
    replace (virt <? virt + 4096) with true by (symmetry; apply Z.ltb_lt; lia).
    rewrite Hwalk. cbn [bind]. change (Z.shiftl 1 12) with 4096.
    rewrite (wrap64_small (virt + 4096)) by lia.
    rewrite Z.ltb_irrefl. reflexivity. }
  assert (Hframe2 : forall a, a < mi \/ mi + 8 <= a ->
            Malloc.real_p (Malloc.system m2) a = Malloc.real_p (Malloc.system m) a).
  { intros a Ha. rewrite Hmem. unfold Write64. rewrite store_bytes_out
      by (rewrite length_le_split; lia).
    apply Hf1. lia. }
  malloc_simpl.
  split.
  { assert (Hslot2 : table_slot 4 (Malloc.ResetTlb m2) virt
                       (to_i64 (Malloc.cr3 (Malloc.system (Malloc.ResetTlb m2)))) 39
                     = Some (mi, to_i64 (Read64 (Malloc.real_p (Malloc.system m2)) mi))).
    { malloc_simpl. rewrite Hc2, Hc1.
      apply (table_slot_frame m (Malloc.ResetTlb m2) virt mi) with (e := pt);
        try assumption; malloc_simpl; congruence. }
    rewrite (mapped_of_table_slot _ virt mi _ Hslot2). rewrite Hzero. reflexivity. }
  repeat split; try assumption; try lia; congruence.
Qed.

End RoundTripPage.

Lemma ReserveVirtual_FreeVirtual_witness :
  exists m1 m2,
    @Malloc.ReserveVirtual blink_config 1 arena_machine 0x3000 4096 0x0201 = Ret (0, m1) /\
    Malloc.mapped m1 0x3000 = true /\
    @Malloc.FreeVirtual blink_config 2 m1 0x3000 4096 = Ret (0, m2) /\
    Malloc.mapped m2 0x3000 = false /\
    Read64 (Malloc.real_p (Malloc.system m2)) 0x3018 = 0 /\
    (forall a, a < 0x3018 \/ 0x3018 + 8 <= a ->
       Malloc.real_p (Malloc.system m2) a = Malloc.real_p (Malloc.system arena_machine) a) /\
    reserved (Malloc.memstat (Malloc.system m2))
      = reserved (Malloc.memstat (Malloc.system arena_machine)) /\
    committed (Malloc.memstat (Malloc.system m2))
      = committed (Malloc.memstat (Malloc.system arena_machine)) /\
    freed (Malloc.memstat (Malloc.system m2))
      = freed (Malloc.memstat (Malloc.system arena_machine)) + 1 /\
    Malloc.realfree (Malloc.system m2) = Malloc.realfree (Malloc.system arena_machine).
Proof.
  apply (@ReserveVirtual_FreeVirtual blink_config arena_machine 0x3000 0x0201 0x3018 0).
  - vm_compute. reflexivity.
  - reflexivity.
  - lia.
  - vm_compute. discriminate.
  - vm_compute. discriminate.
  - lia.
  - lia.
  - vm_compute. reflexivity.
Defined.
(** ** [ReserveVirtual]: building the page tables *)

Lemma land_TA_page i : 0 <= i < 2 ^ 48 -> i mod 4096 = 0 -> Z.land i PAGE_TA = i.
Proof.
  intros Hi Hal.
  assert (Hq : i = Z.shiftl (i / 4096) 12).
  { rewrite Z.shiftl_mul_pow2 by lia. change (2 ^ 12) with 4096.
    Z.div_mod_to_equations. lia. }
  rewrite Hq at 1. change PAGE_TA with (Z.shiftl (Z.ones 36) 12).
  rewrite <- Z.shiftl_land, Z.land_ones by lia.
  rewrite Z.mod_small; [symmetry; exact Hq|].
  split; [apply Z.div_pos; lia|]. apply Z.div_lt_upper_bound; lia.
Qed.

Lemma lor_7_page i : 0 <= i < 2 ^ 48 -> i mod 4096 = 0 ->
  0 <= Z.lor i 7 < 2 ^ 64 /\ Z.land (Z.lor i 7) 1 = 1 /\ Z.land (Z.lor i 7) PAGE_TA = i.
Proof.
  intros Hi Hal. split; [|split].
  - apply lor_u64; lia.
  - rewrite Z.land_lor_distr_l. change (Z.land 7 1) with 1.
    replace (Z.land i 1) with 0; [reflexivity|].
    change 1 with (Z.ones 1) at 1. rewrite Z.land_ones by lia.
    Z.div_mod_to_equations. lia.
  - rewrite Z.land_lor_distr_l. change (Z.land 7 PAGE_TA) with 0.
    rewrite Z.lor_0_r. apply land_TA_page; assumption.
Qed.

Lemma table_slot_pt fuel m virt pt pt' level :
  Z.land pt PAGE_TA = Z.land pt' PAGE_TA ->
  table_slot fuel m virt pt level = table_slot fuel m virt pt' level.
Proof.
  intros Heq. destruct fuel as [|fuel]; [reflexivity|]. cbn [table_slot].
  rewrite Heq. reflexivity.
Qed.

Section BuildTables.
Context {cfg : Config}.

(** The allocation of a page from the watermark, without growth. *)
Lemma AllocateLinearPage_bump m :
  Malloc.realfree (Malloc.system m) = [] ->
  0 <= Malloc.real_i (Malloc.system m) ->
  Malloc.real_i (Malloc.system m) mod 4096 = 0 ->
  Malloc.real_n (Malloc.system m) mod 4096 = 0 ->
  Malloc.real_i (Malloc.system m) + 4096 <= Malloc.real_n (Malloc.system m) ->
  Malloc.real_n (Malloc.system m) < 2 ^ 63 ->
  Malloc.AllocateLinearPage m
  = Ret (Malloc.real_i (Malloc.system m),
         Malloc.set_system m
           {| Malloc.real_p := Malloc.memset (Malloc.real_p (Malloc.system m))
                                 (Malloc.real_i (Malloc.system m)) Byte.x00 0x1000;
              Malloc.real_i := Malloc.real_i (Malloc.system m) + 4096;
              Malloc.real_n := Malloc.real_n (Malloc.system m);
              Malloc.cr3 := Malloc.cr3 (Malloc.system m);
              Malloc.realfree := [];
              Malloc.memstat :=
                Malloc.inc_allocated_committed (Malloc.memstat (Malloc.system m)) |}).
Proof.
  intros Hlist Hi Hia Hna Hroom Hcap.
  unfold Malloc.AllocateLinearPage, Malloc.AllocateLinearPageRaw. rewrite Hlist.
  replace (Malloc.real_i (Malloc.system m) =? Malloc.real_n (Malloc.system m)) with false
    by (symmetry; apply Z.eqb_neq; lia).
  unfold Malloc.bump_watermark. rewrite !land_fff, Hia, Hna, Hlist.
  rewrite (wrap64_small (Malloc.real_i (Malloc.system m) + 0x1000)) by lia.
  replace (Malloc.real_i (Malloc.system m) + 0x1000 <=? Malloc.real_n (Malloc.system m))
    with true by (symmetry; apply Z.leb_le; lia).
  cbn [Z.eqb assert bind]. rewrite to_i64_small by lia.
  replace (Malloc.real_i (Malloc.system m) =? -1) with false
    by (symmetry; apply Z.eqb_neq; lia).
  cbn [negb]. reflexivity.
Qed.

Lemma ReserveVirtual_walk_builds end_ key virt :
  0 <= key < 2 ^ 64 ->
  - 2 ^ 63 <= virt -> virt + 4096 < 2 ^ 63 -> end_ <= virt + 4096 ->
  forall (k fuel : nat) (m : Malloc.Machine) (pt : Z),
    (k < fuel)%nat ->
    let level := 12 + 9 * Z.of_nat k in
    let s := Z.land (Z.land pt PAGE_TA) PAGE_TA + Z.land (Z.shiftr virt level) 511 * 8 in
    Malloc.realfree (Malloc.system m) = [] ->
    0 <= Malloc.real_i (Malloc.system m) ->
    Malloc.real_i (Malloc.system m) mod 4096 = 0 ->
    Malloc.real_n (Malloc.system m) mod 4096 = 0 ->
    Malloc.real_i (Malloc.system m) + 4096 * Z.of_nat k <= Malloc.real_n (Malloc.system m) ->
    Malloc.real_n (Malloc.system m) <= 2 ^ 48 ->
    s + 8 <= Malloc.real_i (Malloc.system m) ->
    Z.land (Read64 (Malloc.real_p (Malloc.system m)) s) 1 = 0 ->
    exists m',
      Malloc.ReserveVirtual_walk fuel m virt end_ pt level key = Ret (m', Malloc.Return 0) /\
      table_slot fuel m' virt pt level
      = Some ((if (k =? 0)%nat then s
               else Malloc.real_i (Malloc.system m) + 4096 * (Z.of_nat k - 1)
                    + Z.land (Z.shiftr virt 12) 511 * 8),
              to_i64 key) /\
      tables_built m m' (Z.of_nat k) s.
Proof.
  intros Hkey Hv Hvn Hend.
  induction k as [|k IH]; intros fuel m pt Hfuel level s Hlist Hi Hia Hna Hroom Hcap Hs Habs;
    (destruct fuel as [|fuel]; [lia|]); subst level;
    assert (Hsr : 0 <= s < 2 ^ 49 /\ s mod 8 = 0)
      by (apply slot_offset_range, leaf_index_range);
    destruct Hsr as [Hrange Hal].
  - (* the leaf level *)
    change (12 + 9 * Z.of_nat 0) with 12 in *.
    cbn [Malloc.ReserveVirtual_walk table_slot].
    cbn [Z.leb Z.ltb Z.compare Pos.compare Pos.compare_cont].
    fold s. unfold Malloc.MachineRead64.
    rewrite (wrap64_small s) by lia. rewrite (wrap64_small (s + 8)) by lia.
    replace (s + 8 <=? Malloc.real_n (Malloc.system m)) with true
      by (symmetry; apply Z.leb_le; lia).
    cbn [assert bind].
    pose proof (leaf_index_range (Z.shiftr virt 12)) as Hti.
    destruct (ReserveVirtual_run_fills key end_ 1 512 m virt
                (Z.land (Z.shiftr virt 12) 511) s) as (m' & Hrun & Hres); try lia.
    rewrite Hrun. exists m'. split; [reflexivity|].
    destruct Hres as (Hr1 & Hf1 & Hres1 & Hal1 & Hco1 & Hfr1 & Hrc1 & Hrs1 & Hpt1 &
                      Hi1 & Hn1 & Hc1 & Hl1 & Ht1 & Hh1).
    cbv zeta in *.
    specialize (Hr1 O ltac:(lia)). replace (s + 8 * Z.of_nat 0) with s in Hr1 by lia.
    rewrite Habs in Hr1. cbn [Z.eqb] in Hr1. rewrite (wrap64_small key) in Hr1 by lia.
    assert (Hcount : length (absent_entries (Malloc.real_p (Malloc.system m)) s 1) = 1%nat).
    { unfold absent_entries. cbn [seq filter].
      replace (s + 8 * Z.of_nat 0) with s by lia. rewrite Habs. reflexivity. }
    rewrite Hcount in Hres1.
    rewrite Hn1.
    replace (s + 8 <=? Malloc.real_n (Malloc.system m)) with true
      by (symmetry; apply Z.leb_le; lia).
    rewrite Hr1. split; [reflexivity|].
    unfold tables_built. cbv zeta. repeat split; try lia; try assumption.
    intros a Ha Hout. apply Hf1. lia.
  - (* an upper level: a fresh table *)
    assert (Hlevel : 12 < 12 + 9 * Z.of_nat (S k)) by lia.
    set (level := 12 + 9 * Z.of_nat (S k)) in *.
    cbn [Malloc.ReserveVirtual_walk].
    replace (12 <=? level) with true by (symmetry; apply Z.leb_le; lia).
    replace (12 <? level) with true by (symmetry; apply Z.ltb_lt; lia).
    fold s. unfold Malloc.MachineRead64.
    rewrite (wrap64_small s) by lia. rewrite (wrap64_small (s + 8)) by lia.
    replace (s + 8 <=? Malloc.real_n (Malloc.system m)) with true
      by (symmetry; apply Z.leb_le; lia).
    cbn [assert bind]. rewrite to_i64_bit0, Habs. cbn [Z.eqb].
    rewrite AllocateLinearPage_bump by (try assumption; lia).
    cbn [bind].
    set (i := Malloc.real_i (Malloc.system m)) in *.
    replace (i =? -1) with false by (symmetry; apply Z.eqb_neq; lia).
    destruct (lor_7_page i ltac:(lia) Hia) as (Hlor & Hlor1 & HlorTA).
    unfold Malloc.MachineWrite64. malloc_simpl.
    rewrite (wrap64_small (s + 8)) by lia.
    replace (s + 8 <=? Malloc.real_n (Malloc.system m)) with true
      by (symmetry; apply Z.leb_le; lia).
    cbn [assert bind]. rewrite (wrap64_small (Z.lor i 7)) by lia.
    set (p := Malloc.real_p (Malloc.system m)) in *.
    set (p3 := Write64 (Malloc.memset p i Byte.x00 0x1000) s (Z.lor i 7)).
    match goal with
    | |- context [Malloc.ReserveVirtual_walk fuel ?mm virt end_ i ?l key] =>
        set (m3 := mm); replace l with (12 + 9 * Z.of_nat k) by lia
    end.
    set (s' := Z.land (Z.land i PAGE_TA) PAGE_TA
               + Z.land (Z.shiftr virt (12 + 9 * Z.of_nat k)) 511 * 8).
    pose proof (leaf_index_range (Z.shiftr virt (12 + 9 * Z.of_nat k))) as Hti.
    assert (Hs' : s' = i + Z.land (Z.shiftr virt (12 + 9 * Z.of_nat k)) 511 * 8).
    { subst s'. rewrite land_TA_idem, land_TA_page by (try assumption; lia). reflexivity. }
    assert (Hzero : forall x, i <= x < i + 4096 -> p3 x = Byte.x00).
    { intros x Hx. subst p3. unfold Write64.
      rewrite store_bytes_out by (rewrite length_le_split; lia).
      unfold Malloc.memset.
      replace (i <=? x) with true by (symmetry; apply Z.leb_le; lia).
      replace (x <? i + 0x1000) with true by (symmetry; apply Z.ltb_lt; lia).
      reflexivity. }
    destruct (IH fuel m3 i ltac:(lia)) as (m' & Hwalk & Hslot & Hbuilt);
      subst m3; malloc_simpl; fold s'; try assumption; try lia;
      try (lazymatch goal with
           | |- _ = [] => reflexivity
           | |- _ mod 4096 = 0 => apply mod4096_add; [assumption | reflexivity]
           | |- Z.land (Read64 _ _) 1 = 0 =>
               fold p3; rewrite Read64_zero;
               [reflexivity | intros x Hx; apply Hzero; lia]
           end).
    rewrite Hwalk. exists m'. split; [reflexivity|].
    destruct Hbuilt as (Hi' & Hn' & Hc' & Hl' & Ht' & Hh' & Hpt' & Hal' & Hco' & Hre' &
                        Hfr' & Hrc' & Hrs' & Hframe').
    malloc_simpl. fold p3 in Hframe'.
    assert (Hkeep : Read64 (Malloc.real_p (Malloc.system m')) s = Z.lor i 7).
    { rewrite (Read64_ext p3).
      - subst p3. rewrite Read64_Write64_same. apply wrap64_small. lia.
      - intros x Hx. apply Hframe'; lia. }
    split.
    + cbn [table_slot].
      replace (12 <=? level) with true by (symmetry; apply Z.leb_le; lia).
      replace (12 <? level) with true by (symmetry; apply Z.ltb_lt; lia).
      fold s. rewrite (wrap64_small s) by lia. rewrite (wrap64_small (s + 8)) by lia.
      rewrite Hn'.
      replace (s + 8 <=? Malloc.real_n (Malloc.system m)) with true
        by (symmetry; apply Z.leb_le; lia).
      rewrite Hkeep, to_i64_bit0, Hlor1. cbn [Z.eqb].
      replace (level - 9) with (12 + 9 * Z.of_nat k) by lia.
      rewrite (table_slot_pt fuel m' virt (to_i64 (Z.lor i 7)) i).
      * rewrite Hslot. f_equal. f_equal. cbn [Nat.eqb]. fold s'. rewrite Hs'.
        clear. destruct k as [|k]; cbn [Nat.eqb]; [|lia].
        change (12 + 9 * Z.of_nat 0) with 12. lia.
      * rewrite land_to_i64 by (vm_compute; split; congruence).
        rewrite (wrap64_small (Z.lor i 7)) by lia. rewrite HlorTA.
        symmetry. apply land_TA_page; [lia | assumption].
    + unfold tables_built. malloc_simpl.
      repeat split; try lia; try assumption; try congruence.
      intros a Ha Hout. fold i in Ha. rewrite Hframe' by lia.
      subst p3. unfold Write64. rewrite store_bytes_out by (rewrite length_le_split; lia).
      unfold Malloc.memset.
      replace (i <=? a) with false by (symmetry; apply Z.leb_gt; lia). reflexivity.
Qed.

(** X11.  When the top-level entry for [virt] is absent, the root table
    lies below the watermark, the free list is empty and the arena has
    room for three more pages, [ReserveVirtual] of one page builds the
    three lower tables from the next three pages of the arena, links them,
    and writes [key] into the leaf entry, in the third of these pages.  It
    answers 0; [pagetables], [allocated] and [committed] grow by 3 and
    [reserved] by 1; below the old watermark only the top-level entry has
    changed; and the page is mapped when [key] has bit 0 set. *)
Theorem ReserveVirtual_builds_tables (m : Malloc.Machine) (virt size key : Z) :
  let s := Z.land (Z.land (to_i64 (Malloc.cr3 (Malloc.system m))) PAGE_TA) PAGE_TA
           + Z.land (Z.shiftr virt 39) 511 * 8 in
  Malloc.realfree (Malloc.system m) = [] ->
  0 <= Malloc.real_i (Malloc.system m) ->
  Malloc.real_i (Malloc.system m) mod 4096 = 0 ->
  Malloc.real_n (Malloc.system m) mod 4096 = 0 ->
  Malloc.real_i (Malloc.system m) + 0x3000 <= Malloc.real_n (Malloc.system m) ->
  Malloc.real_n (Malloc.system m) <= 2 ^ 48 ->
  s + 8 <= Malloc.real_i (Malloc.system m) ->
  Z.land (Read64 (Malloc.real_p (Malloc.system m)) s) 1 = 0 ->
  0 <= key < 2 ^ 64 ->
  - 2 ^ 63 <= virt -> virt + 4096 < 2 ^ 63 -> 0 <= size <= 4096 ->
  exists m',
    Malloc.ReserveVirtual 1 m virt size key = Ret (0, m') /\
    table_slot 4 m' virt (to_i64 (Malloc.cr3 (Malloc.system m'))) 39
    = Some (Malloc.real_i (Malloc.system m) + 0x2000 + Z.land (Z.shiftr virt 12) 511 * 8,
            to_i64 key) /\
    tables_built m m' 3 s /\
    (Z.land key 1 <> 0 -> Malloc.mapped m' virt = true).
Proof.
  intros s Hlist Hi Hia Hna Hroom Hcap Hs Habs Hkey Hv Hvn Hsize.
  unfold Malloc.ReserveVirtual. cbn [Malloc.ReserveVirtual_loop].
  rewrite (to_i64_signed (virt + size)) by lia.
  destruct (ReserveVirtual_walk_builds (virt + size) key virt Hkey Hv Hvn ltac:(lia)
              3%nat 4%nat m (to_i64 (Malloc.cr3 (Malloc.system m))) ltac:(lia))
    as (m' & Hwalk & Hslot & Hbuilt); try assumption.
  change (12 + 9 * Z.of_nat 3) with 39 in *. cbn [Nat.eqb] in Hslot.
  change (4096 * (Z.of_nat 3 - 1)) with 0x2000 in Hslot.
  rewrite Hwalk. cbn [bind]. exists m'.
  assert (Hc : Malloc.cr3 (Malloc.system m') = Malloc.cr3 (Malloc.system m))
    by apply Hbuilt.
  rewrite Hc. split; [reflexivity|]. split; [exact Hslot|]. split; [exact Hbuilt|].
  intros Hbit. rewrite <- Hc in Hslot.
  rewrite (mapped_of_table_slot m' virt _ _ Hslot), to_i64_bit0.
  destruct (Z.eqb_spec (Z.land key 1) 0); [contradiction | reflexivity].
Qed.

End BuildTables.

Lemma ReserveVirtual_builds_tables_witness :
  exists m',
    @Malloc.ReserveVirtual blink_config 1 fresh_machine 0x5000 4096 0x0201 = Ret (0, m') /\
    table_slot 4 m' 0x5000 (to_i64 (Malloc.cr3 (Malloc.system m'))) 39
    = Some (Malloc.real_i (Malloc.system fresh_machine) + 0x2000
            + Z.land (Z.shiftr 0x5000 12) 511 * 8,
            to_i64 0x0201) /\
    tables_built fresh_machine m' 3
      (Z.land (Z.land (to_i64 (Malloc.cr3 (Malloc.system fresh_machine))) PAGE_TA) PAGE_TA
       + Z.land (Z.shiftr 0x5000 39) 511 * 8) /\
    (Z.land 0x0201 1 <> 0 -> Malloc.mapped m' 0x5000 = true).
Proof.
  apply (@ReserveVirtual_builds_tables blink_config fresh_machine 0x5000 4096 0x0201).
  - reflexivity.
  - simpl. lia.
  - reflexivity.
  - reflexivity.
  - simpl. lia.
  - simpl. lia.
  - vm_compute. discriminate.
  - vm_compute. reflexivity.
  - lia.
  - lia.
  - lia.
  - lia.
Defined.
(* ------------------------------------------------------------------ *)
(** ** [FreeVirtual] over a range of pages *)
(* ------------------------------------------------------------------ *)

Section FreePages.
Context {cfg : Config}.

(** The walk of [FreeVirtual] stops at an absent leaf entry without a
    change. *)
Lemma FreeVirtual_walk_absent_leaf m virt :
  forall fuel pt level mi e,
    level <= 39 ->
    table_slot fuel m virt (to_i64 pt) level = Some (mi, e) ->
    Z.land e 1 = 0 ->
    Malloc.FreeVirtual_walk fuel m virt pt level = Ret (m, 12) /\
    Malloc.leaf_slot fuel m virt pt level = None.
Proof.
  induction fuel as [|fuel IH]; intros pt level mi e Hlevel; cbn [table_slot];
    [discriminate|].
  cbn [Malloc.leaf_slot Malloc.FreeVirtual_walk].
  destruct (Z.leb_spec 12 level) as [Hge | Hlt]; [|discriminate].
  rewrite land_to_i64_TA.
  pose proof (slot_offset_range pt (Z.land (Z.shiftr virt level) 511)
                (leaf_index_range _)) as [Hrange Hal].
  rewrite land_TA_idem in Hrange.
  set (slot := Z.land pt PAGE_TA + Z.land (Z.shiftr virt level) 511 * 8) in *.
  unfold Malloc.MachineRead64.
  rewrite (wrap64_small slot) by lia.
  destruct (wrap64 (slot + 8) <=? Malloc.real_n (Malloc.system m)); [|discriminate].
  cbn [assert bind]. rewrite to_i64_bit0.
  destruct (Z.ltb_spec 12 level) as [Hup | Hleaf].
  - destruct (Z.land (Read64 (Malloc.real_p (Malloc.system m)) slot) 1 =? 0);
      [discriminate|].
    replace (level =? 12) with false by (symmetry; apply Z.eqb_neq; lia).
    rewrite (wrap64_small (level - 9)) by lia.
    intros Hrec Habs. apply (IH _ _ mi e); [lia | exact Hrec | exact Habs].
  - intros [= <- <-] Habs. assert (level = 12) as -> by lia.
    rewrite to_i64_bit0 in Habs. rewrite Habs. cbn [Z.eqb]. split; reflexivity.
Qed.

(** With the three upper tables present the walk ends at the leaf level,
    whether the leaf entry is valid or not. *)
Lemma after_page_leaf m virt :
  table_slot 4 m virt (to_i64 (Malloc.cr3 (Malloc.system m))) 39 <> None ->
  Malloc.FreeVirtual_walk 4 m virt (Malloc.cr3 (Malloc.system m)) 39
  = Ret (after_page m virt, 12) /\
  match Malloc.leaf_slot 4 m virt (Malloc.cr3 (Malloc.system m)) 39 with
  | Some (mi, pt) => leaf_effect m (after_page m virt) mi pt
  | None => after_page m virt = m
  end.
Proof.
  intros Hslot.
  destruct (table_slot 4 m virt (to_i64 (Malloc.cr3 (Malloc.system m))) 39)
    as [[mi e]|] eqn:E; [clear Hslot | congruence].
  unfold after_page.
  destruct (Z.eq_dec (Z.land e 1) 0) as [Habs | Hpres].
  - destruct (FreeVirtual_walk_absent_leaf m virt 4 _ 39 mi e ltac:(lia) E Habs)
      as [Hwalk Hleaf].
    rewrite Hwalk, Hleaf. split; reflexivity.
  - pose proof (leaf_slot_of_table_slot m virt 4 _ 39 mi e ltac:(lia) E Hpres) as Hleaf.
    destruct (FreeVirtual_walk_leaf 4 m virt _ 39 mi _ Hleaf) as (m' & Hwalk & Heff).
    rewrite Hwalk, Hleaf. split; [reflexivity | exact Heff].
Qed.

Lemma after_pages_S n : forall m virt,
  after_pages (S n) m virt
  = after_page (after_pages n m virt) (virt + 4096 * Z.of_nat n).
Proof.
  induction n as [|n IH]; intros m virt.
  - cbn [after_pages]. f_equal. lia.
  - change (after_pages (S (S n)) m virt)
      with (after_pages (S n) (after_page m virt) (virt + 4096)).
    rewrite IH. cbn [after_pages]. f_equal. lia.
Qed.

Lemma FreeVirtual_loop_pages n : forall fuel m virt,
  0 <= virt -> virt + 4096 * Z.of_nat n < 2 ^ 64 -> (n < fuel)%nat ->
  (forall k, (k < n)%nat ->
     table_slot 4 (after_pages k m virt) (virt + 4096 * Z.of_nat k)
       (to_i64 (Malloc.cr3 (Malloc.system (after_pages k m virt)))) 39 <> None) ->
  Malloc.FreeVirtual_loop fuel m virt (virt + 4096 * Z.of_nat n)
  = Ret (after_pages n m virt).
Proof.
  induction n as [|n IH]; intros fuel m virt Hlo Hhi Hfuel Hup;
    (destruct fuel as [|fuel]; [lia|]); cbn [Malloc.FreeVirtual_loop after_pages].
  - replace (virt + 4096 * Z.of_nat 0) with virt by lia.
    now rewrite Z.ltb_irrefl.
  - replace (virt <? virt + 4096 * Z.of_nat (S n)) with true
      by (symmetry; apply Z.ltb_lt; lia).
    pose proof (Hup 0%nat ltac:(lia)) as H0. cbn [after_pages] in H0.
    replace (virt + 4096 * Z.of_nat 0) with virt in H0 by lia.
    destruct (after_page_leaf m virt H0) as [Hwalk _].
    rewrite Hwalk. cbn [bind]. change (Z.shiftl 1 12) with 4096.
    rewrite (wrap64_small (virt + 4096)) by lia.
    replace (virt + 4096 * Z.of_nat (S n)) with (virt + 4096 + 4096 * Z.of_nat n) by lia.
    apply IH; try lia.
    intros k Hk. specialize (Hup (S k) ltac:(lia)). cbn [after_pages] in Hup.
    replace (virt + 4096 + 4096 * Z.of_nat k) with (virt + 4096 * Z.of_nat (S k)) by lia.
    exact Hup.
Qed.

(** C7 (as amended).  [FreeVirtual] on a range of [n] whole pages, for
    each of which the walk finds the three upper tables present when the
    loop reaches it, visits the pages one after the other and answers 0.
    For every page whose leaf entry is then valid it clears the entry and
    increments [freed], whether the leaf is reserved or committed: a leaf
    with RSRV set also decrements [reserved] and leaves [committed] and
    the Real-Free list alone; a committed leaf decrements [committed],
    leaves [reserved] alone and hands its page to [AppendRealFree].  A
    page whose leaf entry is not valid is left as it is. *)
Theorem FreeVirtual_pages (fuel n : nat) (m : Malloc.Machine) (base : Z) :
  0 <= base -> base + 4096 * Z.of_nat n < 2 ^ 64 -> (n < fuel)%nat ->
  (forall k, (k < n)%nat ->
     table_slot 4 (after_pages k m base) (base + 4096 * Z.of_nat k)
       (to_i64 (Malloc.cr3 (Malloc.system (after_pages k m base)))) 39 <> None) ->
  Malloc.FreeVirtual fuel m base (4096 * Z.of_nat n)
  = Ret (0, Malloc.ResetTlb (after_pages n m base)) /\
  forall k, (k < n)%nat ->
    match Malloc.leaf_slot 4 (after_pages k m base) (base + 4096 * Z.of_nat k)
            (Malloc.cr3 (Malloc.system (after_pages k m base))) 39 with
    | Some (mi, pt) => leaf_effect (after_pages k m base) (after_pages (S k) m base) mi pt
    | None => after_pages (S k) m base = after_pages k m base
    end.
Proof.
  intros Hlo Hhi Hfuel Hup. split.
  - unfold Malloc.FreeVirtual. rewrite (wrap64_small base) by lia.
    rewrite (wrap64_small (base + 4096 * Z.of_nat n)) by lia.
    rewrite (FreeVirtual_loop_pages n fuel m base Hlo Hhi Hfuel Hup). reflexivity.
  - intros k Hk. rewrite after_pages_S.
    apply after_page_leaf, Hup, Hk.
Qed.

End FreePages.

(** Three pages of [arena_machine] from address 0: the first has no leaf
    entry, the second is committed, the third reserved. *)
Lemma FreeVirtual_pages_witness :
  (@Malloc.FreeVirtual blink_config 4 arena_machine 0 (4096 * Z.of_nat 3)
   = Ret (0, @Malloc.ResetTlb blink_config (@after_pages blink_config 3 arena_machine 0)) /\
   forall k, (k < 3)%nat ->
     match Malloc.leaf_slot 4 (@after_pages blink_config k arena_machine 0)
             (0 + 4096 * Z.of_nat k)
             (Malloc.cr3 (Malloc.system (@after_pages blink_config k arena_machine 0))) 39
     with
     | Some (mi, pt) =>
         @leaf_effect blink_config (@after_pages blink_config k arena_machine 0)
           (@after_pages blink_config (S k) arena_machine 0) mi pt
     | None =>
         @after_pages blink_config (S k) arena_machine 0
         = @after_pages blink_config k arena_machine 0
     end) /\
  match @Malloc.FreeVirtual blink_config 4 arena_machine 0 0x3000 with
  | Ret (r, m') =>
      r = 0 /\
      Malloc.memstat (Malloc.system m')
      = {| allocated := 5; committed := 4; freed := 2; reserved := 0;
           reclaimed := 0; resizes := 1; pagetables := 4 |} /\
      Malloc.realfree (Malloc.system m')
      = [{| Malloc.rf_i := 0x4000; Malloc.rf_n := 0x1000 |}] /\
      Read64 (Malloc.real_p (Malloc.system m')) 0x3008 = 0 /\
      Read64 (Malloc.real_p (Malloc.system m')) 0x3010 = 0
  | Abort _ => False
  end.
Proof.
  split.
  - apply (@FreeVirtual_pages blink_config 4 3 arena_machine 0).
    + lia.
    + vm_compute. reflexivity.
    + lia.
    + intros k Hk. destruct k as [|[|[|k]]]; [vm_compute; discriminate ..|lia].
  - vm_compute. split; [reflexivity|]. split; [reflexivity|]. split; [reflexivity|].
    split; reflexivity.
Defined.
(** ** What a translation answers *)

Section Translated.
Context {cfg : Config} {col : Mem.Collab}.
Hypothesis cfg_ok : ConfigOk cfg.
Hypothesis alloc_frame : AllocatorFrame.

(** An entry whose RSRV bit is clear passes the second assertion of
    [GetPageAddress]. *)
Lemma rsrv_clear_passes x : Z.land x PAGE_RSRV = 0 -> Z.land (not64 x) PAGE_RSRV <> 0.
Proof.
  destruct (rsrv_bit _ cfg_ok) as (k & Hk & Hr). rewrite Hr.
  rewrite !land_pow2 by lia. rewrite not64_spec by lia.
  destruct (Z.testbit x k); cbn [negb]; intros H1; [|lia].
  assert (0 < 2 ^ k) by (apply Z.pow_pos_nonneg; lia). lia.
Qed.

Lemma GetPageAddress_returns s x :
  Z.land x PAGE_V <> 0 -> Z.land x PAGE_RSRV = 0 ->
  exists a, Mem.GetPageAddress s x = Ret a.
Proof.
  intros HV HR. unfold Mem.GetPageAddress.
  destruct (Z.eqb_spec (Z.land x PAGE_V) 0); [contradiction|].
  pose proof (rsrv_clear_passes x HR).
  destruct (Z.eqb_spec (Z.land (not64 x) PAGE_RSRV) 0); [contradiction|].
  cbn [negb assert bind].
  destruct (negb (Z.land x PAGE_HOST =? 0)); [eauto|].
  destruct (_ <=? _); eauto.
Qed.

Lemma walk_levels_fuel s pg fuel : forall e level,
  12 <= level -> level - 12 < 9 * Z.of_nat fuel ->
  Mem.walk_levels fuel s pg e level <> Abort OutOfFuel.
Proof.
  induction fuel as [|fuel IH]; intros e level Hlo Hhi; [lia|].
  cbn [Mem.walk_levels].
  destruct (Mem.GetPageAddress s e) as [a|f] eqn:Ha; cbn [bind].
  2:{ unfold Mem.GetPageAddress, assert in Ha.
      repeat match type of Ha with
             | context [if ?b then _ else _] => destruct b; cbn [bind] in Ha
             end; congruence. }
  unfold Mem.deref. destruct (a =? 0); cbn [bind]; [discriminate|].
  destruct (_ =? 0); [discriminate|].
  destruct (Z.leb_spec 12 (level - 9)); [|discriminate].
  apply IH; lia.
Qed.

Lemma miss_fuel m pg : Mem.FindPageTableEntry_miss m pg <> Abort OutOfFuel.
Proof.
  unfold Mem.FindPageTableEntry_miss.
  destruct (negb (Mem.canonical pg)); [discriminate|].
  unfold Mem.walk. destruct (negb (Mem.cr3 (Mem.system m) =? 0)); cbn [assert bind];
    [|discriminate].
  pose proof (walk_levels_fuel (Mem.system m) pg 4 (Mem.cr3 (Mem.system m)) 39
                ltac:(lia) ltac:(lia)) as Hw.
  destruct (Mem.walk_levels 4 (Mem.system m) pg (Mem.cr3 (Mem.system m)) 39)
    as [[[[t i] e]|]|f]; cbn [bind]; [| discriminate | congruence].
  destruct (negb (Z.land e PAGE_RSRV =? 0)); [|discriminate].
  unfold Mem.HandlePageFault.
  destruct (Mem.AllocatePage (Mem.system m)) as [p s1].
  destruct (negb (p =? wrap64 (-1))); cbn [bind]; [|discriminate].
  unfold Mem.GetPageAddress, Mem.deref, assert.
  repeat first
    [ progress cbn [bind]
    | discriminate
    | match goal with
      | |- context [if ?b then _ else _] =>
          lazymatch b with
          | context [if _ then _ else _] => fail
          | _ => destruct b
          end
      end ].
Qed.

(** The entry a miss answers is what the page tables hold afterwards. *)
Lemma miss_entry m pg x m' :
  Mem.real (Mem.system m) mod 8 = 0 ->
  Mem.FindPageTableEntry_miss m pg = Ret (x, m') -> x <> 0 ->
  Mem.canonical pg = true /\ Z.land x PAGE_V <> 0 /\ Z.land x PAGE_RSRV = 0 /\
  exists t i, Mem.walk (Mem.system m') pg = Ret (Some (t, i, x)).
Proof.
  intros Hreal. unfold Mem.FindPageTableEntry_miss.
  destruct (Mem.canonical pg) eqn:Hcan; cbn [negb].
  2:{ intros [= <- <-]. congruence. }
  destruct (Mem.walk (Mem.system m) pg) as [[[[t i] e]|]|] eqn:Hwalk; cbn [bind];
    [| intros [= <- <-]; congruence | discriminate].
  destruct (walk_leaf _ _ _ _ _ Hwalk) as (a0 & Ha0 & Hnz0 & Hload & HV).
  destruct (Z.eqb_spec (Z.land e PAGE_RSRV) 0) as [Hclear | Hrsrv]; cbn [negb bind].
  - intros [= <- <-] _. cbn. eauto 6.
  - destruct (Mem.HandlePageFault m e t i) as [[x' m1]|] eqn:Hf; cbn [bind]; [|discriminate].
    apply HandlePageFault_cases in Hf. cbv zeta in Hf.
    destruct (alloc_frame (Mem.system m)) as [Hreal1 Hwalk1].
    set (s1 := snd (Mem.AllocatePage (Mem.system m))) in *.
    destruct Hf as [[-> ->] | (pg' & a & st & Hx & Ha & Hnz & ->)].
    + cbn. intros [= <- <-]. congruence.
    + set (s2 := Mem.set_memstat s1 st) in *.
      assert (Hreal2 : Mem.real s2 mod 8 = 0) by (cbn; now rewrite Hreal1).
      assert (Hpg : Mem.walk s2 pg = Ret (Some (t, i, e))).
      { subst s2. rewrite walk_memstat, Hwalk1. exact Hwalk. }
      destruct (walk_leaf _ _ _ _ _ Hpg) as (a' & Ha' & _ & Hload' & _).
      rewrite Ha in Ha'. inversion Ha'; subst a'. clear Ha'.
      assert (HW : (a + i * 8) mod 8 = 0).
      { rewrite Z.add_mod, Z.mod_mul, (GetPageAddress_aligned cfg_ok s2 t a Hreal2 Ha) by lia.
        reflexivity. }
      assert (Hxr : 0 <= x' < 2 ^ 64) by (subst x'; now apply committed_entry_range).
      assert (Hres : Z.land (Mem.Load64 s2 (a + i * 8)) PAGE_RSRV <> 0) by now rewrite Hload'.
      assert (HxV : Z.land x' PAGE_V <> 0) by (subst x'; now apply committed_entry_V).
      destruct (Z.eqb_spec x' 0) as [Hz | Hxnz]; intros [= <- <-]; [congruence|].
      intros _. split; [reflexivity|]. split; [exact HxV|].
      split; [subst x'; now apply committed_entry_rsrv|].
      exists t, i. cbn [Mem.system Mem.SetTlbEntry Mem.set_tlb Mem.set_system].
      apply (walk_store cfg_ok s2 (a + i * 8) x' pg t i e Hreal2 HW Hxr Hres Hpg) with (a := a);
        [exact Ha | reflexivity | exact HxV].
Qed.

Lemma translated_entry m pg :
  Coherent m -> Mem.real (Mem.system m) mod 8 = 0 ->
  match Mem.FindPageTableEntry m pg with
  | Ret (x, m') =>
      Coherent m' /\ Mem.invalidated m' = false /\
      Mem.real (Mem.system m') mod 8 = 0 /\
      (x <> 0 ->
       Mem.canonical pg = true /\ Z.land x PAGE_V <> 0 /\ Z.land x PAGE_RSRV = 0 /\
       (exists t i, Mem.walk (Mem.system m') pg = Ret (Some (t, i, x))) /\
       exists a, Mem.GetPageAddress (Mem.system m') x = Ret a)
  | Abort f => f <> OutOfFuel
  end.
Proof.
  intros Hco Hreal.
  assert (Hmiss : forall m0, Mem.real (Mem.system m0) mod 8 = 0 ->
            TlbOk (Mem.system m0) (Mem.tlb m0) -> Mem.invalidated m0 = false ->
            match Mem.FindPageTableEntry_miss m0 pg with
            | Ret (x, m') =>
                Coherent m' /\ Mem.invalidated m' = false /\
                Mem.real (Mem.system m') mod 8 = 0 /\
                (x <> 0 ->
                 Mem.canonical pg = true /\ Z.land x PAGE_V <> 0 /\
                 Z.land x PAGE_RSRV = 0 /\
                 (exists t i, Mem.walk (Mem.system m') pg = Ret (Some (t, i, x))) /\
                 exists a, Mem.GetPageAddress (Mem.system m') x = Ret a)
            | Abort f => f <> OutOfFuel
            end).
  { intros m0 Hr0 Hok0 Hinv0.
    pose proof (miss_fuel m0 pg) as Hfuel.
    destruct (Mem.FindPageTableEntry_miss m0 pg) as [[x m']|f] eqn:E; [|congruence].
    destruct (miss_coherent cfg_ok alloc_frame m0 pg x m' Hr0 Hok0 E) as [Hok' Hr'].
    destruct (miss_tlb _ _ _ _ E) as (_ & Hinv' & _).
    split; [now right|]. split; [congruence|]. split; [exact Hr'|].
    intros Hx. destruct (miss_entry m0 pg x m' Hr0 E Hx) as (Hc & HV & HR & Hw).
    repeat split; try assumption. now apply GetPageAddress_returns. }
  destruct (FindPageTableEntry_cases m pg)
    as [[Hinv E] | (Hinv & x & m1 & _ & Hfrom & Hhit & E)]; rewrite E.
  - apply Hmiss; [exact Hreal | apply TlbOk_reset | reflexivity].
  - destruct Hco as [Hco | Hok]; [congruence|].
    destruct Hfrom as (Hs1 & _ & Hi1 & Hin).
    assert (Hok1 : TlbOk (Mem.system m1) (Mem.tlb m1)).
    { rewrite Hs1. intros e He. destruct (Hin e He) as [Hold | ->]; [now apply Hok|].
      intros Hnz. cbn in Hnz. congruence. }
    destruct (Z.eqb_spec x 0) as [-> | Hnz]; cbn [negb].
    + apply Hmiss; [now rewrite Hs1 | exact Hok1 | congruence].
    + split; [now right|]. split; [congruence|]. split; [now rewrite Hs1|].
      intros _. destruct (Hhit Hnz) as (e & He & Hpg & Hx).
      destruct (Hok e He ltac:(congruence)) as (Hc & HR & t & i & Hw).
      rewrite Hpg, Hx in *. rewrite Hs1.
      destruct (walk_leaf _ _ _ _ _ Hw) as (_ & _ & _ & _ & HV).
      repeat split; try assumption; [eauto|]. now apply GetPageAddress_returns.
Qed.

(** X12.  On a machine whose TLB agrees with the page tables (or with an
    invalidation pending) [FindPageTableEntry] never runs out of steps,
    and an entry it answers is never 0 by accident: a non-zero answer is
    for a canonical page, has V set and RSRV clear, is the leaf entry the
    page tables hold after the call, and passes both assertions of
    [GetPageAddress].  The machine it leaves agrees with its page tables
    again, with no invalidation pending. *)
Theorem FindPageTableEntry_entry_ok (m : Mem.Machine) (pg : Z) :
  Coherent m -> Mem.real (Mem.system m) mod 8 = 0 ->
  match Mem.FindPageTableEntry m pg with
  | Ret (x, m') =>
      Coherent m' /\ Mem.invalidated m' = false /\
      Mem.real (Mem.system m') mod 8 = 0 /\
      (x <> 0 ->
       Mem.canonical pg = true /\ Z.land x PAGE_V <> 0 /\ Z.land x PAGE_RSRV = 0 /\
       (exists t i, Mem.walk (Mem.system m') pg = Ret (Some (t, i, x))) /\
       exists a, Mem.GetPageAddress (Mem.system m') x = Ret a)
  | Abort f => f <> OutOfFuel
  end.
Proof. apply translated_entry. Qed.

(** X13.  In the paged modes, on a machine whose TLB agrees with the page
    tables, [LookupAddress] stops only where [FindPageTableEntry] stops:
    the assertions of its own call of [GetPageAddress] never fail.  A
    non-null answer is the host address of the page that the page tables
    now map, plus the offset of [virt] in its page. *)
Theorem LookupAddress_paged (m : Mem.Machine) (virt : Z) :
  Coherent m -> Mem.real (Mem.system m) mod 8 = 0 ->
  Mem.mode m <> Mem.XED_MODE_REAL ->
  match Mem.LookupAddress m virt with
  | Ret (p, m') =>
      Coherent m' /\
      (p <> 0 ->
       exists x t i host,
         Mem.walk (Mem.system m') (Z.land virt (-4096)) = Ret (Some (t, i, x)) /\
         Mem.GetPageAddress (Mem.system m') x = Ret host /\ host <> 0 /\
         p = host + Z.land virt 4095)
  | Abort f => Mem.FindPageTableEntry m (Z.land virt (-4096)) = Abort f
  end.
Proof.
  intros Hco Hreal Hmode.
  pose proof (translated_entry m (Z.land virt (-4096)) Hco Hreal) as Hent.
  unfold Mem.LookupAddress.
  assert (Hpaged :
    match
      (r <- Mem.FindPageTableEntry m (Z.land virt (-4096)) ;;
       (let '(entry, m') := r in
        if entry =? 0 then Ret (0, m')
        else host <- Mem.GetPageAddress (Mem.system m') entry ;;
             (if host =? 0 then Ret (0, m') else Ret (host + Z.land virt 4095, m'))))
    with
    | Ret (p, m') =>
        Coherent m' /\
        (p <> 0 ->
         exists x t i host,
           Mem.walk (Mem.system m') (Z.land virt (-4096)) = Ret (Some (t, i, x)) /\
           Mem.GetPageAddress (Mem.system m') x = Ret host /\ host <> 0 /\
           p = host + Z.land virt 4095)
    | Abort f => Mem.FindPageTableEntry m (Z.land virt (-4096)) = Abort f
    end).
  { destruct (Mem.FindPageTableEntry m (Z.land virt (-4096))) as [[x m']|f]; cbn [bind];
      [|reflexivity].
    destruct Hent as (Hco' & _ & _ & Hx).
    destruct (Z.eqb_spec x 0) as [-> | Hnz]; [split; [exact Hco' | congruence]|].
    destruct (Hx Hnz) as (_ & _ & _ & (t & i & Hw) & (a & Ha)).
    rewrite Ha. cbn [bind].
    destruct (Z.eqb_spec a 0) as [-> | Hanz]; (split; [exact Hco'|]); [congruence|].
    intros _. exists x, t, i, a. auto. }
  destruct (Mem.mode m); [congruence | exact Hpaged | exact Hpaged].
Qed.

(** X14.  Translating a page twice in a row: when the first call of
    [FindPageTableEntry] answers a non-zero entry, the second call answers
    the same entry and leaves the system (page tables, counters, free
    list) exactly as the first call left it, so a page is committed at
    most once. *)
Theorem FindPageTableEntry_twice (m : Mem.Machine) (pg : Z) :
  Coherent m -> Mem.real (Mem.system m) mod 8 = 0 ->
  match Mem.FindPageTableEntry m pg with
  | Ret (x, m') =>
      x <> 0 ->
      exists m'', Mem.FindPageTableEntry m' pg = Ret (x, m'') /\
                  Mem.system m'' = Mem.system m'
  | Abort _ => True
  end.
Proof.
  intros Hco Hreal.
  pose proof (translated_entry m pg Hco Hreal) as Hent.
  destruct (Mem.FindPageTableEntry m pg) as [[x m']|f]; [|exact I].
  intros Hnz. destruct Hent as (Hco' & Hinv' & Hreal' & Hx).
  destruct (Hx Hnz) as (Hcan & HV & HR & (t & i & Hw) & _).
  destruct Hco' as [Hbad | Hok]; [congruence|].
  assert (Hcoh : forall s, Mem.walk s pg = Mem.walk (Mem.system m') pg ->
                 coherent_entry s {| page := pg; entry := x |}).
  { intros s Hs _. cbn [page entry]. rewrite Hs. eauto. }
  destruct (FindPageTableEntry_cases m' pg)
    as [[Hinv E] | (_ & y & m1 & _ & Hfrom & Hhit & E)]; [congruence|].
  rewrite E. destruct Hfrom as (Hs1 & _).
  destruct (Z.eqb_spec y 0) as [-> | Hynz]; cbn [negb].
  - destruct (cached_translation m1 pg {| page := pg; entry := x |}) as (m2 & Hm2 & Hs2);
      [apply Hcoh; now rewrite Hs1 | reflexivity | exact Hnz |].
    exists m2. split; [exact Hm2 | congruence].
  - destruct (Hhit Hynz) as (e & He & Hpg & Hy).
    destruct (Hok e He ltac:(congruence)) as (_ & _ & t' & i' & Hw').
    rewrite Hpg, Hy, Hw in Hw'. inversion Hw'; subst y.
    exists m1. split; [reflexivity | exact Hs1].
Qed.

End Translated.

Section ArenaBounds.
Context {cfg : Config} {col : Mem.Collab}.

(** X15.  A page address that [GetPageAddress] takes from an entry
    without the HOST flag is null or lies inside the arena: it is the
    arena's base plus the entry's address field, a whole number of pages
    above the base, and the page ends at or below the end of the arena. *)
Theorem GetPageAddress_in_arena (s : Mem.System) (e a : Z) :
  Mem.GetPageAddress s e = Ret a ->
  Z.land e PAGE_HOST = 0 -> a <> 0 ->
  a = Mem.real s + Z.land e PAGE_TA /\
  Mem.real s <= a /\ a + 4096 <= Mem.real s + kRealSize /\
  (a - Mem.real s) mod 4096 = 0.
Proof.
  unfold Mem.GetPageAddress, assert.
  destruct (negb (Z.land e PAGE_V =? 0)); cbn [bind]; [|discriminate].
  destruct (negb (Z.land (not64 e) PAGE_RSRV =? 0)); cbn [bind]; [|discriminate].
  intros Hrun Hhost Hnz. rewrite Hhost in Hrun. cbn [Z.eqb negb] in Hrun.
  destruct (Z.leb_spec (Z.land e PAGE_TA + 4096) kRealSize) as [Hin | Hout];
    inversion Hrun; subst a; [|congruence].
  pose proof (land_le_r e PAGE_TA ltac:(vm_compute; congruence)) as Hta.
  repeat split; try lia.
  replace (Mem.real s + Z.land e PAGE_TA - Mem.real s) with (Z.land e PAGE_TA) by lia.
  change 4096 with (2 ^ 12). rewrite <- Z.land_ones by lia.
  rewrite <- Z.land_assoc. change (Z.land PAGE_TA (Z.ones 12)) with 0. apply Z.land_0_r.
Qed.

(** X16.  In real mode [LookupAddress] never stops and never changes the
    machine: no TLB probe, no walk, no demand paging.  It answers the
    arena's base plus [virt] exactly when [virt] is a 32-bit address
    with 4095 more bytes of the arena after it, and null otherwise; so
    the 4096 bytes from a non-null answer lie inside the arena. *)
Theorem LookupAddress_real_mode (m : Mem.Machine) (virt : Z) :
  Mem.mode m = Mem.XED_MODE_REAL ->
  exists p,
    Mem.LookupAddress m virt = Ret (p, m) /\
    (0 <= virt <= 0xffffffff /\ virt + 4095 < kRealSize ->
     p = Mem.real (Mem.system m) + virt) /\
    (~ (0 <= virt <= 0xffffffff /\ virt + 4095 < kRealSize) -> p = 0) /\
    (p <> 0 ->
     Mem.real (Mem.system m) <= p /\ p + 4096 <= Mem.real (Mem.system m) + kRealSize).
Proof.
  intros Hmode. unfold Mem.LookupAddress. rewrite Hmode.
  destruct (Z.leb_spec 0 virt) as [H0 | H0]; cbn [andb].
  2:{ exists 0. repeat split; try lia; congruence. }
  destruct (Z.leb_spec virt 0xffffffff) as [H1 | H1]; cbn [andb].
  2:{ exists 0. repeat split; try lia; congruence. }
  assert (Hlow : Z.land virt 0xffffffff = virt).
  { change 0xffffffff with (Z.ones 32). rewrite Z.land_ones by lia.
    apply Z.mod_small. lia. }
  rewrite Hlow.
  destruct (Z.ltb_spec (virt + 4095) kRealSize) as [H2 | H2].
  - eexists. split; [reflexivity|]. repeat split; try lia.
  - exists 0. repeat split; try lia; congruence.
Qed.

End ArenaBounds.

Section TranslatedExample.
#[local] Existing Instance blink_config.
#[local] Existing Instance paged_collab.

Lemma FindPageTableEntry_entry_ok_witness :
  match Mem.FindPageTableEntry example_machine 0x3000 with
  | Ret (x, m') =>
      Coherent m' /\ Mem.invalidated m' = false /\
      Mem.real (Mem.system m') mod 8 = 0 /\
      (x <> 0 ->
       Mem.canonical 0x3000 = true /\ Z.land x PAGE_V <> 0 /\ Z.land x PAGE_RSRV = 0 /\
       (exists t i, Mem.walk (Mem.system m') 0x3000 = Ret (Some (t, i, x))) /\
       exists a, Mem.GetPageAddress (Mem.system m') x = Ret a)
  | Abort f => f <> OutOfFuel
  end.
Proof.
  apply (FindPageTableEntry_entry_ok blink_config_ok freelist_allocator_frame
           example_machine 0x3000).
  - right. apply TlbOk_reset.
  - reflexivity.
Defined.

Lemma LookupAddress_paged_witness :
  match Mem.LookupAddress example_machine 0x3004 with
  | Ret (p, m') =>
      Coherent m' /\
      (p <> 0 ->
       exists x t i host,
         Mem.walk (Mem.system m') (Z.land 0x3004 (-4096)) = Ret (Some (t, i, x)) /\
         Mem.GetPageAddress (Mem.system m') x = Ret host /\ host <> 0 /\
         p = host + Z.land 0x3004 4095)
  | Abort f => Mem.FindPageTableEntry example_machine (Z.land 0x3004 (-4096)) = Abort f
  end.
Proof.
  apply (LookupAddress_paged blink_config_ok freelist_allocator_frame example_machine 0x3004).
  - right. apply TlbOk_reset.
  - reflexivity.
  - discriminate.
Defined.

Lemma FindPageTableEntry_twice_witness :
  match Mem.FindPageTableEntry example_machine 0x3000 with
  | Ret (x, m') =>
      x <> 0 ->
      exists m'', Mem.FindPageTableEntry m' 0x3000 = Ret (x, m'') /\
                  Mem.system m'' = Mem.system m'
  | Abort _ => True
  end.
Proof.
  apply (FindPageTableEntry_twice blink_config_ok freelist_allocator_frame
           example_machine 0x3000).
  - right. apply TlbOk_reset.
  - reflexivity.
Defined.

Lemma GetPageAddress_in_arena_witness :
  0x105000 = Mem.real example_system + Z.land 0x5007 PAGE_TA /\
  Mem.real example_system <= 0x105000 /\
  0x105000 + 4096 <= Mem.real example_system + kRealSize /\
  (0x105000 - Mem.real example_system) mod 4096 = 0.
Proof.
  apply (GetPageAddress_in_arena example_system 0x5007 0x105000).
  - reflexivity.
  - reflexivity.
  - discriminate.
Defined.

Lemma LookupAddress_real_mode_witness :
  exists p,
    Mem.LookupAddress real_machine 0x7c00 = Ret (p, real_machine) /\
    (0 <= 0x7c00 <= 0xffffffff /\ 0x7c00 + 4095 < kRealSize ->
     p = Mem.real (Mem.system real_machine) + 0x7c00) /\
    (~ (0 <= 0x7c00 <= 0xffffffff /\ 0x7c00 + 4095 < kRealSize) -> p = 0) /\
    (p <> 0 ->
     Mem.real (Mem.system real_machine) <= p /\
     p + 4096 <= Mem.real (Mem.system real_machine) + kRealSize).
Proof. apply (LookupAddress_real_mode real_machine 0x7c00). reflexivity. Defined.

End TranslatedExample.
(** ** [CompareEq] as a test for any equal byte *)

Lemma lxor_u64 x y : 0 <= x < 2 ^ 64 -> 0 <= y < 2 ^ 64 -> 0 <= Z.lxor x y < 2 ^ 64.
Proof.
  intros Hx Hy. split; [apply Z.lxor_nonneg; lia|].
  apply lt_pow2_of_high_bits; [apply Z.lxor_nonneg; lia | lia |].
  intros k Hk. rewrite Z.lxor_spec.
  assert (Hhigh : forall c, 0 <= c < 2 ^ 64 -> Z.testbit c k = false).
  { intros c Hc. destruct (Z.eq_dec c 0) as [-> | Hc0]; [apply Z.bits_0|].
    apply Z.bits_above_log2; [lia|].
    assert (Z.log2 c < 64) by (apply Z.log2_lt_pow2; lia). lia. }
  now rewrite !Hhigh.
Qed.

(** The first index below [n] at which a test holds. *)
Lemma first_index (P : Z -> bool) (n : nat) :
  (exists i, 0 <= i < Z.of_nat n /\ P i = true) ->
  exists i, 0 <= i < Z.of_nat n /\ P i = true /\ forall l, 0 <= l < i -> P l = false.
Proof.
  induction n as [|n IH]; intros (i & Hi & HP); [lia|].
  destruct (Z.eq_dec i (Z.of_nat n)) as [-> | Hne].
  - destruct (existsb P (map Z.of_nat (seq 0 n))) eqn:Hex.
    + apply existsb_exists in Hex. destruct Hex as (l & Hin & Hl).
      apply in_map_iff in Hin. destruct Hin as (k & <- & Hk). apply in_seq in Hk.
      destruct IH as (i' & Hi' & HP' & Hmin); [exists (Z.of_nat k); split; [lia | exact Hl]|].
      exists i'. repeat split; try lia; assumption.
    + exists (Z.of_nat n). repeat split; try lia; [exact HP|].
      intros l Hl. destruct (P l) eqn:El; [|reflexivity].
      assert (existsb P (map Z.of_nat (seq 0 n)) = true); [|congruence].
      apply existsb_exists. exists l. split; [|exact El].
      apply in_map_iff. exists (Z.to_nat l). split; [lia|]. apply in_seq. lia.
  - destruct IH as (i' & Hi' & HP' & Hmin); [exists i; split; [lia | exact HP]|].
    exists i'. repeat split; try lia; assumption.
Qed.

(** Only bit 7 of a lane can be set in the result. *)
Lemma CompareEq_bits x y b :
  Z.testbit (CompareEq x y) b = true -> exists i, 0 <= i < 8 /\ b = 8 * i + 7.
Proof.
  unfold CompareEq. cbv zeta. rewrite Z.land_spec. intros Hb.
  apply andb_true_iff in Hb. destruct Hb as [_ Hmask].
  destruct (Z_lt_ge_dec b 0); [rewrite Z.testbit_neg_r in Hmask by lia; discriminate|].
  destruct (Z_lt_ge_dec b 64).
  - assert (Hc : exists i, 0 <= i < 8 /\ (b = 8 * i + 7 \/ (8 * i <= b < 8 * i + 7))).
    { exists (b / 8). Z.div_mod_to_equations. lia. }
    destruct Hc as (i & Hi & [-> | Hlow]); [eauto|]. exfalso.
    assert (Hb : b = 8 * i + (b - 8 * i)) by lia.
    assert (Hr : 0 <= b - 8 * i < 7) by lia.
    revert Hmask. rewrite Hb. generalize (b - 8 * i) Hr. clear - Hi.
    intros r Hr.
    destruct (lane_cases i Hi) as [-> | [-> | [-> | [-> | [-> | [-> | [-> | ->]]]]]]];
      assert (r = 0 \/ r = 1 \/ r = 2 \/ r = 3 \/ r = 4 \/ r = 5 \/ r = 6) as Hc by lia;
      destruct Hc as [-> | [-> | [-> | [-> | [-> | [-> | ->]]]]]]; cbn; discriminate.
  - rewrite Z.bits_above_log2 in Hmask; [discriminate | lia |].
    change (Z.log2 0x8080808080808080) with 63. lia.
Qed.

Lemma lane_flag_equal x y i :
  0 <= x < 2 ^ 64 -> 0 <= y < 2 ^ 64 -> 0 <= i < 8 ->
  byte_of i x = byte_of i y -> lane_flag i (CompareEq x y) = true.
Proof.
  intros Hx Hy Hi Heq. unfold CompareEq. cbv zeta.
  apply lane_arith; [apply lxor_u64; assumption | exact Hi|].
  left. rewrite byte_of_lxor, Heq. apply Z.lxor_nilpotent.
Qed.

Lemma CompareEq_lowest x y :
  0 <= x < 2 ^ 64 -> 0 <= y < 2 ^ 64 ->
  CompareEq x y <> 0 ->
  exists i, 0 <= i < 8 /\ byte_of i x = byte_of i y /\
            lane_flag i (CompareEq x y) = true /\
            forall l, 0 <= l < i -> lane_flag l (CompareEq x y) = false.
Proof.
  intros Hx Hy Hnz.
  assert (Hsome : exists i, 0 <= i < Z.of_nat 8 /\ lane_flag i (CompareEq x y) = true).
  { destruct (Z.eq_dec (CompareEq x y) 0) as [|_]; [contradiction|].
    assert (Hbit : exists b, Z.testbit (CompareEq x y) b = true).
    { exists (Z.log2 (CompareEq x y)). apply Z.bit_log2.
      pose proof (CompareEq_range x y). lia. }
    destruct Hbit as (b & Hb). destruct (CompareEq_bits x y b Hb) as (i & Hi & ->).
    exists i. split; [cbn; lia | exact Hb]. }
  destruct (first_index _ _ Hsome) as (i & Hi & Hflag & Hmin).
  change (Z.of_nat 8) with 8 in Hi.
  exists i. split; [exact Hi|]. split; [|split; assumption].
  pose proof (lxor_u64 x y Hx Hy) as Hw.
  assert (Hlane : forall l, 0 <= l < 8 ->
            lane_flag l (CompareEq x y) = true <->
            (byte_of l (Z.lxor x y) = 0 \/
             (byte_of l (Z.lxor x y) = 1 /\ Z.lxor x y mod 2 ^ (8 * l) < ones_le l))).
  { intros l Hl. unfold CompareEq. cbv zeta. now apply lane_arith. }
  apply Hlane in Hflag; [|exact Hi].
  apply Z.lxor_eq_0_iff. rewrite <- byte_of_lxor.
  destruct Hflag as [Hz | [_ Hborrow]]; [exact Hz|]. exfalso.
  destruct (Z.eq_dec i 0) as [-> | Hi0].
  - unfold ones_le in Hborrow. change (2 ^ (8 * 0)) with 1 in Hborrow.
    rewrite !Z.mod_1_r in Hborrow. lia.
  - apply borrow_is_lower_flag in Hborrow; [|lia|lia].
    apply Hlane in Hborrow; [|lia].
    rewrite Hmin in Hborrow by lia. discriminate.
Qed.

(** X17.  [CompareEq] is exact as a test for any equal byte: the result
    is non-zero exactly when some byte of [x] equals the byte of [y] in
    the same lane.  Every equal lane is flagged, nothing but bit 7 of a
    lane is ever set, and the lowest flagged lane is always a true match;
    only flags above it can be false positives. *)
Theorem CompareEq_any_match (x y : Z) :
  is_u64 x -> is_u64 y ->
  (CompareEq x y <> 0 <-> exists i, 0 <= i < 8 /\ byte_of i x = byte_of i y) /\
  (forall b, Z.testbit (CompareEq x y) b = true -> exists i, 0 <= i < 8 /\ b = 8 * i + 7) /\
  (CompareEq x y <> 0 ->
   exists i, 0 <= i < 8 /\ byte_of i x = byte_of i y /\
             lane_flag i (CompareEq x y) = true /\
             forall l, 0 <= l < i -> lane_flag l (CompareEq x y) = false).
Proof.
  unfold is_u64. intros Hx Hy. split; [|split].
  - split.
    + intros Hnz. destruct (CompareEq_lowest x y Hx Hy Hnz) as (i & Hi & Heq & _). eauto.
    + intros (i & Hi & Heq) Hz.
      pose proof (lane_flag_equal x y i Hx Hy Hi Heq) as Hflag.
      unfold lane_flag in Hflag. rewrite Hz, Z.bits_0 in Hflag. discriminate.
  - apply CompareEq_bits.
  - apply CompareEq_lowest; assumption.
Qed.

Lemma CompareEq_any_match_witness :
  (CompareEq 0x1122334455667788 0x99aabb44ccddeeff <> 0 <->
   exists i, 0 <= i < 8 /\
             byte_of i 0x1122334455667788 = byte_of i 0x99aabb44ccddeeff) /\
  (forall b, Z.testbit (CompareEq 0x1122334455667788 0x99aabb44ccddeeff) b = true ->
             exists i, 0 <= i < 8 /\ b = 8 * i + 7) /\
  (CompareEq 0x1122334455667788 0x99aabb44ccddeeff <> 0 ->
   exists i, 0 <= i < 8 /\
             byte_of i 0x1122334455667788 = byte_of i 0x99aabb44ccddeeff /\
             lane_flag i (CompareEq 0x1122334455667788 0x99aabb44ccddeeff) = true /\
             forall l, 0 <= l < i ->
               lane_flag l (CompareEq 0x1122334455667788 0x99aabb44ccddeeff) = false).
Proof.
  apply (CompareEq_any_match 0x1122334455667788 0x99aabb44ccddeeff); unfold is_u64; lia.
Defined.
(** ** The TLB keys *)

Lemma length_upd {A} (l : list A) i x : length (upd l i x) = length l.
Proof.
  revert i. induction l as [|h t IH]; intros [|i]; cbn; try reflexivity.
  now rewrite IH.
Qed.

Lemma nth_upd_eq {A} (l : list A) i x d : (i < length l)%nat -> nth i (upd l i x) d = x.
Proof.
  revert i. induction l as [|h t IH]; intros [|i] Hi; cbn in *; try lia; [reflexivity|].
  apply IH. lia.
Qed.

Lemma nth_upd_neq {A} (l : list A) i j x d : i <> j -> nth j (upd l i x) d = nth j l d.
Proof.
  revert i j. induction l as [|h t IH]; intros [|i] [|j] Hne; cbn; try reflexivity;
    try congruence.
  apply IH. congruence.
Qed.

Lemma GetTlbKey_range {cfg : Config} {col : Mem.Collab} p : 0 <= Mem.GetTlbKey p < 256.
Proof.
  unfold Mem.GetTlbKey. pose proof (land_le_r p 0xff000 ltac:(lia)) as Hl.
  rewrite Z.shiftr_div_pow2 by lia. change (2 ^ 12) with 4096.
  Z.div_mod_to_equations. lia.
Qed.

Lemma testbit_byte k b : 0 <= k < 256 -> 8 <= b -> Z.testbit k b = false.
Proof.
  intros Hk Hb. destruct (Z.eq_dec k 0) as [-> | Hnz]; [apply Z.bits_0|].
  apply Z.bits_above_log2; [lia|].
  assert (Z.log2 k < 8) by (apply Z.log2_lt_pow2; lia). lia.
Qed.

Lemma testbit_255 b : Z.testbit 255 b = (0 <=? b) && (b <? 8).
Proof.
  destruct (Z_lt_ge_dec b 0); [rewrite Z.testbit_neg_r by lia|].
  { destruct (Z.leb_spec 0 b); [lia | reflexivity]. }
  destruct (Z_lt_ge_dec b 8).
  - replace (0 <=? b) with true by (symmetry; apply Z.leb_le; lia).
    replace (b <? 8) with true by (symmetry; apply Z.ltb_lt; lia).
    assert (b = 0 \/ b = 1 \/ b = 2 \/ b = 3 \/ b = 4 \/ b = 5 \/ b = 6 \/ b = 7) as Hc by lia.
    destruct Hc as [-> | [-> | [-> | [-> | [-> | [-> | [-> | ->]]]]]]]; reflexivity.
  - rewrite testbit_byte by lia.
    replace (b <? 8) with false by (symmetry; apply Z.ltb_ge; lia).
    symmetry. apply andb_false_r.
Qed.

Lemma byte_of_testbit z l b :
  0 <= l -> 0 <= b ->
  Z.testbit (byte_of l z) b = Z.testbit z (8 * l + b) && (b <? 8).
Proof.
  intros Hl Hb. unfold byte_of. rewrite Z.land_spec, Z.shiftr_spec by lia.
  rewrite testbit_255. replace (0 <=? b) with true by (symmetry; apply Z.leb_le; lia).
  rewrite Z.add_comm. reflexivity.
Qed.

Lemma byte_of_range l z : 0 <= byte_of l z < 256.
Proof. unfold byte_of. pose proof (land_le_r (Z.shiftr z (8 * l)) 255 ltac:(lia)). lia. Qed.

Lemma byte_eq a c :
  0 <= a < 256 -> 0 <= c < 256 ->
  (forall b, 0 <= b < 8 -> Z.testbit a b = Z.testbit c b) -> a = c.
Proof.
  intros Ha Hc Hbits. apply Z.bits_inj'. intros b Hb.
  destruct (Z_lt_ge_dec b 8); [apply Hbits; lia|].
  now rewrite !testbit_byte by lia.
Qed.

(** The key word after [SetTlbEntry] has written lane [l]. *)
Lemma set_key_lane w k l :
  0 <= w < 2 ^ 64 -> 0 <= k < 256 -> 0 <= l < 8 ->
  let w' := Z.lor (Z.land w (not64 (Z.shiftl 0xFF (l * 8)))) (wrap64 (Z.shiftl k (l * 8))) in
  0 <= w' < 2 ^ 64 /\ byte_of l w' = k /\
  forall l', 0 <= l' < 8 -> l' <> l -> byte_of l' w' = byte_of l' w.
Proof.
  intros Hw Hk Hl w'.
  assert (Hbit : forall n, 0 <= n < 64 ->
            Z.testbit w' n
            = if (l * 8 <=? n) && (n <? l * 8 + 8) then Z.testbit k (n - l * 8)
              else Z.testbit w n).
  { intros n Hn. subst w'. rewrite Z.lor_spec, Z.land_spec.
    unfold wrap64. rewrite Z.mod_pow2_bits_low by lia.
    rewrite not64_spec by lia. rewrite !Z.shiftl_spec by lia. rewrite testbit_255.
    destruct (Z.leb_spec (l * 8) n); destruct (Z.ltb_spec n (l * 8 + 8)); cbn [andb].
    - replace (0 <=? n - l * 8) with true by (symmetry; apply Z.leb_le; lia).
      replace (n - l * 8 <? 8) with true by (symmetry; apply Z.ltb_lt; lia).
      cbn. now rewrite andb_false_r.
    - replace (n - l * 8 <? 8) with false by (symmetry; apply Z.ltb_ge; lia).
      rewrite andb_false_r. cbn [negb]. rewrite andb_true_r.
      rewrite (testbit_byte k) by lia. apply orb_false_r.
    - rewrite (Z.testbit_neg_r k) by lia.
      replace (0 <=? n - l * 8) with false by (symmetry; apply Z.leb_gt; lia).
      cbn. now rewrite andb_true_r, orb_false_r.
    - lia. }
  split; [|split].
  - subst w'. apply lor_u64; [apply land_u64_r | apply wrap64_range].
    unfold not64. apply wrap64_range.
  - apply byte_eq; [apply byte_of_range | exact Hk|].
    intros b Hb. rewrite byte_of_testbit by lia. rewrite Hbit by lia.
    replace (l * 8 <=? 8 * l + b) with true by (symmetry; apply Z.leb_le; lia).
    replace (8 * l + b <? l * 8 + 8) with true by (symmetry; apply Z.ltb_lt; lia).
    replace (b <? 8) with true by (symmetry; apply Z.ltb_lt; lia).
    cbn [andb]. rewrite andb_true_r. f_equal. lia.
  - intros l' Hl' Hne. apply byte_eq; try apply byte_of_range.
    intros b Hb. rewrite !byte_of_testbit by lia. rewrite Hbit by lia.
    replace ((l * 8 <=? 8 * l' + b) && (8 * l' + b <? l * 8 + 8)) with false; [reflexivity|].
    symmetry. apply andb_false_iff.
    destruct (Z_lt_ge_dec l' l); [left; apply Z.leb_gt; lia | right; apply Z.ltb_ge; lia].
Qed.

Section Keys.
Context {cfg : Config} {col : Mem.Collab}.
Hypothesis cfg_ok : ConfigOk cfg.

Lemma SetTlbEntry_entry_at m i e j :
  0 <= i -> (Z.to_nat i < length (tlb_entry (Mem.tlb m)))%nat -> 0 <= j ->
  Mem.entry_at (Mem.SetTlbEntry m i e) j = if j =? i then e else Mem.entry_at m j.
Proof.
  intros Hi Hlen Hj. unfold Mem.entry_at, Mem.SetTlbEntry.
  cbn [Mem.tlb Mem.set_tlb tlb_entry].
  destruct (Z.eqb_spec j i) as [-> | Hne].
  - now apply nth_upd_eq.
  - apply nth_upd_neq. lia.
Qed.

Lemma SetTlbEntry_key_byte m i e j :
  KeysOk m -> 0 <= i < kTlbEntries -> 0 <= j ->
  Mem.key_byte (Mem.SetTlbEntry m i e) j
  = if j =? i then Mem.GetTlbKey (page e) else Mem.key_byte m j.
Proof.
  intros (Hle & Hlk & Hrange & _) Hi Hj.
  destruct (tlb_size _ cfg_ok) as [Hpos Hmod].
  unfold Mem.key_byte, Mem.SetTlbEntry. cbn [Mem.tlb Mem.set_tlb tlb_key].
  set (w := nth (Z.to_nat (i / 8)) (tlb_key (Mem.tlb m)) 0).
  assert (Hidx : (Z.to_nat (i / 8) < length (tlb_key (Mem.tlb m)))%nat).
  { rewrite Hlk. apply Z2Nat.inj_lt; [apply Z.div_pos; lia | apply Z.div_pos; lia|].
    Z.div_mod_to_equations. lia. }
  assert (Hw : 0 <= w < 2 ^ 64) by (apply Hrange; subst w; now apply nth_In).
  pose proof (Z.mod_pos_bound i 8 ltac:(lia)) as Hl.
  destruct (set_key_lane w (Mem.GetTlbKey (page e)) (i mod 8) Hw (GetTlbKey_range _) Hl)
    as (_ & Hsame & Hother).
  cbv zeta in Hsame, Hother.
  destruct (Z.eq_dec (j / 8) (i / 8)) as [Hg | Hg].
  - rewrite Hg, nth_upd_eq by exact Hidx.
    destruct (Z.eqb_spec j i) as [-> | Hne]; [exact Hsame|].
    rewrite Hother; [reflexivity | apply Z.mod_pos_bound; lia|].
    intros Hm. apply Hne. rewrite (Z.div_mod j 8), (Z.div_mod i 8) by lia. congruence.
  - rewrite nth_upd_neq.
    + destruct (Z.eqb_spec j i) as [-> | Hne]; [congruence | reflexivity].
    + intros Heq. apply Hg. apply Z2Nat.inj in Heq; [congruence | |];
        apply Z.div_pos; lia.
Qed.

Lemma SetTlbEntry_KeysOk m i e :
  KeysOk m -> 0 <= i < kTlbEntries -> KeysOk (Mem.SetTlbEntry m i e).
Proof.
  intros Hok Hi. pose proof Hok as (Hle & Hlk & Hrange & Hkeys).
  destruct (tlb_size _ cfg_ok) as [Hpos Hmod].
  assert (Hilen : (Z.to_nat i < length (tlb_entry (Mem.tlb m)))%nat) by (rewrite Hle; lia).
  split; [|split; [|split]].
  - cbn. now rewrite length_upd.
  - cbn. now rewrite length_upd.
  - intros w Hin. cbn in Hin. apply In_upd in Hin. destruct Hin as [-> | Hin]; [|auto].
    pose proof (Z.mod_pos_bound i 8 ltac:(lia)) as Hl.
    apply set_key_lane; [|apply GetTlbKey_range | exact Hl].
    destruct (nth_in_or_default (Z.to_nat (i / 8)) (tlb_key (Mem.tlb m)) 0) as [Hn | ->];
      [auto | lia].
  - intros j Hj. rewrite SetTlbEntry_key_byte, SetTlbEntry_entry_at by (assumption || lia).
    destruct (j =? i); [reflexivity | now apply Hkeys].
Qed.

Lemma KeysOk_reset m : KeysOk (Mem.ResetTlb m).
Proof.
  destruct (tlb_size _ cfg_ok) as [Hpos Hmod].
  unfold KeysOk, Mem.ResetTlb, ResetTlb_tlb. cbn [Mem.tlb Mem.set_tlb tlb_entry tlb_key].
  rewrite !repeat_length. split; [reflexivity|]. split; [reflexivity|]. split.
  - intros w Hin. apply repeat_spec in Hin. subst w. lia.
  - intros j Hj. unfold Mem.key_byte, Mem.entry_at. cbn [Mem.tlb Mem.set_tlb tlb_entry tlb_key].
    rewrite !nth_repeat. unfold byte_of. rewrite Z.shiftr_0_l. reflexivity.
Qed.

Lemma tlb_hit_KeysOk m j x m' :
  KeysOk m -> 0 < j < kTlbEntries -> Mem.tlb_hit m j = Ret (x, m') ->
  KeysOk m' /\ Mem.system m' = Mem.system m /\
  Mem.invalidated m' = Mem.invalidated m /\ Mem.mode m' = Mem.mode m /\
  x = entry (Mem.entry_at m j) /\
  Mem.entry_at m' (j - 1) = Mem.entry_at m j /\
  Mem.entry_at m' j = Mem.entry_at m (j - 1) /\
  forall l, 0 <= l -> l <> j -> l <> j - 1 -> Mem.entry_at m' l = Mem.entry_at m l.
Proof.
  intros Hok Hj. unfold Mem.tlb_hit.
  replace (0 <? j) with true by (symmetry; apply Z.ltb_lt; lia).
  cbn [assert bind]. intros [= <- <-].
  pose proof Hok as (Hle & _).
  pose proof (SetTlbEntry_KeysOk m j (Mem.entry_at m (j - 1)) Hok ltac:(lia)) as Hok1.
  pose proof Hok1 as (Hle1 & _).
  split; [apply SetTlbEntry_KeysOk; [exact Hok1 | lia]|].
  repeat split.
  - rewrite SetTlbEntry_entry_at by (rewrite ?Hle1; lia). now rewrite Z.eqb_refl.
  - rewrite !SetTlbEntry_entry_at by (rewrite ?Hle1, ?Hle; lia).
    replace (j =? j - 1) with false by (symmetry; apply Z.eqb_neq; lia).
    now rewrite Z.eqb_refl.
  - intros l Hl Hne1 Hne2. rewrite !SetTlbEntry_entry_at by (rewrite ?Hle1, ?Hle; lia).
    replace (l =? j - 1) with false by (symmetry; apply Z.eqb_neq; lia).
    replace (l =? j) with false by (symmetry; apply Z.eqb_neq; lia). reflexivity.
Qed.

End Keys.
(** ** The TLB probe finds what is cached *)

Lemma broadcast_byte k l :
  0 <= k < 256 -> 0 <= l < 8 -> byte_of l (wrap64 (k * 0x0101010101010101)) = k.
Proof.
  intros Hk Hl. rewrite wrap64_small by lia. rewrite byte_of_div by lia.
  destruct (lane_cases l Hl) as [-> | [-> | [-> | [-> | [-> | [-> | [-> | ->]]]]]]];
    match goal with |- (_ / ?p) mod _ = _ => let v := eval vm_compute in p in change p with v end;
    Z.div_mod_to_equations; lia.
Qed.

Lemma mask_fold_bit (c : Z -> bool) (l : list Z) b :
  0 <= b -> Forall (fun j => 0 <= j) l ->
  Z.testbit (fold_right (fun j acc => if c j then Z.lor (Z.shiftl 1 j) acc else acc) 0 l) b
  = existsb (fun j => (j =? b) && c j) l.
Proof.
  intros Hb Hl. induction Hl as [|j l Hj _ IH]; cbn [fold_right existsb]; [apply Z.bits_0|].
  destruct (c j); rewrite ?andb_false_r; cbn [orb]; [|exact IH].
  rewrite Z.lor_spec, IH, Z.shiftl_spec by lia. rewrite andb_true_r. f_equal.
  destruct (Z.eqb_spec j b) as [-> | Hne].
  - now rewrite Z.sub_diag.
  - destruct (Z_lt_ge_dec b j); [now rewrite Z.testbit_neg_r by lia|].
    apply Z.bits_above_log2; cbn; lia.
Qed.

Section Probe.
Context {cfg : Config} {col : Mem.Collab}.
Hypothesis cfg_ok : ConfigOk cfg.

Lemma movemask_bit m k b :
  0 <= b -> Z.testbit (Mem.movemask m k) b = (b <? 16) && (Mem.key_byte m b =? k).
Proof.
  intros Hb. unfold Mem.movemask. rewrite mask_fold_bit; [|exact Hb|].
  2:{ apply Forall_forall. intros j Hin. apply in_map_iff in Hin.
      destruct Hin as (n & <- & _). lia. }
  destruct (Z.ltb_spec b 16) as [Hlt | Hge]; cbn [andb].
  - destruct (Mem.key_byte m b =? k) eqn:Hc.
    + apply existsb_exists. exists b. split; [|now rewrite Z.eqb_refl, Hc].
      apply in_map_iff. exists (Z.to_nat b). split; [lia|]. apply in_seq. lia.
    + apply not_true_is_false. intros Hex. apply existsb_exists in Hex.
      destruct Hex as (j & _ & Hj). apply andb_true_iff in Hj. destruct Hj as [Hjb Hcj].
      apply Z.eqb_eq in Hjb. subst j. congruence.
  - apply not_true_is_false. intros Hex. apply existsb_exists in Hex.
    destruct Hex as (j & Hin & Hj). apply andb_true_iff in Hj. destruct Hj as [Hjb _].
    apply Z.eqb_eq in Hjb. subst j. apply in_map_iff in Hin.
    destruct Hin as (n & Hn & Hseq). apply in_seq in Hseq. lia.
Qed.

(** The vector scan: a hit at a candidate slot that holds the page, or a
    miss when no candidate holds it. *)
Lemma scan_mask_shape m pg fuel : forall i,
  0 <= i < 2 ^ Z.of_nat fuel ->
  (exists j, Z.testbit i j = true /\ page (Mem.entry_at m j) = pg /\
             Mem.scan_mask (S fuel) m pg i = Mem.tlb_hit m j) \/
  (Mem.scan_mask (S fuel) m pg i = Ret (0, m) /\
   forall j, Z.testbit i j = true -> page (Mem.entry_at m j) <> pg).
Proof.
  induction fuel as [|fuel IH]; intros i Hi.
  - assert (i = 0) by (cbn in Hi; lia). subst i. right. split; [reflexivity|].
    intros j Hj. rewrite Z.bits_0 in Hj. discriminate.
  - cbn [Mem.scan_mask]. destruct (Z.eqb_spec i 0) as [-> | Hnz].
    + right. split; [reflexivity|]. intros j Hj. rewrite Z.bits_0 in Hj. discriminate.
    + unfold Mem.bsr.
      destruct (Z.eqb_spec (page (Mem.entry_at m (Z.log2 i))) pg) as [Hpg | Hpg].
      * left. exists (Z.log2 i). split; [apply Z.bit_log2; lia|]. auto.
      * pose proof (clear_top_bit i ltac:(lia)) as Hc.
        assert (Hlog : Z.log2 i < Z.of_nat (S fuel)) by (apply Z.log2_lt_pow2; lia).
        pose proof (Z.log2_nonneg i) as Hl0.
        assert (Hbits : forall j, Z.testbit (Z.land i (Z.lnot (Z.shiftl 1 (Z.log2 i)))) j
                                  = Z.testbit i j && negb (j =? Z.log2 i)).
        { intros j. destruct (Z_lt_ge_dec j 0); [now rewrite !Z.testbit_neg_r by lia|].
          rewrite Z.land_spec, Z.lnot_spec, Z.shiftl_spec by lia. f_equal. f_equal.
          destruct (Z.eqb_spec j (Z.log2 i)) as [-> | Hne]; [now rewrite Z.sub_diag|].
          destruct (Z_lt_ge_dec j (Z.log2 i)); [now rewrite Z.testbit_neg_r by lia|].
          apply Z.bits_above_log2; cbn; lia. }
        destruct (IH (Z.land i (Z.lnot (Z.shiftl 1 (Z.log2 i)))))
          as [(j & Hj & Hpj & Hrun) | (Hrun & Hnone)].
        { split; [lia|]. eapply Z.lt_le_trans; [apply Hc|]. apply Z.pow_le_mono_r; lia. }
        -- left. exists j. rewrite Hbits in Hj. apply andb_true_iff in Hj.
           destruct Hj as [Hj _]. auto.
        -- right. split; [exact Hrun|]. intros j Hj.
           destruct (Z.eqb_spec j (Z.log2 i)) as [-> | Hne]; [exact Hpg|].
           apply Hnone. rewrite Hbits, Hj.
           destruct (Z.eqb_spec j (Z.log2 i)); [contradiction | reflexivity].
Qed.

(** The portable scan of one key group: a hit at a slot of a non-zero
    lane that holds the page, or no hit when no such slot holds it. *)
Lemma scan_lanes_shape m pg g fuel : forall key,
  0 <= key < 2 ^ (8 * Z.of_nat fuel) -> (fuel <= 8)%nat ->
  (exists l, 0 <= l < 8 /\ byte_of l key <> 0 /\
             page (Mem.entry_at m (g * 8 + l)) = pg /\
             Mem.scan_lanes (S fuel) m pg g key
             = (r <- Mem.tlb_hit m (g * 8 + l) ;; Ret (Some r))) \/
  (Mem.scan_lanes (S fuel) m pg g key = Ret None /\
   forall l, 0 <= l < 8 -> byte_of l key <> 0 ->
             page (Mem.entry_at m (g * 8 + l)) <> pg).
Proof.
  induction fuel as [|fuel IH]; intros key Hkey Hfuel.
  - assert (key = 0) by (cbn in Hkey; lia). subst key. right. split; [reflexivity|].
    intros l _ Hl. exfalso. apply Hl. unfold byte_of. now rewrite Z.shiftr_0_l.
  - cbn [Mem.scan_lanes]. destruct (Z.eqb_spec key 0) as [-> | Hnz].
    + right. split; [reflexivity|].
      intros l _ Hl. exfalso. apply Hl. unfold byte_of. now rewrite Z.shiftr_0_l.
    + assert (Hk64 : 0 < key < 2 ^ 64).
      { split; [lia|]. eapply Z.lt_le_trans; [apply Hkey|].
        apply Z.pow_le_mono_r; lia. }
      pose proof (clear_top_lane key Hk64) as Hc. cbv zeta in Hc.
      pose proof (Z.log2_nonneg key) as Hl0.
      assert (Hlog : Z.log2 key < 8 * Z.of_nat (S fuel)) by (apply Z.log2_lt_pow2; lia).
      assert (Hj : 0 <= Z.shiftr (Z.log2 key) 3 < Z.of_nat (S fuel) /\
                   8 * Z.shiftr (Z.log2 key) 3 <= Z.log2 key < 8 * Z.shiftr (Z.log2 key) 3 + 8).
      { rewrite Z.shiftr_div_pow2 by lia. change (2 ^ 3) with 8.
        Z.div_mod_to_equations. lia. }
      unfold Mem.bsr. set (j0 := Z.shiftr (Z.log2 key) 3) in *.
      assert (Htop : byte_of j0 key <> 0).
      { intros Hz.
        assert (Hb : Z.testbit (byte_of j0 key) (Z.log2 key - 8 * j0) = true).
        { rewrite byte_of_testbit by lia.
          replace (8 * j0 + (Z.log2 key - 8 * j0)) with (Z.log2 key) by lia.
          rewrite Z.bit_log2 by lia.
          apply Z.ltb_lt. lia. }
        rewrite Hz, Z.bits_0 in Hb. discriminate. }
      destruct (Z.eqb_spec (page (Mem.entry_at m (g * 8 + j0))) pg) as [Hpg | Hpg].
      * left. exists j0. split; [lia|]. auto.
      * assert (Hcleared : forall l, 0 <= l < 8 ->
                  byte_of l (Z.land key (not64 (Z.shiftl 0xFF (j0 * 8))))
                  = if l =? j0 then 0 else byte_of l key).
        { intros l Hl. apply byte_eq; try apply byte_of_range.
          { destruct (l =? j0); [lia | apply byte_of_range]. }
          intros b Hb. rewrite byte_of_testbit by lia.
          rewrite Z.land_spec, not64_spec, Z.shiftl_spec, testbit_255 by lia.
          replace (b <? 8) with true by (symmetry; apply Z.ltb_lt; lia).
          rewrite andb_true_r.
          destruct (Z.eqb_spec l j0) as [-> | Hne].
          - replace (0 <=? 8 * j0 + b - j0 * 8) with true by (symmetry; apply Z.leb_le; lia).
            replace (8 * j0 + b - j0 * 8 <? 8) with true by (symmetry; apply Z.ltb_lt; lia).
            cbn. rewrite andb_false_r. symmetry. apply Z.bits_0.
          - rewrite byte_of_testbit by lia.
            replace (b <? 8) with true by (symmetry; apply Z.ltb_lt; lia).
            rewrite andb_true_r.
            replace ((0 <=? 8 * l + b - j0 * 8) && (8 * l + b - j0 * 8 <? 8)) with false;
              [cbn; apply andb_true_r|].
            symmetry. apply andb_false_iff.
            destruct (Z_lt_ge_dec l j0);
              [left; apply Z.leb_gt; lia | right; apply Z.ltb_ge; lia]. }
        destruct (IH (Z.land key (not64 (Z.shiftl 0xFF (j0 * 8)))))
          as [(l & Hl & Hnzl & Hpl & Hrun) | (Hrun & Hnone)].
        { split; [lia|]. eapply Z.lt_le_trans; [apply Hc|]. apply Z.pow_le_mono_r; lia. }
        { lia. }
        -- left. exists l. split; [exact Hl|]. split; [|auto].
           rewrite Hcleared in Hnzl by exact Hl. destruct (l =? j0); congruence.
        -- right. split; [exact Hrun|]. intros l Hl Hnzl.
           destruct (Z.eqb_spec l j0) as [-> | Hne]; [exact Hpg|].
           apply Hnone; [exact Hl|]. rewrite Hcleared by exact Hl.
           destruct (Z.eqb_spec l j0); [contradiction | exact Hnzl].
Qed.

Lemma lane_flag_nonzero l key : 0 <= l -> lane_flag l key = true -> byte_of l key <> 0.
Proof.
  intros Hl Hflag Hz. unfold lane_flag in Hflag.
  assert (Hb : Z.testbit (byte_of l key) 7 = true).
  { rewrite byte_of_testbit by lia. rewrite Hflag. reflexivity. }
  rewrite Hz, Z.bits_0 in Hb. discriminate.
Qed.

(** The portable scan of the groups from [g] on. *)
Lemma scan_groups_shape m pg groups : forall g,
  0 <= g -> KeysOk m -> (g + Z.of_nat groups) * 8 <= kTlbEntries ->
  (exists j, g * 8 <= j < (g + Z.of_nat groups) * 8 /\ page (Mem.entry_at m j) = pg /\
             Mem.scan_groups groups m pg g = Mem.tlb_hit m j) \/
  (Mem.scan_groups groups m pg g = Ret (0, m) /\
   forall j, g * 8 <= j < (g + Z.of_nat groups) * 8 -> page (Mem.entry_at m j) <> pg).
Proof.
  induction groups as [|groups IH]; intros g Hg Hok Hsize.
  - right. split; [reflexivity|]. intros j Hj. lia.
  - cbn [Mem.scan_groups].
    set (word := nth (Z.to_nat g) (tlb_key (Mem.tlb m)) 0).
    set (key := CompareEq word (wrap64 (Mem.GetTlbKey pg * 0x0101010101010101))).
    destruct (scan_lanes_shape m pg g 8 key (CompareEq_range _ _) (le_n 8))
      as [(l & Hl & _ & Hpl & Hrun) | (Hrun & Hnone)].
    + left. exists (g * 8 + l). split; [lia|]. split; [exact Hpl|].
      rewrite Hrun. destruct (Mem.tlb_hit m (g * 8 + l)) as [[x m']|f]; reflexivity.
    + rewrite Hrun. cbn [bind].
      assert (Hgroup : forall j, g * 8 <= j < g * 8 + 8 -> page (Mem.entry_at m j) <> pg).
      { intros j Hj Hpj.
        destruct Hok as (_ & Hlk & Hrange & Hkeys).
        assert (Hjg : j / 8 = g /\ 0 <= j mod 8 < 8 /\ j = g * 8 + j mod 8)
          by (Z.div_mod_to_equations; lia).
        destruct Hjg as (Hjg & Hjl & Hjeq).
        apply (Hnone (j mod 8) Hjl); [|now rewrite <- Hjeq].
        apply lane_flag_nonzero; [lia|].
        assert (Hw : 0 <= word < 2 ^ 64).
        { subst word.
          destruct (nth_in_or_default (Z.to_nat g) (tlb_key (Mem.tlb m)) 0) as [Hn | ->];
            [auto | lia]. }
        apply lane_flag_equal; [exact Hw | apply wrap64_range | exact Hjl|].
        rewrite broadcast_byte by (apply GetTlbKey_range || exact Hjl).
        specialize (Hkeys j ltac:(lia)). unfold Mem.key_byte in Hkeys.
        rewrite Hjg in Hkeys. fold word in Hkeys. rewrite Hkeys, Hpj. reflexivity. }
      destruct (IH (g + 1) ltac:(lia) Hok ltac:(lia)) as [(j & Hj & Hpj & Hrun') | (Hrun' & Hnone')].
      * left. exists j. split; [lia|]. auto.
      * right. split; [exact Hrun'|]. intros j Hj.
        destruct (Z_lt_ge_dec j (g * 8 + 8)); [apply Hgroup; lia | apply Hnone'; lia].
Qed.

(** The three ways a probe can end. *)
Lemma GetTlbEntry_shape m pg :
  KeysOk m -> (x86_64_gnuc = true -> kTlbEntries = 16) ->
  (page (Mem.entry_at m 0) = pg /\
   Mem.GetTlbEntry m pg = Ret (entry (Mem.entry_at m 0), m)) \/
  (exists j, 0 < j < kTlbEntries /\ page (Mem.entry_at m j) = pg /\
             Mem.GetTlbEntry m pg = Mem.tlb_hit m j) \/
  (Mem.GetTlbEntry m pg = Ret (0, m) /\
   forall j, 0 <= j < kTlbEntries -> page (Mem.entry_at m j) <> pg).
Proof.
  intros Hok Hsimd. destruct (tlb_size _ cfg_ok) as [Hpos Hmod].
  unfold Mem.GetTlbEntry.
  destruct (Z.eqb_spec (page (Mem.entry_at m 0)) pg) as [Hpg | Hpg]; [left; auto|].
  right. destruct x86_64_gnuc.
  - specialize (Hsimd eq_refl).
    assert (Hk : Z.land (Mem.GetTlbKey pg) 0xff = Mem.GetTlbKey pg).
    { pose proof (GetTlbKey_range pg). change 0xff with (Z.ones 8).
      rewrite Z.land_ones by lia. apply Z.mod_small. lia. }
    rewrite Hk.
    destruct (scan_mask_shape m pg 16 (Mem.movemask m (Mem.GetTlbKey pg))
                (movemask_range m _)) as [(j & Hj & Hpj & Hrun) | (Hrun & Hnone)].
    + left. exists j.
      assert (Hj0 : 0 <= j) by (destruct (Z_lt_ge_dec j 0);
                                [rewrite Z.testbit_neg_r in Hj by lia; discriminate | lia]).
      rewrite movemask_bit in Hj by lia. apply andb_true_iff in Hj.
      destruct Hj as [Hlt _]. apply Z.ltb_lt in Hlt.
      split; [|auto]. split; [|lia].
      destruct (Z.eq_dec j 0) as [-> | ?]; [contradiction | lia].
    + right. split; [exact Hrun|]. intros j Hj Hpj. apply (Hnone j); [|exact Hpj].
      rewrite movemask_bit by lia.
      replace (j <? 16) with true by (symmetry; apply Z.ltb_lt; lia). cbn [andb].
      destruct Hok as (_ & _ & _ & Hkeys).
      rewrite Hkeys by lia. rewrite Hpj. apply Z.eqb_refl.
  - destruct (scan_groups_shape m pg (Z.to_nat (kTlbEntries / 8)) 0 ltac:(lia) Hok)
      as [(j & Hj & Hpj & Hrun) | (Hrun & Hnone)].
    { rewrite Z2Nat.id by (apply Z.div_pos; lia). Z.div_mod_to_equations. lia. }
    + left. exists j. rewrite Z2Nat.id in Hj by (apply Z.div_pos; lia).
      split; [|auto]. split.
      * destruct (Z.eq_dec j 0) as [-> | ?]; [contradiction | lia].
      * Z.div_mod_to_equations. lia.
    + right. split; [exact Hrun|]. intros j Hj. apply Hnone.
      rewrite Z2Nat.id by (apply Z.div_pos; lia). Z.div_mod_to_equations. lia.
Qed.

Lemma GetTlbEntry_total m pg :
  KeysOk m -> (x86_64_gnuc = true -> kTlbEntries = 16) ->
  exists x m',
    Mem.GetTlbEntry m pg = Ret (x, m') /\ KeysOk m' /\
    Mem.system m' = Mem.system m /\ Mem.mode m' = Mem.mode m /\
    Mem.invalidated m' = Mem.invalidated m /\
    ((x = 0 /\ m' = m /\
      forall j, 0 <= j < kTlbEntries -> page (Mem.entry_at m j) <> pg) \/
     (exists j, 0 <= j < kTlbEntries /\ page (Mem.entry_at m j) = pg /\
                x = entry (Mem.entry_at m j) /\
                Mem.entry_at m' (Z.max 0 (j - 1)) = Mem.entry_at m j /\
                (0 < j -> Mem.entry_at m' j = Mem.entry_at m (j - 1)) /\
                forall l, 0 <= l -> l <> j -> l <> j - 1 ->
                          Mem.entry_at m' l = Mem.entry_at m l)).
Proof.
  intros Hok Hsimd. destruct (tlb_size _ cfg_ok) as [Hpos Hmod].
  destruct (GetTlbEntry_shape m pg Hok Hsimd)
    as [(Hpg & Hrun) | [(j & Hj & Hpj & Hrun) | (Hrun & Hnone)]]; rewrite Hrun.
  - eexists _, m. split; [reflexivity|]. split; [exact Hok|].
    split; [reflexivity|]. split; [reflexivity|]. split; [reflexivity|].
    right. exists 0. rewrite Z.max_l by lia.
    repeat split; try lia; try assumption; try reflexivity.
  - destruct (tlb_hit_spec m j ltac:(lia)) as (m' & Hhit & _).
    destruct (tlb_hit_KeysOk cfg_ok m j _ m' Hok Hj Hhit)
      as (Hok' & Hs & Hi & Hm & _ & Hprom & Hdem & Hrest).
    eexists _, m'. split; [exact Hhit|]. split; [exact Hok'|].
    split; [exact Hs|]. split; [exact Hm|]. split; [exact Hi|].
    right. exists j. rewrite Z.max_r by lia.
    repeat split; try lia; try assumption; try reflexivity; auto.
  - exists 0, m. split; [reflexivity|]. split; [exact Hok|].
    split; [reflexivity|]. split; [reflexivity|]. split; [reflexivity|]. left. auto.
Qed.

(** X18.  With a key array that describes the entries, a probe of the TLB
    always returns, leaves the system alone and keeps the key array right.
    It misses only when no slot holds the page: otherwise it answers the
    entry of a slot that holds the page and, unless that is slot 0, has
    swapped it with the slot before, leaving every other slot as it was.
    This holds for the vector scan of a 16-entry TLB and for the portable
    scan of any size. *)
Theorem GetTlbEntry_complete (m : Mem.Machine) (pg : Z) :
  KeysOk m -> (x86_64_gnuc = true -> kTlbEntries = 16) ->
  exists x m',
    Mem.GetTlbEntry m pg = Ret (x, m') /\ KeysOk m' /\
    Mem.system m' = Mem.system m /\ Mem.mode m' = Mem.mode m /\
    Mem.invalidated m' = Mem.invalidated m /\
    ((x = 0 /\ m' = m /\
      forall j, 0 <= j < kTlbEntries -> page (Mem.entry_at m j) <> pg) \/
     (exists j, 0 <= j < kTlbEntries /\ page (Mem.entry_at m j) = pg /\
                x = entry (Mem.entry_at m j) /\
                Mem.entry_at m' (Z.max 0 (j - 1)) = Mem.entry_at m j /\
                (0 < j -> Mem.entry_at m' j = Mem.entry_at m (j - 1)) /\
                forall l, 0 <= l -> l <> j -> l <> j - 1 ->
                          Mem.entry_at m' l = Mem.entry_at m l)).
Proof. apply GetTlbEntry_total. Qed.

(** A miss that answers 0 has not written the TLB. *)
Lemma miss_zero_tlb m pg m' :
  Mem.FindPageTableEntry_miss m pg = Ret (0, m') -> Mem.tlb m' = Mem.tlb m.
Proof.
  unfold Mem.FindPageTableEntry_miss.
  destruct (negb (Mem.canonical pg)); [now intros [= <-]|].
  destruct (Mem.walk (Mem.system m) pg) as [[[[t i] e]|]|] eqn:Hwalk; cbn [bind];
    [| now intros [= <-] | discriminate].
  destruct (walk_leaf _ _ _ _ _ Hwalk) as (_ & _ & _ & _ & HV).
  destruct (negb (Z.land e PAGE_RSRV =? 0)).
  - destruct (Mem.HandlePageFault m e t i) as [[x' m1]|] eqn:Hf; cbn [bind];
      [|discriminate].
    apply HandlePageFault_tlb in Hf. destruct Hf as (Ht & _).
    destruct (Z.eqb_spec x' 0) as [-> | Hnz]; intros E; inversion E; subst;
      [exact Ht | congruence].
  - intros E. inversion E; subst. rewrite Z.land_0_l in HV. congruence.
Qed.

Lemma KeysOk_tlb m m' : Mem.tlb m' = Mem.tlb m -> KeysOk m -> KeysOk m'.
Proof.
  intros Ht. unfold KeysOk, Mem.key_byte, Mem.entry_at. now rewrite Ht.
Qed.

Lemma TlbTidy_tlb m m' : Mem.tlb m' = Mem.tlb m -> TlbTidy m -> TlbTidy m'.
Proof. intros Ht. unfold TlbTidy. now rewrite Ht. Qed.

(** A miss keeps the key array right and the TLB tidy, and a non-zero
    answer is cached at the last slot. *)
Lemma miss_keys m pg x m' :
  KeysOk m -> TlbTidy m ->
  Mem.FindPageTableEntry_miss m pg = Ret (x, m') ->
  KeysOk m' /\ TlbTidy m' /\
  (x <> 0 -> Mem.entry_at m' (kTlbEntries - 1) = {| page := pg; entry := x |}).
Proof.
  intros Hok Htidy Hmiss. destruct (tlb_size _ cfg_ok) as [Hpos Hmod].
  destruct (Z.eq_dec x 0) as [-> | Hnz].
  { pose proof (miss_zero_tlb _ _ _ Hmiss) as Ht.
    split; [now apply (KeysOk_tlb m) | split; [now apply (TlbTidy_tlb m) | congruence]]. }
  revert Hmiss. unfold Mem.FindPageTableEntry_miss.
  destruct (negb (Mem.canonical pg)); [intros [= <- <-]; congruence|].
  destruct (Mem.walk (Mem.system m) pg) as [[[[t i] e]|]|]; cbn [bind];
    [| intros [= <- <-]; congruence | discriminate].
  assert (Hins : forall m1, Mem.tlb m1 = Mem.tlb m ->
            let m2 := Mem.SetTlbEntry m1 (kTlbEntries - 1) {| page := pg; entry := x |} in
            KeysOk m2 /\ TlbTidy m2 /\
            (x <> 0 -> Mem.entry_at m2 (kTlbEntries - 1) = {| page := pg; entry := x |})).
  { intros m1 Ht m2.
    pose proof (KeysOk_tlb m m1 Ht Hok) as Hok1. pose proof Hok1 as (Hle & _).
    split; [apply SetTlbEntry_KeysOk; [exact cfg_ok | exact Hok1 | lia]|]. split.
    - intros e' Hin Hz. apply In_SetTlbEntry in Hin. destruct Hin as [-> | Hin].
      + cbn in Hz. congruence.
      + rewrite Ht in Hin. now apply Htidy.
    - intros _. subst m2. rewrite SetTlbEntry_entry_at by (rewrite ?Hle; lia).
      now rewrite Z.eqb_refl. }
  destruct (negb (Z.land e PAGE_RSRV =? 0)).
  - destruct (Mem.HandlePageFault m e t i) as [[x' m1]|] eqn:Hf; cbn [bind];
      [|discriminate].
    apply HandlePageFault_tlb in Hf. destruct Hf as (Ht & _).
    destruct (Z.eqb_spec x' 0) as [-> | Hxnz]; intros [= <- <-]; [congruence|].
    now apply Hins.
  - intros [= <- <-]. now apply Hins.
Qed.

Lemma TlbTidy_from m m' : tlb_from m m' -> TlbTidy m -> TlbTidy m'.
Proof.
  intros (_ & _ & _ & Hin) Htidy e He Hz.
  destruct (Hin e He) as [Hold | ->]; [now apply Htidy | reflexivity].
Qed.

Lemma TlbTidy_reset m : TlbTidy (Mem.ResetTlb m).
Proof. intros e Hin _. now apply In_reset_tlb in Hin. Qed.

Lemma translate_keys m pg x m' :
  (x86_64_gnuc = true -> kTlbEntries = 16) ->
  KeysOk m -> TlbTidy m ->
  Mem.FindPageTableEntry m pg = Ret (x, m') ->
  KeysOk m' /\ TlbTidy m' /\
  (x <> 0 -> exists j, 0 <= j < kTlbEntries /\
                       Mem.entry_at m' j = {| page := pg; entry := x |}).
Proof.
  intros Hsimd Hok Htidy Hfind. destruct (tlb_size _ cfg_ok) as [Hpos Hmod].
  assert (Hmiss : forall m0, KeysOk m0 -> TlbTidy m0 ->
            Mem.FindPageTableEntry_miss m0 pg = Ret (x, m') ->
            KeysOk m' /\ TlbTidy m' /\
            (x <> 0 -> exists j, 0 <= j < kTlbEntries /\
                                 Mem.entry_at m' j = {| page := pg; entry := x |})).
  { intros m0 Hok0 Htidy0 E. destruct (miss_keys m0 pg x m' Hok0 Htidy0 E) as (? & ? & Hc).
    split; [assumption|]. split; [assumption|].
    intros Hnz. exists (kTlbEntries - 1). split; [lia | auto]. }
  unfold Mem.FindPageTableEntry in Hfind.
  destruct (Mem.invalidated m); cbn [negb bind] in Hfind.
  - cbn [Z.eqb negb] in Hfind. apply Hmiss in Hfind; [exact Hfind | |].
    + apply (KeysOk_tlb (Mem.ResetTlb m)); [reflexivity | now apply KeysOk_reset].
    + apply (TlbTidy_tlb (Mem.ResetTlb m)); [reflexivity | apply TlbTidy_reset].
  - destruct (GetTlbEntry_total m pg Hok Hsimd)
      as (y & m1 & Hget & Hok1 & Hs1 & Hm1 & Hi1 & Hcase).
    destruct (GetTlbEntry_spec m pg) as (y' & m1' & Hget' & Hfrom & _).
    rewrite Hget in Hget'. inversion Hget'; subst y' m1'. clear Hget'.
    pose proof (TlbTidy_from _ _ Hfrom Htidy) as Htidy1.
    rewrite Hget in Hfind. cbn [bind] in Hfind.
    destruct (Z.eqb_spec y 0) as [-> | Hynz]; cbn [negb] in Hfind.
    + now apply (Hmiss m1).
    + inversion Hfind; subst y m1. split; [assumption|]. split; [assumption|].
      intros _. destruct Hcase as [(Hz & _) | (j & Hj & Hpj & Hx & Hprom & _)]; [congruence|].
      exists (Z.max 0 (j - 1)). split; [lia|]. rewrite Hprom.
      destruct (Mem.entry_at m j) as [p e]. cbn in *. congruence.
Qed.

(** X19.  Every machine the walker can meet keeps the TLB's two arrays in
    step: the key array has the tag of every slot's page, both arrays have
    their declared sizes, and a slot without a translation is the null
    entry.  The invariant is set up by [ResetTlb] and kept by
    [FindPageTableEntry] (probe, promotion, insertion). *)
Theorem reachable_keys (m : Mem.Machine) :
  (x86_64_gnuc = true -> kTlbEntries = 16) ->
  Mem.reachable m -> KeysOk m /\ TlbTidy m.
Proof.
  intros Hsimd Hreach. induction Hreach as [m | m pg x m' _ IH Hfind | m s _ IH | m md _ IH | m b _ IH].
  - split; [now apply KeysOk_reset | apply TlbTidy_reset].
  - destruct IH as [Hok Htidy].
    destruct (translate_keys m pg x m' Hsimd Hok Htidy Hfind) as (? & ? & _). auto.
  - destruct IH. split; [now apply (KeysOk_tlb m) | now apply (TlbTidy_tlb m)].
  - destruct IH. split; [now apply (KeysOk_tlb m) | now apply (TlbTidy_tlb m)].
  - destruct IH. split; [now apply (KeysOk_tlb m) | now apply (TlbTidy_tlb m)].
Qed.

End Probe.

Section Cached.
Context {cfg : Config} {col : Mem.Collab}.
Hypothesis cfg_ok : ConfigOk cfg.
Hypothesis alloc_frame : AllocatorFrame.

(** X20.  The TLB does its work: after [FindPageTableEntry] has answered
    a non-zero entry for a page other than page 0, the next probe of that
    page hits in the TLB and answers the same entry without a walk.  The
    key array and the tidiness of the TLB are kept on the way. *)
Theorem FindPageTableEntry_caches (m : Mem.Machine) (pg : Z) :
  (x86_64_gnuc = true -> kTlbEntries = 16) ->
  KeysOk m -> TlbTidy m -> Coherent m -> Mem.real (Mem.system m) mod 8 = 0 ->
  pg <> 0 ->
  match Mem.FindPageTableEntry m pg with
  | Ret (x, m') =>
      KeysOk m' /\ TlbTidy m' /\
      (x <> 0 ->
       exists m'', Mem.GetTlbEntry m' pg = Ret (x, m'') /\
                   Mem.system m'' = Mem.system m')
  | Abort _ => True
  end.
Proof.
  intros Hsimd Hok Htidy Hco Hreal Hpg.
  pose proof (translated_entry cfg_ok alloc_frame m pg Hco Hreal) as Hent.
  destruct (Mem.FindPageTableEntry m pg) as [[x m']|f] eqn:Hfind; [|exact I].
  destruct (translate_keys cfg_ok m pg x m' Hsimd Hok Htidy Hfind) as (Hok' & Htidy' & Hslot).
  split; [exact Hok'|]. split; [exact Htidy'|]. intros Hnz.
  destruct Hent as (Hco' & Hinv' & _ & Hx).
  destruct (Hx Hnz) as (_ & _ & _ & (t & i & Hw) & _).
  destruct Hco' as [Hbad | Htlb]; [congruence|].
  destruct (Hslot Hnz) as (j & Hj & Hcached).
  destruct (GetTlbEntry_total cfg_ok m' pg Hok' Hsimd)
    as (y & m'' & Hget & _ & Hs & _ & _ & Hcase).
  exists m''. split; [|exact Hs]. rewrite Hget. f_equal. f_equal.
  destruct Hcase as [(_ & _ & Hnone) | (j0 & Hj0 & Hp0 & Hy & _)].
  - exfalso. apply (Hnone j Hj). now rewrite Hcached.
  - subst y.
    destruct (entry_at_In m' j0) as [Hin | Hnull];
      [|rewrite Hnull in Hp0; cbn in Hp0; congruence].
    destruct (Z.eq_dec (entry (Mem.entry_at m' j0)) 0) as [Hz | Hnz0].
    + apply Htidy' in Hz; [|exact Hin]. rewrite Hz in Hp0. cbn in Hp0. congruence.
    + destruct (Htlb _ Hin Hnz0) as (_ & _ & t' & i' & Hw').
      rewrite Hp0, Hw in Hw'. now inversion Hw'.
Qed.

End Cached.

Section ProbeExample.
#[local] Existing Instance blink_config.
#[local] Existing Instance paged_collab.

(** [warm_machine] holds page 0x3000 in slot 15, behind page 0x2000: the
    probe hits there and promotes the entry to slot 14. *)
Lemma GetTlbEntry_complete_witness :
  (exists x m',
     Mem.GetTlbEntry warm_machine 0x3000 = Ret (x, m') /\ KeysOk m' /\
     Mem.system m' = Mem.system warm_machine /\ Mem.mode m' = Mem.mode warm_machine /\
     Mem.invalidated m' = Mem.invalidated warm_machine /\
     ((x = 0 /\ m' = warm_machine /\
       forall j, 0 <= j < kTlbEntries -> page (Mem.entry_at warm_machine j) <> 0x3000) \/
      (exists j, 0 <= j < kTlbEntries /\ page (Mem.entry_at warm_machine j) = 0x3000 /\
                 x = entry (Mem.entry_at warm_machine j) /\
                 Mem.entry_at m' (Z.max 0 (j - 1)) = Mem.entry_at warm_machine j /\
                 (0 < j -> Mem.entry_at m' j = Mem.entry_at warm_machine (j - 1)) /\
                 forall l, 0 <= l -> l <> j -> l <> j - 1 ->
                           Mem.entry_at m' l = Mem.entry_at warm_machine l))) /\
  match Mem.GetTlbEntry warm_machine 0x3000 with
  | Ret (x, m') =>
      x = 0x6001 /\
      Mem.entry_at m' 14 = {| page := 0x3000; entry := 0x6001 |} /\
      Mem.entry_at m' 15 = {| page := 0x2000; entry := 0x5007 |}
  | Abort _ => False
  end.
Proof.
  split.
  - apply (GetTlbEntry_complete blink_config_ok warm_machine 0x3000).
    + apply (SetTlbEntry_KeysOk blink_config_ok); [|vm_compute; split; congruence].
      apply (SetTlbEntry_KeysOk blink_config_ok); [|vm_compute; split; congruence].
      apply (KeysOk_reset blink_config_ok example_machine).
    + reflexivity.
  - vm_compute. split; [reflexivity|]. split; reflexivity.
Defined.

Lemma translated_run m pg :
  match Mem.FindPageTableEntry m pg with Ret _ => True | Abort _ => False end ->
  exists x, Mem.FindPageTableEntry m pg = Ret (x, translated m pg).
Proof.
  unfold translated. destruct (Mem.FindPageTableEntry m pg) as [[x m']|]; [|contradiction].
  intros _. now exists x.
Qed.

(** [walked_machine] is met after a miss that inserts page 0x2000, a hit
    that promotes it and a miss that commits and inserts page 0x3000. *)
Lemma walked_machine_reachable : Mem.reachable walked_machine.
Proof.
  unfold walked_machine.
  destruct (translated_run (translated (translated example_machine 0x2000) 0x2000) 0x3000)
    as [x3 H3]; [vm_compute; exact I|].
  destruct (translated_run (translated example_machine 0x2000) 0x2000) as [x2 H2];
    [vm_compute; exact I|].
  destruct (translated_run example_machine 0x2000) as [x1 H1]; [vm_compute; exact I|].
  eapply Mem.reach_translate; [|exact H3].
  eapply Mem.reach_translate; [|exact H2].
  eapply Mem.reach_translate; [|exact H1].
  apply (Mem.reach_reset example_machine).
Defined.

Lemma reachable_keys_witness :
  (KeysOk walked_machine /\ TlbTidy walked_machine) /\
  map page (tlb_entry (Mem.tlb walked_machine))
  = repeat 0 14 ++ [0x2000; 0x3000].
Proof.
  split.
  - apply (reachable_keys blink_config_ok walked_machine).
    + reflexivity.
    + exact walked_machine_reachable.
  - vm_compute. reflexivity.
Defined.

Lemma FindPageTableEntry_caches_witness :
  match Mem.FindPageTableEntry example_machine 0x3000 with
  | Ret (x, m') =>
      KeysOk m' /\ TlbTidy m' /\
      (x <> 0 ->
       exists m'', Mem.GetTlbEntry m' 0x3000 = Ret (x, m'') /\
                   Mem.system m'' = Mem.system m')
  | Abort _ => True
  end.
Proof.
  apply (FindPageTableEntry_caches blink_config_ok freelist_allocator_frame
           example_machine 0x3000).
  - reflexivity.
  - apply (KeysOk_reset blink_config_ok example_machine).
  - apply (TlbTidy_reset example_machine).
  - right. apply TlbOk_reset.
  - reflexivity.
  - discriminate.
Defined.

End ProbeExample.
(** ** The access API: [AccessRam] and [Load] *)

Lemma wrap32_small z : 0 <= z < 2 ^ 32 -> wrap32 z = z.
Proof. intros. unfold wrap32. now apply Z.mod_small. Qed.

Section AccessApi.
Context {cfg : Config} {col : Mem.Collab}.
Variables (m0 : Mem.Machine) (v n src dst : Z) (h : Z -> Z) (G : Mem.Machine -> Prop).
Hypothesis stable : StableTranslation m0 v n src dst h G.

Lemma memcpy_in s d r k j :
  0 <= j < k ->
  Mem.ram (Mem.memcpy s d r k) (d + j) = Mem.ram s (r + j).
Proof.
  intros Hj. unfold Mem.memcpy. cbn [Mem.ram Mem.set_ram].
  rewrite store_bytes_in by (rewrite load_bytes_length; lia).
  replace (d + j - d) with j by lia.
  rewrite load_bytes_nth by lia. f_equal. lia.
Qed.

Lemma memcpy_out s d r k x :
  0 <= k -> x < d \/ d + k <= x ->
  Mem.ram (Mem.memcpy s d r k) x = Mem.ram s x.
Proof.
  intros Hk Hx. unfold Mem.memcpy. cbn [Mem.ram Mem.set_ram].
  apply store_bytes_out. rewrite load_bytes_length. lia.
Qed.

Lemma AccessRam_copy (p : Z * Z) :
  0 < n <= 4096 ->
  exists q p' m',
    Mem.AccessRam m0 v n p dst true = Ret (q, p', m') /\
    (forall j, 0 <= j < n ->
       Mem.ram (Mem.system m') (q + j) = Mem.ram (Mem.system m0) (h (v + j))) /\
    (Z.land v 4095 + n <= 4096 -> q = h v /\ p' = p) /\
    (4096 < Z.land v 4095 + n ->
     q = dst /\ p' = (h v, h (v + (4096 - Z.land v 4095)))).
Proof.
  intros Hn.
  assert (Hlow : 0 <= Z.land v 4095 < 4096).
  { rewrite land_4095. apply Z.mod_pos_bound. lia. }
  pose proof (st_init _ _ _ _ _ _ _ stable) as HG0.
  unfold Mem.AccessRam.
  replace (n <=? 4096) with true by (symmetry; apply Z.leb_le; lia).
  cbn [assert bind]. rewrite (wrap64_small (Z.land v 4095 + n)) by lia.
  assert (Hv : within v n v) by (unfold within; lia).
  destruct (st_resolve _ _ _ _ _ _ _ stable m0 v HG0 Hv) as (m1 & Hres1 & HG1 & Hkeep1).
  destruct (Z.leb_spec (Z.land v 4095 + n) 4096) as [Hone | Hcross].
  - rewrite Hres1. cbn [bind fst snd]. exists (h v), p, m1.
    split; [reflexivity|]. split; [|split; [auto | lia]].
    intros j Hj.
    rewrite <- (st_page _ _ _ _ _ _ _ stable v j) by (unfold within; lia).
    apply Hkeep1. left. exists (v + j). split; [unfold within; lia | reflexivity].
  - set (k := 4096 - Z.land v 4095) in *.
    rewrite (wrap32_small k) by lia.
    replace (k <=? 4096) with true by (symmetry; apply Z.leb_le; lia).
    cbn [assert bind]. rewrite Hres1. cbn [bind fst snd].
    assert (Hvk : within v n (v + k)) by (unfold within; lia).
    destruct (st_resolve _ _ _ _ _ _ _ stable m1 (v + k) HG1 Hvk)
      as (m2 & Hres2 & HG2 & Hkeep2).
    rewrite Hres2. cbn [bind fst snd].
    rewrite (wrap64_small (n - k)) by lia.
    eexists dst, _, _. split; [reflexivity|]. split; [|split; [lia | auto]].
    assert (Hhost : forall j, 0 <= j < n ->
              Mem.ram (Mem.system m2) (h (v + j)) = Mem.ram (Mem.system m0) (h (v + j))).
    { intros j Hj.
      assert (host_bytes h v n (h (v + j)))
        by (exists (v + j); split; [unfold within; lia | reflexivity]).
      rewrite Hkeep2 by auto. apply Hkeep1. auto. }
    intros j Hj. cbn [Mem.system Mem.set_system].
    destruct (Z_lt_ge_dec j k) as [Hlt | Hge].
    + rewrite memcpy_out by lia. rewrite memcpy_in by lia.
      rewrite <- (st_page _ _ _ _ _ _ _ stable v j) by (unfold within; lia).
      now apply Hhost.
    + replace (dst + j) with (dst + k + (j - k)) by lia.
      rewrite memcpy_in by lia.
      assert (Hal : Z.land (v + k) 4095 = 0) by (subst k; apply aligned_after_chunk).
      rewrite <- (st_page _ _ _ _ _ _ _ stable (v + k) (j - k))
        by (unfold within; lia).
      replace (v + k + (j - k)) with (v + j) by lia.
      rewrite memcpy_out.
      * now apply Hhost.
      * lia.
      * assert (Hnot : ~ within dst n (h (v + j))).
        { intros Hw. apply (st_dst _ _ _ _ _ _ _ stable _ Hw).
          exists (v + j). split; [unfold within; lia | reflexivity]. }
        unfold within in Hnot. lia.
Qed.

(** X21.  [Load] of at most a page from a guest range whose translation
    is stable answers a pointer to the bytes of the range: inside one
    page it is the host address of [v] itself and nothing is copied;
    across a page boundary it is the buffer [b], which then holds the
    bytes of both pages in order.  The read window is set to the range. *)
Theorem Load_guest_bytes (a : Mem.Access) :
  Mem.machine a = m0 -> 0 < n <= 4096 ->
  exists q a',
    Mem.Load a v n dst = Ret (q, a') /\
    Mem.readaddr a' = v /\ Mem.readsize a' = n /\
    (forall j, 0 <= j < n ->
       Mem.ram (Mem.system (Mem.machine a')) (q + j) = Mem.ram (Mem.system m0) (h (v + j))) /\
    (Z.land v 4095 + n <= 4096 -> q = h v) /\
    (4096 < Z.land v 4095 + n -> q = dst).
Proof.
  intros Hm Hn. unfold Mem.Load.
  rewrite (wrap32_small n) by lia. unfold Mem.SetReadAddr.
  replace (n =? 0) with false by (symmetry; apply Z.eqb_neq; lia). cbn [negb Mem.machine].
  rewrite Hm.
  destruct (AccessRam_copy (0, 0) Hn) as (q & p' & m' & Hrun & Hbytes & Hone & Hcross).
  rewrite Hrun. cbn [bind]. exists q. eexists. split; [reflexivity|].
  cbn [Mem.readaddr Mem.readsize Mem.machine Mem.set_machine].
  repeat split; try assumption; [now apply Hone | now apply Hcross].
Qed.

End AccessApi.

Lemma Load_guest_bytes_witness :
  exists q a',
    @Mem.Load blink_config paged_collab
      {| Mem.machine := copy_machine; Mem.readaddr := 0; Mem.readsize := 0;
         Mem.writeaddr := 0; Mem.writesize := 0; Mem.stashaddr := 0;
         Mem.reserving := false; Mem.stash := 0x300000; Mem.stashsize := 0;
         Mem.writable := false |} 0x2ffe 4 0x300000 = Ret (q, a') /\
    Mem.readaddr a' = 0x2ffe /\ Mem.readsize a' = 4 /\
    (forall j, 0 <= j < 4 ->
       Mem.ram (Mem.system (Mem.machine a')) (q + j)
       = Mem.ram (Mem.system copy_machine) ((fun a => 0x103000 + a) (0x2ffe + j))) /\
    (Z.land 0x2ffe 4095 + 4 <= 4096 -> q = (fun a => 0x103000 + a) 0x2ffe) /\
    (4096 < Z.land 0x2ffe 4095 + 4 -> q = 0x300000).
Proof.
  apply (@Load_guest_bytes blink_config paged_collab copy_machine
           0x2ffe 4 0x200000 0x300000 (fun a => 0x103000 + a) copy_invariant
           paged_stable).
  - reflexivity.
  - lia.
Defined.
(** ** The stash: [ReserveAddress] and [CommitStash] *)

Section Stash.
Context {cfg : Config} {col : Mem.Collab}.

Lemma stable_restart m0 m v n src dst h G :
  StableTranslation m0 v n src dst h G -> G m -> StableTranslation m v n src dst h G.
Proof.
  intros [Hinit Hres Hwrite Hpage Hinj Hsrc Hdst] HG. constructor; assumption.
Qed.

(** A buffer that may receive copies from a stable range may also be
    their source. *)
Lemma stable_stash m0 m v n src buf h G :
  StableTranslation m0 v n src buf h G -> G m -> StableTranslation m v n buf buf h G.
Proof.
  intros [Hinit Hres Hwrite Hpage Hinj Hsrc Hdst] HG. constructor; try assumption.
  intros m1 a HG1 Ha. destruct (Hres m1 a HG1 Ha) as (m' & Hr & HG' & Hkeep).
  exists m'. split; [exact Hr|]. split; [exact HG'|].
  intros x Hx. apply Hkeep. tauto.
Qed.

Variables (m0 : Mem.Machine) (v n buf : Z) (h : Z -> Z) (G : Mem.Machine -> Prop).
Hypothesis stable : StableTranslation m0 v n buf buf h G.

(** The loop of [CopyFromUser] again, with what it keeps: the machine
    stays in [G] and the guest range holds what it held. *)
Lemma from_user_loop_keeps (g : Z -> byte) fuel : forall m va nn k,
  G m -> v <= va -> va + nn = v + n -> 0 <= nn -> (Z.to_nat nn < fuel)%nat ->
  (nn = 0 \/ k = 4096 - Z.land va 4095) ->
  (forall a, within v n a -> Mem.ram (Mem.system m) (h a) = g a) ->
  (forall a, v <= a < va -> Mem.ram (Mem.system m) (buf + (a - v)) = g a) ->
  exists m',
    Mem.VirtualCopy_loop fuel m va (buf + (va - v)) nn true k = Ret m' /\ G m' /\
    (forall a, within v n a -> Mem.ram (Mem.system m') (h a) = g a) /\
    (forall a, within v n a -> Mem.ram (Mem.system m') (buf + (a - v)) = g a).
Proof.
  induction fuel as [|fuel IH]; intros m va nn k HG Hva Hend Hnn Hfuel Hk Hguest Hdone;
    [lia|].
  cbn [Mem.VirtualCopy_loop].
  destruct (Z.eqb_spec nn 0) as [-> | Hnz].
  { exists m. split; [reflexivity|]. split; [exact HG|]. split; [exact Hguest|].
    intros a Ha. apply Hdone. unfold within in Ha. lia. }
  destruct Hk as [? | Hk]; [contradiction|].
  assert (Hlow : 0 <= Z.land va 4095 < 4096).
  { rewrite land_4095. apply Z.mod_pos_bound. lia. }
  set (k' := Z.min k nn).
  assert (Hk' : 0 < k' <= nn /\ k' <= 4096 - Z.land va 4095) by (subst k'; lia).
  assert (Hin : within v n va) by (unfold within; lia).
  destruct (st_resolve _ _ _ _ _ _ _ stable m va HG Hin) as (m1 & Hres & HG1 & Hkeep).
  rewrite Hres. cbn [bind].
  rewrite memcpy_poke by reflexivity.
  set (bs := load_bytes (Mem.ram (Mem.system m1)) (h va) (Z.to_nat k')).
  assert (Hlen : Z.of_nat (length bs) = k').
  { subst bs. rewrite load_bytes_length. lia. }
  assert (Hchunk : forall j, 0 <= j < k' -> h va + j = h (va + j) /\ within v n (va + j)).
  { intros j Hj. apply (chunk_host_bytes m0 v n buf buf h G stable va k'); try lia.
    exact Hin. }
  assert (Hbufw : forall x, within (buf + (va - v)) (Z.of_nat (length bs)) x -> within buf n x).
  { intros x Hx. unfold within in *. lia. }
  replace (buf + (va - v) + k') with (buf + (va + k' - v)) by lia.
  apply IH.
  - apply (st_write _ _ _ _ _ _ _ stable); [exact HG1|]. intros x Hx. right. now apply Hbufw.
  - lia.
  - lia.
  - lia.
  - lia.
  - destruct (Z.eq_dec (nn - k') 0) as [? | Hmore]; [now left | right].
    assert (k' = k) by (subst k'; lia).
    replace (va + k') with (va + (4096 - Z.land va 4095)) by lia.
    rewrite aligned_after_chunk. reflexivity.
  - intros a Ha. rewrite poke_out.
    + rewrite Hkeep; [now apply Hguest|]. left. now exists a.
    + intros Hw. apply Hbufw in Hw.
      apply (st_dst _ _ _ _ _ _ _ stable _ Hw). now exists a.
  - intros a Ha. destruct (Z_lt_ge_dec a va) as [Hlt | Hge].
    + rewrite poke_out.
      * rewrite Hkeep; [apply Hdone; lia|]. right. right. unfold within. lia.
      * unfold within. lia.
    + replace (buf + (a - v)) with (buf + (va - v) + (a - va)) by lia.
      rewrite poke_in by lia. subst bs.
      rewrite load_bytes_nth by lia. rewrite Z2Nat.id by lia.
      destruct (Hchunk (a - va) ltac:(lia)) as [E Hr].
      replace (va + (a - va)) with a in * by lia. rewrite E.
      rewrite Hkeep; [now apply Hguest|]. left. now exists a.
Qed.

(** X22.  Let the translation of the guest range [v, v + n) be stable, with
    the stash as the buffer: every address of the range resolves to its host
    pointer, whatever has been written so far, resolving changes no host
    byte of the range and no byte of the buffer, pages map to consecutive
    and distinct host bytes, and the buffer lies apart from them. Let [v] be
    non-null and the range, shorter than 2^63 bytes, cross a page boundary.
    Then the reservation goes through the stash: [ReserveAddress] answers
    the stash buffer, filled with the bytes of the guest range, which it
    leaves as they were, and records the range. After the caller has written
    [bs] into the stash, [CommitStash] of a writable reservation copies them
    back, so that the guest range holds [bs], and clears [stashaddr]; a
    reservation that is not writable leaves the guest range as it was. *)
Theorem ReserveAddress_CommitStash (a : Mem.Access) (w : bool) (bs : list byte) :
  Mem.machine a = m0 -> Mem.stash a = buf ->
  4096 < Z.land v 4095 + n -> n < 2 ^ 63 -> v <> 0 ->
  Z.of_nat (length bs) = n ->
  exists a1,
    Mem.ReserveAddress a v n w = Ret (buf, a1) /\
    Mem.stashaddr a1 = v /\ Mem.stashsize a1 = n /\ Mem.reserving a1 = true /\
    (forall j, 0 <= j < n ->
       Mem.ram (Mem.system (Mem.machine a1)) (buf + j)
       = Mem.ram (Mem.system m0) (h (v + j)) /\
       Mem.ram (Mem.system (Mem.machine a1)) (h (v + j))
       = Mem.ram (Mem.system m0) (h (v + j))) /\
    exists a2,
      Mem.CommitStash (Mem.set_machine a1 (Mem.poke (Mem.machine a1) buf bs)) = Ret a2 /\
      Mem.stashaddr a2 = 0 /\
      forall j, 0 <= j < n ->
        Mem.ram (Mem.system (Mem.machine a2)) (h (v + j))
        = if w then nth (Z.to_nat j) bs Byte.x00
          else Mem.ram (Mem.system m0) (h (v + j)).
Proof.
  intros Hm Hbuf Hcross Hn64 Hv Hlen.
  assert (Hlow : 0 <= Z.land v 4095 < 4096).
  { rewrite land_4095. apply Z.mod_pos_bound. lia. }
  assert (Hn : 0 <= n) by lia.
  pose proof (st_init _ _ _ _ _ _ _ stable) as HG0.
  unfold Mem.ReserveAddress. cbn [Mem.machine Mem.stash].
  rewrite (wrap64_small (Z.land v 4095 + n)) by lia.
  replace (Z.land v 4095 + n <=? 4096) with false by (symmetry; apply Z.leb_gt; lia).
  rewrite Hm, Hbuf. unfold Mem.CopyFromUser, Mem.VirtualCopy.
  destruct (from_user_loop_keeps (fun x => Mem.ram (Mem.system m0) (h x))
              (S (Z.to_nat n)) m0 v n (4096 - Z.land v 4095))
    as (m1 & Hfrom & HG1 & Hguest1 & Hstash1); try lia; auto.
  replace (buf + (v - v)) with buf in Hfrom by lia.
  rewrite Hfrom. cbn [bind snd]. eexists. split; [reflexivity|].
  cbn [Mem.stashaddr Mem.stashsize Mem.reserving Mem.machine Mem.set_machine Mem.stash
       Mem.writable].
  split; [reflexivity|]. split; [reflexivity|]. split; [reflexivity|]. split.
  { intros j Hj. split.
    - specialize (Hstash1 (v + j) ltac:(unfold within; lia)).
      replace (buf + (v + j - v)) with (buf + j) in Hstash1 by lia. exact Hstash1.
    - apply Hguest1. unfold within. lia. }
  unfold Mem.CommitStash.
  cbn [Mem.stashaddr Mem.stashsize Mem.reserving Mem.machine Mem.set_machine Mem.stash
       Mem.writable].
  replace (v =? 0) with false by (symmetry; apply Z.eqb_neq; lia).
  cbn [negb assert bind].
  set (m2 := Mem.poke m1 buf bs).
  assert (HG2 : G m2).
  { apply (st_write _ _ _ _ _ _ _ stable); [exact HG1|].
    intros x Hx. right. unfold within in *. lia. }
  assert (Hguest2 : forall x, within v n x ->
            Mem.ram (Mem.system m2) (h x) = Mem.ram (Mem.system m0) (h x)).
  { intros x Hx. subst m2. rewrite poke_out; [now apply Hguest1|].
    intros Hw. rewrite Hlen in Hw.
    apply (st_dst _ _ _ _ _ _ _ stable _ Hw). now exists x. }
  destruct w.
  - pose proof (stable_restart m0 m2 v n buf buf h G stable HG2) as stable2.
    destruct (to_user_loop m2 v n buf buf h G stable2 (S (Z.to_nat n)) m2 v n
                (4096 - Z.land v 4095)) as (m3 & Hto & _ & Hguest3);
      try lia; auto.
    unfold Mem.CopyToUser, Mem.VirtualCopy.
    replace (buf + (v - v)) with buf in Hto by lia.
    rewrite Hto. cbn [bind]. eexists. split; [reflexivity|].
    cbn [Mem.stashaddr Mem.machine]. split; [reflexivity|].
    intros j Hj. rewrite (Hguest3 (v + j)) by (unfold within; lia).
    replace (buf + (v + j - v)) with (buf + j) by lia.
    subst m2. rewrite poke_in by lia. reflexivity.
  - eexists. split; [reflexivity|]. cbn [Mem.stashaddr Mem.machine].
    split; [reflexivity|]. intros j Hj. apply Hguest2. unfold within. lia.
Qed.

End Stash.

Lemma ReserveAddress_CommitStash_witness :
  exists a1,
    @Mem.ReserveAddress blink_config linear_collab
      {| Mem.machine := example_machine; Mem.readaddr := 0; Mem.readsize := 0;
         Mem.writeaddr := 0; Mem.writesize := 0; Mem.stashaddr := 0;
         Mem.reserving := false; Mem.stash := 0x300000; Mem.stashsize := 0;
         Mem.writable := false |} 0x400ffe 6 true = Ret (0x300000, a1) /\
    Mem.stashaddr a1 = 0x400ffe /\ Mem.stashsize a1 = 6 /\ Mem.reserving a1 = true /\
    (forall j, 0 <= j < 6 ->
       Mem.ram (Mem.system (Mem.machine a1)) (0x300000 + j)
       = Mem.ram (Mem.system example_machine) (@Mem.ToHost blink_config (0x400ffe + j)) /\
       Mem.ram (Mem.system (Mem.machine a1)) (@Mem.ToHost blink_config (0x400ffe + j))
       = Mem.ram (Mem.system example_machine) (@Mem.ToHost blink_config (0x400ffe + j))) /\
    exists a2,
      @Mem.CommitStash blink_config linear_collab
        (Mem.set_machine a1
           (Mem.poke (Mem.machine a1) 0x300000
              [Byte.x01; Byte.x02; Byte.x03; Byte.x04; Byte.x05; Byte.x06])) = Ret a2 /\
      Mem.stashaddr a2 = 0 /\
      forall j, 0 <= j < 6 ->
        Mem.ram (Mem.system (Mem.machine a2)) (@Mem.ToHost blink_config (0x400ffe + j))
        = if true
          then nth (Z.to_nat j)
                 [Byte.x01; Byte.x02; Byte.x03; Byte.x04; Byte.x05; Byte.x06] Byte.x00
          else Mem.ram (Mem.system example_machine)
                 (@Mem.ToHost blink_config (0x400ffe + j)).
Proof.
  apply (@ReserveAddress_CommitStash blink_config linear_collab example_machine
           0x400ffe 6 0x300000 (@Mem.ToHost blink_config) (fun _ => True)
           (stable_stash _ _ _ _ _ _ _ _ linear_stable I)).
  - reflexivity.
  - reflexivity.
  - vm_compute. reflexivity.
  - lia.
  - lia.
  - reflexivity.
Defined.
(** ** Writing to the guest and loading it back *)

Section StoreLoad.
Context {cfg : Config} {col : Mem.Collab}.
Variables (m0 : Mem.Machine) (v n src dst : Z) (h : Z -> Z)
          (G : Mem.Machine -> Prop) (T : Mem.Machine -> Z -> Prop).
Hypothesis paged : PagedTranslation m0 v n src dst h G T.

(** [AccessRam] with a copy, on a range whose pages were all resolved
    before and hold [g]: the answer points to the bytes [g]. *)
Lemma AccessRam_paged (g : Z -> byte) (m : Mem.Machine) (p : Z * Z) :
  G m ->
  (forall a, within v n a -> T m a /\ Mem.ram (Mem.system m) (h a) = g a) ->
  0 < n <= 4096 ->
  exists q p' m',
    Mem.AccessRam m v n p dst true = Ret (q, p', m') /\
    (forall j, 0 <= j < n -> Mem.ram (Mem.system m') (q + j) = g (v + j)) /\
    (Z.land v 4095 + n <= 4096 -> q = h v /\ p' = p) /\
    (4096 < Z.land v 4095 + n ->
     q = dst /\ p' = (h v, h (v + (4096 - Z.land v 4095)))).
Proof.
  intros HG Hguest Hn.
  assert (Hlow : 0 <= Z.land v 4095 < 4096).
  { rewrite land_4095. apply Z.mod_pos_bound. lia. }
  unfold Mem.AccessRam.
  replace (n <=? 4096) with true by (symmetry; apply Z.leb_le; lia).
  cbn [assert bind]. rewrite (wrap64_small (Z.land v 4095 + n)) by lia.
  assert (Hv : within v n v) by (unfold within; lia).
  destruct (pt_resolve _ _ _ _ _ _ _ _ paged m v HG Hv)
    as (m1 & Hres1 & HG1 & Hbuf1 & Hold1 & _).
  assert (Hguest1 : forall a, within v n a ->
            T m1 a /\ Mem.ram (Mem.system m1) (h a) = g a).
  { intros a Ha. destruct (Hguest a Ha) as [HT Hb].
    destruct (Hold1 a Ha HT) as [HT1 Hk]. split; [exact HT1 | congruence]. }
  destruct (Z.leb_spec (Z.land v 4095 + n) 4096) as [Hone | Hcross].
  - rewrite Hres1. cbn [bind fst snd]. exists (h v), p, m1.
    split; [reflexivity|]. split; [|split; [auto | lia]].
    intros j Hj.
    rewrite <- (pt_page _ _ _ _ _ _ _ _ paged v j) by (unfold within; lia).
    apply Hguest1. unfold within. lia.
  - set (k := 4096 - Z.land v 4095) in *.
    rewrite (wrap32_small k) by lia.
    replace (k <=? 4096) with true by (symmetry; apply Z.leb_le; lia).
    cbn [assert bind]. rewrite Hres1. cbn [bind fst snd].
    assert (Hvk : within v n (v + k)) by (unfold within; lia).
    destruct (pt_resolve _ _ _ _ _ _ _ _ paged m1 (v + k) HG1 Hvk)
      as (m2 & Hres2 & HG2 & Hbuf2 & Hold2 & _).
    rewrite Hres2. cbn [bind fst snd].
    rewrite (wrap64_small (n - k)) by lia.
    eexists dst, _, _. split; [reflexivity|]. split; [|split; [lia | auto]].
    assert (Hhost : forall j, 0 <= j < n -> Mem.ram (Mem.system m2) (h (v + j)) = g (v + j)).
    { intros j Hj.
      destruct (Hguest1 (v + j) ltac:(unfold within; lia)) as [HT Hb].
      destruct (Hold2 (v + j) ltac:(unfold within; lia) HT) as [_ Hk]. congruence. }
    intros j Hj. cbn [Mem.system Mem.set_system].
    destruct (Z_lt_ge_dec j k) as [Hlt | Hge].
    + rewrite memcpy_out by lia. rewrite memcpy_in by lia.
      rewrite <- (pt_page _ _ _ _ _ _ _ _ paged v j) by (unfold within; lia).
      now apply Hhost.
    + replace (dst + j) with (dst + k + (j - k)) by lia.
      rewrite memcpy_in by lia.
      assert (Hal : Z.land (v + k) 4095 = 0) by (subst k; apply aligned_after_chunk).
      rewrite <- (pt_page _ _ _ _ _ _ _ _ paged (v + k) (j - k))
        by (unfold within; lia).
      replace (v + k + (j - k)) with (v + j) by lia.
      rewrite memcpy_out.
      * now apply Hhost.
      * lia.
      * assert (Hnot : ~ within dst n (h (v + j))).
        { intros Hw. apply (pt_dst _ _ _ _ _ _ _ _ paged _ Hw).
          exists (v + j). split; [unfold within; lia | reflexivity]. }
        unfold within in Hnot. lia.
Qed.

(** X23.  Let the guest range [v, v + n) of at most a page resolve under
    demand paging: every address resolves to its host pointer, whatever
    was written so far; resolving may fill a page that is resolved for the
    first time but changes no byte of the buffers and no byte of a page
    resolved before; pages map to consecutive and distinct host bytes,
    apart from the buffers.  Then the bytes written to the range with
    [CopyToUserWrite] are what a [Load] of the range answers afterwards,
    whether the range lies in one page (the pointer into the page) or
    crosses a boundary (the caller's buffer); the write window and the
    read window both record the range. *)
Theorem CopyToUserWrite_Load (a : Mem.Access) :
  Mem.machine a = m0 -> 0 < n <= 4096 ->
  exists a1 q a2,
    Mem.CopyToUserWrite a v src n = Ret a1 /\
    Mem.Load a1 v n dst = Ret (q, a2) /\
    (forall j, 0 <= j < n ->
       Mem.ram (Mem.system (Mem.machine a2)) (q + j) = Mem.ram (Mem.system m0) (src + j)) /\
    Mem.writeaddr a2 = v /\ Mem.writesize a2 = n /\
    Mem.readaddr a2 = v /\ Mem.readsize a2 = n.
Proof.
  intros Hm Hn.
  destruct (to_user_paged m0 v n src dst h G T paged (S (Z.to_nat n)) m0 v n
              (4096 - Z.land v 4095)) as (m1 & Hto & HG1 & Hguest);
    try lia; auto.
  { apply (pt_init _ _ _ _ _ _ _ _ paged). }
  replace (src + (v - v)) with src in Hto by lia.
  destruct (AccessRam_paged (fun a => Mem.ram (Mem.system m0) (src + (a - v))) m1 (0, 0)
              HG1 Hguest Hn)
    as (q & p' & m2 & Hrun & Hbytes & _).
  assert (Hnz : (n =? 0) = false) by (apply Z.eqb_neq; lia).
  eexists _, q, _. split; [|split].
  - unfold Mem.CopyToUserWrite, Mem.CopyToUser, Mem.VirtualCopy. rewrite Hm, Hto.
    cbn [bind]. rewrite (wrap32_small n) by lia. unfold Mem.SetWriteAddr.
    rewrite Hnz. cbn [negb]. reflexivity.
  - unfold Mem.Load. rewrite (wrap32_small n) by lia. unfold Mem.SetReadAddr.
    rewrite Hnz. cbn [negb Mem.machine Mem.set_machine].
    rewrite Hrun. cbn [bind]. reflexivity.
  - cbn [Mem.machine Mem.set_machine Mem.writeaddr Mem.writesize Mem.readaddr Mem.readsize].
    repeat split.
    intros j Hj. rewrite Hbytes by exact Hj. f_equal. lia.
Qed.

End StoreLoad.

(** The range [0x2ffe, 0x3002) of [dirty_machine]: the write is the first
    touch of guest page 0x3000, which the pager backs with a zero-filled
    arena page. *)
Lemma CopyToUserWrite_Load_witness :
  exists a1 q a2,
    @Mem.CopyToUserWrite blink_config zerofill_collab (idle_access dirty_machine)
      0x2ffe 0x200000 4 = Ret a1 /\
    @Mem.Load blink_config zerofill_collab a1 0x2ffe 4 0x300000 = Ret (q, a2) /\
    (forall j, 0 <= j < 4 ->
       Mem.ram (Mem.system (Mem.machine a2)) (q + j)
       = Mem.ram (Mem.system dirty_machine) (0x200000 + j)) /\
    Mem.writeaddr a2 = 0x2ffe /\ Mem.writesize a2 = 4 /\
    Mem.readaddr a2 = 0x2ffe /\ Mem.readsize a2 = 4.
Proof.
  apply (@CopyToUserWrite_Load blink_config zerofill_collab dirty_machine
           0x2ffe 4 0x200000 0x300000 (fun a => 0x103000 + a) copy_invariant
           (fun m a => a < 0x3000 \/ Read64 (Mem.ram (Mem.system m)) 0x104018 = 0x6001)
           (@example_paged zerofill_collab (within 0x106000 4096) (fun _ => eq_refl)
              (fun _ H => H) zerofill_alloc_page dirty_machine dirty_init)
           (idle_access dirty_machine)).
  - reflexivity.
  - lia.
Defined.
(* ------------------------------------------------------------------ *)
(** ** [address.c]: segments and string-operation addresses *)
(* ------------------------------------------------------------------ *)

Lemma land_7_mod (s : Z) : Z.land s 7 = s mod 8.
Proof. change 7 with (Z.ones 3). now rewrite Z.land_ones by lia. Qed.

Lemma Read_width (r : list byte) (md : Mem.xed_mode) :
  match md with
  | Mem.XED_MODE_REAL => Address.Read16 r
  | Mem.XED_MODE_LEGACY => Address.Read32 r
  | Mem.XED_MODE_LONG => Address.Read64 r
  end = le_combine r mod 2 ^ Address.index_width md.
Proof.
  destruct md; unfold Address.Read16, Address.Read32, Address.Read64;
    now rewrite le_combine_firstn.
Qed.

(** X24. [GetSegment] looks at the low three bits of the segment number
    only: numbers that agree modulo 8 name the same register, and the
    call raises #UD instead of returning exactly when those bits are 6
    or 7. *)
Theorem GetSegment_low_bits (m : Address.Machine) (rde s : Z) :
  Address.GetSegment m rde s = Address.GetSegment m rde (s mod 8) /\
  (Address.GetSegment m rde s = Address.Undefined <-> 6 <= s mod 8).
Proof.
  unfold Address.GetSegment. rewrite !land_7_mod, Z.mod_mod by lia.
  split; [reflexivity|].
  pose proof (Z.mod_pos_bound s 8 ltac:(lia)) as Hs.
  repeat match goal with
         | |- context [?a =? ?b] => destruct (Z.eqb_spec a b)
         end; split; intros; try discriminate; try lia; reflexivity.
Qed.

(** X25. [AddressDi] is the ES base plus the DI register truncated to the
    width of the addressing mode (16, 32 or 64 bits), modulo 2^64; the
    bytes of DI above that width and the other segment registers do not
    enter the result. *)
Theorem AddressDi_width `{Address.Decode} (m : Address.Machine) (rde : Z) :
  Address.AddressDi m rde =
  (le_combine (Address.es m) +
   le_combine (Address.di m) mod 2 ^ Address.index_width (Address.Eamode rde))
  mod 2 ^ 64.
Proof.
  unfold Address.AddressDi.
  pose proof (Read_width (Address.di m) (Address.Eamode rde)) as Hw.
  assert (He : Address.Read64 (Address.es m) = le_combine (Address.es m) mod 2 ^ 64)
    by (unfold Address.Read64; now rewrite le_combine_firstn).
  rewrite He.
  destruct (Address.Eamode rde); rewrite Hw; unfold wrap64;
    now rewrite Z.add_mod_idemp_l by lia.
Qed.
(* ------------------------------------------------------------------ *)
(** ** Strings: [LoadStr] *)
(* ------------------------------------------------------------------ *)

Lemma byte_eqb_x00 (b : byte) : Byte.eqb b Byte.x00 = true <-> b = Byte.x00.
Proof.
  split; [apply Byte.byte_dec_bl | apply Byte.byte_dec_lb].
Qed.

Lemma memchr_found (r : memory) (n : nat) : forall p len,
  0 <= len < Z.of_nat n ->
  (forall j, 0 <= j < len -> r (p + j) <> Byte.x00) ->
  r (p + len) = Byte.x00 ->
  Mem.memchr r p n = Some len.
Proof.
  induction n as [|n IH]; intros p len Hlen Hnz Hz; [lia|].
  cbn [Mem.memchr].
  destruct (Byte.eqb (r p) Byte.x00) eqn:E.
  - apply byte_eqb_x00 in E.
    destruct (Z.eq_dec len 0) as [-> | Hne]; [reflexivity|].
    exfalso. apply (Hnz 0); [lia|]. now rewrite Z.add_0_r.
  - destruct (Z.eq_dec len 0) as [-> | Hne].
    { rewrite Z.add_0_r in Hz. apply byte_eqb_x00 in Hz. congruence. }
    rewrite (IH (p + 1) (len - 1)).
    + f_equal. lia.
    + lia.
    + intros j Hj. replace (p + 1 + j) with (p + (j + 1)) by lia. apply Hnz. lia.
    + replace (p + 1 + (len - 1)) with (p + len) by lia. exact Hz.
Qed.

Lemma memchr_none (r : memory) (n : nat) : forall p,
  (forall j, 0 <= j < Z.of_nat n -> r (p + j) <> Byte.x00) ->
  Mem.memchr r p n = None.
Proof.
  induction n as [|n IH]; intros p Hnz; [reflexivity|].
  cbn [Mem.memchr].
  destruct (Byte.eqb (r p) Byte.x00) eqn:E.
  - apply byte_eqb_x00 in E. exfalso. apply (Hnz 0); [lia|]. now rewrite Z.add_0_r.
  - rewrite IH; [reflexivity|].
    intros j Hj. replace (p + 1 + j) with (p + (j + 1)) by lia. apply Hnz. lia.
Qed.

Section Strings.
Context {cfg : Config} {col : Mem.Collab}.

Lemma have_range addr :
  0 < 4096 - Z.land addr 4095 <= 4096 /\
  wrap64 (4096 - Z.land addr 4095) = 4096 - Z.land addr 4095.
Proof.
  assert (Hlow : 0 <= Z.land addr 4095 < 4096).
  { rewrite land_4095. apply Z.mod_pos_bound. lia. }
  split; [lia|]. apply wrap64_small. lia.
Qed.

Lemma LoadStr_fast (fuel : nat) (a : Mem.Access) (hp : Mem.Heap)
    (addr p len : Z) (m1 : Mem.Machine) :
  addr <> 0 -> p <> 0 ->
  Mem.LookupAddress (Mem.machine a) addr = Ret (p, m1) ->
  0 <= len < 4096 - Z.land addr 4095 ->
  (forall j, 0 <= j < len -> Mem.ram (Mem.system m1) (p + j) <> Byte.x00) ->
  Mem.ram (Mem.system m1) (p + len) = Byte.x00 ->
  Mem.LoadStr fuel a hp addr
  = Ret (p, Mem.SetReadAddr (Mem.set_machine a m1) addr (len + 1), hp).
Proof.
  intros Haddr Hp Hlook Hlen Hnz Hz.
  destruct (have_range addr) as [Hhave Hw].
  unfold Mem.LoadStr. rewrite Hw.
  destruct (Z.eqb_spec addr 0); [contradiction|].
  rewrite Hlook. cbn [bind].
  destruct (Z.eqb_spec p 0); [contradiction|].
  rewrite (memchr_found _ _ p len) by (try assumption; lia).
  now rewrite wrap32_small by lia.
Qed.

(** X26. A string that ends on the page where it starts is not copied:
    [LoadStr] answers the host pointer of its first byte, records a read
    of the string and its terminator, and leaves the heap as it was. *)
Theorem LoadStr_in_page (fuel : nat) (a : Mem.Access) (hp : Mem.Heap)
    (addr p len : Z) (m1 : Mem.Machine) :
  addr <> 0 -> p <> 0 ->
  Mem.LookupAddress (Mem.machine a) addr = Ret (p, m1) ->
  0 <= len < 4096 - Z.land addr 4095 ->
  (forall j, 0 <= j < len -> Mem.ram (Mem.system m1) (p + j) <> Byte.x00) ->
  Mem.ram (Mem.system m1) (p + len) = Byte.x00 ->
  Mem.LoadStr fuel a hp addr
  = Ret (p, Mem.SetReadAddr (Mem.set_machine a m1) addr (len + 1), hp).
Proof. apply LoadStr_fast. Qed.

Hypothesis paged : forall m, Mem.HasLinearMapping m = false.

Lemma resolve_lookup m v p m' :
  Mem.ResolveAddress m v = Ret (p, m') ->
  Mem.LookupAddress m v = Ret (p, m') /\ p <> 0.
Proof.
  unfold Mem.ResolveAddress, Mem.GetAddress. rewrite paged.
  destruct (Mem.LookupAddress m v) as [[q m1] | f]; cbn [bind fst]; [|discriminate].
  destruct (Z.eqb_spec q 0); [discriminate|].
  intros E. inversion E; subst. auto.
Qed.

Variables (m0 : Mem.Machine) (addr len copy : Z) (h : Z -> Z) (G : Mem.Machine -> Prop).
Hypothesis stable : StableTranslation m0 addr (len + 1) copy copy h G.

(** X27.  On a machine without a linear mapping, let the translation of the
    guest range that holds a string and its terminator be stable, with the
    block that [malloc] answers as the buffer: every address of the range
    resolves to its host pointer, whatever has been written so far,
    resolving changes no host byte of the range and no byte of the buffer,
    pages map to consecutive and distinct host bytes, and the buffer lies
    apart from them. Let [malloc] and the [realloc] of the free list
    succeed. Then a string at a non-null address that ends on the page after
    the one where it starts is copied to the fresh block: [LoadStr] answers
    the block, which holds the string and its terminator and is appended to
    the free list; the read it records is one byte longer than the one
    recorded for a string within a page. *)
Theorem LoadStr_across_page (fuel : nat) (a : Mem.Access) (hp : Mem.Heap)
    (fp : Z) (rest : list Z) :
  Mem.machine a = m0 -> addr <> 0 -> copy <> 0 -> fp <> 0 ->
  Mem.answers hp = copy :: fp :: rest ->
  4096 - Z.land addr 4095 <= len < 4096 - Z.land addr 4095 + 4096 ->
  (forall j, 0 <= j < len -> Mem.ram (Mem.system m0) (h (addr + j)) <> Byte.x00) ->
  Mem.ram (Mem.system m0) (h (addr + len)) = Byte.x00 ->
  (0 < fuel)%nat ->
  exists a',
    Mem.LoadStr fuel a hp addr
    = Ret (copy, a', {| Mem.freelist := Mem.freelist hp ++ [copy];
                        Mem.answers := rest |}) /\
    Mem.readaddr a' = addr /\ Mem.readsize a' = len + 2 /\
    forall j, 0 <= j <= len ->
      Mem.ram (Mem.system (Mem.machine a')) (copy + j)
      = Mem.ram (Mem.system m0) (h (addr + j)).
Proof.
  intros Hm Haddr Hcopy Hfp Hans Hlen Hnz Hz Hfuel.
  destruct (have_range addr) as [Hhave Hw].
  set (have := 4096 - Z.land addr 4095) in *.
  pose proof (st_init _ _ _ _ _ _ _ stable) as HG0.
  assert (Hin0 : within addr (len + 1) addr) by (unfold within; lia).
  destruct (st_resolve _ _ _ _ _ _ _ stable m0 addr HG0 Hin0) as (m1 & Hres1 & HG1 & Hkeep1).
  apply resolve_lookup in Hres1. destruct Hres1 as [Hlook1 Hp1].
  assert (Hhost : forall j, 0 <= j <= len -> host_bytes h addr (len + 1) (h (addr + j))).
  { intros j Hj. exists (addr + j). split; [unfold within; lia | reflexivity]. }
  assert (Hfirst : forall j, 0 <= j < have -> h addr + j = h (addr + j)).
  { intros j Hj. symmetry. apply (st_page _ _ _ _ _ _ _ stable); unfold within; lia. }
  unfold Mem.LoadStr. fold have. rewrite Hw.
  destruct (Z.eqb_spec addr 0); [contradiction|].
  rewrite Hm, Hlook1. cbn [bind].
  destruct (Z.eqb_spec (h addr) 0); [contradiction|].
  rewrite memchr_none.
  2:{ intros j Hj. rewrite Hfirst by lia. rewrite Hkeep1 by (left; apply Hhost; lia).
      apply Hnz. lia. }
  unfold Mem.alloc at 1. rewrite Hans. cbn [hd tl Mem.freelist Mem.answers].
  destruct (Z.eqb_spec copy 0); [contradiction|].
  destruct fuel as [|fuel]; [lia|].
  cbn [Mem.LoadStr_loop Mem.machine Mem.set_machine].
  rewrite memcpy_poke by reflexivity.
  set (bs := load_bytes (Mem.ram (Mem.system m1)) (h addr) (Z.to_nat have)).
  assert (Hbs : Z.of_nat (length bs) = have).
  { subst bs. rewrite load_bytes_length. lia. }
  assert (HG2 : G (Mem.poke m1 copy bs)).
  { apply (st_write _ _ _ _ _ _ _ stable); [exact HG1|].
    intros x Hx. right. unfold within in *. lia. }
  assert (Hin2 : within addr (len + 1) (addr + have)) by (unfold within; lia).
  destruct (st_resolve _ _ _ _ _ _ _ stable _ (addr + have) HG2 Hin2)
    as (m3 & Hres3 & HG3 & Hkeep3).
  apply resolve_lookup in Hres3. destruct Hres3 as [Hlook3 Hp3].
  rewrite Hlook3. cbn [bind].
  destruct (Z.eqb_spec (h (addr + have)) 0); [contradiction|].
  assert (Hal : Z.land (addr + have) 4095 = 0) by (subst have; apply aligned_after_chunk).
  assert (Hsecond : forall j, 0 <= j <= len - have -> h (addr + have) + j = h (addr + (have + j))).
  { intros j Hj. rewrite Z.add_assoc. symmetry.
    apply (st_page _ _ _ _ _ _ _ stable); unfold within; lia. }
  assert (Hguest : forall j, 0 <= j <= len ->
            Mem.ram (Mem.system m3) (h (addr + j)) = Mem.ram (Mem.system m0) (h (addr + j))).
  { intros j Hj. rewrite Hkeep3 by (left; apply Hhost; lia).
    rewrite poke_out.
    - apply Hkeep1. left. apply Hhost; lia.
    - intros Hx. apply (st_dst _ _ _ _ _ _ _ stable (h (addr + j))).
      + unfold within in *. lia.
      + apply Hhost; lia. }
  unfold Mem.memccpy.
  rewrite (memchr_found _ _ _ (len - have)).
  2:{ change (Z.of_nat 4096) with 4096. lia. }
  2:{ intros j Hj. rewrite Hsecond by lia. rewrite Hguest by lia. apply Hnz. lia. }
  2:{ rewrite Hsecond by lia. replace (have + (len - have)) with len by lia.
      rewrite Hguest by lia. exact Hz. }
  unfold Mem.alloc. cbn [hd tl Mem.freelist Mem.answers].
  destruct (Z.eqb_spec fp 0); [contradiction|].
  rewrite wrap32_small by lia.
  replace (have + (len - have + 1) + 1) with (len + 2) by lia.
  unfold Mem.SetReadAddr.
  destruct (Z.eqb_spec (len + 2) 0); [lia|]. cbn [negb].
  eexists. split; [reflexivity|].
  cbn [Mem.readaddr Mem.readsize Mem.machine Mem.set_machine Mem.system Mem.set_system].
  split; [reflexivity|]. split; [reflexivity|].
  intros j Hj.
  destruct (Z_lt_ge_dec j have) as [Hlt | Hge].
  - rewrite memcpy_out by lia.
    rewrite Hkeep3 by (right; left; unfold within; lia).
    rewrite poke_in by lia.
    subst bs. rewrite load_bytes_nth by lia.
    rewrite Z2Nat.id by lia. rewrite Hfirst by lia.
    apply Hkeep1. left. apply Hhost; lia.
  - replace (copy + j) with (copy + have + (j - have)) by lia.
    rewrite memcpy_in by lia.
    rewrite Hsecond by lia. replace (have + (j - have)) with j by lia.
    apply Hguest. lia.
Qed.

End Strings.

(** In real mode, with 32-bit addresses that have a page of the arena
    after them, translation adds the arena's base and is stable for any
    buffer outside the range's host bytes. *)
Lemma real_stable {cfg : Config} {col : Mem.Collab} (m : Mem.Machine) (v n b : Z) :
  (forall m', Mem.HasLinearMapping m' = false) ->
  Mem.mode m = Mem.XED_MODE_REAL ->
  0 <= v -> v + n <= 2 ^ 32 -> v + n + 4095 <= kRealSize ->
  0 < Mem.real (Mem.system m) + v ->
  (b + n <= Mem.real (Mem.system m) + v \/ Mem.real (Mem.system m) + v + n <= b) ->
  StableTranslation m v n b b (fun a => Mem.real (Mem.system m) + a)
    (fun m' => Mem.mode m' = Mem.XED_MODE_REAL /\
               Mem.real (Mem.system m') = Mem.real (Mem.system m)).
Proof.
  intros Hpaged Hmode Hv H32 Hsize Hpos Hapart.
  constructor.
  - split; [exact Hmode | reflexivity].
  - intros m1 a [Hm1 Hr1] Ha. exists m1. split; [|split; [now split | reflexivity]].
    unfold within in Ha.
    unfold Mem.ResolveAddress, Mem.GetAddress, Mem.LookupAddress.
    rewrite Hpaged, Hm1.
    assert (Hlow : Z.land a 0xffffffff = a).
    { change 0xffffffff with (Z.ones 32). rewrite Z.land_ones by lia.
      apply Z.mod_small. lia. }
    rewrite Hlow.
    destruct (Z.leb_spec 0 a); [|lia].
    destruct (Z.leb_spec a 0xffffffff); [|lia].
    destruct (Z.ltb_spec (a + 4095) kRealSize); [|lia].
    cbn [andb bind fst]. rewrite Hr1.
    destruct (Z.eqb_spec (Mem.real (Mem.system m) + a) 0); [lia | reflexivity].
  - intros m1 p bs [Hm1 Hr1] _. split; [exact Hm1 | exact Hr1].
  - intros. lia.
  - intros. lia.
  - intros x Hx (a & Ha & E). unfold within in *. lia.
  - intros x Hx (a & Ha & E). unfold within in *. lia.
Qed.

(** The two letters "AB" at guest address 0x10 of a machine in real
    mode; the byte after them is 0. *)
Lemma LoadStr_in_page_witness :
  @Mem.LoadStr blink_config paged_collab 0
    {| Mem.machine := Mem.poke real_machine 0x100010 [Byte.x41; Byte.x42];
       Mem.readaddr := 0; Mem.readsize := 0;
       Mem.writeaddr := 0; Mem.writesize := 0; Mem.stashaddr := 0;
       Mem.reserving := false; Mem.stash := 0; Mem.stashsize := 0;
       Mem.writable := false |}
    {| Mem.freelist := []; Mem.answers := [] |} 0x10
  = Ret (0x100010,
         Mem.SetReadAddr
           (Mem.set_machine
              {| Mem.machine := Mem.poke real_machine 0x100010 [Byte.x41; Byte.x42];
                 Mem.readaddr := 0; Mem.readsize := 0;
                 Mem.writeaddr := 0; Mem.writesize := 0; Mem.stashaddr := 0;
                 Mem.reserving := false; Mem.stash := 0; Mem.stashsize := 0;
                 Mem.writable := false |}
              (Mem.poke real_machine 0x100010 [Byte.x41; Byte.x42]))
           0x10 (2 + 1),
         {| Mem.freelist := []; Mem.answers := [] |}).
Proof.
  apply (@LoadStr_in_page blink_config paged_collab).
  - lia.
  - lia.
  - reflexivity.
  - vm_compute. split; [discriminate | reflexivity].
  - intros j Hj. assert (j = 0 \/ j = 1) as [-> | ->] by lia; vm_compute; discriminate.
  - vm_compute. reflexivity.
Defined.

(** The string of [split_string_machine], in real mode: both pages are
    part of the arena, so nothing is paged in while the string is read. *)
Lemma LoadStr_across_page_witness :
  exists a',
    @Mem.LoadStr blink_config paged_collab 1 (idle_access split_string_machine)
      {| Mem.freelist := []; Mem.answers := [0x300000; 0x400000] |} 0x8ffe
    = Ret (0x300000, a',
           {| Mem.freelist :=
                Mem.freelist {| Mem.freelist := []; Mem.answers := [0x300000; 0x400000] |}
                ++ [0x300000];
              Mem.answers := [] |}) /\
    Mem.readaddr a' = 0x8ffe /\ Mem.readsize a' = 3 + 2 /\
    forall j, 0 <= j <= 3 ->
      Mem.ram (Mem.system (Mem.machine a')) (0x300000 + j)
      = Mem.ram (Mem.system split_string_machine)
          ((fun a => Mem.real (Mem.system split_string_machine) + a) (0x8ffe + j)).
Proof.
  apply (@LoadStr_across_page blink_config paged_collab (fun _ => eq_refl)
           split_string_machine 0x8ffe 3 0x300000
           (fun a => Mem.real (Mem.system split_string_machine) + a) _
           (@real_stable blink_config paged_collab split_string_machine
              0x8ffe 4 0x300000 (fun _ => eq_refl) eq_refl
              ltac:(lia) ltac:(lia) ltac:(vm_compute; discriminate)
              ltac:(vm_compute; reflexivity) ltac:(right; vm_compute; discriminate))
           1%nat (idle_access split_string_machine)
           {| Mem.freelist := []; Mem.answers := [0x300000; 0x400000] |}
           0x400000 []).
  - reflexivity.
  - lia.
  - lia.
  - lia.
  - reflexivity.
  - vm_compute. split; [discriminate | reflexivity].
  - intros j Hj. assert (j = 0 \/ j = 1 \/ j = 2) as [-> | [-> | ->]] by lia;
      vm_compute; discriminate.
  - vm_compute. reflexivity.
  - lia.
Defined.
(* ------------------------------------------------------------------ *)
(** ** Lists of strings: [LoadStrList] *)
(* ------------------------------------------------------------------ *)

Section StringList.
Context {cfg : Config} {col : Mem.Collab}.
Hypothesis paged : forall m, Mem.HasLinearMapping m = false.
Variables (m0 : Mem.Machine) (v n b : Z) (h : Z -> Z) (G : Mem.Machine -> Prop).
Hypothesis stable : StableTranslation m0 v n b b h G.
Hypothesis room : 8 <= n.

Lemma VirtualCopy_loop_step fuel m va r nn d k :
  Mem.VirtualCopy_loop (S fuel) m va r nn d k
  = if nn =? 0 then Ret m
    else
      pm <- Mem.ResolveAddress m va ;;
      let '(p, m1) := pm in
      let s := Mem.system m1 in
      let m2 := Mem.set_system m1
                  (if d then Mem.memcpy s r p (Z.min k nn)
                   else Mem.memcpy s p r (Z.min k nn)) in
      Mem.VirtualCopy_loop fuel m2 (va + Z.min k nn) (r + Z.min k nn)
        (nn - Z.min k nn) d 4096.
Proof. reflexivity. Qed.

Lemma machine_SetReadAddr a addr size :
  Mem.machine (Mem.SetReadAddr a addr size) = Mem.machine a.
Proof. unfold Mem.SetReadAddr. now destruct (negb (size =? 0)). Qed.

Lemma word_host_bytes src j :
  v <= src -> src + 8 <= v + n -> src mod 8 = 0 -> 0 <= j < 8 ->
  h src + j = h (src + j) /\ host_bytes h v n (h (src + j)).
Proof.
  intros Hlo Hhi Hal Hj.
  assert (Hoff : Z.land src 4095 <= 4088).
  { rewrite land_4095. Z.div_mod_to_equations. lia. }
  split.
  - symmetry. apply (st_page _ _ _ _ _ _ _ stable); unfold within; lia.
  - exists (src + j). split; [unfold within; lia | reflexivity].
Qed.

(** One aligned entry of the pointer array is copied to [b]. *)
Lemma copy_word m src :
  G m -> v <= src -> src + 8 <= v + n -> src mod 8 = 0 ->
  exists m',
    Mem.CopyFromUser m b src 8 = Ret (b, m') /\ G m' /\
    (forall x, host_bytes h v n x ->
       Mem.ram (Mem.system m') x = Mem.ram (Mem.system m) x) /\
    Mem.Load64 (Mem.system m') b = Read64 (Mem.ram (Mem.system m)) (h src).
Proof.
  intros HG Hlo Hhi Hal.
  assert (Hoff : 0 <= Z.land src 4095 <= 4088).
  { rewrite land_4095. Z.div_mod_to_equations. lia. }
  assert (Hin : within v n src) by (unfold within; lia).
  destruct (st_resolve _ _ _ _ _ _ _ stable m src HG Hin) as (m1 & Hres & HG1 & Hkeep).
  unfold Mem.CopyFromUser, Mem.VirtualCopy.
  change (Z.to_nat 8) with 8%nat.
  rewrite VirtualCopy_loop_step. change (8 =? 0) with false. cbv iota.
  rewrite Hres. cbn [bind].
  replace (Z.min (4096 - Z.land src 4095) 8) with 8 by lia.
  rewrite VirtualCopy_loop_step. change (8 - 8 =? 0) with true. cbv iota.
  cbn [bind].
  rewrite memcpy_poke by reflexivity.
  set (bs := load_bytes (Mem.ram (Mem.system m1)) (h src) (Z.to_nat 8)).
  assert (Hbs : Z.of_nat (length bs) = 8) by (subst bs; now rewrite load_bytes_length).
  eexists. split; [reflexivity|]. split; [|split].
  - apply (st_write _ _ _ _ _ _ _ stable); [exact HG1|].
    intros x Hx. right. unfold within in *. lia.
  - intros x Hx. rewrite poke_out.
    + apply Hkeep. now left.
    + intros Hw. apply (st_dst _ _ _ _ _ _ _ stable x); [|exact Hx].
      unfold within in *. lia.
  - unfold Mem.Load64. unfold Read64. f_equal.
    apply nth_ext with (d := Byte.x00) (d' := Byte.x00);
      [now rewrite !load_bytes_length|].
    intros j Hj. rewrite load_bytes_length in Hj.
    rewrite !load_bytes_nth by lia.
    rewrite poke_in by lia. subst bs. rewrite load_bytes_nth by lia.
    rewrite Nat2Z.id.
    destruct (word_host_bytes src (Z.of_nat j) Hlo Hhi Hal ltac:(lia)) as [E Hhost].
    rewrite E. apply Hkeep. now left.
Qed.

Lemma LoadStrList_entries (sf : nat) (addr : Z) :
  addr mod 8 = 0 -> v <= addr ->
  forall (todo : list Z) fuel a hp done i ans rest,
  G (Mem.machine a) ->
  (forall x, host_bytes h v n x ->
     Mem.ram (Mem.system (Mem.machine a)) x = Mem.ram (Mem.system m0) x) ->
  0 <= i -> addr + 8 * (i + Z.of_nat (length todo) + 1) <= v + n ->
  (forall k, (k < length todo)%nat ->
     Read64 (Mem.ram (Mem.system m0)) (h (addr + 8 * (i + Z.of_nat k))) = nth k todo 0) ->
  Read64 (Mem.ram (Mem.system m0)) (h (addr + 8 * (i + Z.of_nat (length todo)))) = 0 ->
  Forall (fun x => x <> 0 /\
            exists len, string_in_page (Mem.ram (Mem.system m0)) h v n x len) todo ->
  Mem.answers hp = ans ++ rest -> length ans = S (length todo) ->
  Forall (fun p => p <> 0) ans ->
  (length todo < fuel)%nat ->
  exists a',
    Mem.LoadStrList_loop fuel sf a hp addr b i done
    = Ret (done ++ map h todo ++ [0], a',
           {| Mem.freelist := Mem.freelist hp; Mem.answers := rest |}) /\
    Mem.readaddr a' = addr + 8 * (i + Z.of_nat (length todo)) /\
    Mem.readsize a' = 8 /\
    forall x, host_bytes h v n x ->
      Mem.ram (Mem.system (Mem.machine a')) x = Mem.ram (Mem.system m0) x.
Proof.
  intros Hal Hlo.
  induction todo as [|x todo IH];
    intros fuel a hp done i ans rest HG Hram Hi Hhi Harr Hend Hstr Hans Hlen Hnz Hfuel.
  all: destruct fuel as [|fuel]; [cbn [length] in Hfuel; lia|].
  all: destruct ans as [|lp ans]; [discriminate|].
  all: inversion Hnz as [|? ? Hlp Hnz']; subst.
  all: cbn [Mem.LoadStrList_loop]; unfold Mem.alloc at 1; rewrite Hans;
    cbn [app hd tl Mem.freelist Mem.answers].
  all: replace (addr + (i + 1) * 8 - 8) with (addr + 8 * i) by lia.
  all: cbn [length] in Hhi.
  all: assert (Hsrc : (addr + 8 * i) mod 8 = 0)
         by (rewrite Z.add_mod, Hal, Z.mul_comm, Z.mod_mul by lia; reflexivity).
  all: destruct (copy_word (Mem.machine a) (addr + 8 * i) HG ltac:(lia) ltac:(lia) Hsrc)
         as (m1 & Hcopy & HG1 & Hkeep1 & Hload).
  all: unfold Mem.CopyFromUserRead; rewrite Hcopy; cbn [bind snd].
  all: change (wrap32 8) with 8; unfold Mem.SetReadAddr;
    change (negb (8 =? 0)) with true; cbv iota;
    cbn [Mem.machine Mem.set_machine Mem.readaddr Mem.readsize Mem.writeaddr
         Mem.writesize Mem.stashaddr Mem.reserving Mem.stash Mem.stashsize Mem.writable].
  all: rewrite Hload.
  all: assert (Hword : Read64 (Mem.ram (Mem.system (Mem.machine a))) (h (addr + 8 * i))
                       = Read64 (Mem.ram (Mem.system m0)) (h (addr + 8 * i))).
  1,3: apply Read64_ext; intros y Hy;
    destruct (word_host_bytes (addr + 8 * i) (y - h (addr + 8 * i))
                ltac:(lia) ltac:(lia) Hsrc ltac:(lia)) as [E Hhost];
    replace y with (h (addr + 8 * i) + (y - h (addr + 8 * i))) by lia;
    rewrite E; now apply Hram.
  all: rewrite Hword.
  - (* the terminator of the array *)
    cbn [length] in Hend. rewrite Z.add_0_r in Hend. rewrite Hend.
    change (negb (0 =? 0)) with false. cbv iota.
    destruct (Z.eqb_spec lp 0); [contradiction|].
    destruct ans; [|discriminate]. cbn [app map].
    eexists. split; [reflexivity|].
    cbn [Mem.readaddr Mem.readsize Mem.machine length]. rewrite Z.add_0_r.
    split; [reflexivity|]. split; [reflexivity|].
    intros y Hy. rewrite Hkeep1 by exact Hy. now apply Hram.
  - (* one more string *)
    pose proof (Harr 0%nat ltac:(cbn [length]; lia)) as Hx.
    cbn [nth] in Hx. rewrite Z.add_0_r in Hx. rewrite Hx.
    pose proof (Forall_inv_tail Hstr) as Hstr'.
    destruct (Forall_inv Hstr) as [Hxnz (len & Hxlo & Hxhi & Hlenx & Hbody & Hnul)].
    destruct (Z.eqb_spec x 0); [contradiction|]. cbn [negb].
    assert (Hxin : within v n x) by (unfold within; lia).
    destruct (st_resolve _ _ _ _ _ _ _ stable m1 x HG1 Hxin) as (m3 & Hres3 & HG3 & Hkeep3).
    apply (resolve_lookup paged) in Hres3. destruct Hres3 as [Hlook3 Hp3].
    assert (Hlow : 0 <= Z.land x 4095 < 4096).
    { rewrite land_4095. apply Z.mod_pos_bound. lia. }
    assert (Hguest : forall j, 0 <= j <= len ->
              Mem.ram (Mem.system m3) (h x + j) = Mem.ram (Mem.system m0) (h (x + j))).
    { intros j Hj.
      rewrite <- (st_page _ _ _ _ _ _ _ stable x j) by (unfold within; lia).
      assert (Hhost : host_bytes h v n (h (x + j)))
        by (exists (x + j); split; [unfold within; lia | reflexivity]).
      rewrite Hkeep3 by (now left). rewrite Hkeep1 by exact Hhost. now apply Hram. }
    erewrite (LoadStr_fast sf _ _ x (h x) len m3); try assumption; try exact Hlook3.
    2:{ intros j Hj. rewrite Hguest by lia. now apply Hbody. }
    2:{ rewrite Hguest by lia. exact Hnul. }
    cbn [bind].
    destruct (Z.eqb_spec lp 0); [contradiction|].
    cbn [length] in Hlen.
    edestruct (IH fuel
                 (Mem.SetReadAddr
                    (Mem.set_machine
                       {| Mem.machine := m1; Mem.readaddr := addr + 8 * i;
                          Mem.readsize := 8; Mem.writeaddr := Mem.writeaddr a;
                          Mem.writesize := Mem.writesize a;
                          Mem.stashaddr := Mem.stashaddr a;
                          Mem.reserving := Mem.reserving a; Mem.stash := Mem.stash a;
                          Mem.stashsize := Mem.stashsize a;
                          Mem.writable := Mem.writable a |} m3) x (len + 1))
                 {| Mem.freelist := Mem.freelist hp; Mem.answers := ans ++ rest |}
                 (done ++ [h x]) (i + 1) ans rest)
      as (a' & Hrun & Hra & Hrs & Hfin).
    + rewrite machine_SetReadAddr. exact HG3.
    + intros y Hy. rewrite machine_SetReadAddr. cbn [Mem.machine Mem.set_machine].
      rewrite Hkeep3 by (now left). rewrite Hkeep1 by exact Hy. now apply Hram.
    + lia.
    + cbn [length] in Hhi. lia.
    + intros k Hk. specialize (Harr (S k) ltac:(cbn [length]; lia)).
      cbn [nth] in Harr. rewrite <- Harr. f_equal. f_equal. lia.
    + cbn [length] in Hend. rewrite <- Hend. f_equal. f_equal. lia.
    + exact Hstr'.
    + reflexivity.
    + lia.
    + exact Hnz'.
    + cbn [length] in Hfuel. lia.
    + exists a'. cbn [Mem.freelist] in Hrun. rewrite Hrun.
      split; [|split; [|split; [exact Hrs | exact Hfin]]].
      * cbn [map]. rewrite <- app_assoc. reflexivity.
      * rewrite Hra. cbn [length]. lia.
Qed.

(** X28.  On a machine without a linear mapping, let the translation of a
    guest range of at least 8 bytes be stable, with the array [b] as the
    buffer: every address of the range resolves to its host pointer,
    whatever has been written so far, resolving changes no host byte of the
    range and no byte of the buffer, pages map to consecutive and distinct
    host bytes, and the buffer lies apart from them. Let every [realloc] of
    the list succeed. Then an array of pointers in that range, aligned to 8
    bytes and closed by a null pointer, to strings in that range that each
    end on the page where they start, is loaded without a copy:
    [LoadStrList] answers the host pointers of the strings and a final null,
    takes one [realloc] answer for each entry of the array, adds no block to
    the free list and leaves the guest bytes as they were. *)
Theorem LoadStrList_in_page (fuel sf : nat) (a : Mem.Access) (hp : Mem.Heap)
    (addr : Z) (ptrs ans rest : list Z) :
  Mem.machine a = m0 ->
  addr mod 8 = 0 -> v <= addr -> addr + 8 * (Z.of_nat (length ptrs) + 1) <= v + n ->
  (forall k, (k < length ptrs)%nat ->
     Read64 (Mem.ram (Mem.system m0)) (h (addr + 8 * Z.of_nat k)) = nth k ptrs 0) ->
  Read64 (Mem.ram (Mem.system m0)) (h (addr + 8 * Z.of_nat (length ptrs))) = 0 ->
  Forall (fun x => x <> 0 /\
            exists len, string_in_page (Mem.ram (Mem.system m0)) h v n x len) ptrs ->
  Mem.answers hp = ans ++ rest -> length ans = S (length ptrs) ->
  Forall (fun p => p <> 0) ans ->
  (length ptrs < fuel)%nat ->
  exists a',
    Mem.LoadStrList fuel sf a hp addr b
    = Ret (map h ptrs ++ [0], a',
           {| Mem.freelist := Mem.freelist hp; Mem.answers := rest |}) /\
    Mem.readaddr a' = addr + 8 * Z.of_nat (length ptrs) /\
    Mem.readsize a' = 8 /\
    forall x, host_bytes h v n x ->
      Mem.ram (Mem.system (Mem.machine a')) x = Mem.ram (Mem.system m0) x.
Proof.
  intros Hm Hal Hlo Hhi Harr Hend Hstr Hans Hlen Hnz Hfuel.
  unfold Mem.LoadStrList.
  destruct (LoadStrList_entries sf addr Hal Hlo ptrs fuel a hp [] 0 ans rest)
    as (a' & Hrun & Hra & Hrs & Hfin); try assumption.
  - rewrite Hm. apply (st_init _ _ _ _ _ _ _ stable).
  - intros x _. now rewrite Hm.
  - lia.
  - exists a'. rewrite Hrun. cbn [app]. rewrite Hra. auto.
Qed.

End StringList.

(** The two strings of [strings_machine], in real mode. *)
Lemma LoadStrList_in_page_witness :
  exists a',
    @Mem.LoadStrList blink_config paged_collab 3 0
      (idle_access strings_machine)
      {| Mem.freelist := []; Mem.answers := [0x400000; 0x400100; 0x400200] |}
      0x10 0x300000
    = Ret (map (fun a => Mem.real (Mem.system strings_machine) + a) [0x40; 0x48] ++ [0], a',
           {| Mem.freelist :=
                Mem.freelist
                  {| Mem.freelist := [];
                     Mem.answers := [0x400000; 0x400100; 0x400200] |};
              Mem.answers := [] |}) /\
    Mem.readaddr a' = 0x10 + 8 * Z.of_nat (length [0x40; 0x48]) /\
    Mem.readsize a' = 8 /\
    forall x,
      host_bytes (fun a => Mem.real (Mem.system strings_machine) + a) 0x10 0x50 x ->
      Mem.ram (Mem.system (Mem.machine a')) x
      = Mem.ram (Mem.system strings_machine) x.
Proof.
  apply (@LoadStrList_in_page blink_config paged_collab (fun _ => eq_refl)
           strings_machine 0x10 0x50 0x300000
           (fun a => Mem.real (Mem.system strings_machine) + a) _
           (@real_stable blink_config paged_collab strings_machine
              0x10 0x50 0x300000 (fun _ => eq_refl) eq_refl
              ltac:(lia) ltac:(lia) ltac:(vm_compute; discriminate)
              ltac:(vm_compute; reflexivity) ltac:(right; vm_compute; discriminate))
           ltac:(lia) 3%nat 0%nat (idle_access strings_machine)
           {| Mem.freelist := []; Mem.answers := [0x400000; 0x400100; 0x400200] |}
           0x10 [0x40; 0x48] [0x400000; 0x400100; 0x400200] []).
  - reflexivity.
  - reflexivity.
  - lia.
  - vm_compute. discriminate.
  - intros k Hk. destruct k as [|[|k]]; [vm_compute; reflexivity ..|].
    cbn [length] in Hk. lia.
  - vm_compute. reflexivity.
  - constructor; [|constructor; [|constructor]].
    + split; [lia|]. exists 2. unfold string_in_page.
      split; [lia|]. split; [lia|].
      split; [vm_compute; split; [discriminate | reflexivity]|].
      split; [|vm_compute; reflexivity].
      intros j Hj. assert (j = 0 \/ j = 1) as [-> | ->] by lia; vm_compute; discriminate.
    + split; [lia|]. exists 1. unfold string_in_page.
      split; [lia|]. split; [lia|].
      split; [vm_compute; split; [discriminate | reflexivity]|].
      split; [|vm_compute; reflexivity].
      intros j Hj. assert (j = 0) as -> by lia. vm_compute. discriminate.
  - reflexivity.
  - reflexivity.
  - constructor; [lia|]. constructor; [lia|]. constructor; [lia|]. constructor.
  - cbn [length]. lia.
Defined.
(* ------------------------------------------------------------------ *)
(** ** The store protocol: [BeginStore], [EndStore], [BeginLoadStore] *)
(* ------------------------------------------------------------------ *)

Section StoreInPlace.
Context {cfg : Config} {col : Mem.Collab}.
Variables (m0 : Mem.Machine) (v n src dst : Z) (h : Z -> Z)
          (G : Mem.Machine -> Prop) (T : Mem.Machine -> Z -> Prop).
Hypothesis paged : PagedTranslation m0 v n src dst h G T.

(** X29.  Let the guest range [v, v + n) lie inside one page and resolve
    under demand paging: every address resolves to its host pointer,
    whatever was written so far; resolving may fill a page that is
    resolved for the first time but changes no byte of the buffer and no
    byte of a page resolved before; the page maps to consecutive host
    bytes, apart from the buffer.  Then the store is written in place:
    [BeginStore] answers the host pointer of [v] and records the write,
    [EndStore] after the caller has written there changes nothing, and a
    [Load] of the range then answers the bytes that were written. *)
Theorem BeginStore_EndStore_in_page (a : Mem.Access) (p : Z * Z) (bs : list byte) :
  Mem.machine a = m0 -> 0 < n -> Z.land v 4095 + n <= 4096 ->
  Z.of_nat (length bs) = n ->
  exists a1,
    Mem.BeginStore a v n p dst = Ret (h v, p, a1) /\
    Mem.writeaddr a1 = v /\ Mem.writesize a1 = n /\
    Mem.EndStore (Mem.poke (Mem.machine a1) (h v) bs) v n (fst p) (snd p) dst
    = Ret (Mem.poke (Mem.machine a1) (h v) bs) /\
    exists a2,
      Mem.Load (Mem.set_machine a1 (Mem.poke (Mem.machine a1) (h v) bs)) v n dst
      = Ret (h v, a2) /\
      forall j, 0 <= j < n ->
        Mem.ram (Mem.system (Mem.machine a2)) (h v + j) = nth (Z.to_nat j) bs Byte.x00.
Proof.
  intros Hm Hpos Hpage Hlen.
  assert (Hlow : 0 <= Z.land v 4095 < 4096).
  { rewrite land_4095. apply Z.mod_pos_bound. lia. }
  assert (Hn : 0 < n <= 4096) by lia.
  pose proof (pt_init _ _ _ _ _ _ _ _ paged) as HG0.
  assert (Hv : within v n v) by (unfold within; lia).
  destruct (pt_resolve _ _ _ _ _ _ _ _ paged m0 v HG0 Hv)
    as (m1 & Hres & HG1 & Hbuf & Hold & Hnew).
  assert (Hnz : (n =? 0) = false) by (apply Z.eqb_neq; lia).
  assert (Hle : (n <=? 4096) = true) by (apply Z.leb_le; lia).
  assert (Hin : (Z.land v 4095 + n <=? 4096) = true) by (apply Z.leb_le; lia).
  unfold Mem.BeginStore. rewrite (wrap32_small n) by lia.
  unfold Mem.SetWriteAddr. rewrite Hnz. cbn [negb Mem.machine].
  unfold Mem.AccessRam. rewrite Hle. cbn [assert bind].
  rewrite (wrap64_small (Z.land v 4095 + n)) by lia. rewrite Hin, Hm, Hres.
  cbn [bind fst snd].
  eexists. split; [reflexivity|].
  cbn [Mem.writeaddr Mem.writesize Mem.machine Mem.set_machine].
  split; [reflexivity|]. split; [reflexivity|]. split.
  { unfold Mem.EndStore. rewrite Hle. cbn [assert bind].
    rewrite (wrap64_small (Z.land v 4095 + n)) by lia. now rewrite Hin. }
  assert (Hhost : forall j, 0 <= j < n -> h v + j = h (v + j)).
  { intros j Hj. symmetry. apply (pt_page _ _ _ _ _ _ _ _ paged); unfold within; lia. }
  destruct (pt_write _ _ _ _ _ _ _ _ paged m1 (h v) bs HG1) as [HG2 HT2].
  { intros x Hx. left. exists (v + (x - h v)). unfold within in *.
    split; [lia|]. rewrite <- Hhost by lia. lia. }
  destruct (AccessRam_paged m0 v n src dst h G T paged
              (fun a => nth (Z.to_nat (a - v)) bs Byte.x00)
              (Mem.poke m1 (h v) bs) (0, 0) HG2)
    as (q & p' & m3 & Hrun & Hbytes & Hone & _); [|exact Hn|].
  { intros b Hb. unfold within in Hb. split.
    - apply HT2, Hnew; [exact Hb|].
      replace b with (v + (b - v)) by lia. apply same_page; lia.
    - replace b with (v + (b - v)) at 1 by lia. rewrite <- Hhost by lia.
      apply poke_in. lia. }
  destruct (Hone Hpage) as [-> _].
  unfold Mem.Load. rewrite (wrap32_small n) by lia.
  unfold Mem.SetReadAddr. rewrite Hnz. cbn [negb Mem.machine Mem.set_machine].
  rewrite Hrun. cbn [bind].
  eexists. split; [reflexivity|]. cbn [Mem.machine Mem.set_machine].
  intros j Hj. rewrite Hbytes by lia. f_equal. f_equal. lia.
Qed.

End StoreInPlace.

Section LoadStore.
Context {cfg : Config} {col : Mem.Collab}.
Variables (m0 : Mem.Machine) (v n src dst : Z) (h : Z -> Z) (G : Mem.Machine -> Prop).
Hypothesis stable : StableTranslation m0 v n src dst h G.

(** X30.  Let the translation of the guest range [v, v + n) of at most a
    page be stable: every address of the range resolves to its host pointer,
    whatever has been written so far, resolving changes no host byte of the
    range and no byte of the buffer, pages map to consecutive and distinct
    host bytes, and the buffer lies apart from them. Then [BeginLoadStore]
    answers a pointer to the bytes that the guest range held before the
    call, as [Load] does, but records a write and leaves the read window
    alone; for a range that crosses a page boundary it also hands back the
    host pointers of the two parts, which a caller passes on to [EndStore].
    *)
Theorem BeginLoadStore_guest_bytes (a : Mem.Access) (p : Z * Z) :
  Mem.machine a = m0 -> 0 < n <= 4096 ->
  exists q p' a',
    Mem.BeginLoadStore a v n p dst = Ret (q, p', a') /\
    Mem.writeaddr a' = v /\ Mem.writesize a' = n /\
    Mem.readaddr a' = Mem.readaddr a /\ Mem.readsize a' = Mem.readsize a /\
    (forall j, 0 <= j < n ->
       Mem.ram (Mem.system (Mem.machine a')) (q + j) = Mem.ram (Mem.system m0) (h (v + j))) /\
    (Z.land v 4095 + n <= 4096 -> q = h v /\ p' = p) /\
    (4096 < Z.land v 4095 + n ->
     q = dst /\ p' = (h v, h (v + (4096 - Z.land v 4095)))).
Proof.
  intros Hm Hn. unfold Mem.BeginLoadStore.
  rewrite (wrap32_small n) by lia. unfold Mem.SetWriteAddr.
  replace (n =? 0) with false by (symmetry; apply Z.eqb_neq; lia). cbn [negb Mem.machine].
  rewrite Hm.
  destruct (AccessRam_copy m0 v n src dst h G stable p Hn)
    as (q & p' & m' & Hrun & Hbytes & Hone & Hcross).
  rewrite Hrun. cbn [bind]. exists q, p'. eexists. split; [reflexivity|].
  cbn [Mem.readaddr Mem.readsize Mem.writeaddr Mem.writesize Mem.machine Mem.set_machine].
  split; [reflexivity|]. split; [reflexivity|]. split; [reflexivity|].
  split; [reflexivity|]. split; [exact Hbytes|]. split; assumption.
Qed.

End LoadStore.

(** A store to the first two bytes of guest page 0x3000 of
    [dirty_machine]: the first touch of the page, which the pager backs
    with a zero-filled arena page. *)
Lemma BeginStore_EndStore_in_page_witness :
  exists a1,
    @Mem.BeginStore blink_config zerofill_collab (idle_access dirty_machine) 0x3000 2
      (0, 0) 0x300000
    = Ret ((fun a => 0x103000 + a) 0x3000, (0, 0), a1) /\
    Mem.writeaddr a1 = 0x3000 /\ Mem.writesize a1 = 2 /\
    Mem.EndStore
      (Mem.poke (Mem.machine a1) ((fun a => 0x103000 + a) 0x3000) [Byte.x01; Byte.x02])
      0x3000 2 (fst (0, 0)) (snd (0, 0)) 0x300000
    = Ret (Mem.poke (Mem.machine a1) ((fun a => 0x103000 + a) 0x3000)
             [Byte.x01; Byte.x02]) /\
    exists a2,
      @Mem.Load blink_config zerofill_collab
        (Mem.set_machine a1
           (Mem.poke (Mem.machine a1) ((fun a => 0x103000 + a) 0x3000)
              [Byte.x01; Byte.x02]))
        0x3000 2 0x300000
      = Ret ((fun a => 0x103000 + a) 0x3000, a2) /\
      forall j, 0 <= j < 2 ->
        Mem.ram (Mem.system (Mem.machine a2)) ((fun a => 0x103000 + a) 0x3000 + j)
        = nth (Z.to_nat j) [Byte.x01; Byte.x02] Byte.x00.
Proof.
  apply (@BeginStore_EndStore_in_page blink_config zerofill_collab dirty_machine
           0x3000 2 0x200000 0x300000 (fun a => 0x103000 + a) copy_invariant
           (fun m a => a < 0x3000 \/ Read64 (Mem.ram (Mem.system m)) 0x104018 = 0x6001)
           (paged_sub _ _ _ _ _ _ _ _ 0x3000 2
              (@example_paged zerofill_collab (within 0x106000 4096) (fun _ => eq_refl)
                 (fun _ H => H) zerofill_alloc_page dirty_machine dirty_init)
              ltac:(lia) ltac:(lia) ltac:(lia))
           (idle_access dirty_machine) (0, 0) [Byte.x01; Byte.x02]).
  - reflexivity.
  - lia.
  - vm_compute. discriminate.
  - reflexivity.
Defined.

Lemma BeginLoadStore_guest_bytes_witness :
  exists q p' a',
    @Mem.BeginLoadStore blink_config paged_collab (idle_access copy_machine)
      0x2ffe 4 (0, 0) 0x300000 = Ret (q, p', a') /\
    Mem.writeaddr a' = 0x2ffe /\ Mem.writesize a' = 4 /\
    Mem.readaddr a' = Mem.readaddr (idle_access copy_machine) /\
    Mem.readsize a' = Mem.readsize (idle_access copy_machine) /\
    (forall j, 0 <= j < 4 ->
       Mem.ram (Mem.system (Mem.machine a')) (q + j)
       = Mem.ram (Mem.system copy_machine) ((fun a => 0x103000 + a) (0x2ffe + j))) /\
    (Z.land 0x2ffe 4095 + 4 <= 4096 ->
     q = (fun a => 0x103000 + a) 0x2ffe /\ p' = (0, 0)) /\
    (4096 < Z.land 0x2ffe 4095 + 4 ->
     q = 0x300000 /\
     p' = ((fun a => 0x103000 + a) 0x2ffe,
           (fun a => 0x103000 + a) (0x2ffe + (4096 - Z.land 0x2ffe 4095)))).
Proof.
  apply (@BeginLoadStore_guest_bytes blink_config paged_collab copy_machine
           0x2ffe 4 0x200000 0x300000 (fun a => 0x103000 + a) copy_invariant
           paged_stable (idle_access copy_machine) (0, 0)).
  - reflexivity.
  - lia.
Defined.
